(* ===== verification/_CoqProject ===== *)
-Q . S2P
Prelude.v
Unicode.v
GoStrings.v
Sha256.v
GoTime.v
Json.v
World.v
State.v
StateSpec.v
StateFacts.v
StateLive.v
JsonParse.v
Model.v
Credential.v
CredentialFacts.v
Webhook.v
WebhookFacts.v
Config.v
Paths.v
PathsFacts.v
ConfigFacts.v
Events.v
RoutesFacts.v
QueueFacts.v
Trigger.v
GitLab.v
GitLabSpec.v
GitLabSync.v
GitLabRemove.v
GitLabRun.v
GitLabFacts.v
History.v
GitLabServer.v
GitLabLive.v
GitLabTown.v
Keycloak.v
KeycloakFacts.v
Vault.v
VaultFacts.v
Provider.v
Reconcile.v
ReconcileFacts.v
PlanFacts.v
EventFacts.v
Traffic.v
ClientTraffic.v
App.v
Lifecycle.v
WiredFacts.v
QueueLife.v
PassLive.v
PassAgain.v
PassTown.v
Process.v
