(* ===== verification/Prelude.v ===== *)
(** * GroupBridge: a verification library

    GroupBridge reads the groups of a Keycloak realm and makes GitLab groups
    and Vault access follow them.  This library models the Go controller (the
    code under [src/cmd/groupbridge] and [src/internal]) and proves what it may
    and must do.  Names follow the source wherever Rocq allows it.

    ** The program and how its parts interact

    [run] (main.go) loads a configuration, opens the ledger under an exclusive
    lock, builds one Keycloak source and one provider per target, and starts
    the reconciler's loop and the HTTP server.  The loop ([reconciler.Run])
    makes a complete pass at the start and on every tick: it reads the whole
    realm, plans jobs from the rules and the ledger, checks the health of the
    providers and runs the jobs.  The webhook authenticates events of Keycloak
    and passes hints to the event queue; after a burst has settled the loop
    drains the queue, resolves private routing keys in the route index and
    makes targeted passes over single groups, or a complete one.  The GitLab
    provider adds, changes and removes members and records in the ledger what
    it manages; the Vault provider only verifies what GitOps owns.

    ** Files

    Foundations.  [Prelude]: results, the monad [M] of state and errors, the
    lenses between worlds, the triples that the proofs are written in, 64-bit
    integers, list and map lemmas, tactics and the hint base [gb].
    [Unicode], [GoStrings], [Sha256], [GoTime], [Json], [JsonParse]: the parts
    of Go's standard library that the sources call.  [World]: the outside.

    Models, one file per component, with the Go file it translates:
    - [State]: internal/state/store.go, the ownership ledger and its file;
    - [Model]: internal/model/model.go and internal/metrics/metrics.go;
    - [Credential]: internal/credential/credential.go;
    - [Webhook]: internal/webhook/keycloak.go;
    - [Config]: internal/config/config.go;
    - [Paths]: the path functions of internal/reconcile/reconciler.go;
    - [Events]: internal/reconcile/events.go, Modules [RouteIndex] and [Queue];
    - [Trigger]: internal/reconcile/trigger.go;
    - [GitLab]: internal/provider/gitlab/client.go;
    - [Keycloak]: internal/source/keycloak/client.go;
    - [Vault]: internal/provider/vault/client.go;
    - [Provider]: internal/provider/provider.go and internal/source/source.go;
    - [Reconcile]: the rest of internal/reconcile/reconciler.go;
    - [App]: internal/app/server.go, the certificate reloader of
      cmd/groupbridge/server.go and the wiring in cmd/groupbridge/main.go,
      Modules [Surface], [Certificates] and [Wiring];
    - [Lifecycle]: the goroutines of [run] in cmd/groupbridge/main.go;
    - [Process]: the command line and the start of [run] in
      cmd/groupbridge/main.go and [listenAndServe] of cmd/groupbridge/server.go,
      Modules [CommandLine], [Launch] and [Serving].

    A Go method becomes a definition of the same name over the component's
    world: its receiver's fields, then the parts it calls, then the outside.
    [zoom] runs a component inside a larger world along a [Lens]; [Wiring]
    places every client inside the reconciler's [World].

    The loop of [Run] shares its queue with the handlers of the webhook and
    with the timers of the runtime.  [w_others] in [Reconcile.World] lists what
    they do ([queueAction]) before each of the loop's uses of the queue:
    [EnqueueEvent] adds a hint, an armed timer fires, a pending [releaseDue]
    runs.  The loop wakes only when a token is in the wake channel ([receive]).
    Theorems about [Run] hold for every such list.

    ** What the theorems show

    - Ledger ([StateSpec], [StateFacts]).  Every call refines one step of an
      abstract ledger of triples; success leaves a file that decodes to the
      ledger; a failure rolls back; whatever file-system call fails, the file is
      the old or the new document, never a torn one, and at most one temporary
      file is left behind; an absence counts only when it was observed twice in
      a row; the lock is exclusive.  On a disk whose calls succeed every
      permitted call succeeds ([StateLive]).
    - GitLab ([GitLabSpec] for the calls, [GitLabSync], [GitLabRemove] and
      [GitLabRun] for the phases, [GitLabFacts] for the properties).  Whatever
      GitLab answers: who may be removed, who may be given which level, that
      everyone is added before anyone is removed, that the target is never
      exchanged, and what convergence means.
    - GitLab, honest ([History], [GitLabServer], [GitLabLive], [GitLabTown]).
      [History] relates the recorded exchanges to the states the outside went
      through.  Against a server that keeps the promises of the members API
      ([honest]) and whose memberships nobody else changes meanwhile, a run that
      reports convergence has turned the members of the group that it bound into
      what the rule specifies ([settled]), for every user whom the documentation
      does not forbid to lower ([spared]: the code lowers a protected user, or
      the user of the token, to a level that the rule enforces).  If the server
      also answers and the disk works, a request that fits is carried out: one
      run has a stated effect on every member ([sync_delivers]) and two runs
      converge, whatever was observed before ([two_runs_converge]).
      [GitLabTown] is a concrete such server, on which the witnesses of these
      theorems run.
    - Keycloak ([KeycloakFacts]).  A snapshot is made of complete listings only;
      against a finite tree of groups the descent ends and is exact, wherever
      the client secret comes from ([steadyToken]).
    - Vault ([VaultFacts]).  Only reads, lookups and logins are sent; access is
      reported only when it is in Vault word for word as compiled; a policy
      grants what its profile says at and below its own path, and outside of it
      at most the right to list the metadata of the path's ancestors.
    - Webhook ([WebhookFacts]) and credentials ([CredentialFacts]).  A hint
      needs a fresh, signed, classified event of this realm, and such an event
      is taken when it is new; how long a delivery is remembered; a secret that
      was once loaded is never lost.
    - Configuration and paths ([ConfigFacts], [PathsFacts]).  What validation
      guarantees, and that it computes the target paths reconciliation uses,
      unless that rejects them for the length of a Vault path.
    - Events ([RoutesFacts], [QueueFacts], [Trigger], [EventFacts]).  The route
      index is what the recorded members determine; no hint is lost between the
      webhook and a batch under any interleaving, and none between a batch and
      the groups it stands for; bursts are bounded; delayed work is released
      when it is due; complete repairs asked for by events are five seconds
      apart.
    - The queue in the process ([QueueLife]).  Everything that the loop of [Run]
      computes, and what the others do meanwhile, is a sequence of steps of the
      queue's transition system ([moves]); so a hint that is in the queue, or
      comes while the loop waits, wakes it and is covered by the batch that it
      then processes ([hint_reaches_batch]).
    - Reconciler ([ReconcileFacts]).  Jobs are those of the rules; access is
      retired only for a source that is gone; nothing is changed unless every
      rule resolved and every needed provider is healthy; readiness means a
      complete successful pass.
    - The whole process ([Traffic], [ClientTraffic], [WiredFacts]).  [Traffic]
      is a small logic of what a computation may send ([emits]), with classes
      for worlds that record exchanges; [ClientTraffic] gives the clients'
      lemmas in it; [WiredFacts] composes them along the wiring: for the process
      that [startup] leaves behind, over any sequence of ticks and wake-ups,
      whatever hints and timers come in between ([lifetime]), and against any
      outside, every exchange is accounted for, and every removal goes back to
      groups that Keycloak returned earlier in the same pass.  In the witness
      the hint of a webhook causes a targeted pass, which removes.
      [world_outcome] runs the composed model from the configuration to the end
      on concrete servers.
    - A pass that works ([PassLive], [PassTown]).  The honest Keycloak and the
      honest GitLab put together along the wiring: [RunOnce] of a process with
      one GitLab target ends with success, makes the server ready and takes
      every planned target to what its rule asks for ([pass_delivers]).  An
      [errand] is a job that can be carried out, [meant] says that its target
      and wanted users are those that GitLab answers for it, [progress] is the
      invariant of the loop over the jobs.  The same from a hint in the queue,
      through the loop of [Run] and a targeted pass, to the members
      ([event_delivers]).  [PassTown] runs these on concrete servers.
    - The pass after a pass ([PlanFacts], [PassAgain]).  What a pass records in
      the ledger leads to the same plan again ([plan_again]), so that two passes
      converge when nothing is to retire ([two_passes_converge]).
    - Lifecycle ([Lifecycle]).  The process ends, although a run of the
      reconciler is bound to end only when its context is cancelled ([obliged]);
      the store is closed last on the exits that wait for the worker;
      [shutdown_gaps] shows the two exits that do not.
    - Start and listener ([Process]).  A configured process reaches its workers
      with the ledger from disk ([configured_process_starts]), and only from a
      configuration that validation accepts; with a certificate configured the
      listener never serves in plain text, nor with a pair that never loaded
      ([tls_fails_closed]).

    ** Modelling decisions

    - The outside is an arbitrary machine ([Env]) that answers HTTP requests,
      environment and file reads, clock readings and the calls of the file
      system, and chooses the order in which Go ranges over a map.  Nothing is
      assumed of it but that a range is a permutation.  Theorems that need more
      (an honest server, a clock that does not go back) say so as hypotheses.
    - An HTTP exchange is a request and either an error or a status, headers
      and a parsed JSON body; every exchange is recorded in order.
    - Errors are a value with its constant text; formatted arguments are left
      out.  Log output is not modelled.
    - An [int64], an [int] or a [time.Duration] is a [Z] with the wrap-around
      written out where it can happen; a [uint64] counter wraps.
    - A method that holds a mutex throughout is one atomic step; [Run],
      [QueueFacts], [Trigger] and [Lifecycle] interleave such steps.
    - Loops over pages and the descent into child groups take fuel ([EFuel] is
      the error of running out): [snapshot_exact] and [list_members_complete]
      show that fuel above the number of pages, and depth above the number of
      groups, is enough.  Safety theorems hold for any fuel.  The JSON parser's
      fuel is the length of its input, which every call consumes.
    - Lower-casing and case folding are those of Unicode 15, which Go's tables
      hold, on the runes of the string ([Unicode], [GoStrings]).
    - The webhook's handler and the route index share one loader of the secret;
      the handler's loads, which may replace the secret that the loader holds
      by a newer one, are not interleaved with the loop of [Run].
    - [http.NewRequest] may refuse to build a request ([EBuild]); such an
      attempt is recorded like an exchange that failed, though nothing is sent.
    - The YAML decoder, [url.Parse], [tls.LoadX509KeyPair], the listener and
      the accept loops of [net/http], and the table of printable runes are
      parameters.

    ** Not modelled

    The Keycloak event listener (a Java program), the Helm chart, manifests,
    scripts and documents.  Of the controller: log output, the settings of the
    HTTP clients (timeouts, redirects, limits on the size of responses), the
    redirects of [net/http]'s mux for unclean paths, and the constructors for
    static tokens that only tests use.

    ** What could follow

    Two passes with retirements, whose plan shrinks from the first to the
    second; passes over several targets at once; the counters as a conserved
    quantity over a run; the delays that a targeted pass schedules; the limits
    on the size of responses. *)

From Stdlib Require Export ZArith Ascii Lia.
From stdpp Require Export base tactics option list gmap strings fin_maps sets sorting pretty.

Declare Scope gb_scope.
Delimit Scope gb_scope with gb.
#[global] Open Scope gb_scope.
#[global] Open Scope Z_scope.

(** ** Results: a Go [(value, error)] pair whose error is nil or not. *)
Inductive outcome (E A : Type) : Type :=
| Ok (a : A)
| Err (e : E).
Arguments Ok {E A} a.
Arguments Err {E A} e.

Definition is_ok {E A} (r : outcome E A) : bool :=
  match r with Ok _ => true | Err _ => false end.

Definition map_err {E E' A} (f : E → E') (r : outcome E A) : outcome E' A :=
  match r with Ok a => Ok a | Err e => Err (f e) end.

#[export] Instance outcome_ret E : MRet (outcome E) := λ A a, Ok a.
#[export] Instance outcome_bind E : MBind (outcome E) := λ A B f m,
  match m with Ok a => f a | Err e => Err e end.
#[export] Instance outcome_throw E : MThrow E (outcome E) := λ A e, Err e.

#[export] Instance outcome_eq_dec E A `{EqDecision E, EqDecision A} : EqDecision (outcome E A).
Proof. solve_decision. Defined.

(** Go error values.  The texts are kept to their constant part; [errors.Is]
    looks through [fmt.Errorf("...: %w", err)] and [errors.Join]. *)
Inductive err : Type :=
| EMsg (msg : string)
| EWrap (ctx : string) (e : err)
| EJoin (es : list err)
| ECanceled
| ENotFound
| EBuild (e : err)      (* [http.NewRequest] refused to build the request *)
| EFuel.

Fixpoint err_is (target : err → bool) (e : err) : bool :=
  target e ||
  match e with
  | EWrap _ e' => err_is target e'
  | EJoin es => existsb (err_is target) es
  | _ => false
  end.

Definition is_canceled : err → bool :=
  err_is (λ e, match e with ECanceled => true | _ => false end).

Definition is_not_found : err → bool :=
  err_is (λ e, match e with ENotFound => true | _ => false end).

(** ** The state and error monad

    [M W E A]: a computation over a world [W] that ends with a value or an
    error.  An error does not undo what was done to the world. *)
Definition M (W E A : Type) : Type := W → outcome E A * W.

#[export] Instance M_ret W E : MRet (M W E) := λ A a w, (Ok a, w).
#[export] Instance M_bind W E : MBind (M W E) := λ A B f m w,
  match m w with
  | (Ok a, w') => f a w'
  | (Err e, w') => (Err e, w')
  end.
#[export] Instance M_throw W E : MThrow E (M W E) := λ A e w, (Err e, w).

Definition gets {W E A} (f : W → A) : M W E A := λ w, (Ok (f w), w).
Definition modify {W E} (f : W → W) : M W E unit := λ w, (Ok tt, f w).

(** [attempt m]: run [m] and hand its outcome to the caller, who decides. *)
Definition attempt {W E E' A} (m : M W E A) : M W E' (outcome E A) :=
  λ w, let '(r, w') := m w in (Ok r, w').

Definition wrap_err {W E E' A} (f : E → E') (m : M W E A) : M W E' A :=
  λ w, let '(r, w') := m w in (map_err f r, w').

Definition of_outcome {W E A} (r : outcome E A) : M W E A := λ w, (r, w).

Definition when {W E} (b : bool) (m : M W E unit) : M W E unit :=
  if b then m else mret tt.

(** A [for _, x := range l] loop that threads a local state. *)
Fixpoint mfold {W E A B} (f : B → A → M W E B) (b : B) (l : list A) : M W E B :=
  match l with
  | [] => mret b
  | x :: l => b' ← f b x; mfold f b' l
  end.

Definition mfor {W E A} (f : A → M W E unit) (l : list A) : M W E unit :=
  mfold (λ _ x, f x) tt l.

(** ** Lenses: how a component's world sits inside a larger one. *)
Class Lens (W V : Type) : Type := {
  view : W → V;
  update : V → W → W;
  view_update : ∀ v w, view (update v w) = v;
  update_view : ∀ w, update (view w) w = w;
  update_update : ∀ v v' w, update v (update v' w) = update v w
}.

#[export] Program Instance lens_snd A B : Lens (A * B) B :=
  {| view := snd; update b w := (fst w, b) |}.
Next Obligation. done. Qed.
Next Obligation. by intros A B []. Qed.
Next Obligation. done. Qed.

Definition zoom {W V} `{Lens W V} {E A} (m : M V E A) : M W E A :=
  λ w, let '(r, v) := m (view w) in (r, update v w).

(** ** Pre- and postconditions

    [triple P m Q X]: started in a world satisfying [P], [m] either returns a
    value with [Q] or fails with [X]. *)
Definition triple {W E A} (P : W → Prop) (m : M W E A)
    (Q : A → W → Prop) (X : E → W → Prop) : Prop :=
  ∀ w, P w →
    match m w with
    | (Ok a, w') => Q a w'
    | (Err e, w') => X e w'
    end.

(** [keeps I m]: [m] preserves [I], however it ends. *)
Definition keeps {W E A} (I : W → Prop) (m : M W E A) : Prop :=
  triple I m (λ _, I) (λ _, I).

Section triples.
Context {W E : Type}.
Implicit Types (P : W → Prop).

Lemma triple_ret {A} (a : A) P (Q : A → W → Prop) (X : E → W → Prop) :
  (∀ w, P w → Q a w) → triple P (mret a) Q X.
Proof. intros H w Hw. exact (H w Hw). Qed.

Lemma triple_throw {A} (e : E) P (Q : A → W → Prop) (X : E → W → Prop) :
  (∀ w, P w → X e w) → triple P (mthrow e) Q X.
Proof. intros H w Hw. exact (H w Hw). Qed.

Lemma triple_bind {A B} (m : M W E A) (f : A → M W E B) P R (Q : B → W → Prop) X :
  triple P m R X → (∀ a, triple (R a) (f a) Q X) → triple P (m ≫= f) Q X.
Proof.
  intros Hm Hf w Hw. specialize (Hm w Hw). unfold mbind, M_bind.
  destruct (m w) as [[a|e] w']; [|done]. exact (Hf a w' Hm).
Qed.

Lemma triple_conseq {A} (m : M W E A) P P' (Q Q' : A → W → Prop) (X X' : E → W → Prop) :
  triple P m Q X → (∀ w, P' w → P w) → (∀ a w, Q a w → Q' a w) →
  (∀ e w, X e w → X' e w) → triple P' m Q' X'.
Proof.
  intros Hm HP HQ HX w Hw. specialize (Hm w (HP w Hw)).
  destruct (m w) as [[a|e] w']; eauto.
Qed.

Lemma triple_gets {A} (f : W → A) P (Q : A → W → Prop) (X : E → W → Prop) :
  (∀ w, P w → Q (f w) w) → triple P (gets f) Q X.
Proof. intros H w Hw. exact (H w Hw). Qed.

Lemma triple_modify (f : W → W) P (Q : unit → W → Prop) (X : E → W → Prop) :
  (∀ w, P w → Q tt (f w)) → triple P (modify f) Q X.
Proof. intros H w Hw. exact (H w Hw). Qed.

Lemma triple_attempt {E' A} (m : M W E A) P (Q : outcome E A → W → Prop) (X : E' → W → Prop) :
  triple P m (λ a, Q (Ok a)) (λ e, Q (Err e)) → triple P (attempt m) Q X.
Proof.
  intros Hm w Hw. specialize (Hm w Hw). unfold attempt.
  destruct (m w) as [[a|e] w']; done.
Qed.

(** The postcondition of an attempt, as one predicate on its outcome. *)
Definition on_outcome {A} (Q : A → W → Prop) (X : E → W → Prop) (r : outcome E A) : W → Prop :=
  match r with Ok a => Q a | Err e => X e end.

Lemma triple_attempt_split {E' A} (m : M W E A) P Q X (X' : E' → W → Prop) :
  triple P m Q X → triple P (attempt m) (on_outcome Q X) X'.
Proof. intros Hm. by apply triple_attempt. Qed.

Lemma triple_wrap_err {E' A} (g : E → E') (m : M W E A) P Q (X : E' → W → Prop) :
  triple P m Q (λ e, X (g e)) → triple P (wrap_err g m) Q X.
Proof.
  intros Hm w Hw. specialize (Hm w Hw). unfold wrap_err.
  destruct (m w) as [[a|e] w']; done.
Qed.

Lemma triple_of_outcome {A} (r : outcome E A) P (Q : A → W → Prop) (X : E → W → Prop) :
  (∀ w, P w → match r with Ok a => Q a w | Err e => X e w end) →
  triple P (of_outcome r) Q X.
Proof. intros H w Hw. specialize (H w Hw). unfold of_outcome. by destruct r. Qed.

Lemma triple_and {A} (m : M W E A) P (Q Q' : A → W → Prop) (X X' : E → W → Prop) :
  triple P m Q X → triple P m Q' X' → triple P m (λ a w, Q a w ∧ Q' a w) (λ e w, X e w ∧ X' e w).
Proof.
  intros H1 H2 w Hw. specialize (H1 w Hw). specialize (H2 w Hw).
  destruct (m w) as [[a|e] w']; by split.
Qed.

(** A fact that does not speak of the world moves into the context. *)
Lemma triple_pure {A} (m : M W E A) (φ : Prop) P Q X :
  (φ → triple P m Q X) → triple (λ w, φ ∧ P w) m Q X.
Proof. intros Hm w [Hφ Hw]. exact (Hm Hφ w Hw). Qed.

(** To prove a triple it is enough to prove it from each single world. *)
Lemma triple_at {A} (m : M W E A) P Q X :
  (∀ w0, P w0 → triple (λ w, w = w0) m Q X) → triple P m Q X.
Proof. intros Hm w Hw. exact (Hm w Hw w eq_refl). Qed.

Lemma triple_exists {A B} (m : M W E A) (P : B → W → Prop) Q X :
  (∀ x, triple (P x) m Q X) → triple (λ w, ∃ x, P x w) m Q X.
Proof. intros Hm w [x Hw]. exact (Hm x w Hw). Qed.

(** The loop rule: an invariant on the elements done so far. *)
Lemma triple_mfold {A B} (f : B → A → M W E B) (Inv : list A → B → W → Prop)
    (X : E → W → Prop) (l : list A) (b : B) :
  (∀ done x rest b', l = done ++ x :: rest →
     triple (Inv done b') (f b' x) (Inv (done ++ [x])) X) →
  triple (Inv [] b) (mfold f b l) (Inv l) X.
Proof.
  intros Hstep.
  cut (∀ rest done b', l = done ++ rest →
         triple (Inv done b') (mfold f b' rest) (Inv l) X).
  { intros H. by apply (H l []). }
  induction rest as [|x rest IH]; intros done b' Hl; simpl.
  - apply triple_ret. intros w. by rewrite Hl, app_nil_r.
  - eapply triple_bind; [by apply (Hstep done x rest)|].
    intros b''. apply IH. by rewrite Hl, <-(assoc_L (++)).
Qed.

Lemma triple_mfold_inv {A B} (f : B → A → M W E B) (Inv : B → W → Prop)
    (X : E → W → Prop) (l : list A) (b : B) :
  (∀ x b', x ∈ l → triple (Inv b') (f b' x) Inv X) →
  triple (Inv b) (mfold f b l) Inv X.
Proof.
  intros H. apply (triple_mfold f (λ _, Inv)). intros d x rest b' ->.
  apply H. set_solver.
Qed.

Lemma keeps_ret {A} (a : A) P : keeps (E:=E) P (mret a).
Proof. by apply triple_ret. Qed.

Lemma keeps_throw {A} (e : E) P : keeps (A:=A) P (mthrow e).
Proof. by apply triple_throw. Qed.

Lemma keeps_bind {A B} (m : M W E A) (f : A → M W E B) P :
  keeps P m → (∀ a, keeps P (f a)) → keeps P (m ≫= f).
Proof. intros Hm Hf. by eapply triple_bind. Qed.

Lemma keeps_mfold {A B} (f : B → A → M W E B) P (l : list A) (b : B) :
  (∀ b' x, keeps P (f b' x)) → keeps P (mfold f b l).
Proof. intros H. apply (triple_mfold_inv f (λ _, P)). intros x b' _. apply H. Qed.

Lemma keeps_wrap_err {E' A} (g : E → E') (m : M W E A) P : keeps P m → keeps P (wrap_err g m).
Proof. intros Hm. by apply triple_wrap_err. Qed.

(** An operation that leaves a part of the world alone keeps what is said of it. *)
Lemma keeps_same {A V} (f : W → V) (m : M W E A) (P : V → Prop) :
  (∀ w0, triple (λ w, w = w0) m (λ _ w, f w = f w0) (λ _ w, f w = f w0)) → keeps (λ w, P (f w)) m.
Proof.
  intros Hm. apply triple_at. intros w0 Hw.
  eapply triple_conseq; [apply (Hm w0)|done|..]; intros ? w Heq; by rewrite Heq.
Qed.

Lemma triple_ok {A} (m : M W E A) P Q X w a w' :
  triple P m Q X → P w → m w = (Ok a, w') → Q a w'.
Proof. intros Hm Hw Heq. specialize (Hm w Hw). by rewrite Heq in Hm. Qed.

(** What a triple says, and that it was the computation that led there. *)
Lemma triple_ran {A} (m : M W E A) P Q X :
  triple P m Q X → triple P m (λ a w, Q a w ∧ ∃ w0, m w0 = (Ok a, w)) X.
Proof.
  intros Hm w Hw. specialize (Hm w Hw). destruct (m w) as [[a|e] w'] eqn:Hrun; [|done].
  split; [done|by exists w].
Qed.

Lemma triple_err {A} (m : M W E A) P Q X w e w' :
  triple P m Q X → P w → m w = (Err e, w') → X e w'.
Proof. intros Hm Hw Heq. specialize (Hm w Hw). by rewrite Heq in Hm. Qed.
End triples.

Lemma triple_zoom {W V} `{Lens W V} {E A} (m : M V E A) (P : W → Prop)
    (Q : A → W → Prop) (X : E → W → Prop) :
  (∀ w, P w → triple (λ v, v = view w) m
     (λ a v, Q a (update v w)) (λ e v, X e (update v w))) →
  triple P (zoom m) Q X.
Proof.
  intros Hm w Hw. specialize (Hm w Hw _ eq_refl). unfold zoom.
  destruct (m (view w)) as [[a|e] v]; done.
Qed.

Lemma keeps_zoom {W V} `{Lens W V} {E A} (I : V → Prop) (m : M V E A) :
  keeps I m → keeps (λ w : W, I (view w)) (zoom m).
Proof.
  intros Hm. apply triple_zoom. intros w Hw v ->. specialize (Hm _ Hw).
  destruct (m (view w)) as [[a|e] v]; by rewrite view_update.
Qed.

Lemma keeps_attempt {W E E' A} (I : W → Prop) (m : M W E A) : keeps I m → keeps (E := E') I (attempt m).
Proof. intros Hm. by apply triple_attempt. Qed.

Lemma keeps_outcome {W E A} (I : W → Prop) (r : outcome E A) : keeps I (of_outcome r).
Proof. apply triple_of_outcome. by destruct r. Qed.

Lemma keeps_gets {W E A} (I : W → Prop) (f : W → A) : keeps (E := E) I (gets f).
Proof. by apply triple_gets. Qed.

Lemma keeps_modify {W E} (I : W → Prop) (f : W → W) : (∀ w, I w → I (f w)) → keeps (E := E) I (modify f).
Proof. intros Hf. by apply triple_modify. Qed.

(** A bind that ended well was two computations that ended well. *)
Lemma bind_ok {W E A B} (m : M W E A) (f : A → M W E B) w b w'' :
  (m ≫= f) w = (Ok b, w'') ↔
  ∃ a w', m w = (Ok a, w') ∧ f a w' = (Ok b, w'').
Proof.
  unfold mbind, M_bind. split.
  - destruct (m w) as [[a|e] w']; naive_solver.
  - by intros (a & w' & -> & ->).
Qed.

(** Running a bind whose first part is known. *)
Lemma bind_run {W E A B} (m : M W E A) (f : A → M W E B) w a w' : m w = (Ok a, w') → (m ≫= f) w = f a w'.
Proof. unfold mbind, M_bind. by intros ->. Qed.

Lemma wrap_run {W E E' A} (g : E → E') (m : M W E A) w a w' :
  m w = (Ok a, w') → wrap_err g m w = (Ok a, w').
Proof. unfold wrap_err. by intros ->. Qed.

(** [mstep] takes one syntactic step of a [triple] proof. *)
Ltac mstep :=
  lazymatch goal with
  | |- triple _ (mret _) _ _ => apply triple_ret
  | |- triple _ (mthrow _) _ _ => apply triple_throw
  | |- triple _ (gets _) _ _ => apply triple_gets
  | |- triple _ (modify _) _ _ => apply triple_modify
  | |- triple _ (attempt _) _ _ => apply triple_attempt
  | |- triple _ (wrap_err _ _) _ _ => apply triple_wrap_err
  | |- triple _ (of_outcome _) _ _ => apply triple_of_outcome
  | |- triple _ (match ?x with _ => _ end) _ _ => destruct x eqn:?
  | |- triple _ (if ?x then _ else _) _ _ => destruct x eqn:?
  end.

(** One step along the structure of a computation that keeps an invariant. *)
Ltac keeping :=
  lazymatch goal with
  | |- ∀ _, _ => intros
  | |- keeps _ (mret _) => apply keeps_ret
  | |- keeps _ (mthrow _) => apply keeps_throw
  | |- keeps _ (gets _) => apply keeps_gets
  | |- keeps _ (of_outcome _) => apply keeps_outcome
  | |- keeps _ (_ ≫= _) => apply keeps_bind
  | |- keeps _ (attempt _) => apply keeps_attempt
  | |- keeps _ (wrap_err _ _) => apply keeps_wrap_err
  | |- keeps _ (mfold _ _ _) => apply keeps_mfold
  | |- keeps _ (match ?x with _ => _ end) => destruct x
  | |- keeps _ (let '_ := ?x in _) => destruct x
  | |- keeps _ ((match ?x with _ => _ end) _) => destruct x; cbn beta
  end.

(** ** Machine integers *)
Definition int64_max : Z := 2 ^ 63 - 1.
Definition int64_min : Z := - 2 ^ 63.

Definition in_int64 (z : Z) : Prop := int64_min ≤ z ≤ int64_max.
#[export] Instance in_int64_dec z : Decision (in_int64 z).
Proof. unfold in_int64. apply _. Defined.

(** Two's complement wrap-around of Go's [int] and [int64]. *)
Definition wrap64 (z : Z) : Z := (z + 2 ^ 63) mod 2 ^ 64 - 2 ^ 63.

(** Wrap-around of [uint64]. *)
Definition wrapu64 (z : Z) : Z := z mod 2 ^ 64.

Lemma wrap64_id z : in_int64 z → wrap64 z = z.
Proof.
  unfold in_int64, int64_min, int64_max, wrap64. intros.
  rewrite Z.mod_small; lia.
Qed.

Lemma wrap64_range z : in_int64 (wrap64 z).
Proof.
  unfold in_int64, int64_min, int64_max, wrap64.
  pose proof (Z.mod_pos_bound (z + 2 ^ 63) (2 ^ 64)). lia.
Qed.

(** ** Lists and maps *)
Lemma NoDup_snoc {A} (l : list A) x : NoDup (l ++ [x]) ↔ x ∉ l ∧ NoDup l.
Proof.
  rewrite NoDup_app. pose proof (NoDup_singleton x).
  split; [intros (? & H1 & ?)|intros [? ?]]; set_solver.
Qed.

Lemma existsb_elem {A} (f : A → bool) l : (existsb f l = true) ↔ (∃ x, x ∈ l ∧ f x = true).
Proof.
  split.
  - intros (x & Hx & Hf)%existsb_exists. exists x. by rewrite list_elem_of_In.
  - intros (x & Hx & Hf). apply existsb_exists. exists x. by rewrite <-list_elem_of_In.
Qed.

(** ** Hints *)
Create HintDb gb discriminated.
#[export] Hint Resolve triple_ret triple_throw triple_gets triple_modify : gb.
#[export] Hint Resolve wrap64_range : gb.
