(* ===== verification/Unicode.v ===== *)
(** * The case mappings of Go's [unicode]

    The letters above ASCII whose lower-case letter is another one, and the
    letters that fold to another representative of their orbit, as ranges with
    a stride: [unicode.CaseRanges] and [unicode.caseOrbit] of Unicode 15. *)

From S2P Require Import Prelude.

(** The letters [lo], [lo + stride], ... up to [hi] move by [delta]. *)
Record caseRange : Type := R { cr_lo : Z; cr_hi : Z; cr_stride : Z; cr_delta : Z }.

Definition inRange (r : Z) (x : caseRange) : bool :=
  (cr_lo x <=? r) && (r <=? cr_hi x) && ((r - cr_lo x) mod cr_stride x =? 0).

Definition mapRune (table : list caseRange) (r : Z) : Z :=
  match List.find (inRange r) table with Some x => r + cr_delta x | None => r end.

(** [unicode.ToLower] above ASCII. *)
Definition lowerRanges : list caseRange :=
  [R 192 214 1 (32); R 216 222 1 (32); R 256 302 2 (1); R 304 304 1 (-199); R 306 310 2 (1); R 313 327 2 (1);
   R 330 374 2 (1); R 376 376 1 (-121); R 377 381 2 (1); R 385 385 1 (210); R 386 388 2 (1); R 390 390 1 (206);
   R 391 391 1 (1); R 393 394 1 (205); R 395 395 1 (1); R 398 398 1 (79); R 399 399 1 (202); R 400 400 1 (203);
   R 401 401 1 (1); R 403 403 1 (205); R 404 404 1 (207); R 406 406 1 (211); R 407 407 1 (209);
   R 408 408 1 (1); R 412 412 1 (211); R 413 413 1 (213); R 415 415 1 (214); R 416 420 2 (1);
   R 422 422 1 (218); R 423 423 1 (1); R 425 425 1 (218); R 428 428 1 (1); R 430 430 1 (218); R 431 431 1 (1);
   R 433 434 1 (217); R 435 437 2 (1); R 439 439 1 (219); R 440 440 1 (1); R 444 444 1 (1); R 452 452 1 (2);
   R 453 453 1 (1); R 455 455 1 (2); R 456 456 1 (1); R 458 458 1 (2); R 459 475 2 (1); R 478 494 2 (1);
   R 497 497 1 (2); R 498 500 2 (1); R 502 502 1 (-97); R 503 503 1 (-56); R 504 542 2 (1); R 544 544 1 (-130);
   R 546 562 2 (1); R 570 570 1 (10795); R 571 571 1 (1); R 573 573 1 (-163); R 574 574 1 (10792);
   R 577 577 1 (1); R 579 579 1 (-195); R 580 580 1 (69); R 581 581 1 (71); R 582 590 2 (1); R 880 882 2 (1);
   R 886 886 1 (1); R 895 895 1 (116); R 902 902 1 (38); R 904 906 1 (37); R 908 908 1 (64); R 910 911 1 (63);
   R 913 929 1 (32); R 931 939 1 (32); R 975 975 1 (8); R 984 1006 2 (1); R 1012 1012 1 (-60);
   R 1015 1015 1 (1); R 1017 1017 1 (-7); R 1018 1018 1 (1); R 1021 1023 1 (-130); R 1024 1039 1 (80);
   R 1040 1071 1 (32); R 1120 1152 2 (1); R 1162 1214 2 (1); R 1216 1216 1 (15); R 1217 1229 2 (1);
   R 1232 1326 2 (1); R 1329 1366 1 (48); R 4256 4293 1 (7264); R 4295 4295 1 (7264); R 4301 4301 1 (7264);
   R 5024 5103 1 (38864); R 5104 5109 1 (8); R 7312 7354 1 (-3008); R 7357 7359 1 (-3008); R 7680 7828 2 (1);
   R 7838 7838 1 (-7615); R 7840 7934 2 (1); R 7944 7951 1 (-8); R 7960 7965 1 (-8); R 7976 7983 1 (-8);
   R 7992 7999 1 (-8); R 8008 8013 1 (-8); R 8025 8031 2 (-8); R 8040 8047 1 (-8); R 8072 8079 1 (-8);
   R 8088 8095 1 (-8); R 8104 8111 1 (-8); R 8120 8121 1 (-8); R 8122 8123 1 (-74); R 8124 8124 1 (-9);
   R 8136 8139 1 (-86); R 8140 8140 1 (-9); R 8152 8153 1 (-8); R 8154 8155 1 (-100); R 8168 8169 1 (-8);
   R 8170 8171 1 (-112); R 8172 8172 1 (-7); R 8184 8185 1 (-128); R 8186 8187 1 (-126); R 8188 8188 1 (-9);
   R 8486 8486 1 (-7517); R 8490 8490 1 (-8383); R 8491 8491 1 (-8262); R 8498 8498 1 (28); R 8544 8559 1 (16);
   R 8579 8579 1 (1); R 9398 9423 1 (26); R 11264 11311 1 (48); R 11360 11360 1 (1); R 11362 11362 1 (-10743);
   R 11363 11363 1 (-3814); R 11364 11364 1 (-10727); R 11367 11371 2 (1); R 11373 11373 1 (-10780);
   R 11374 11374 1 (-10749); R 11375 11375 1 (-10783); R 11376 11376 1 (-10782); R 11378 11378 1 (1);
   R 11381 11381 1 (1); R 11390 11391 1 (-10815); R 11392 11490 2 (1); R 11499 11501 2 (1);
   R 11506 11506 1 (1); R 42560 42604 2 (1); R 42624 42650 2 (1); R 42786 42798 2 (1); R 42802 42862 2 (1);
   R 42873 42875 2 (1); R 42877 42877 1 (-35332); R 42878 42886 2 (1); R 42891 42891 1 (1);
   R 42893 42893 1 (-42280); R 42896 42898 2 (1); R 42902 42920 2 (1); R 42922 42922 1 (-42308);
   R 42923 42923 1 (-42319); R 42924 42924 1 (-42315); R 42925 42925 1 (-42305); R 42926 42926 1 (-42308);
   R 42928 42928 1 (-42258); R 42929 42929 1 (-42282); R 42930 42930 1 (-42261); R 42931 42931 1 (928);
   R 42932 42946 2 (1); R 42948 42948 1 (-48); R 42949 42949 1 (-42307); R 42950 42950 1 (-35384);
   R 42951 42953 2 (1); R 42960 42960 1 (1); R 42966 42968 2 (1); R 42997 42997 1 (1); R 65313 65338 1 (32);
   R 66560 66599 1 (40); R 66736 66771 1 (40); R 66928 66938 1 (39); R 66940 66954 1 (39);
   R 66956 66962 1 (39); R 66964 66965 1 (39); R 68736 68786 1 (64); R 71840 71871 1 (32);
   R 93760 93791 1 (32); R 125184 125217 1 (34)].

(** One representative of each orbit of [unicode.SimpleFold], above ASCII. *)
Definition foldRanges : list caseRange :=
  [R 181 181 1 (775); R 192 214 1 (32); R 216 222 1 (32); R 256 302 2 (1); R 306 310 2 (1); R 313 327 2 (1);
   R 330 374 2 (1); R 376 376 1 (-121); R 377 381 2 (1); R 383 383 1 (-268); R 385 385 1 (210);
   R 386 388 2 (1); R 390 390 1 (206); R 391 391 1 (1); R 393 394 1 (205); R 395 395 1 (1); R 398 398 1 (79);
   R 399 399 1 (202); R 400 400 1 (203); R 401 401 1 (1); R 403 403 1 (205); R 404 404 1 (207);
   R 406 406 1 (211); R 407 407 1 (209); R 408 408 1 (1); R 412 412 1 (211); R 413 413 1 (213);
   R 415 415 1 (214); R 416 420 2 (1); R 422 422 1 (218); R 423 423 1 (1); R 425 425 1 (218); R 428 428 1 (1);
   R 430 430 1 (218); R 431 431 1 (1); R 433 434 1 (217); R 435 437 2 (1); R 439 439 1 (219); R 440 440 1 (1);
   R 444 444 1 (1); R 452 452 1 (2); R 453 453 1 (1); R 455 455 1 (2); R 456 456 1 (1); R 458 458 1 (2);
   R 459 475 2 (1); R 478 494 2 (1); R 497 497 1 (2); R 498 500 2 (1); R 502 502 1 (-97); R 503 503 1 (-56);
   R 504 542 2 (1); R 544 544 1 (-130); R 546 562 2 (1); R 570 570 1 (10795); R 571 571 1 (1);
   R 573 573 1 (-163); R 574 574 1 (10792); R 577 577 1 (1); R 579 579 1 (-195); R 580 580 1 (69);
   R 581 581 1 (71); R 582 590 2 (1); R 837 837 1 (116); R 880 882 2 (1); R 886 886 1 (1); R 895 895 1 (116);
   R 902 902 1 (38); R 904 906 1 (37); R 908 908 1 (64); R 910 911 1 (63); R 913 929 1 (32); R 931 939 1 (32);
   R 962 962 1 (1); R 975 975 1 (8); R 976 976 1 (-30); R 977 977 1 (-25); R 981 981 1 (-15);
   R 982 982 1 (-22); R 984 1006 2 (1); R 1008 1008 1 (-54); R 1009 1009 1 (-48); R 1012 1012 1 (-60);
   R 1013 1013 1 (-64); R 1015 1015 1 (1); R 1017 1017 1 (-7); R 1018 1018 1 (1); R 1021 1023 1 (-130);
   R 1024 1039 1 (80); R 1040 1071 1 (32); R 1120 1152 2 (1); R 1162 1214 2 (1); R 1216 1216 1 (15);
   R 1217 1229 2 (1); R 1232 1326 2 (1); R 1329 1366 1 (48); R 4256 4293 1 (7264); R 4295 4295 1 (7264);
   R 4301 4301 1 (7264); R 5112 5117 1 (-8); R 7296 7296 1 (-6222); R 7297 7297 1 (-6221);
   R 7298 7298 1 (-6212); R 7299 7300 1 (-6210); R 7301 7301 1 (-6211); R 7302 7302 1 (-6204);
   R 7303 7303 1 (-6180); R 7304 7304 1 (35267); R 7312 7354 1 (-3008); R 7357 7359 1 (-3008);
   R 7680 7828 2 (1); R 7835 7835 1 (-58); R 7838 7838 1 (-7615); R 7840 7934 2 (1); R 7944 7951 1 (-8);
   R 7960 7965 1 (-8); R 7976 7983 1 (-8); R 7992 7999 1 (-8); R 8008 8013 1 (-8); R 8025 8031 2 (-8);
   R 8040 8047 1 (-8); R 8072 8079 1 (-8); R 8088 8095 1 (-8); R 8104 8111 1 (-8); R 8120 8121 1 (-8);
   R 8122 8123 1 (-74); R 8124 8124 1 (-9); R 8126 8126 1 (-7173); R 8136 8139 1 (-86); R 8140 8140 1 (-9);
   R 8152 8153 1 (-8); R 8154 8155 1 (-100); R 8168 8169 1 (-8); R 8170 8171 1 (-112); R 8172 8172 1 (-7);
   R 8184 8185 1 (-128); R 8186 8187 1 (-126); R 8188 8188 1 (-9); R 8486 8486 1 (-7517);
   R 8490 8490 1 (-8383); R 8491 8491 1 (-8262); R 8498 8498 1 (28); R 8544 8559 1 (16); R 8579 8579 1 (1);
   R 9398 9423 1 (26); R 11264 11311 1 (48); R 11360 11360 1 (1); R 11362 11362 1 (-10743);
   R 11363 11363 1 (-3814); R 11364 11364 1 (-10727); R 11367 11371 2 (1); R 11373 11373 1 (-10780);
   R 11374 11374 1 (-10749); R 11375 11375 1 (-10783); R 11376 11376 1 (-10782); R 11378 11378 1 (1);
   R 11381 11381 1 (1); R 11390 11391 1 (-10815); R 11392 11490 2 (1); R 11499 11501 2 (1);
   R 11506 11506 1 (1); R 42560 42604 2 (1); R 42624 42650 2 (1); R 42786 42798 2 (1); R 42802 42862 2 (1);
   R 42873 42875 2 (1); R 42877 42877 1 (-35332); R 42878 42886 2 (1); R 42891 42891 1 (1);
   R 42893 42893 1 (-42280); R 42896 42898 2 (1); R 42902 42920 2 (1); R 42922 42922 1 (-42308);
   R 42923 42923 1 (-42319); R 42924 42924 1 (-42315); R 42925 42925 1 (-42305); R 42926 42926 1 (-42308);
   R 42928 42928 1 (-42258); R 42929 42929 1 (-42282); R 42930 42930 1 (-42261); R 42931 42931 1 (928);
   R 42932 42946 2 (1); R 42948 42948 1 (-48); R 42949 42949 1 (-42307); R 42950 42950 1 (-35384);
   R 42951 42953 2 (1); R 42960 42960 1 (1); R 42966 42968 2 (1); R 42997 42997 1 (1);
   R 43888 43967 1 (-38864); R 65313 65338 1 (32); R 66560 66599 1 (40); R 66736 66771 1 (40);
   R 66928 66938 1 (39); R 66940 66954 1 (39); R 66956 66962 1 (39); R 66964 66965 1 (39);
   R 68736 68786 1 (64); R 71840 71871 1 (32); R 93760 93791 1 (32); R 125184 125217 1 (34)].

Definition ascii_lower (r : Z) : Z := if (65 <=? r) && (r <=? 90) then r + 32 else r.

(** [unicode.ToLower]; folding picks one rune of the orbit of [unicode.SimpleFold]. *)
Definition ToLower (r : Z) : Z := if r <? 128 then ascii_lower r else mapRune lowerRanges r.
Definition foldRune (r : Z) : Z := if r <? 128 then ascii_lower r else mapRune foldRanges r.

(** Both settle at once, and the Kelvin sign and the long s fold into ASCII. *)
Example fold_settled : forallb (λ x, foldRune (foldRune (cr_lo x)) =? foldRune (cr_lo x)) foldRanges = true.
Proof. vm_compute. reflexivity. Qed.
Example fold_kelvin : (foldRune 8490, foldRune 383, ToLower 8490, ToLower 304, foldRune 304) = (107, 115, 107, 105, 304).
Proof. vm_compute. reflexivity. Qed.
Example fold_sigma : (foldRune 931, foldRune 963, foldRune 962) = (963, 963, 963).
Proof. vm_compute. reflexivity. Qed.
