(* ===== verification/GoStrings.v ===== *)
(** * The parts of Go's [strings], [strconv], [unicode/utf8], [net/url] and
    [path/filepath] that the sources call.

    A Go string is a sequence of bytes, here [string]; [runes] decodes it.
    [toLower] and [equalFold] map its runes with the tables of [Unicode]. *)

From S2P Require Import Prelude Unicode.

(** ** Bytes *)
Definition byte_of (a : ascii) : Z := Z.of_N (N_of_ascii a).
Definition ascii_of (z : Z) : ascii := ascii_of_N (Z.to_N z).

Definition is_lower (a : ascii) : bool := (97 <=? byte_of a) && (byte_of a <=? 122).
Definition is_upper (a : ascii) : bool := (65 <=? byte_of a) && (byte_of a <=? 90).
Definition is_digit (a : ascii) : bool := (48 <=? byte_of a) && (byte_of a <=? 57).
Definition is_dash (a : ascii) : bool := (Ascii.eqb a "-" || Ascii.eqb a "_")%char.
Definition is_slash (a : ascii) : bool := Ascii.eqb a "/"%char.

Definition lower_ascii (a : ascii) : ascii :=
  if is_upper a then ascii_of (byte_of a + 32) else a.

Fixpoint string_all (p : ascii → bool) (s : string) : bool :=
  match s with "" => true | String a s => p a && string_all p s end.

(** ** [strings] *)
Fixpoint hasPrefix (s p : string) {struct p} : bool :=
  match p, s with
  | "", _ => true
  | String b p, String a s => Ascii.eqb a b && hasPrefix s p
  | _, _ => false
  end.

Fixpoint dropBytes (n : nat) (s : string) {struct n} : string :=
  match n, s with
  | S n, String _ s => dropBytes n s
  | _, _ => s
  end.

Definition trimPrefix (s p : string) : string :=
  if hasPrefix s p then dropBytes (String.length p) s else s.

(** [strings.TrimLeft], [TrimRight] and [Trim] for a cutset of ASCII bytes. *)
Fixpoint trimLeft (p : ascii → bool) (s : string) : string :=
  match s with
  | "" => ""
  | String a s' => if p a then trimLeft p s' else s
  end.

Fixpoint trimRight (p : ascii → bool) (s : string) : string :=
  match s with
  | "" => ""
  | String a s' =>
      match trimRight p s' with
      | "" => if p a then "" else String a ""
      | r => String a r
      end
  end.

Definition trim (p : ascii → bool) (s : string) : string := trimRight p (trimLeft p s).

Definition lastByte (s : string) : option ascii :=
  let fix go (s : string) :=
    match s with
    | "" => None
    | String a "" => Some a
    | String _ s => go s
    end in go s.

(** [strings.Split] and [strings.Join] for a one-byte separator. *)
Fixpoint split (c : ascii) (s : string) : list string :=
  match s with
  | "" => [""]
  | String a s =>
      if Ascii.eqb a c then "" :: split c s
      else match split c s with
           | x :: xs => String a x :: xs
           | [] => [String a ""]
           end
  end.

Fixpoint join (c : ascii) (l : list string) : string :=
  match l with
  | [] => ""
  | [x] => x
  | x :: l => x +:+ String c (join c l)
  end.

(** [regexp.MustCompile("[^...]+").ReplaceAllString(s, "-")]: every maximal run
    of bytes that are not [safe] becomes one dash. *)
Fixpoint replaceRuns (safe : ascii → bool) (inRun : bool) (s : string) : string :=
  match s with
  | "" => ""
  | String a s =>
      if safe a then String a (replaceRuns safe false s)
      else if inRun then replaceRuns safe true s
      else String "-" (replaceRuns safe true s)
  end.

(** ** [unicode/utf8] *)
Inductive rune : Type :=
| RGood (r : Z) (bytes : string)
| RBad (a : ascii).

Definition cont (a : ascii) : bool := (128 <=? byte_of a) && (byte_of a <=? 191).

Definition ok2 (a b : ascii) : bool :=
  (194 <=? byte_of a) && (byte_of a <=? 223) && cont b.

Definition ok3 (a b c : ascii) : bool :=
  (224 <=? byte_of a) && (byte_of a <=? 239) && cont b && cont c &&
  (if byte_of a =? 224 then 160 <=? byte_of b else true) &&
  (if byte_of a =? 237 then byte_of b <=? 159 else true).

Definition ok4 (a b c d : ascii) : bool :=
  (240 <=? byte_of a) && (byte_of a <=? 244) && cont b && cont c && cont d &&
  (if byte_of a =? 240 then 144 <=? byte_of b else true) &&
  (if byte_of a =? 244 then byte_of b <=? 143 else true).

Definition low6 (a : ascii) : Z := byte_of a mod 64.

Fixpoint runes (s : string) : list rune :=
  match s with
  | "" => []
  | String a s1 =>
      if byte_of a <? 128 then RGood (byte_of a) (String a "") :: runes s1
      else match s1 with
      | "" => [RBad a]
      | String b s2 =>
          if ok2 a b
          then RGood (byte_of a mod 32 * 64 + low6 b) (String a (String b "")) :: runes s2
          else match s2 with
          | "" => RBad a :: runes s1
          | String c s3 =>
              if ok3 a b c
              then RGood (byte_of a mod 16 * 4096 + low6 b * 64 + low6 c)
                         (String a (String b (String c ""))) :: runes s3
              else match s3 with
              | "" => RBad a :: runes s1
              | String d s4 =>
                  if ok4 a b c d
                  then RGood (byte_of a mod 8 * 262144 + low6 b * 4096 + low6 c * 64 + low6 d)
                             (String a (String b (String c (String d "")))) :: runes s4
                  else RBad a :: runes s1
              end
          end
      end
  end.

Definition rune_good (r : rune) : bool := match r with RGood _ _ => true | RBad _ => false end.
Definition rune_raw (r : rune) : string :=
  match r with RGood _ b => b | RBad a => String a "" end.
(** The value [range] gives: U+FFFD for a byte that starts no rune. *)
Definition rune_value (r : rune) : Z := match r with RGood z _ => z | RBad _ => 65533 end.

(** [utf8.EncodeRune]. *)
Definition encodeRune (r : Z) : string :=
  let tail n := ascii_of (128 + n mod 64) in
  if r <? 128 then String (ascii_of r) ""
  else if r <? 2048 then String (ascii_of (192 + r / 64)) (String (tail r) "")
  else if r <? 65536 then String (ascii_of (224 + r / 4096)) (String (tail (r / 64)) (String (tail r) ""))
  else String (ascii_of (240 + r / 262144)) (String (tail (r / 4096)) (String (tail (r / 64)) (String (tail r) ""))).

(** [strings.Map]: a byte that starts no rune counts as U+FFFD. *)
Definition mapRunes (f : Z → Z) (s : string) : string :=
  foldr (λ r out, encodeRune (f (rune_value r)) +:+ out) "" (runes s).

Definition toLower (s : string) : string := mapRunes ToLower s.

(** Two strings are equal under simple folding when their runes fold to the same. *)
Definition foldCase (s : string) : string := mapRunes foldRune s.
Definition equalFold (s t : string) : bool := String.eqb (foldCase s) (foldCase t).

Definition utf8Valid (s : string) : bool := forallb rune_good (runes s).

Definition concat_strings (l : list string) : string := foldr String.append "" l.

(** What [encoding/json] writes for a string: bytes that are not UTF-8 become U+FFFD. *)
Definition replacement : string := String "239" (String "191" (String "189" "")).
Definition coerceUTF8 (s : string) : string :=
  concat_strings (map (λ r, match r with RGood _ b => b | RBad _ => replacement end) (runes s)).

(** [unicode.IsControl] and [unicode.IsSpace]. *)
Definition isControl (r : Z) : bool := (r <? 32) || ((127 <=? r) && (r <? 160)).
Definition isSpace (r : Z) : bool :=
  ((9 <=? r) && (r <=? 13)) || (r =? 32) || (r =? 133) || (r =? 160) ||
  (r =? 5760) || ((8192 <=? r) && (r <=? 8202)) || (r =? 8232) || (r =? 8233) ||
  (r =? 8239) || (r =? 8287) || (r =? 12288).

Fixpoint dropWhile {A} (p : A → bool) (l : list A) : list A :=
  match l with [] => [] | x :: l' => if p x then dropWhile p l' else l end.

Definition trimSpace (s : string) : string :=
  let sp r := isSpace (rune_value r) in
  concat_strings (map rune_raw (reverse (dropWhile sp (reverse (dropWhile sp (runes s)))))).

(** ** [strconv] *)
Definition itoa (z : Z) : string := pretty z.

Fixpoint digits (s : string) (acc : Z) : option Z :=
  match s with
  | "" => Some acc
  | String a s => if is_digit a then digits s (10 * acc + (byte_of a - 48)) else None
  end.

(** [strconv.ParseInt(s, 10, 64)]; [None] for a syntax or range error. *)
Definition parseInt (s : string) : option Z :=
  let parse (neg : bool) (s : string) :=
    match s with
    | "" => None
    | _ =>
        n ← digits s 0;
        let z := if neg then - n else n in
        if decide (in_int64 z) then Some z else None
    end in
  match s with
  | "" => None
  | String "-" s => parse true s
  | String "+" s => parse false s
  | _ => parse false s
  end.

(** ** [net/url] *)
Definition hexUpper (n : Z) : ascii :=
  if n <? 10 then ascii_of (48 + n) else ascii_of (55 + n).

(** Bytes [url.PathEscape] leaves alone. *)
Definition pathSafe (a : ascii) : bool :=
  is_lower a || is_upper a || is_digit a ||
  existsb (Ascii.eqb a) ["-"; "_"; "."; "~"; "$"; "&"; "+"; ":"; "="; "@"]%char.

Fixpoint pathEscape (s : string) : string :=
  match s with
  | "" => ""
  | String a s =>
      if pathSafe a then String a (pathEscape s)
      else String "%" (String (hexUpper (byte_of a / 16))
             (String (hexUpper (byte_of a mod 16)) (pathEscape s)))
  end.

(** ** [path/filepath] (Unix) *)
Definition isAbs (p : string) : bool := hasPrefix p "/".

(** [filepath.Clean]: drop empty and ["."] elements and resolve ["element/.."]. *)
Definition cleanStep (rooted : bool) (out : list string) (seg : string) : list string :=
  if String.eqb seg "" || String.eqb seg "." then out
  else if String.eqb seg ".." then
    match out with
    | x :: out' => if String.eqb x ".." then ".." :: out else out'
    | [] => if rooted then [] else [".."]
    end
  else seg :: out.

Definition clean (p : string) : string :=
  match p with
  | "" => "."
  | _ =>
      let rooted := isAbs p in
      let out := join "/" (reverse (foldl (cleanStep rooted) [] (split "/" p))) in
      if rooted then "/" +:+ out
      else if String.eqb out "" then "." else out
  end.

(** [filepath.Dir]: what precedes the last slash, cleaned. *)
Definition dirName (p : string) : string :=
  match removelast (split "/" p) with
  | [] => clean ""
  | l => clean (join "/" l +:+ "/")
  end.

(** ** Lemmas *)
Lemma app_nil_r (s : string) : s +:+ "" = s.
Proof. induction s as [|a s IH]; [done|]. change (String a (s +:+ "") = String a s). by rewrite IH. Qed.

Lemma app_cons a (s t : string) : String a s +:+ t = String a (s +:+ t).
Proof. done. Qed.

Lemma app_assoc (s t u : string) : (s +:+ t) +:+ u = s +:+ (t +:+ u).
Proof. induction s as [|a s IH]; [done|]. rewrite !app_cons. by rewrite IH. Qed.

Lemma append_inj (s t u : string) : s +:+ t = s +:+ u → t = u.
Proof. induction s as [|a s IH]; [done|]. rewrite !app_cons. intros Heq. apply IH. by injection Heq. Qed.

Lemma string_length_app (s t : string) :
  String.length (s +:+ t) = (String.length s + String.length t)%nat.
Proof. induction s as [|a s IH]; [done|]. rewrite app_cons. simpl. by rewrite IH. Qed.

Lemma string_all_app p s t : string_all p (s +:+ t) = string_all p s && string_all p t.
Proof.
  induction s as [|a s IH]; [done|]. rewrite app_cons. simpl. by rewrite IH, andb_assoc.
Qed.

Lemma string_all_weaken (p q : ascii → bool) s :
  (∀ a, p a = true → q a = true) → string_all p s = true → string_all q s = true.
Proof.
  intros Hpq. induction s as [|a s IH]; simpl; [done|].
  intros [Ha Hs]%andb_true_iff. by rewrite (Hpq a Ha), IH.
Qed.

Lemma hasPrefix_spec s p : hasPrefix s p = true ↔ ∃ t, s = p +:+ t.
Proof.
  split.
  - revert s. induction p as [|b p IH]; intros s; simpl; [intros _; by exists s|].
    destruct s as [|a s]; [done|].
    intros [->%Ascii.eqb_eq [t ->]%IH]%andb_true_iff. by exists t.
  - intros [t ->]. induction p as [|b p IH]; [done|].
    rewrite app_cons. simpl. by rewrite Ascii.eqb_refl.
Qed.

Lemma hasPrefix_app p t : hasPrefix (p +:+ t) p = true.
Proof. apply hasPrefix_spec. by exists t. Qed.

Lemma dropBytes_app p t : dropBytes (String.length p) (p +:+ t) = t.
Proof. induction p as [|a p IH]; [by destruct t|]. rewrite app_cons. simpl. done. Qed.

Lemma trimPrefix_app p t : trimPrefix (p +:+ t) p = t.
Proof. unfold trimPrefix. by rewrite hasPrefix_app, dropBytes_app. Qed.

(** *** Splitting and joining *)
Definition has_no (c : ascii) (s : string) : bool := string_all (λ a, negb (Ascii.eqb a c)) s.

Lemma split_not_nil c s : split c s ≠ [].
Proof. destruct s as [|a s]; simpl; [done|]. destruct (Ascii.eqb a c), (split c s); done. Qed.

Lemma join_cons c x l : l ≠ [] → join c (x :: l) = x +:+ String c (join c l).
Proof. by destruct l. Qed.

Lemma join_split c s : join c (split c s) = s.
Proof.
  induction s as [|a s IH]; [done|]. cbn [split].
  pose proof (split_not_nil c s).
  destruct (Ascii.eqb_spec a c) as [->|].
  - rewrite join_cons by done. by rewrite IH.
  - destruct (split c s) as [|x [|y l]] eqn:Hs; [done|..]; simpl in *; [by rewrite IH|].
    rewrite app_cons. by rewrite IH.
Qed.

Lemma split_no_sep c s : Forall (λ x, has_no c x = true) (split c s).
Proof.
  induction s as [|a s IH]; simpl; [by constructor|].
  destruct (Ascii.eqb a c) eqn:Ha; [by constructor|].
  destruct (split c s) as [|x l] eqn:Hs; [by destruct (split_not_nil c s)|].
  inversion IH; subst. constructor; [|done]. unfold has_no in *. simpl. by rewrite Ha.
Qed.

Lemma split_no c s : has_no c s = true → split c s = [s].
Proof.
  unfold has_no. induction s as [|a s IH]; simpl; [done|].
  intros [Ha Hs]%andb_true_iff. apply negb_true_iff in Ha.
  by rewrite Ha, (IH Hs).
Qed.

Lemma split_app c x s : has_no c x = true → split c (x +:+ String c s) = x :: split c s.
Proof.
  unfold has_no. induction x as [|a x IH]; cbn [string_all].
  - intros _. change ("" +:+ String c s) with (String c s). cbn [split].
    by rewrite Ascii.eqb_refl.
  - intros [Ha Hs]%andb_true_iff. apply negb_true_iff in Ha.
    rewrite app_cons. cbn [split]. by rewrite Ha, (IH Hs).
Qed.

Lemma split_sep c x s : split c (x +:+ String c s) = split c x ++ split c s.
Proof.
  induction x as [|a x IH]; [change ("" +:+ String c s) with (String c s); cbn [split]; by rewrite Ascii.eqb_refl|].
  rewrite app_cons. cbn [split]. rewrite IH. destruct (Ascii.eqb a c); [done|].
  pose proof (split_not_nil c x). by destruct (split c x).
Qed.

Lemma split_join c l :
  l ≠ [] → Forall (λ x, has_no c x = true) l → split c (join c l) = l.
Proof.
  intros Hl Hall. induction Hall as [|x l Hx Hall IH]; [done|].
  destruct l as [|y l]; [by apply split_no|].
  rewrite join_cons, split_app by done. by rewrite IH.
Qed.

Lemma join_inj c l k :
  l ≠ [] → k ≠ [] → Forall (λ x, has_no c x = true) l → Forall (λ x, has_no c x = true) k →
  join c l = join c k → l = k.
Proof.
  intros Hl Hk Hl' Hk' Heq. rewrite <-(split_join c l), <-(split_join c k) by done.
  by rewrite Heq.
Qed.

Lemma string_all_join p c l :
  p c = true → Forall (λ x, string_all p x = true) l → string_all p (join c l) = true.
Proof.
  intros Hc Hall. induction Hall as [|x l Hx Hall IH]; [done|].
  destruct l as [|y l]; [done|]. rewrite join_cons, string_all_app by done.
  cbn [string_all]. by rewrite Hx, Hc, IH.
Qed.

(** *** Trimming *)
Definition headOk (p : ascii → bool) (s : string) : bool :=
  match s with "" => true | String a _ => negb (p a) end.

Fixpoint lastOk (p : ascii → bool) (s : string) : bool :=
  match s with
  | "" => true
  | String a s' => match s' with "" => negb (p a) | _ => lastOk p s' end
  end.

Lemma trimLeft_head p s : headOk p (trimLeft p s) = true.
Proof. induction s as [|a s IH]; simpl; [done|]. destruct (p a) eqn:Ha; simpl; [done|by rewrite Ha]. Qed.

Lemma trimRight_last p s : lastOk p (trimRight p s) = true.
Proof.
  induction s as [|a s IH]; [done|]. cbn [trimRight].
  destruct (trimRight p s); [destruct (p a) eqn:Ha|]; [done|by simpl; rewrite Ha|].
  exact IH.
Qed.

Lemma trimRight_head p s : headOk p s = true → headOk p (trimRight p s) = true.
Proof.
  destruct s as [|a s]; simpl; [done|]. intros Ha.
  apply negb_true_iff in Ha. rewrite Ha. by destruct (trimRight p s); simpl; rewrite Ha.
Qed.

Lemma trim_ends p s : headOk p (trim p s) = true ∧ lastOk p (trim p s) = true.
Proof.
  unfold trim. split; [apply trimRight_head, trimLeft_head|apply trimRight_last].
Qed.

Lemma trimLeft_id p s : headOk p s = true → trimLeft p s = s.
Proof. destruct s as [|a s]; simpl; [done|]. by intros ->%negb_true_iff. Qed.

Lemma trimRight_id p s : lastOk p s = true → trimRight p s = s.
Proof.
  induction s as [|a s IH]; simpl; [done|]. destruct s as [|b s].
  - intros ->%negb_true_iff. done.
  - intros H. by rewrite (IH H).
Qed.

Lemma trim_id p s : headOk p s = true → lastOk p s = true → trim p s = s.
Proof. intros H1 H2. unfold trim. by rewrite trimLeft_id, trimRight_id. Qed.

Lemma trim_idem p s : trim p (trim p s) = trim p s.
Proof. destruct (trim_ends p s). by apply trim_id. Qed.

Lemma string_all_trim q p s : string_all q s = true → string_all q (trim p s) = true.
Proof.
  assert (HL : string_all q s = true → string_all q (trimLeft p s) = true).
  { induction s as [|a s IH]; simpl; [done|]. intros [Ha Hs]%andb_true_iff.
    destruct (p a); [by apply IH|]. simpl. by rewrite Ha, Hs. }
  assert (HR : ∀ t, string_all q t = true → string_all q (trimRight p t) = true).
  { induction t as [|a t IH]; simpl; [done|]. intros [Ha Hs]%andb_true_iff.
    specialize (IH Hs). destruct (trimRight p t); [destruct (p a)|]; simpl in *;
      rewrite ?Ha; done. }
  intros H. by apply HR, HL.
Qed.

Lemma lastOk_app p s t : t ≠ "" → lastOk p (s +:+ t) = lastOk p t.
Proof.
  intros Ht. induction s as [|a s IH]; [done|]. rewrite app_cons. cbn [lastOk].
  destruct (s +:+ t) eqn:E; [|done]. destruct s; [by subst|]. by rewrite app_cons in E.
Qed.

Lemma lastOk_all p s : string_all (λ a, negb (p a)) s = true → lastOk p s = true.
Proof.
  induction s as [|a s IH]; simpl; [done|]. intros [Ha Hs]%andb_true_iff.
  destruct s; [done|by apply IH].
Qed.

Lemma headOk_all p s : string_all (λ a, negb (p a)) s = true → headOk p s = true.
Proof. destruct s; simpl; [done|]. by intros [? _]%andb_true_iff. Qed.

(** *** Replacing runs of unsafe bytes *)
Lemma replaceRuns_all safe b s :
  string_all (λ a, safe a || Ascii.eqb a "-"%char) (replaceRuns safe b s) = true.
Proof.
  revert b. induction s as [|a s IH]; intros b; simpl; [done|].
  destruct (safe a) eqn:Ha; simpl; [by rewrite Ha, IH|].
  destruct b; [done|]. simpl. by rewrite IH, orb_true_r.
Qed.

(** *** Escaping *)
Lemma ascii_byte_of a : ascii_of (byte_of a) = a.
Proof. unfold ascii_of, byte_of. rewrite N2Z.id. apply ascii_N_embedding. Qed.

Lemma byte_of_range a : 0 ≤ byte_of a < 256.
Proof. unfold byte_of. pose proof (N_ascii_bounded a). lia. Qed.

Lemma byte_of_inj a b : byte_of a = byte_of b → a = b.
Proof. intros H. by rewrite <-(ascii_byte_of a), <-(ascii_byte_of b), H. Qed.

Lemma pathEscape_no_slash s : has_no "/" (pathEscape s) = true.
Proof.
  unfold has_no. induction s as [|a s IH]; [done|]. cbn [pathEscape].
  destruct (pathSafe a) eqn:Ha; cbn [string_all]; rewrite IH.
  - destruct (Ascii.eqb_spec a "/"%char) as [->|]; done.
  - destruct a as [[] [] [] [] [] [] [] []]; reflexivity.
Qed.

Lemma hexUpper_inj m n : 0 ≤ m < 16 → 0 ≤ n < 16 → hexUpper m = hexUpper n → m = n.
Proof.
  assert (∀ k, 0 ≤ k < 16 →
    (if byte_of (hexUpper k) <? 65 then byte_of (hexUpper k) - 48
     else byte_of (hexUpper k) - 55) = k) as Hk.
  { intros k Hk. destruct (decide (k < 8)).
    - assert (k = 0 ∨ k = 1 ∨ k = 2 ∨ k = 3 ∨ k = 4 ∨ k = 5 ∨ k = 6 ∨ k = 7) by lia.
      naive_solver.
    - assert (k = 8 ∨ k = 9 ∨ k = 10 ∨ k = 11 ∨ k = 12 ∨ k = 13 ∨ k = 14 ∨ k = 15) by lia.
      naive_solver. }
  intros Hm Hn Heq. by rewrite <-(Hk m Hm), <-(Hk n Hn), Heq.
Qed.

#[export] Instance pathEscape_inj : Inj (=) (=) pathEscape.
Proof.
  intros s. induction s as [|a s IH]; intros [|b t]; simpl; try done;
    try (by destruct (pathSafe _)).
  destruct (pathSafe a) eqn:Ha, (pathSafe b) eqn:Hb; intros H.
  - injection H as -> H. by rewrite (IH _ H).
  - injection H as -> _. done.
  - injection H as <- _. done.
  - injection H as H1 H2 H3. rewrite (IH _ H3). f_equal.
    pose proof (byte_of_range a). pose proof (byte_of_range b).
    apply hexUpper_inj in H1, H2; try (split; [apply Z.div_pos|apply Z.div_lt_upper_bound]; lia);
      try (apply Z.mod_pos_bound; lia).
    apply byte_of_inj. rewrite (Z.div_mod (byte_of a) 16), (Z.div_mod (byte_of b) 16) by lia.
    congruence.
Qed.

#[export] Hint Rewrite app_nil_r app_assoc string_length_app string_all_app : gb_string.
#[export] Hint Resolve hasPrefix_app split_not_nil split_no_sep trimLeft_head : gb.

Lemma cut_inj q (s s' t t' : string) : has_no q s = true → has_no q s' = true →
  s +:+ String q t = s' +:+ String q t' → s = s' ∧ t = t'.
Proof.
  revert s'. induction s as [|a s IH]; intros [|a' s'] Hs Hs' Heq; rewrite ?app_cons in Heq.
  - by injection Heq.
  - exfalso. injection Heq as -> _. cbn in Hs'. by rewrite Ascii.eqb_refl in Hs'.
  - exfalso. injection Heq as -> _. cbn in Hs. by rewrite Ascii.eqb_refl in Hs.
  - injection Heq as -> Heq. cbn in Hs, Hs'. apply andb_true_iff in Hs as [_ Hs], Hs' as [_ Hs'].
    destruct (IH s' Hs Hs' Heq) as [-> ->]. done.
Qed.

(** A decimal number has no slash in it. *)
Lemma pretty_N_go_without q n s : (∀ x, pretty_N_char x ≠ q) → has_no q s = true → has_no q (pretty_N_go n s) = true.
Proof.
  intros Hq. revert s. induction (N.lt_wf_0 n) as [n _ IH]. intros s Hs. destruct (decide (n = 0)%N) as [->|Hn].
  { by rewrite pretty_N_go_0. }
  rewrite pretty_N_go_step by lia. apply IH; [apply N.div_lt; lia|]. unfold has_no in *. cbn [string_all]. rewrite Hs.
  by rewrite (proj2 (Ascii.eqb_neq _ _) (Hq _)).
Qed.

Lemma itoa_without q z : (∀ x, pretty_N_char x ≠ q) → q ≠ "-"%char → has_no q (itoa z) = true.
Proof.
  intros Hq Hm. assert (∀ p : positive, has_no q (pretty p) = true) as Hp.
  { intros p. unfold pretty, pretty_positive, pretty, pretty_N. rewrite decide_False by done. by apply pretty_N_go_without. }
  unfold itoa, pretty, pretty_Z. destruct z as [|p|p]; [|apply Hp|].
  - change (has_no q (String (pretty_N_char 0) "") = true). unfold has_no. cbn [string_all].
    by rewrite (proj2 (Ascii.eqb_neq _ _) (Hq 0%N)).
  - unfold has_no. rewrite app_cons. cbn [string_all]. apply andb_true_iff. split; [|apply (Hp p)].
    by rewrite (proj2 (Ascii.eqb_neq _ _) (not_eq_sym Hm)).
Qed.

Lemma itoa_no_slash z : has_no "/" (itoa z) = true.
Proof. apply itoa_without; [|done]. intros x. unfold pretty_N_char. by repeat case_match. Qed.

Lemma itoa_no_nul z : has_no "000" (itoa z) = true.
Proof. apply itoa_without; [|done]. intros x. unfold pretty_N_char. by repeat case_match. Qed.
