(* ===== verification/Sha256.v ===== *)
(** * SHA-256, HMAC-SHA-256 and hexadecimal ([crypto/sha256], [crypto/hmac],
    [encoding/hex]), executable.

    [crypto/sha256.Sum256], [hmac.New(sha256.New, key)] and
    [hex.EncodeToString]/[hex.DecodeString] are standard-library code that the
    webhook, the event routing keys, the ownership key and the Vault object
    names are computed with.  They are defined here after FIPS 180-4 and
    RFC 2104, on 32-bit words kept in [Z]. *)

From S2P Require Import Prelude GoStrings.

Definition w32 (x : Z) : Z := Z.land x 4294967295.
Definition rotr (n x : Z) : Z := w32 (Z.lor (Z.shiftr x n) (Z.shiftl x (32 - n))).
Definition xor3 (a b c : Z) : Z := Z.lxor (Z.lxor a b) c.

Definition bigSigma0 (x : Z) : Z := xor3 (rotr 2 x) (rotr 13 x) (rotr 22 x).
Definition bigSigma1 (x : Z) : Z := xor3 (rotr 6 x) (rotr 11 x) (rotr 25 x).
Definition smallSigma0 (x : Z) : Z := xor3 (rotr 7 x) (rotr 18 x) (Z.shiftr x 3).
Definition smallSigma1 (x : Z) : Z := xor3 (rotr 17 x) (rotr 19 x) (Z.shiftr x 10).
Definition ch (x y z : Z) : Z := Z.lxor (Z.land x y) (Z.land (4294967295 - x) z).
Definition maj (x y z : Z) : Z := xor3 (Z.land x y) (Z.land x z) (Z.land y z).

Definition roundK : list Z :=
  [1116352408; 1899447441; 3049323471; 3921009573; 961987163; 1508970993; 2453635748; 2870763221;
   3624381080; 310598401; 607225278; 1426881987; 1925078388; 2162078206; 2614888103; 3248222580;
   3835390401; 4022224774; 264347078; 604807628; 770255983; 1249150122; 1555081692; 1996064986;
   2554220882; 2821834349; 2952996808; 3210313671; 3336571891; 3584528711; 113926993; 338241895;
   666307205; 773529912; 1294757372; 1396182291; 1695183700; 1986661051; 2177026350; 2456956037;
   2730485921; 2820302411; 3259730800; 3345764771; 3516065817; 3600352804; 4094571909; 275423344;
   430227734; 506948616; 659060556; 883997877; 958139571; 1322822218; 1537002063; 1747873779;
   1955562222; 2024104815; 2227730452; 2361852424; 2428436474; 2756734187; 3204031479; 3329325298].

Record shaState : Type := ShaState
  { sa : Z; sb : Z; sc : Z; sd : Z; se : Z; sf : Z; sg : Z; sh : Z }.

Definition shaInit : shaState :=
  ShaState 1779033703 3144134277 1013904242 2773480762 1359893119 2600822924 528734635 1541459225.

Definition nthZ (n : nat) (l : list Z) : Z := nth n l 0.

(** The message schedule, newest word first. *)
Fixpoint schedule (n : nat) (w : list Z) : list Z :=
  match n with
  | O => w
  | S n =>
      let x := w32 (smallSigma1 (nthZ 1 w) + nthZ 6 w + smallSigma0 (nthZ 14 w) + nthZ 15 w) in
      schedule n (x :: w)
  end.

Definition shaRound (s : shaState) (kw : Z * Z) : shaState :=
  let t1 := sh s + bigSigma1 (se s) + ch (se s) (sf s) (sg s) + fst kw + snd kw in
  let t2 := bigSigma0 (sa s) + maj (sa s) (sb s) (sc s) in
  ShaState (w32 (t1 + t2)) (sa s) (sb s) (sc s) (w32 (sd s + t1)) (se s) (sf s) (sg s).

Definition shaBlock (s : shaState) (block : list Z) : shaState :=
  let w := rev (schedule 48 (rev block)) in
  let r := fold_left shaRound (combine roundK w) s in
  ShaState (w32 (sa s + sa r)) (w32 (sb s + sb r)) (w32 (sc s + sc r)) (w32 (sd s + sd r))
           (w32 (se s + se r)) (w32 (sf s + sf r)) (w32 (sg s + sg r)) (w32 (sh s + sh r)).

(** Bytes, words and padding. *)
Fixpoint bytesOf (s : string) : list Z :=
  match s with "" => [] | String a s => byte_of a :: bytesOf s end.
Fixpoint stringOf (l : list Z) : string :=
  match l with [] => "" | z :: l => String (ascii_of z) (stringOf l) end.

Definition be32 (z : Z) : list Z :=
  [Z.land (Z.shiftr z 24) 255; Z.land (Z.shiftr z 16) 255; Z.land (Z.shiftr z 8) 255; Z.land z 255].

Fixpoint words32 (l : list Z) : list Z :=
  match l with
  | a :: b :: c :: d :: l => (((a * 256 + b) * 256 + c) * 256 + d) :: words32 l
  | _ => []
  end.

Definition shaPad (l : list Z) : list Z :=
  let n := Z.of_nat (length l) in
  let zeros := Z.to_nat ((55 - n) mod 64) in
  l ++ [128] ++ repeat 0 zeros ++ be32 (Z.shiftr (8 * n) 32) ++ be32 (w32 (8 * n)).

Fixpoint chunks16 (fuel : nat) (l : list Z) : list (list Z) :=
  match fuel, l with
  | S fuel, _ :: _ => firstn 16 l :: chunks16 fuel (skipn 16 l)
  | _, _ => []
  end.

Definition digestBytes (s : shaState) : list Z :=
  be32 (sa s) ++ be32 (sb s) ++ be32 (sc s) ++ be32 (sd s) ++
  be32 (se s) ++ be32 (sf s) ++ be32 (sg s) ++ be32 (sh s).

Definition sha256Bytes (l : list Z) : list Z :=
  let ws := words32 (shaPad l) in
  digestBytes (fold_left shaBlock (chunks16 (length ws) ws) shaInit).

(** [sha256.Sum256]. *)
Definition sha256 (s : string) : string := stringOf (sha256Bytes (bytesOf s)).

(** [hmac.New(sha256.New, key)], the message written to it, then [Sum(nil)]. *)
Definition hmacSha256 (key msg : string) : string :=
  let k0 := bytesOf key in
  let k := if decide (64 < Z.of_nat (length k0)) then sha256Bytes k0 else k0 in
  let k := k ++ repeat 0 (64 - length k) in
  let inner := sha256Bytes (map (Z.lxor 54) k ++ bytesOf msg) in
  stringOf (sha256Bytes (map (Z.lxor 92) k ++ inner)).

(** [hex.EncodeToString] and [hex.DecodeString]. *)
Definition hexLower (n : Z) : ascii := if n <? 10 then ascii_of (48 + n) else ascii_of (87 + n).

Fixpoint hexEncode (s : string) : string :=
  match s with
  | "" => ""
  | String a s => String (hexLower (byte_of a / 16)) (String (hexLower (byte_of a mod 16)) (hexEncode s))
  end.

Definition fromHex (a : ascii) : option Z :=
  let b := byte_of a in
  if (48 <=? b) && (b <=? 57) then Some (b - 48)
  else if (97 <=? b) && (b <=? 102) then Some (b - 87)
  else if (65 <=? b) && (b <=? 70) then Some (b - 55)
  else None.

Fixpoint hexDecode (s : string) : option string :=
  match s with
  | "" => Some ""
  | String a s' =>
      match s' with
      | "" => None
      | String b s'' =>
          x ← fromHex a; y ← fromHex b; r ← hexDecode s'';
          Some (String (ascii_of (16 * x + y)) r)
      end
  end.

(** ** Test vectors (FIPS 180-4, RFC 4231) *)
Example sha256_abc :
  hexEncode (sha256 "abc") = "ba7816bf8f01cfea414140de5dae2223b00361a396177a9cb410ff61f20015ad".
Proof. vm_compute. reflexivity. Qed.

Example hmac_rfc4231_2 :
  hexEncode (hmacSha256 "Jefe" "what do ya want for nothing?")
  = "5bdcc146bf60754e6a042426089575c75a003f089d2739839dec58b964ec3843".
Proof. vm_compute. reflexivity. Qed.

(** ** Lengths and round trips *)
Lemma stringOf_length l : String.length (stringOf l) = length l.
Proof. induction l; simpl; congruence. Qed.

Lemma sha256Bytes_length l : length (sha256Bytes l) = 32%nat.
Proof. reflexivity. Qed.

Lemma sha256_length s : String.length (sha256 s) = 32%nat.
Proof. unfold sha256. by rewrite stringOf_length, sha256Bytes_length. Qed.

Lemma hmac_length k m : String.length (hmacSha256 k m) = 32%nat.
Proof. unfold hmacSha256. by rewrite stringOf_length, sha256Bytes_length. Qed.

Lemma hexEncode_length s : String.length (hexEncode s) = (2 * String.length s)%nat.
Proof. induction s; simpl; lia. Qed.

Definition is_hex (a : ascii) : bool :=
  ((48 <=? byte_of a) && (byte_of a <=? 57)) || ((97 <=? byte_of a) && (byte_of a <=? 102)).

Lemma nibble_cases n : 0 ≤ n < 16 →
  n = 0 ∨ n = 1 ∨ n = 2 ∨ n = 3 ∨ n = 4 ∨ n = 5 ∨ n = 6 ∨ n = 7 ∨
  n = 8 ∨ n = 9 ∨ n = 10 ∨ n = 11 ∨ n = 12 ∨ n = 13 ∨ n = 14 ∨ n = 15.
Proof. lia. Qed.

Lemma hexLower_ok n : 0 ≤ n < 16 → is_hex (hexLower n) = true ∧ fromHex (hexLower n) = Some n.
Proof. intros H%nibble_cases. destruct_or! H; subst; done. Qed.

Lemma nibbles_range a : 0 ≤ byte_of a / 16 < 16 ∧ 0 ≤ byte_of a mod 16 < 16.
Proof.
  pose proof (byte_of_range a). pose proof (Z.mod_pos_bound (byte_of a) 16).
  split; [split|lia]; [apply Z.div_pos; lia|apply Z.div_lt_upper_bound; lia].
Qed.

Lemma hexEncode_hex s : string_all is_hex (hexEncode s) = true.
Proof.
  induction s as [|a s IH]; [done|]. cbn [hexEncode string_all].
  destruct (nibbles_range a) as [H1 H2].
  destruct (hexLower_ok _ H1) as [-> _], (hexLower_ok _ H2) as [-> _]. done.
Qed.

Lemma hexDecode_encode s : hexDecode (hexEncode s) = Some s.
Proof.
  induction s as [|a s IH]; [done|]. cbn [hexEncode hexDecode].
  destruct (nibbles_range a) as [H1 H2].
  destruct (hexLower_ok _ H1) as [_ ->], (hexLower_ok _ H2) as [_ ->].
  rewrite IH. simpl. f_equal. f_equal.
  rewrite <-(Z.div_mod (byte_of a) 16) by lia. apply ascii_byte_of.
Qed.

#[export] Instance hexEncode_inj : Inj (=) (=) hexEncode.
Proof.
  intros s t H. pose proof (hexDecode_encode s) as Hs.
  rewrite H, hexDecode_encode in Hs. congruence.
Qed.
