(* ===== verification/GoTime.v ===== *)
(** * Go's [time.Time] and [time.Duration]

    A time is its wall clock reading: seconds since 1 January of year 1 in an
    [int64] and nanoseconds in [0, 1e9).  A duration is an [int64] number of
    nanoseconds.  [Unix], [Add], [Sub] and the comparisons are translated with
    their wrap-around and saturation; the monotonic reading that [time.Now]
    adds is not modelled, so [Sub] and [Before] work on the wall clock. *)

From S2P Require Import Prelude.

Record Time : Type := MkTime { t_sec : Z; t_nsec : Z }.

#[export] Instance Time_eq_dec : EqDecision Time.
Proof. solve_decision. Defined.

Definition nanos : Z := 1000000000.
Definition Millisecond : Z := 1000000.
Definition Second : Z := nanos.
Definition zeroTime : Time := MkTime 0 0.
Definition isZero (t : Time) : bool := (t_sec t =? 0) && (t_nsec t =? 0).

(** [time.Unix(sec, 0)]: the internal epoch is 62135596800 s earlier. *)
Definition unixToInternal : Z := 62135596800.
Definition unix (sec : Z) : Time := MkTime (wrap64 (sec + unixToInternal)) 0.

Definition before (t u : Time) : bool :=
  (t_sec t <? t_sec u) || ((t_sec t =? t_sec u) && (t_nsec t <? t_nsec u)).
Definition after (t u : Time) : bool := before u t.
Definition timeEq (t u : Time) : bool := (t_sec t =? t_sec u) && (t_nsec t =? t_nsec u).

(** [Time.addSec]: saturates on overflow. *)
Definition addSec (sec d : Z) : Z :=
  let sum := wrap64 (sec + d) in
  if Bool.eqb (sec <? sum) (0 <? d) then sum
  else if 0 <? d then int64_max else - int64_max.

Definition add (t : Time) (d : Z) : Time :=
  let dsec := Z.quot d nanos in
  let nsec := t_nsec t + Z.rem d nanos in
  if nanos <=? nsec then MkTime (addSec (t_sec t) (dsec + 1)) (nsec - nanos)
  else if nsec <? 0 then MkTime (addSec (t_sec t) (dsec - 1)) (nsec + nanos)
  else MkTime (addSec (t_sec t) dsec) nsec.

(** [Time.Sub]. *)
Definition sub (t u : Time) : Z :=
  let d := wrap64 (wrap64 (wrap64 (t_sec t - t_sec u) * nanos) + (t_nsec t - t_nsec u)) in
  if timeEq (add u d) t then d
  else if before t u then int64_min else int64_max.

(** ** The exact reading of a time, and saturation *)
Definition total (t : Time) : Z := t_sec t * nanos + t_nsec t.

Definition time_ok (t : Time) : Prop := in_int64 (t_sec t) ∧ 0 ≤ t_nsec t < nanos.
#[export] Instance time_ok_dec t : Decision (time_ok t).
Proof. unfold time_ok. apply _. Defined.

Definition clamp64 (z : Z) : Z := Z.max int64_min (Z.min int64_max z).

Ltac unfold_time :=
  unfold time_ok, in_int64, int64_min, int64_max, total, nanos, zeroTime in *; cbn [t_sec t_nsec] in *.

Lemma unix_ok s : time_ok (unix s).
Proof. split; [apply wrap64_range|]. unfold unix. unfold_time. lia. Qed.

Lemma before_spec t u : time_ok t → time_ok u → before t u = true ↔ total t < total u.
Proof.
  intros Ht Hu. unfold before. unfold_time.
  rewrite orb_true_iff, andb_true_iff, !Z.ltb_lt, Z.eqb_eq. lia.
Qed.

Lemma before_false t u : time_ok t → time_ok u → before t u = false ↔ total u ≤ total t.
Proof.
  intros Ht Hu. rewrite <-not_true_iff_false, (before_spec t u Ht Hu). lia.
Qed.

Lemma timeEq_spec t u : timeEq t u = true ↔ t = u.
Proof.
  unfold timeEq. rewrite andb_true_iff, !Z.eqb_eq. destruct t, u; simpl.
  split; [by intros [-> ->]|by intros [= -> ->]].
Qed.

Lemma total_inj t u : time_ok t → time_ok u → total t = total u → t = u.
Proof. destruct t, u. unfold_time. intros. f_equal; lia. Qed.

(** Without overflow [addSec] is addition; otherwise it saturates. *)
Lemma addSec_exact s d : in_int64 s → in_int64 d → in_int64 (s + d) → addSec s d = s + d.
Proof.
  intros Hs Hd Hsum. unfold addSec. rewrite (wrap64_id (s + d)) by done.
  replace (Bool.eqb (s <? s + d) (0 <? d)) with true; [done|].
  symmetry. apply eqb_true_iff.
  destruct (Z.ltb_spec 0 d), (Z.ltb_spec s (s + d)); lia.
Qed.

Lemma addSec_sat s d : in_int64 s → in_int64 d → ¬ in_int64 (s + d) →
  addSec s d = if 0 <? d then int64_max else - int64_max.
Proof.
  unfold in_int64, int64_min, int64_max. intros Hs Hd Hsum. unfold addSec, wrap64.
  assert ((s + d + 2 ^ 63) mod 2 ^ 64 - 2 ^ 63 = if 0 <? d then s + d - 2 ^ 64 else s + d + 2 ^ 64)
    as ->.
  { destruct (Z.ltb_spec 0 d).
    - replace (s + d + 2 ^ 63) with (s + d - 2 ^ 63 + 1 * 2 ^ 64) by lia.
      rewrite Z_mod_plus_full, Z.mod_small by lia. lia.
    - replace (s + d + 2 ^ 63) with (s + d + 3 * 2 ^ 63 + (-1) * 2 ^ 64) by lia.
      rewrite Z_mod_plus_full, Z.mod_small by lia. lia. }
  destruct (Z.ltb_spec 0 d).
  - by destruct (Z.ltb_spec s (s + d - 2 ^ 64)); [lia|].
  - by destruct (Z.ltb_spec s (s + d + 2 ^ 64)); [|lia].
Qed.

(** How [add] splits its argument. *)
Lemma add_split t d : time_ok t → in_int64 d →
  ∃ k n, add t d = MkTime (addSec (t_sec t) k) n ∧ in_int64 k ∧ 0 ≤ n < nanos ∧
         (k * nanos + n = t_nsec t + d) ∧ (0 < k → 0 < d) ∧ (k < 0 → d < 0).
Proof.
  intros Ht Hd. unfold add.
  pose proof (Z.quot_rem' d nanos) as Hqr.
  assert (- nanos < Z.rem d nanos < nanos) as Hr.
  { destruct (Z.le_gt_cases 0 d).
    - pose proof (Z.rem_bound_pos_pos d nanos). unfold_time. lia.
    - pose proof (Z.rem_bound_pos_neg d nanos). unfold_time. lia. }
  assert (0 ≤ d → 0 ≤ Z.rem d nanos) by (intros; apply Z.rem_nonneg; unfold_time; lia).
  assert (d ≤ 0 → Z.rem d nanos ≤ 0) by (intros; apply Z.rem_nonpos; unfold_time; lia).
  generalize dependent (Z.quot d nanos). generalize dependent (Z.rem d nanos).
  intros r Hr ? ? q Hqr.
  destruct (Z.leb_spec nanos (t_nsec t + r)); [|destruct (Z.ltb_spec (t_nsec t + r) 0)].
  - exists (q + 1), (t_nsec t + r - nanos). unfold_time. split_and!; try done; lia.
  - exists (q - 1), (t_nsec t + r + nanos). unfold_time. split_and!; try done; lia.
  - exists q, (t_nsec t + r). unfold_time. split_and!; try done; lia.
Qed.

(** [add] is exact when the result is a representable time. *)
Lemma add_exact t d : time_ok t → in_int64 d →
  int64_min * nanos ≤ total t + d < (int64_max + 1) * nanos →
  time_ok (add t d) ∧ total (add t d) = total t + d.
Proof.
  intros Ht Hd Hrange. destruct (add_split t d Ht Hd) as (k & n & -> & Hk & Hn & Heq & _).
  assert (in_int64 (t_sec t + k)) by (unfold_time; lia).
  destruct Ht. rewrite addSec_exact by done. unfold_time. lia.
Qed.

Lemma sub_wrapped t u : time_ok t → time_ok u →
  ∃ k, wrap64 (wrap64 (wrap64 (t_sec t - t_sec u) * nanos) + (t_nsec t - t_nsec u))
       = total t - total u + k * 2 ^ 64.
Proof.
  intros _ _.
  assert (∀ z, ∃ k, wrap64 z = z + k * 2 ^ 64) as Hw.
  { intros z. exists (- ((z + 2 ^ 63) / 2 ^ 64)). unfold wrap64.
    pose proof (Z.div_mod (z + 2 ^ 63) (2 ^ 64)). lia. }
  destruct (Hw (t_sec t - t_sec u)) as [k1 ->].
  destruct (Hw ((t_sec t - t_sec u + k1 * 2 ^ 64) * nanos)) as [k2 ->].
  match goal with |- context [wrap64 ?z] => destruct (Hw z) as [k3 ->] end.
  exists (k1 * nanos + k2 + k3). unfold total, nanos. lia.
Qed.

(** [Sub] is the exact difference, saturated to an [int64]. *)
Theorem sub_saturates t u : time_ok t → time_ok u → sub t u = clamp64 (total t - total u).
Proof.
  intros Ht Hu. unfold sub. destruct (sub_wrapped t u Ht Hu) as [k Hk].
  pose proof (wrap64_range (wrap64 (wrap64 (t_sec t - t_sec u) * nanos) + (t_nsec t - t_nsec u))) as Hd.
  generalize dependent (wrap64 (wrap64 (wrap64 (t_sec t - t_sec u) * nanos) + (t_nsec t - t_nsec u))).
  intros d Hk Hd.
  destruct (timeEq (add u d) t) eqn:Heq.
  - apply timeEq_spec in Heq.
    destruct (decide (int64_min * nanos ≤ total u + d < (int64_max + 1) * nanos)) as [Hr|Hr].
    + destruct (add_exact u d Hu Hd Hr) as [_ Htot]. rewrite Heq in Htot.
      unfold clamp64. unfold_time. lia.
    + destruct (add_split u d Hu Hd) as (q & n & Hadd & Hq & Hn & Hsum & Hpos & Hneg).
      assert (¬ in_int64 (t_sec u + q)) as Hout by (unfold_time; lia).
      rewrite Heq in Hadd. destruct Hu as [Hu1 Hu2].
      rewrite addSec_sat in Hadd by done.
      clear Heq. subst t. unfold clamp64. unfold_time.
      destruct (Z.ltb_spec 0 q); simpl in *; lia.
  - assert (d ≠ total t - total u) as Hne.
    { intros ->. destruct (add_exact u (total t - total u) Hu Hd) as [Hok Htot].
      { unfold_time. lia. }
      rewrite (total_inj _ t Hok Ht) in Heq by lia.
      assert (timeEq t t = true) by (by apply timeEq_spec). congruence. }
    destruct (before t u) eqn:Hb.
    + apply before_spec in Hb; [|done..]. unfold clamp64. unfold_time. lia.
    + apply before_false in Hb; [|done..]. unfold clamp64. unfold_time. lia.
Qed.
