(* ===== verification/Json.v ===== *)
(** * JSON documents and [encoding/json]'s decoding into Go values

    Requests and responses of the HTTP clients and the state file are JSON.
    The model works on parsed documents: [JInt] is a number literal without
    fraction or exponent, [JFloat] any other number.  Decoding follows
    [json.Unmarshal]: [null] leaves the destination alone, an object's keys
    are matched without regard to case, unknown keys are ignored, a later key
    overwrites an earlier one, and a value of the wrong type is an error. *)

From S2P Require Import Prelude GoStrings.

Inductive json : Type :=
| JNull
| JBool (b : bool)
| JInt (z : Z)
| JFloat (literal : string)
| JStr (s : string)
| JArr (l : list json)
| JObj (fields : list (string * json)).

Definition decString (cur : string) (j : json) : option string :=
  match j with JStr s => Some s | JNull => Some cur | _ => None end.

Definition decInt (cur : Z) (j : json) : option Z :=
  match j with
  | JInt z => if decide (in_int64 z) then Some z else None
  | JNull => Some cur
  | _ => None
  end.

Definition decBool (cur : bool) (j : json) : option bool :=
  match j with JBool b => Some b | JNull => Some cur | _ => None end.

(** A field of type [*int]. *)
Definition decIntPtr (j : json) : option (option Z) :=
  match j with
  | JNull => Some None
  | _ => z ← decInt 0 j; Some (Some z)
  end.

(** A slice: [null] gives nil. *)
Definition decList {A} (dec : json → option A) (j : json) : option (list A) :=
  match j with JArr l => mapM dec l | JNull => Some [] | _ => None end.

(** A [map[string]string]; a [null] member becomes the empty string. *)
Definition decStringMap (cur : gmap string string) (j : json) : option (gmap string string) :=
  match j with
  | JNull => Some ∅
  | JObj fields =>
      foldl (λ acc kv, m ← acc; s ← decString "" kv.2; Some (<[kv.1 := s]> m)) (Some cur) fields
  | _ => None
  end.

(** A struct: [step] assigns one object member to the field it names. *)
Definition decStruct {A} (step : A → string → json → option A) (init : A) (j : json) : option A :=
  match j with
  | JNull => Some init
  | JObj fields => foldl (λ acc kv, a ← acc; step a kv.1 kv.2) (Some init) fields
  | _ => None
  end.

(** [field]: does this member name that struct field? *)
Definition field (key name : string) : bool := equalFold key name.

(** What [json.Marshal] writes for a string. *)
Definition encString (s : string) : json := JStr (coerceUTF8 s).

Lemma decInt_range cur j z : decInt cur j = Some z → in_int64 cur → in_int64 z.
Proof. destruct j; simpl; intros; repeat case_decide; naive_solver. Qed.

Lemma decStruct_cons {A} (step : A → string → json → option A) init k v l a :
  step init k v = Some a → decStruct step init (JObj ((k, v) :: l)) = decStruct step a (JObj l).
Proof. intros Hs. cbn [decStruct foldl]. cbn [mbind option_bind fst snd]. by rewrite Hs. Qed.

Lemma decInt_JInt cur z : in_int64 z → decInt cur (JInt z) = Some z.
Proof. intros H. cbn [decInt]. by rewrite decide_True. Qed.

Lemma decList_length {A} (dec : json → option A) l r :
  decList dec (JArr l) = Some r → length r = length l.
Proof. intros Hm. cbn [decList] in Hm. apply length_mapM in Hm. done. Qed.

Lemma runes_raw s : concat_strings (map rune_raw (runes s)) = s.
Proof.
  assert (∀ n s, (String.length s < n)%nat → concat_strings (map rune_raw (runes s)) = s) as H;
    [|apply (H (S (String.length s))); lia].
  unfold concat_strings.
  induction n as [|n IH]; intros t Ht; [lia|].
  destruct t as [|a t]; [done|]. simpl in Ht.
  cbn [runes]. destruct (byte_of a <? 128); [cbn [map foldr rune_raw]; rewrite IH by lia; done|].
  destruct t as [|b t]; [done|]. simpl in Ht.
  destruct (ok2 a b); [cbn [map foldr rune_raw]; rewrite IH by lia; done|].
  destruct t as [|c t];
    [cbn [map foldr rune_raw]; rewrite IH by (simpl; lia); done|]. simpl in Ht.
  destruct (ok3 a b c); [cbn [map foldr rune_raw]; rewrite IH by lia; done|].
  destruct t as [|d t];
    [cbn [map foldr rune_raw]; rewrite IH by (simpl; lia); done|]. simpl in Ht.
  destruct (ok4 a b c d); cbn [map foldr rune_raw]; rewrite IH by (simpl; lia); done.
Qed.

(** A valid UTF-8 string is written as it is. *)
Lemma coerceUTF8_valid s : utf8Valid s = true → coerceUTF8 s = s.
Proof.
  unfold utf8Valid, coerceUTF8. intros H. rewrite <-(runes_raw s) at 2.
  f_equal. induction (runes s) as [|r l IH]; [done|]. simpl in *.
  apply andb_true_iff in H as [Hr Hl]. rewrite (IH Hl). by destruct r.
Qed.

Lemma decString_enc cur s : utf8Valid s = true → decString cur (encString s) = Some s.
Proof. intros H. simpl. by rewrite coerceUTF8_valid. Qed.
