(* ===== verification/World.v ===== *)
(** * The outside world of the process

    Everything the process reads from outside is an arbitrary machine [S]
    ([Env]): HTTP servers, environment variables, files of credentials, the
    clock, failures of file-system calls and the order in which Go ranges over
    a map.  Nothing is assumed of it except that a range visits each entry
    once.  [Sys] adds what the process does to the outside: the HTTP exchanges
    it took part in, in order, the files it wrote and the lock files it holds. *)

From S2P Require Import Prelude GoStrings GoTime Json.

(** ** HTTP *)
Inductive payload : Type :=
| BNone
| BJson (j : json)
| BForm (values : list (string * string)).

Record HttpReq : Type := MkReq
  { rq_method : string;
    rq_url : string;
    rq_query : list (string * string);
    rq_header : list (string * string);
    rq_body : payload }.

(** [rs_body = None]: no JSON value can be decoded from the body. *)
Record HttpResp : Type := MkResp
  { rs_status : Z;
    rs_header : list (string * string);
    rs_body : option json }.

(** [http.Header.Get]: empty when absent. *)
Definition headerGet (h : list (string * string)) (k : string) : string :=
  match list_find (λ kv, kv.1 = k) h with Some (_, (_, v)) => v | None => "" end.

(** [status < 200 || status >= 300] is false. *)
Definition is2xx (status : Z) : bool := (200 <=? status) && (status <? 300).

(** ** The file system *)
Inductive FsCall : Type :=
| FsMkdirAll | FsCreateTemp | FsChmod | FsWrite | FsSync | FsClose
| FsRename | FsOpenDir | FsSyncDir | FsCloseDir | FsOpenLock | FsUnlock | FsRead | FsRemove.

(** A file holds a JSON document or bytes that are no JSON document. *)
Inductive file : Type :=
| FDoc (j : json)
| FTorn.

Class Env (S : Type) : Type := {
  env_http : HttpReq → S → outcome err HttpResp * S;
  env_getenv : string → S → option string * S;
  env_read : string → S → outcome err string * S;
  env_now : S → Time * S;
  env_fault : FsCall → S → bool * S;
  env_temp : S → string * S;
  env_order : ∀ A : Type, list A → S → list A * S;
  env_order_perm : ∀ (A : Type) (l : list A) (s : S), fst (env_order A l s) ≡ₚ l
}.

(** An exchange: the request sent and what came back. *)
Definition Exchange : Type := HttpReq * outcome err HttpResp.

Record Sys (S : Type) : Type := MkSys
  { sys_env : S;
    sys_trace : list Exchange;
    sys_fs : gmap string file;
    sys_locks : gset string }.
Arguments MkSys {S} _ _ _ _.
Arguments sys_env {S} _.
Arguments sys_trace {S} _.
Arguments sys_fs {S} _.
Arguments sys_locks {S} _.

(** What a client makes of the error of an exchange. *)
Definition httpErr (build call : string) (e : err) : err :=
  match e with EBuild e => EWrap build e | _ => EWrap call e end.

Section ops.
Context {S : Type} `{Env S} {E : Type}.

Definition set_env (s : S) (w : Sys S) : Sys S :=
  MkSys s (sys_trace w) (sys_fs w) (sys_locks w).
Definition set_fs (fs : gmap string file) (w : Sys S) : Sys S :=
  MkSys (sys_env w) (sys_trace w) fs (sys_locks w).
Definition set_locks (l : gset string) (w : Sys S) : Sys S :=
  MkSys (sys_env w) (sys_trace w) (sys_fs w) l.

(** [http.NewRequest] and [httpClient.Do]: the exchange is recorded whatever its
    outcome, even when nothing was sent because the request could not be built. *)
Definition httpDo (r : HttpReq) : M (Sys S) E (outcome err HttpResp) := λ w,
  let '(o, s) := env_http r (sys_env w) in
  (Ok o, MkSys s (sys_trace w ++ [(r, o)]) (sys_fs w) (sys_locks w)).

Definition lookupEnv (name : string) : M (Sys S) E (option string) := λ w,
  let '(o, s) := env_getenv name (sys_env w) in (Ok o, set_env s w).

Definition readFile (path : string) : M (Sys S) E (outcome err string) := λ w,
  let '(o, s) := env_read path (sys_env w) in (Ok o, set_env s w).

Definition timeNow : M (Sys S) E Time := λ w,
  let '(t, s) := env_now (sys_env w) in (Ok t, set_env s w).

(** [range] over the entries of a Go map, in an order Go does not specify. *)
Definition rangeOrder {A} (l : list A) : M (Sys S) E (list A) := λ w,
  let '(l', s) := env_order A l (sys_env w) in (Ok l', set_env s w).

Definition fsFails (c : FsCall) : M (Sys S) E bool := λ w,
  let '(b, s) := env_fault c (sys_env w) in (Ok b, set_env s w).

(** The random part of the name [os.CreateTemp] tries. *)
Definition tempSuffix : M (Sys S) E string := λ w,
  let '(n, s) := env_temp (sys_env w) in (Ok n, set_env s w).
End ops.

(** ** What each operation may change *)
Section ops_lemmas.
Context {S : Type} `{Env S} {E : Type}.

(** A predicate on the parts of [Sys] other than the environment. *)
Definition frame (w w' : Sys S) : Prop :=
  sys_trace w = sys_trace w' ∧ sys_fs w = sys_fs w' ∧ sys_locks w = sys_locks w'.

#[export] Instance frame_equiv : Equivalence frame.
Proof. unfold frame. split; red; naive_solver congruence. Qed.

Lemma triple_rangeOrder {A} (l : list A) (P : Sys S → Prop) (Q : list A → Sys S → Prop) X :
  (∀ w w' l', P w → frame w w' → l' ≡ₚ l → Q l' w') →
  triple (E:=E) P (rangeOrder l) Q X.
Proof.
  intros HQ w Hw. unfold rangeOrder.
  pose proof (env_order_perm A l (sys_env w)) as Hp.
  destruct (env_order A l (sys_env w)) as [l' s]. by apply (HQ w).
Qed.

Lemma triple_timeNow (P : Sys S → Prop) (Q : Time → Sys S → Prop) X :
  (∀ w w' t, P w → frame w w' → Q t w') → triple (E:=E) P timeNow Q X.
Proof. intros HQ w Hw. unfold timeNow. destruct (env_now _) as [t s]. by apply (HQ w). Qed.

Lemma triple_lookupEnv n (P : Sys S → Prop) (Q : option string → Sys S → Prop) X :
  (∀ w w' t, P w → frame w w' → Q t w') → triple (E:=E) P (lookupEnv n) Q X.
Proof. intros HQ w Hw. unfold lookupEnv. destruct (env_getenv n _) as [t s]. by apply (HQ w). Qed.

Lemma triple_readFile n (P : Sys S → Prop) (Q : outcome err string → Sys S → Prop) X :
  (∀ w w' t, P w → frame w w' → Q t w') → triple (E:=E) P (readFile n) Q X.
Proof. intros HQ w Hw. unfold readFile. destruct (env_read n _) as [t s]. by apply (HQ w). Qed.

Lemma triple_fsFails c (P : Sys S → Prop) (Q : bool → Sys S → Prop) X :
  (∀ w w' b, P w → frame w w' → Q b w') → triple (E:=E) P (fsFails c) Q X.
Proof. intros HQ w Hw. unfold fsFails. destruct (env_fault c _) as [t s]. by apply (HQ w). Qed.

Lemma triple_tempSuffix (P : Sys S → Prop) (Q : string → Sys S → Prop) X :
  (∀ w w' n, P w → frame w w' → Q n w') → triple (E:=E) P tempSuffix Q X.
Proof. intros HQ w Hw. unfold tempSuffix. destruct (env_temp _) as [n s]. by apply (HQ w). Qed.

Lemma triple_httpDo r (P : Sys S → Prop) (Q : outcome err HttpResp → Sys S → Prop) X :
  (∀ w w' o, P w → (sys_trace w' = sys_trace w ++ [(r, o)]) → (sys_fs w' = sys_fs w) →
     (sys_locks w' = sys_locks w) → Q o w') →
  triple (E:=E) P (httpDo r) Q X.
Proof. intros HQ w Hw. unfold httpDo. destruct (env_http r _) as [o s]. by apply (HQ w). Qed.
End ops_lemmas.

(** ** A scripted outside, for running the definitions on concrete inputs *)
Definition scriptEnv {V : Type} (http : HttpReq → V → outcome err HttpResp * V)
    (getenv : string → option string) (read : string → outcome err string)
    (now : V → Time * V) (fault : FsCall → V → bool * V) : Env V.
Proof.
  refine {| env_http := http;
            env_getenv n s := (getenv n, s);
            env_read n s := (read n, s);
            env_now := now;
            env_fault := fault;
            env_temp s := ("tmp", s);
            env_order A l s := (l, s) |}.
  done.
Defined.

(** An outside where nothing fails and no server answers. *)
Definition quietEnv : Env Time :=
  scriptEnv (λ _ s, (Err (EMsg "no server"), s)) (λ _, None) (λ _, Err (EMsg "no file"))
    (λ t, (t, t)) (λ _ s, (false, s)).
