(* ===== verification/State.v ===== *)
(** * The ownership ledger ([internal/state/store.go])

    [Store] is the in-memory ledger; its operations run over the ledger and
    the outside world ([Sys]), and every one that changes the ledger writes the
    whole ledger to disk before it returns. *)

From S2P Require Import Prelude GoStrings GoTime Json World.

(** ** Data *)
Record Membership : Type := MkMembership
  { mb_Provider : string; mb_GroupID : string; mb_UserID : string }.

Record GroupMapping : Type := MkGroupMapping
  { gm_Provider : string;
    gm_Rule : string;
    gm_SourceGroupID : string;
    gm_SourceNativeID : string;
    gm_SourceGroupPath : string;
    gm_TargetGroupID : string;
    gm_TargetGroupPath : string;
    gm_Owned : bool }.

Record Absence : Type := MkAbsence
  { ab_Provider : string; ab_GroupID : string; ab_UserID : string; ab_Observations : Z }.

Record diskState : Type := MkDisk
  { ds_Version : Z;
    ds_Memberships : list Membership;
    ds_GroupMappings : list GroupMapping;
    ds_Absences : list Absence }.

(** [st_locked]: the lock file is open ([lockFile != nil]). *)
Record Store : Type := MkStore
  { st_path : string;
    st_records : gmap string Membership;
    st_groups : gmap string GroupMapping;
    st_absences : gmap string Absence;
    st_locked : bool }.

#[export] Instance Membership_eq_dec : EqDecision Membership.
Proof. solve_decision. Defined.
#[export] Instance GroupMapping_eq_dec : EqDecision GroupMapping.
Proof. solve_decision. Defined.
#[export] Instance Absence_eq_dec : EqDecision Absence.
Proof. solve_decision. Defined.

Definition set_records (r : gmap string Membership) (s : Store) : Store :=
  MkStore (st_path s) r (st_groups s) (st_absences s) (st_locked s).
Definition set_groups (g : gmap string GroupMapping) (s : Store) : Store :=
  MkStore (st_path s) (st_records s) g (st_absences s) (st_locked s).
Definition set_absences (a : gmap string Absence) (s : Store) : Store :=
  MkStore (st_path s) (st_records s) (st_groups s) a (st_locked s).
Definition set_locked (b : bool) (s : Store) : Store :=
  MkStore (st_path s) (st_records s) (st_groups s) (st_absences s) b.

(** ** Keys *)
Definition NUL : ascii := "000"%char.

Definition key (provider groupID userID : string) : string :=
  provider +:+ String NUL (groupID +:+ String NUL userID).
Definition groupKey (provider rule sourceGroupID : string) : string :=
  provider +:+ String NUL (rule +:+ String NUL sourceGroupID).

Definition membershipKey (m : Membership) : string :=
  key (mb_Provider m) (mb_GroupID m) (mb_UserID m).
Definition mappingKey (g : GroupMapping) : string :=
  groupKey (gm_Provider g) (gm_Rule g) (gm_SourceGroupID g).
Definition absenceKey (a : Absence) : string :=
  key (ab_Provider a) (ab_GroupID a) (ab_UserID a).

(** [sort.Slice] by a string key. *)
Definition keyLe {A} (k : A → string) (x y : A) : Prop := String.le (k x) (k y).
#[export] Instance keyLe_dec {A} (k : A → string) : RelDecision (keyLe k).
Proof. intros x y. unfold keyLe. apply _. Defined.
Definition sortBy {A} (k : A → string) (l : list A) : list A := merge_sort (keyLe k) l.

(** ** The file format *)
Definition encMembership (m : Membership) : json :=
  JObj [("provider", encString (mb_Provider m)); ("groupId", encString (mb_GroupID m));
        ("userId", encString (mb_UserID m))].

Definition encMapping (g : GroupMapping) : json :=
  JObj ([("provider", encString (gm_Provider g)); ("rule", encString (gm_Rule g));
         ("sourceGroupId", encString (gm_SourceGroupID g))] ++
        (if decide (gm_SourceNativeID g = "") then []
         else [("sourceNativeId", encString (gm_SourceNativeID g))]) ++
        [("sourceGroupPath", encString (gm_SourceGroupPath g));
         ("targetGroupId", encString (gm_TargetGroupID g));
         ("targetGroupPath", encString (gm_TargetGroupPath g));
         ("owned", JBool (gm_Owned g))]).

Definition encAbsence (a : Absence) : json :=
  JObj [("provider", encString (ab_Provider a)); ("groupId", encString (ab_GroupID a));
        ("userId", encString (ab_UserID a)); ("observations", JInt (ab_Observations a))].

Definition encodeDisk (d : diskState) : json :=
  JObj [("version", JInt (ds_Version d));
        ("managedMemberships", JArr (map encMembership (ds_Memberships d)));
        ("groupMappings", JArr (map encMapping (ds_GroupMappings d)));
        ("absenceObservations", JArr (map encAbsence (ds_Absences d)))].

Definition decMembership : json → option Membership :=
  decStruct (λ m k v,
    if field k "provider" then p ← decString (mb_Provider m) v; Some (MkMembership p (mb_GroupID m) (mb_UserID m))
    else if field k "groupId" then g ← decString (mb_GroupID m) v; Some (MkMembership (mb_Provider m) g (mb_UserID m))
    else if field k "userId" then u ← decString (mb_UserID m) v; Some (MkMembership (mb_Provider m) (mb_GroupID m) u)
    else Some m) (MkMembership "" "" "").

Definition decMapping : json → option GroupMapping :=
  decStruct (λ '(MkGroupMapping p r i n sp ti tp o) k v,
    if field k "provider" then x ← decString p v; Some (MkGroupMapping x r i n sp ti tp o)
    else if field k "rule" then x ← decString r v; Some (MkGroupMapping p x i n sp ti tp o)
    else if field k "sourceGroupId" then x ← decString i v; Some (MkGroupMapping p r x n sp ti tp o)
    else if field k "sourceNativeId" then x ← decString n v; Some (MkGroupMapping p r i x sp ti tp o)
    else if field k "sourceGroupPath" then x ← decString sp v; Some (MkGroupMapping p r i n x ti tp o)
    else if field k "targetGroupId" then x ← decString ti v; Some (MkGroupMapping p r i n sp x tp o)
    else if field k "targetGroupPath" then x ← decString tp v; Some (MkGroupMapping p r i n sp ti x o)
    else if field k "owned" then x ← decBool o v; Some (MkGroupMapping p r i n sp ti tp x)
    else Some (MkGroupMapping p r i n sp ti tp o)) (MkGroupMapping "" "" "" "" "" "" "" false).

Definition decAbsence : json → option Absence :=
  decStruct (λ '(MkAbsence p g u n) k v,
    if field k "provider" then x ← decString p v; Some (MkAbsence x g u n)
    else if field k "groupId" then x ← decString g v; Some (MkAbsence p x u n)
    else if field k "userId" then x ← decString u v; Some (MkAbsence p g x n)
    else if field k "observations" then x ← decInt n v; Some (MkAbsence p g u x)
    else Some (MkAbsence p g u n)) (MkAbsence "" "" "" 0).

Definition decodeDisk : json → option diskState :=
  decStruct (λ '(MkDisk n ms gs abs) k v,
    if field k "version" then x ← decInt n v; Some (MkDisk x ms gs abs)
    else if field k "managedMemberships" then x ← decList decMembership v; Some (MkDisk n x gs abs)
    else if field k "groupMappings" then x ← decList decMapping v; Some (MkDisk n ms x abs)
    else if field k "absenceObservations" then x ← decList decAbsence v; Some (MkDisk n ms gs x)
    else Some (MkDisk n ms gs abs)) (MkDisk 0 [] [] []).

(** The maps [Open] fills from the decoded file. *)
Definition indexBy {A} (k : A → string) (l : list A) : gmap string A :=
  foldl (λ acc x, <[k x := x]> acc) ∅ l.
Definition recordsOf : list Membership → gmap string Membership := indexBy membershipKey.
Definition groupsOf : list GroupMapping → gmap string GroupMapping := indexBy mappingKey.
Definition absencesOf : list Absence → gmap string Absence := indexBy absenceKey.

(** The values of a Go map, in some order. *)
Definition values {A} (m : gmap string A) : list A := snd <$> map_to_list m.

Definition tempPrefix (path : string) : string := dirName path +:+ "/.groupbridge-state-".

(** ** Operations *)
Section ops.
Context {S : Type} `{Env S}.

(** The world of the store: the ledger and the outside. *)
Notation SW := (Store * Sys S)%type.
Notation MS := (M SW err).

Definition fsTry (c : FsCall) (msg : string) : MS unit :=
  b ← zoom (fsFails c);
  if (b : bool) then mthrow (EMsg msg) else mret tt.

Definition modifyFs (f : gmap string file → gmap string file) : MS unit :=
  modify (λ w, (fst w, set_fs (f (sys_fs (snd w))) (snd w))).

(** What [saveLocked] writes. *)
Definition snapshot : MS diskState :=
  s ← gets fst;
  ms ← zoom (rangeOrder (values (st_records s)));
  gs ← zoom (rangeOrder (values (st_groups s)));
  as_ ← zoom (rangeOrder (values (st_absences s)));
  mret (MkDisk 3 (sortBy membershipKey ms) (sortBy mappingKey gs) (sortBy absenceKey as_)).

(** From the creation of the temporary file to the last sync; the deferred
    [os.Remove] is [removeTemp] in [saveLocked]. *)
Definition replaceFile (path tmp : string) (doc : json) : MS unit :=
  fsTry FsChmod "secure temporary state";;
  fsTry FsWrite "write temporary state";;
  modifyFs (insert tmp (FDoc doc));;
  fsTry FsSync "sync temporary state";;
  fsTry FsClose "close temporary state";;
  fsTry FsRename "replace state";;
  modifyFs (λ fs, match fs !! tmp with Some f => <[path := f]> (delete tmp fs) | None => fs end);;
  fsTry FsOpenDir "open state directory for sync";;
  fsTry FsSyncDir "sync state directory";;
  fsTry FsCloseDir "close state directory".

(** [defer os.Remove(tmpName)]: an error is ignored, and leaves the file. *)
Definition removeTemp (tmp : string) : MS unit :=
  failed ← zoom (fsFails FsRemove);
  if (failed : bool) then mret tt else modifyFs (delete tmp).

Definition saveLocked : MS unit :=
  data ← snapshot;
  path ← gets (λ w, st_path (fst w));
  fsTry FsMkdirAll "create state directory";;
  fsTry FsCreateTemp "create temporary state";;
  suffix ← zoom tempSuffix;
  let tmp := tempPrefix path +:+ suffix in
  taken ← gets (λ w, bool_decide (is_Some (sys_fs (snd w) !! tmp)));
  if (taken : bool) then mthrow (EMsg "create temporary state")
  else
    modifyFs (insert tmp FTorn);;
    r ← attempt (replaceFile path tmp (encodeDisk data));
    removeTemp tmp;;
    of_outcome r.

(** [if err := s.saveLocked(); err != nil { undo; return err }]. *)
Definition saveOr (undo : Store → Store) : MS unit :=
  r ← attempt saveLocked;
  match r with
  | Ok _ => mret tt
  | Err e => modify (λ w, (undo (fst w), snd w));; mthrow e
  end.

Definition modifyStore (f : Store → Store) : MS unit := modify (λ w, (f (fst w), snd w)).

(** Put a map entry back as it was. *)
Definition restore {A} (k : string) (previous : option A) (m : gmap string A) : gmap string A :=
  match previous with Some x => <[k := x]> m | None => delete k m end.

Definition IsManaged (provider groupID userID : string) : MS bool :=
  gets (λ w, bool_decide (is_Some (st_records (fst w) !! key provider groupID userID))).

Definition MarkManaged (provider groupID userID : string) : MS unit :=
  let m := MkMembership provider groupID userID in
  let k := key provider groupID userID in
  previous ← gets (λ w, st_records (fst w) !! k);
  modifyStore (λ s, set_records (<[k := m]> (st_records s)) s);;
  saveOr (λ s, set_records (restore k previous (st_records s)) s).

Definition Unmark (provider groupID userID : string) : MS unit :=
  let k := key provider groupID userID in
  previous ← gets (λ w, st_records (fst w) !! k);
  modifyStore (λ s, set_records (delete k (st_records s)) s);;
  saveOr (λ s, match previous with
               | Some p => set_records (<[k := p]> (st_records s)) s
               | None => s
               end).

Definition Group (provider rule sourceGroupID : string) : MS (option GroupMapping) :=
  gets (λ w, st_groups (fst w) !! groupKey provider rule sourceGroupID).

Definition GroupMappings : MS (list GroupMapping) :=
  s ← gets fst;
  l ← zoom (rangeOrder (values (st_groups s)));
  mret (sortBy mappingKey l).

Definition PutGroup (mapping : GroupMapping) : MS unit :=
  let k := mappingKey mapping in
  previous ← gets (λ w, st_groups (fst w) !! k);
  modifyStore (λ s, set_groups (<[k := mapping]> (st_groups s)) s);;
  saveOr (λ s, set_groups (restore k previous (st_groups s)) s).

Definition DeleteGroup (provider rule sourceGroupID : string) : MS unit :=
  let k := groupKey provider rule sourceGroupID in
  previous ← gets (λ w, st_groups (fst w) !! k);
  match previous with
  | None => mret tt
  | Some p =>
      modifyStore (λ s, set_groups (delete k (st_groups s)) s);;
      saveOr (λ s, set_groups (<[k := p]> (st_groups s)) s)
  end.

Definition set_source (id native path : string) (g : GroupMapping) : GroupMapping :=
  MkGroupMapping (gm_Provider g) (gm_Rule g) id native path
    (gm_TargetGroupID g) (gm_TargetGroupPath g) (gm_Owned g).

Definition MoveGroup (provider rule oldSourceGroupID newSourceGroupID nativeID sourcePath : string)
    : MS unit :=
  let oldKey := groupKey provider rule oldSourceGroupID in
  let newKey := groupKey provider rule newSourceGroupID in
  o ← gets (λ w, st_groups (fst w) !! oldKey);
  match o with
  | None => mthrow (EMsg "legacy source-group mapping does not exist")
  | Some mapping =>
      c ← gets (λ w, st_groups (fst w) !! newKey);
      match c with
      | Some existing =>
          if decide (gm_TargetGroupID existing = gm_TargetGroupID mapping ∧
                     gm_TargetGroupPath existing = gm_TargetGroupPath mapping) then
            let updated := set_source (gm_SourceGroupID existing) nativeID sourcePath existing in
            modifyStore (λ s, set_groups (delete oldKey (<[newKey := updated]> (st_groups s))) s);;
            saveOr (λ s, set_groups (<[newKey := existing]> (<[oldKey := mapping]> (st_groups s))) s)
          else mthrow (EMsg "canonical source-group mapping already exists with a different target")
      | None =>
          let moved := set_source newSourceGroupID nativeID sourcePath mapping in
          modifyStore (λ s, set_groups (<[newKey := moved]> (delete oldKey (st_groups s))) s);;
          saveOr (λ s, set_groups (<[oldKey := mapping]> (delete newKey (st_groups s))) s)
      end
  end.

(** True only when the same absence has been observed twice. *)
Definition ConfirmAbsent (provider groupID userID : string) : MS bool :=
  let k := key provider groupID userID in
  previous ← gets (λ w, st_absences (fst w) !! k);
  let seen := match previous with Some a => ab_Observations a | None => 0 end in
  let current := MkAbsence provider groupID userID (wrap64 (seen + 1)) in
  modifyStore (λ s, set_absences (<[k := current]> (st_absences s)) s);;
  saveOr (λ s, set_absences (restore k previous (st_absences s)) s);;
  mret (2 <=? ab_Observations current).

Definition ResetAbsent (provider groupID userID : string) : MS unit :=
  let k := key provider groupID userID in
  previous ← gets (λ w, st_absences (fst w) !! k);
  match previous with
  | None => mret tt
  | Some p =>
      modifyStore (λ s, set_absences (delete k (st_absences s)) s);;
      saveOr (λ s, set_absences (<[k := p]> (st_absences s)) s)
  end.

(** [Close]: release the lock once; a failure to close the lock file is
    reported, but the store counts as unlocked. *)
Definition Close : MS unit :=
  s ← gets fst;
  if st_locked s then
    fsTry FsUnlock "unlock state";;
    modify (λ w, (fst w, set_locks (sys_locks (snd w) ∖ {[st_path s +:+ ".lock"]}) (snd w)));;
    failed ← zoom (fsFails FsClose);
    modify (λ w, (set_locked false (fst w), snd w));;
    if (failed : bool) then mthrow (EMsg "close state lock") else mret tt
  else mret tt.

(** What [Open] does with the bytes of the state file. *)
Definition loadStore (path : string) (f : file) : outcome err Store :=
  match f with
  | FTorn => Err (EMsg "decode state")
  | FDoc j =>
      match decodeDisk j with
      | None => Err (EMsg "decode state")
      | Some d =>
          if decide (ds_Version d = 2 ∨ ds_Version d = 3) then
            Ok (MkStore path (recordsOf (ds_Memberships d)) (groupsOf (ds_GroupMappings d))
                 (absencesOf (ds_Absences d)) true)
          else Err (EMsg "unsupported state version")
      end
  end.

(** [Open] runs before there is a store: over the outside world alone.  On an
    error after the lock was taken it closes the store, which releases it. *)
Definition Open (path : string) : M (Sys S) err Store :=
  b ← fsFails FsMkdirAll;
  if (b : bool) then mthrow (EMsg "create state directory") else
  b ← fsFails FsOpenLock;
  if (b : bool) then mthrow (EMsg "open state lock") else
  held ← gets (λ w, bool_decide (path +:+ ".lock" ∈ sys_locks w));
  if (held : bool) then mthrow (EMsg "state is already locked by another GroupBridge process") else
  modify (λ w, set_locks ({[path +:+ ".lock"]} ∪ sys_locks w) w);;
  b ← fsFails FsRead;
  content ← gets (λ w, sys_fs w !! path);
  let closing (e : err) : M (Sys S) err Store := λ w,
    let '(_, w') := Close (MkStore path ∅ ∅ ∅ true, w) in (Err e, snd w') in
  if (b : bool) then closing (EMsg "read state") else
  match content with
  | None => mret (MkStore path ∅ ∅ ∅ true)
  | Some f =>
      match loadStore path f with
      | Ok s => mret s
      | Err e => closing e
      end
  end.
End ops.
