(* ===== verification/StateSpec.v ===== *)
(** * What the ledger promises

    [ledgerOp] is one call of a method that changes the store and [run_op] the
    code that runs it.  [op_effect] says what a call that succeeds does to the
    in-memory maps.  [Ledger] is the abstract ledger, keyed by triples instead
    of joined strings, with its own steps [spec_step]. *)

From S2P Require Import Prelude GoStrings Json World State.

Inductive ledgerOp : Type :=
| OMark (provider groupID userID : string)
| OUnmark (provider groupID userID : string)
| OPut (mapping : GroupMapping)
| ODelete (provider rule sourceGroupID : string)
| OMove (provider rule oldID newID nativeID path : string)
| OConfirm (provider groupID userID : string)
| OReset (provider groupID userID : string).

Definition run_op {S} `{Env S} (o : ledgerOp) : M (Store * Sys S) err bool :=
  match o with
  | OMark p g u => MarkManaged p g u;; mret false
  | OUnmark p g u => Unmark p g u;; mret false
  | OPut m => PutGroup m;; mret false
  | ODelete p r i => DeleteGroup p r i;; mret false
  | OMove p r i i' n path => MoveGroup p r i i' n path;; mret false
  | OConfirm p g u => ConfirmAbsent p g u
  | OReset p g u => ResetAbsent p g u;; mret false
  end.

(** The maps after a successful call, and whether the call writes the file;
    [None]: the call is refused. *)
Definition op_effect (o : ledgerOp) (s : Store) : option (Store * bool) :=
  match o with
  | OMark p g u => Some (set_records (<[key p g u := MkMembership p g u]> (st_records s)) s, true)
  | OUnmark p g u => Some (set_records (delete (key p g u) (st_records s)) s, true)
  | OPut m => Some (set_groups (<[mappingKey m := m]> (st_groups s)) s, true)
  | ODelete p r i =>
      match st_groups s !! groupKey p r i with
      | None => Some (s, false)
      | Some _ => Some (set_groups (delete (groupKey p r i) (st_groups s)) s, true)
      end
  | OMove p r i i' n path =>
      m ← st_groups s !! groupKey p r i;
      match st_groups s !! groupKey p r i' with
      | None =>
          Some (set_groups (<[groupKey p r i' := set_source i' n path m]>
                              (delete (groupKey p r i) (st_groups s))) s, true)
      | Some ex =>
          if decide (gm_TargetGroupID ex = gm_TargetGroupID m ∧
                     gm_TargetGroupPath ex = gm_TargetGroupPath m)
          then Some (set_groups (delete (groupKey p r i)
                      (<[groupKey p r i' := set_source (gm_SourceGroupID ex) n path ex]>
                         (st_groups s))) s, true)
          else None
      end
  | OConfirm p g u =>
      let seen := match st_absences s !! key p g u with Some a => ab_Observations a | None => 0 end in
      Some (set_absences (<[key p g u := MkAbsence p g u (wrap64 (seen + 1))]> (st_absences s)) s, true)
  | OReset p g u =>
      match st_absences s !! key p g u with
      | None => Some (s, false)
      | Some _ => Some (set_absences (delete (key p g u) (st_absences s)) s, true)
      end
  end.

(** The value a successful call returns. *)
Definition op_result (o : ledgerOp) (s : Store) : bool :=
  match o with
  | OConfirm p g u =>
      2 <=? wrap64 (match st_absences s !! key p g u with Some a => ab_Observations a | None => 0 end + 1)
  | _ => false
  end.

(** ** The abstract ledger *)
Notation triple_id := (string * string * string)%type.

Record Ledger : Type := MkLedger
  { managed : gset triple_id;
    mapped : gmap triple_id GroupMapping;
    absent : gmap triple_id Z }.

Definition seen_count (L : Ledger) (t : triple_id) : Z := default 0 (absent L !! t).

Definition spec_step (o : ledgerOp) (L : Ledger) : Ledger :=
  match o with
  | OMark p g u => MkLedger ({[(p, g, u)]} ∪ managed L) (mapped L) (absent L)
  | OUnmark p g u => MkLedger (managed L ∖ {[(p, g, u)]}) (mapped L) (absent L)
  | OPut m =>
      MkLedger (managed L) (<[(gm_Provider m, gm_Rule m, gm_SourceGroupID m) := m]> (mapped L)) (absent L)
  | ODelete p r i => MkLedger (managed L) (delete (p, r, i) (mapped L)) (absent L)
  | OMove p r i i' n path =>
      let m := match mapped L !! (p, r, i') with Some ex => Some ex | None => mapped L !! (p, r, i) end in
      match m with
      | Some m =>
          MkLedger (managed L)
            (delete (p, r, i) (<[(p, r, i') := set_source i' n path m]> (mapped L))) (absent L)
      | None => L
      end
  | OConfirm p g u =>
      MkLedger (managed L) (mapped L)
        (<[(p, g, u) := wrap64 (seen_count L (p, g, u) + 1)]> (absent L))
  | OReset p g u => MkLedger (managed L) (mapped L) (delete (p, g, u) (absent L))
  end.

Definition spec_result (o : ledgerOp) (L : Ledger) : bool :=
  match o with OConfirm p g u => 2 <=? wrap64 (seen_count L (p, g, u) + 1) | _ => false end.

(** Identifiers without a NUL byte: the keys of the maps are then unambiguous. *)
Definition no_nul (s : string) : bool := has_no NUL s.
Definition id_ok (t : triple_id) : bool :=
  let '(a, b, c) := t in no_nul a && no_nul b && no_nul c.

Definition op_ok (o : ledgerOp) : bool :=
  match o with
  | OMark p g u | OUnmark p g u | OConfirm p g u | OReset p g u => id_ok (p, g, u)
  | ODelete p r i => id_ok (p, r, i)
  | OPut m => id_ok (gm_Provider m, gm_Rule m, gm_SourceGroupID m)
  | OMove p r i i' _ _ => id_ok (p, r, i) && id_ok (p, r, i') && negb (String.eqb i i')
  end.

Definition key3 (t : triple_id) : string := let '(a, b, c) := t in key a b c.

(** [s] implements [L]: every map of the store is the abstract one under
    [key3], and every entry is stored under its own key. *)
Record implements (s : Store) (L : Ledger) : Prop := {
  im_managed t : id_ok t = true → (t ∈ managed L ↔ is_Some (st_records s !! key3 t));
  im_mapped t : id_ok t = true → mapped L !! t = st_groups s !! key3 t;
  im_absent t : id_ok t = true → absent L !! t = ab_Observations <$> st_absences s !! key3 t;
  im_source p r i m : id_ok (p, r, i) = true → mapped L !! (p, r, i) = Some m → gm_SourceGroupID m = i
}.

(** The state file, read as [Open] reads it, is the ledger. *)
Definition synced {S} (w : Store * Sys S) : Prop :=
  ∃ f, sys_fs (snd w) !! st_path (fst w) = Some f ∧
       loadStore (st_path (fst w)) f = Ok (set_locked true (fst w)).

(** ** Counting observations of an absence in a history *)
Fixpoint observations (t : triple_id) (ops : list ledgerOp) (n : Z) : Z :=
  match ops with
  | [] => n
  | OConfirm p g u :: ops =>
      observations t ops (if decide ((p, g, u) = t) then n + 1 else n)
  | OReset p g u :: ops => observations t ops (if decide ((p, g, u) = t) then 0 else n)
  | _ :: ops => observations t ops n
  end.

(** A history of calls, each of which either fails or succeeds. *)
Fixpoint run_ops {S} `{Env S} (ops : list ledgerOp) : M (Store * Sys S) err unit :=
  match ops with
  | [] => mret tt
  | o :: ops => run_op o;; run_ops ops
  end.
