(* ===== verification/StateFacts.v ===== *)
(** * Correctness of the ownership ledger

    The invariant of the ledger and its preservation, the refinement of an
    abstract ledger of triples, rollback on errors, durability and atomic
    replacement of the state file, and the exclusive lock. *)

From S2P Require Import Prelude GoStrings GoTime Json World State StateSpec.

(** ** Keys *)
Lemma nul_split_inj a b s t :
  no_nul a = true → no_nul b = true → a +:+ String NUL s = b +:+ String NUL t → a = b ∧ s = t.
Proof.
  unfold no_nul, has_no. revert b. induction a as [|x a IH]; intros [|y b].
  - intros _ _ H. by injection H as ->.
  - cbn [string_all]. intros _ [Hy _]%andb_true_iff H.
    rewrite app_cons in H. injection H as <- _. by rewrite Ascii.eqb_refl in Hy.
  - cbn [string_all]. intros [Hx _]%andb_true_iff _ H.
    rewrite app_cons in H. injection H as -> _. by rewrite Ascii.eqb_refl in Hx.
  - cbn [string_all]. intros [_ Ha]%andb_true_iff [_ Hb]%andb_true_iff H.
    rewrite !app_cons in H. injection H as -> H.
    by destruct (IH b Ha Hb H) as [-> ->].
Qed.

Lemma key_inj_nul p g u p' g' u' :
  no_nul p = true → no_nul g = true → no_nul p' = true → no_nul g' = true →
  key p g u = key p' g' u' → p = p' ∧ g = g' ∧ u = u'.
Proof.
  unfold key. intros Hp Hg Hp' Hg' H.
  destruct (nul_split_inj _ _ _ _ Hp Hp' H) as [-> H2].
  by destruct (nul_split_inj _ _ _ _ Hg Hg' H2) as [-> ->].
Qed.

(** ** The invariant *)
Record store_wf (s : Store) : Prop := {
  wf_records k m : st_records s !! k = Some m → membershipKey m = k;
  wf_groups k g : st_groups s !! k = Some g → mappingKey g = k;
  wf_absences k a : st_absences s !! k = Some a → absenceKey a = k ∧ in_int64 (ab_Observations a);
  wf_ids k g : st_groups s !! k = Some g →
    id_ok (gm_Provider g, gm_Rule g, gm_SourceGroupID g) = true
}.

(** Every text in the ledger survives [encoding/json]. *)
Definition mapping_text (g : GroupMapping) : bool :=
  forallb utf8Valid [gm_Provider g; gm_Rule g; gm_SourceGroupID g; gm_SourceNativeID g;
                     gm_SourceGroupPath g; gm_TargetGroupID g; gm_TargetGroupPath g].
Definition membership_text (m : Membership) : bool :=
  forallb utf8Valid [mb_Provider m; mb_GroupID m; mb_UserID m].
Definition absence_text (a : Absence) : bool :=
  forallb utf8Valid [ab_Provider a; ab_GroupID a; ab_UserID a].

Record store_text (s : Store) : Prop := {
  text_records k m : st_records s !! k = Some m → membership_text m = true;
  text_groups k g : st_groups s !! k = Some g → mapping_text g = true;
  text_absences k a : st_absences s !! k = Some a → absence_text a = true
}.

(** Executable forms of the two invariants. *)
Definition all_entries {A} (f : string → A → bool) (m : gmap string A) : bool :=
  forallb (λ kv, f kv.1 kv.2) (map_to_list m).

Definition store_wfb (s : Store) : bool :=
  all_entries (λ k m, String.eqb (membershipKey m) k) (st_records s) &&
  all_entries (λ k g, String.eqb (mappingKey g) k &&
                      id_ok (gm_Provider g, gm_Rule g, gm_SourceGroupID g)) (st_groups s) &&
  all_entries (λ k a, String.eqb (absenceKey a) k &&
                      bool_decide (in_int64 (ab_Observations a))) (st_absences s).

Definition store_textb (s : Store) : bool :=
  all_entries (λ _ m, membership_text m) (st_records s) &&
  all_entries (λ _ g, mapping_text g) (st_groups s) &&
  all_entries (λ _ a, absence_text a) (st_absences s).

Lemma all_entries_spec {A} f (m : gmap string A) :
  all_entries f m = true → ∀ k x, m !! k = Some x → f k x = true.
Proof.
  unfold all_entries. rewrite forallb_forall. intros Hf k x Hx.
  apply (Hf (k, x)). apply list_elem_of_In. by apply elem_of_map_to_list.
Qed.

Lemma store_wfb_ok s : store_wfb s = true → store_wf s.
Proof.
  unfold store_wfb. rewrite !andb_true_iff. intros [[H1 H2] H3].
  pose proof (all_entries_spec _ _ H1) as E1. pose proof (all_entries_spec _ _ H2) as E2.
  pose proof (all_entries_spec _ _ H3) as E3. split.
  - intros k m Hm. by apply String.eqb_eq, E1.
  - intros k g Hg. specialize (E2 k g Hg). apply andb_true_iff in E2 as [E2 _].
    by apply String.eqb_eq.
  - intros k a Ha. specialize (E3 k a Ha). apply andb_true_iff in E3 as [E3 E3'].
    split; [by apply String.eqb_eq|]. by apply bool_decide_eq_true in E3'.
  - intros k g Hg. specialize (E2 k g Hg). by apply andb_true_iff in E2 as [_ E2].
Qed.

Lemma store_textb_ok s : store_textb s = true → store_text s.
Proof.
  unfold store_textb. rewrite !andb_true_iff. intros [[H1 H2] H3].
  split; intros k x Hx; [by apply (all_entries_spec _ _ H1 k)|
    by apply (all_entries_spec _ _ H2 k)|by apply (all_entries_spec _ _ H3 k)].
Qed.

(** ** Indexing a list by key *)
Lemma indexBy_lookup {A} (k : A → string) (l : list A) i x :
  NoDup (k <$> l) → (indexBy k l !! i = Some x ↔ x ∈ l ∧ k x = i).
Proof.
  unfold indexBy. induction l as [|y l IH] using rev_ind; intros Hnd.
  - simpl. rewrite lookup_empty. set_solver.
  - rewrite foldl_app. cbn [foldl].
    rewrite fmap_app, NoDup_app in Hnd. destruct Hnd as (Hl & Hd & _).
    specialize (IH Hl). rewrite elem_of_app, list_elem_of_singleton.
    destruct (decide (k y = i)) as [<-|Hne].
    + rewrite lookup_insert_eq. split; [naive_solver|].
      intros [[Hx| ->] Hk]; [|done].
      exfalso. apply (Hd (k y)); [|set_solver]. rewrite <-Hk. by apply list_elem_of_fmap_2.
    + rewrite lookup_insert_ne by done. rewrite IH. naive_solver.
Qed.

Lemma indexBy_values {A} (k : A → string) (m : gmap string A) (l : list A) :
  (∀ i x, m !! i = Some x → k x = i) → l ≡ₚ values m → indexBy k l = m.
Proof.
  intros Hk Hl.
  assert (∀ x, x ∈ values m ↔ ∃ i, m !! i = Some x) as Hv.
  { intros x. unfold values. rewrite list_elem_of_fmap. split.
    - intros ([i y] & -> & Hy). exists i. by apply elem_of_map_to_list.
    - intros [i Hi]. exists (i, x). by rewrite elem_of_map_to_list. }
  assert (NoDup (k <$> l)) as Hnd.
  { rewrite Hl. unfold values. rewrite <-list_fmap_compose.
    replace (k ∘ snd <$> map_to_list m) with (fst <$> map_to_list m);
      [apply NoDup_fst_map_to_list|].
    apply list_fmap_ext. intros n [i x] Hi. simpl. symmetry. apply Hk.
    apply elem_of_map_to_list. by apply list_elem_of_lookup_2 in Hi. }
  apply map_eq. intros i. apply option_eq. intros x.
  rewrite indexBy_lookup by done. rewrite Hl, Hv. split.
  - intros [[j Hj] <-]. by rewrite (Hk j x Hj).
  - intros Hi. split; [by exists i|]. by apply Hk.
Qed.

(** ** The file format round-trips *)
Lemma dec_enc_membership m : membership_text m = true → decMembership (encMembership m) = Some m.
Proof.
  unfold membership_text, encMembership, encString. cbn [forallb]. intros H.
  rewrite !andb_true_iff in H. destruct H as (?&?&?&_).
  rewrite !coerceUTF8_valid by assumption. by destruct m.
Qed.

Lemma dec_enc_mapping g : mapping_text g = true → decMapping (encMapping g) = Some g.
Proof.
  unfold mapping_text, encMapping, encString. cbn [forallb]. intros H.
  rewrite !andb_true_iff in H. destruct H as (?&?&?&?&?&?&?&_).
  rewrite !coerceUTF8_valid by assumption.
  destruct g as [p r i n sp ti tp o]. cbn [gm_SourceNativeID].
  destruct (decide (n = "")) as [->|]; reflexivity.
Qed.

Lemma dec_enc_absence a :
  absence_text a = true → in_int64 (ab_Observations a) → decAbsence (encAbsence a) = Some a.
Proof.
  unfold absence_text, encAbsence, encString. cbn [forallb]. intros H Hn.
  rewrite !andb_true_iff in H. destruct H as (?&?&?&_).
  rewrite !coerceUTF8_valid by assumption.
  destruct a as [p g u n]. cbn [ab_Provider ab_GroupID ab_UserID ab_Observations] in *.
  transitivity (x ← decInt 0 (JInt n); Some (MkAbsence p g u x)); [reflexivity|].
  by rewrite decInt_JInt.
Qed.

Lemma mapM_map_id {A B} (enc : A → B) (dec : B → option A) l :
  Forall (λ x, dec (enc x) = Some x) l → mapM dec (map enc l) = Some l.
Proof. induction 1 as [|x l Hx Hl IH]; simpl; [done|]. by rewrite Hx; simpl; rewrite IH. Qed.

Record disk_text (d : diskState) : Prop := {
  dt_version : in_int64 (ds_Version d);
  dt_memberships : Forall (λ m, membership_text m = true) (ds_Memberships d);
  dt_groups : Forall (λ m, mapping_text m = true) (ds_GroupMappings d);
  dt_absences : Forall (λ a, absence_text a = true ∧ in_int64 (ab_Observations a)) (ds_Absences d)
}.

Lemma decode_encode_disk d : disk_text d → decodeDisk (encodeDisk d) = Some d.
Proof.
  intros [Hv Hm Hg Ha]. destruct d as [v ms gs abs]; cbn [ds_Version ds_Memberships ds_GroupMappings ds_Absences] in *.
  assert (mapM decMembership (map encMembership ms) = Some ms) as Em.
  { apply mapM_map_id. eapply Forall_impl; [exact Hm|]. apply dec_enc_membership. }
  assert (mapM decMapping (map encMapping gs) = Some gs) as Eg.
  { apply mapM_map_id. eapply Forall_impl; [exact Hg|]. apply dec_enc_mapping. }
  assert (mapM decAbsence (map encAbsence abs) = Some abs) as Ea.
  { apply mapM_map_id. eapply Forall_impl; [exact Ha|]. intros a []. by apply dec_enc_absence. }
  unfold encodeDisk, decodeDisk. cbn [ds_Version ds_Memberships ds_GroupMappings ds_Absences].
  erewrite decStruct_cons;
    [|transitivity (x ← decInt 0 (JInt v); Some (MkDisk x [] [] [])); [reflexivity|];
      by rewrite decInt_JInt].
  erewrite decStruct_cons;
    [|transitivity (x ← mapM decMembership (map encMembership ms); Some (MkDisk v x [] []));
      [reflexivity|]; by rewrite Em].
  erewrite decStruct_cons;
    [|transitivity (x ← mapM decMapping (map encMapping gs); Some (MkDisk v ms x []));
      [reflexivity|]; by rewrite Eg].
  erewrite decStruct_cons;
    [|transitivity (x ← mapM decAbsence (map encAbsence abs); Some (MkDisk v ms gs x));
      [reflexivity|]; by rewrite Ea].
  reflexivity.
Qed.

(** [d] is what the ledger [s] is written as. *)
Definition disk_of (s : Store) (d : diskState) : Prop :=
  ds_Version d = 3 ∧ ds_Memberships d ≡ₚ values (st_records s) ∧
  ds_GroupMappings d ≡ₚ values (st_groups s) ∧ ds_Absences d ≡ₚ values (st_absences s).

Lemma Forall_values {A} (P : A → Prop) (m : gmap string A) (l : list A) :
  l ≡ₚ values m → (∀ k x, m !! k = Some x → P x) → Forall P l.
Proof.
  intros Hl HP. rewrite Hl. apply Forall_forall. intros x Hx.
  unfold values in Hx. apply list_elem_of_fmap in Hx as ([k y] & -> & Hy).
  apply elem_of_map_to_list in Hy. eauto.
Qed.

Lemma load_disk_of path s d :
  store_wf s → store_text s → disk_of s d →
  loadStore path (FDoc (encodeDisk d)) =
  Ok (MkStore path (st_records s) (st_groups s) (st_absences s) true).
Proof.
  intros [W1 W2 W3 W4] [T1 T2 T3] (Hv & Hm & Hg & Ha).
  unfold loadStore. rewrite decode_encode_disk.
  - rewrite Hv, decide_True by lia. f_equal.
    unfold recordsOf, groupsOf, absencesOf.
    rewrite (indexBy_values _ (st_records s)), (indexBy_values _ (st_groups s)),
      (indexBy_values _ (st_absences s)); try done; [|naive_solver..].
    intros i a Hi. by apply (W3 i a).
  - split.
    + rewrite Hv. unfold in_int64, int64_min, int64_max. lia.
    + eapply Forall_values; eauto.
    + eapply Forall_values; eauto.
    + eapply Forall_values; [exact Ha|]. intros k a Hk. split; [by eapply T3|by eapply W3].
Qed.

(** ** Writing the file *)
Section saving.
Context {S : Type} `{Env S}.
Notation SW := (Store * Sys S)%type.

(** The ledger is [st] and of the outside only the file system moved, to [fs]. *)
Definition at_fs (st : Store) (sys : Sys S) (fs : gmap string file) (w : SW) : Prop :=
  fst w = st ∧ sys_trace (snd w) = sys_trace sys ∧ sys_locks (snd w) = sys_locks sys ∧
  sys_fs (snd w) = fs.

Lemma at_fs_frame st sys fs w s' : at_fs st sys fs w → frame (snd w) s' → at_fs st sys fs (fst w, s').
Proof. unfold at_fs, frame. simpl. intros (?&?&?&?) (?&?&?). split_and!; congruence. Qed.

Lemma fsTry_triple c msg st sys fs :
  triple (at_fs st sys fs) (fsTry c msg) (λ _, at_fs st sys fs) (λ _, at_fs st sys fs).
Proof.
  unfold fsTry. eapply triple_bind with (R := λ _, at_fs st sys fs).
  - apply triple_zoom. intros w Hw. apply triple_fsFails. intros v v' b -> Hf.
    by apply at_fs_frame.
  - intros []; mstep; done.
Qed.

Lemma modifyFs_triple f st sys fs X :
  triple (at_fs st sys fs) (modifyFs f) (λ _, at_fs st sys (f fs)) X.
Proof. apply triple_modify. unfold at_fs. intros w (?&?&?&<-). done. Qed.

Lemma seq_triple {A B} (m : M SW err A) (k : M SW err B) P R Q X :
  triple P m (λ _, R) X → triple R k Q X → triple P (m ≫= λ _, k) Q X.
Proof. intros Hm Hk. eapply triple_bind; [exact Hm|]. intros a. exact Hk. Qed.

(** [m] touches nothing that [P] speaks of and may fail in [X]. *)
Lemma seq_fsTry {B} c msg (k : M SW err B) st sys fs Q (X : err → SW → Prop) :
  (∀ e w, at_fs st sys fs w → X e w) → triple (at_fs st sys fs) k Q X →
  triple (at_fs st sys fs) (fsTry c msg;; k) Q X.
Proof.
  intros HX Hk. eapply seq_triple; [|exact Hk].
  eapply triple_conseq; [apply fsTry_triple|done|done|]. intros e w. apply HX.
Qed.

(** Whatever fails while the file is replaced, the ledger file holds its old
    content or the complete new one, and only the temporary file may be left. *)
Lemma replaceFile_triple st sys fs path tmp doc :
  tmp ≠ path → fs !! tmp = None →
  triple (at_fs st sys (<[tmp := FTorn]> fs)) (replaceFile path tmp doc)
    (λ _, at_fs st sys (<[path := FDoc doc]> fs))
    (λ _ w, at_fs st sys (<[tmp := FTorn]> fs) w ∨ at_fs st sys (<[tmp := FDoc doc]> fs) w ∨
            at_fs st sys (<[path := FDoc doc]> fs) w).
Proof.
  intros Hne Hfree. unfold replaceFile.
  apply seq_fsTry; [by left|]. apply seq_fsTry; [by left|].
  eapply seq_triple; [apply modifyFs_triple|]. rewrite insert_insert_eq.
  apply seq_fsTry; [auto|]. apply seq_fsTry; [auto|]. apply seq_fsTry; [auto|].
  eapply seq_triple; [apply modifyFs_triple|].
  cbv beta. rewrite lookup_insert_eq, delete_insert_id by done.
  apply seq_fsTry; [auto|]. apply seq_fsTry; [auto|].
  eapply triple_conseq; [apply fsTry_triple|done|done|auto].
Qed.

(** The outcome of a write of the ledger [st']. *)
Definition written (st st' : Store) (sys : Sys S) (w : SW) : Prop :=
  ∃ d, disk_of st' d ∧ at_fs st sys (<[st_path st' := FDoc (encodeDisk d)]> (sys_fs sys)) w.

(** The files are as before, but for one temporary file at most. *)
Definition leftover (path : string) (fs fs' : gmap string file) : Prop :=
  fs' = fs ∨ ∃ n f, fs !! (tempPrefix path +:+ n) = None ∧ fs' = <[tempPrefix path +:+ n := f]> fs.

Definition unwritten (st st' : Store) (sys : Sys S) (w : SW) : Prop :=
  (∃ fs, leftover (st_path st') (sys_fs sys) fs ∧ at_fs st sys fs w) ∨ written st st' sys w.

Lemma removeTemp_triple tmp st sys fs X :
  triple (at_fs st sys fs) (removeTemp tmp) (λ _ w, at_fs st sys fs w ∨ at_fs st sys (delete tmp fs) w) X.
Proof.
  unfold removeTemp. eapply triple_bind with (R := λ _, at_fs st sys fs).
  - apply triple_zoom. intros w Hw. apply triple_fsFails. intros v v' b -> Hf. by apply at_fs_frame.
  - intros []; [apply triple_ret; auto|]. eapply triple_conseq; [apply modifyFs_triple|done|auto|done].
Qed.

Lemma sortBy_perm {A} (k : A → string) l : sortBy k l ≡ₚ l.
Proof. apply merge_sort_Permutation. Qed.

Lemma snapshot_triple st sys :
  triple (at_fs st sys (sys_fs sys)) snapshot
    (λ d w, disk_of st d ∧ at_fs st sys (sys_fs sys) w) (λ _ _, False).
Proof.
  unfold snapshot.
  eapply triple_bind with (R := λ s w, s = st ∧ at_fs st sys (sys_fs sys) w).
  { apply triple_gets. intros w Hw. split; [apply Hw|done]. }
  intros s.
  assert (∀ A (l : list A) (P : Prop), triple (λ w, P ∧ at_fs st sys (sys_fs sys) w)
    (zoom (rangeOrder l)) (λ l' w, (P ∧ l' ≡ₚ l) ∧ at_fs st sys (sys_fs sys) w) (λ (_ : err) _, False)) as Hr.
  { intros A l P. apply triple_zoom. intros w [HP Hw]. apply triple_rangeOrder.
    intros v v' l' -> Hf Hl. split; [done|]. by apply at_fs_frame. }
  eapply triple_bind; [apply Hr|]. intros ms. eapply triple_bind; [apply Hr|]. intros gs.
  eapply triple_bind; [apply Hr|]. intros abs. apply triple_ret.
  intros w [[[[-> Hm] Hg] Ha] Hw]. split; [|done].
  unfold disk_of; simpl. by rewrite !sortBy_perm.
Qed.

(** The temporary file is never the ledger file itself. *)
Definition path_ok (path : string) : Prop := hasPrefix path (tempPrefix path) = false.

Lemma saveLocked_triple st sys :
  path_ok (st_path st) →
  triple (at_fs st sys (sys_fs sys)) saveLocked
    (λ _, written st st sys) (λ _, unwritten st st sys).
Proof.
  intros Hpath. unfold saveLocked.
  eapply triple_bind; [eapply triple_conseq; [apply snapshot_triple|done|done|done]|].
  intros d. cbv beta.
  eapply triple_bind with (R := λ path w, (disk_of st d ∧ path = st_path st) ∧ at_fs st sys (sys_fs sys) w).
  { apply triple_gets. intros w [Hd Hw]. by destruct Hw as [<- Hw]. }
  intros path. apply triple_pure. intros [Hd ->].
  assert (∀ w, at_fs st sys (sys_fs sys) w → unwritten st st sys w) as Hsame.
  { intros w Hw. left. exists (sys_fs sys). split; [by left|done]. }
  apply seq_fsTry; [auto|]. apply seq_fsTry; [auto|].
  eapply triple_bind with (R := λ _, at_fs st sys (sys_fs sys)).
  { apply triple_zoom. intros w Hw. apply triple_tempSuffix. intros v v' n -> Hf. by apply at_fs_frame. }
  intros suffix. cbv zeta. set (tmp := tempPrefix (st_path st) +:+ suffix).
  eapply triple_bind with
    (R := λ b w, b = bool_decide (is_Some (sys_fs sys !! tmp)) ∧ at_fs st sys (sys_fs sys) w).
  { apply triple_gets. intros w Hw. split; [|done]. by destruct Hw as (_ & _ & _ & ->). }
  intros taken. apply triple_pure. intros ->. case_bool_decide as Hfree.
  { apply triple_throw. auto. }
  rewrite <-eq_None_not_Some in Hfree.
  assert (tmp ≠ st_path st) as Hne.
  { intros Heq. unfold path_ok in Hpath. rewrite <-Heq in Hpath at 1. unfold tmp in Hpath.
    by rewrite hasPrefix_app in Hpath. }
  eapply seq_triple; [apply modifyFs_triple|].
  pose proof (replaceFile_triple st sys (sys_fs sys) (st_path st) tmp (encodeDisk d) Hne Hfree) as Hr.
  eapply triple_bind; [exact (triple_attempt_split _ _ _ _ _ Hr)|].
  intros [[]|e].
  - eapply seq_triple; [apply removeTemp_triple|]. apply triple_of_outcome. intros w Hw.
    exists d. split; [done|]. rewrite delete_insert_ne, delete_id in Hw by done. by destruct Hw.
  - assert (∀ fs (Q : SW → Prop), (∀ w, at_fs st sys fs w ∨ at_fs st sys (delete tmp fs) w → Q w) →
      triple (at_fs st sys fs) (removeTemp tmp;; of_outcome (Err e) : M SW err unit) (λ _, written st st sys) (λ _, Q)) as Hrem.
    { intros fs Q HQ. eapply seq_triple; [apply removeTemp_triple|]. by apply triple_of_outcome. }
    assert (∀ f, triple (at_fs st sys (<[tmp := f]> (sys_fs sys))) (removeTemp tmp;; of_outcome (Err e) : M SW err unit)
      (λ _, written st st sys) (λ _, unwritten st st sys)) as Hleft.
    { intros f. apply Hrem. rewrite delete_insert_id by done. intros w [Hw|Hw]; [|auto].
      left. eexists. split; [|exact Hw]. right. by exists suffix, f. }
    intros w [Hw|[Hw|Hw]]; [by apply (Hleft FTorn w)|by apply (Hleft (FDoc (encodeDisk d)) w)|].
    apply (Hrem _ (unwritten st st sys)) in Hw; [exact Hw|]. rewrite delete_insert_ne, delete_id by done.
    intros v Hv. right. exists d. split; [done|]. by destruct Hv.
Qed.

(** Change the ledger, write it, and undo the change when the write fails. *)
Lemma change_triple (f g : Store → Store) st sys :
  g (f st) = st → st_path (f st) = st_path st → path_ok (st_path st) →
  triple (λ w, w = (st, sys)) (modifyStore f;; saveOr g)
    (λ _, written (f st) (f st) sys) (λ _, unwritten st (f st) sys).
Proof.
  intros Hgf Hp Hpath. eapply seq_triple with (R := at_fs (f st) sys (sys_fs sys)).
  { apply triple_modify. intros w ->. done. }
  unfold saveOr. rewrite <-Hp in Hpath.
  eapply triple_bind; [exact (triple_attempt_split _ _ _ _ _ (saveLocked_triple _ _ Hpath))|].
  intros [[]|e]; [by apply triple_ret|].
  intros w Hw. simpl. unfold modify, mbind, M_bind. simpl.
  assert (∀ fs, at_fs (f st) sys fs w → at_fs st sys fs (g (fst w), snd w)) as Hund.
  { unfold at_fs. simpl. intros fs (->&?&?&?). done. }
  destruct Hw as [(fs & Hl & Hw)|(d & Hd & Hw)]; [left; exists fs; split; [done|]|right; exists d; split; [done|]]; by apply Hund.
Qed.
End saving.

(** ** The operations *)
Section operations.
Context {S : Type} `{Env S}.
Notation SW := (Store * Sys S)%type.

(** What a call of [o] from ledger [st] can end in. *)
Definition op_ok_post (o : ledgerOp) (st : Store) (sys : Sys S) (b : bool) (w : SW) : Prop :=
  ∃ st' wrote, op_effect o st = Some (st', wrote) ∧ b = op_result o st ∧
    (if wrote then written st' st' sys w else st' = st ∧ w = (st, sys)).

Definition op_err_post (o : ledgerOp) (st : Store) (sys : Sys S) (w : SW) : Prop :=
  match op_effect o st with
  | None => w = (st, sys)
  | Some (st', _) => unwritten st st' sys w
  end.

Lemma triple_gets_at {A} (f : SW → A) st sys (k : A → M SW err bool) Q X :
  triple (λ w, w = (st, sys)) (k (f (st, sys))) Q X →
  triple (λ w, w = (st, sys)) (a ← gets f; k a) Q X.
Proof. intros Hk w ->. exact (Hk _ eq_refl). Qed.

Lemma op_by_change o st sys (f g : Store → Store) (b : bool) :
  op_effect o st = Some (f st, true) → b = op_result o st →
  g (f st) = st → st_path (f st) = st_path st → path_ok (st_path st) →
  triple (λ w, w = (st, sys)) ((modifyStore f;; saveOr g);; mret b)
    (op_ok_post o st sys) (λ _, op_err_post o st sys).
Proof.
  intros He Hb Hgf Hp Hpath. eapply seq_triple with (R := written (f st) (f st) sys).
  - eapply triple_conseq; [by apply (change_triple f g st sys)|done|done|].
    intros e w Hw. unfold op_err_post. by rewrite He.
  - apply triple_ret. intros w Hw. by exists (f st), true.
Qed.

Lemma op_noop o st sys (b : bool) :
  op_effect o st = Some (st, false) → b = op_result o st →
  triple (λ w, w = (st, sys)) ((mret tt : M SW err unit);; mret b) (op_ok_post o st sys) (λ _, op_err_post o st sys).
Proof. intros He Hb w ->. change (op_ok_post o st sys b (st, sys)). by exists st, false. Qed.

Lemma op_refused o st sys (e : err) {A} (k : A → M SW err bool) :
  op_effect o st = None →
  triple (λ w, w = (st, sys)) ((mthrow e : M SW err A) ≫= k) (op_ok_post o st sys) (λ _, op_err_post o st sys).
Proof. intros He w ->. unfold mbind, M_bind, mthrow, M_throw, op_err_post. by rewrite He. Qed.

Lemma bind_assoc_M {A B C} (m : M SW err A) (f : A → M SW err B) (g : B → M SW err C) w :
  ((m ≫= f) ≫= g) w = (m ≫= λ a, f a ≫= g) w.
Proof. unfold mbind, M_bind. by destruct (m w) as [[a|e] w']. Qed.

Lemma triple_ext {A} (m m' : M SW err A) P Q X :
  (∀ w, m w = m' w) → triple P m Q X → triple P m' Q X.
Proof. intros Heq Hm w Hw. rewrite <-Heq. by apply Hm. Qed.

Lemma op_by_change_r o st sys (f g : Store → Store) (b : bool) :
  op_effect o st = Some (f st, true) → b = op_result o st →
  g (f st) = st → st_path (f st) = st_path st → path_ok (st_path st) →
  triple (λ w, w = (st, sys)) (modifyStore f;; saveOr g;; mret b)
    (op_ok_post o st sys) (λ _, op_err_post o st sys).
Proof.
  intros. eapply triple_ext; [|by apply (op_by_change o st sys f g b)].
  intros w. apply (bind_assoc_M (modifyStore f) (λ _, saveOr g) (λ _, mret b)).
Qed.

Lemma restore_insert {A} (k : string) (m : gmap string A) x :
  restore k (m !! k) (<[k := x]> m) = m.
Proof.
  unfold restore. destruct (m !! k) eqn:E.
  - by rewrite insert_insert_eq, insert_id.
  - by rewrite delete_insert_id.
Qed.

(** Every call, on every branch: success has the effect and the result of the
    specification and is on disk; failure leaves the ledger as it was. *)
Lemma run_op_triple o st sys :
  path_ok (st_path st) →
  triple (λ w, w = (st, sys)) (run_op o) (op_ok_post o st sys) (λ _, op_err_post o st sys).
Proof.
  intros Hpath. destruct o as [p g u|p g u|m|p r i|p r i i' n path|p g u|p g u]; cbn [run_op];
    unfold MarkManaged, Unmark, PutGroup, DeleteGroup, MoveGroup, ConfirmAbsent, ResetAbsent;
    try lazymatch goal with
      | |- triple _ (_ ≫= λ _, mret false) _ _ =>
          eapply triple_ext; [intros w; symmetry; apply bind_assoc_M|]
      end;
    apply triple_gets_at; cbn [fst].
  - apply op_by_change; try done. destruct st; unfold set_records; simpl. by rewrite restore_insert.
  - apply op_by_change; try done. destruct st as [p0 recs ? ? ?]; unfold set_records; simpl.
    destruct (recs !! key p g u) eqn:E; simpl.
    + by rewrite insert_delete_id.
    + by rewrite delete_id.
  - apply op_by_change; try done. destruct st; unfold set_groups; simpl. by rewrite restore_insert.
  - destruct (st_groups st !! groupKey p r i) as [m|] eqn:E.
    + apply op_by_change; try done; [by simpl; rewrite E|].
      destruct st; unfold set_groups; simpl in *. by rewrite insert_delete_id.
    + apply op_noop; [by simpl; rewrite E|done].
  - destruct (st_groups st !! groupKey p r i) as [m|] eqn:E;
      [|apply op_refused; by simpl; rewrite E].
    eapply triple_ext; [intros w; symmetry; apply bind_assoc_M|].
    apply triple_gets_at; cbn [fst].
    destruct (st_groups st !! groupKey p r i') as [ex|] eqn:E'; [case_decide as Ht|].
    + apply op_by_change; try done.
      { simpl. rewrite E. simpl. by rewrite E', decide_True by done. }
      destruct st as [? ? gs ? ?]; unfold set_groups; simpl in *. f_equal.
      rewrite insert_delete_eq. destruct (decide (groupKey p r i = groupKey p r i')) as [Hk|Hk].
      * rewrite Hk in *. by rewrite !insert_insert_eq, insert_id.
      * rewrite (insert_insert_ne _ (groupKey p r i)) by done.
        rewrite insert_insert_eq. rewrite (insert_id _ (groupKey p r i')).
        { by rewrite insert_id. }
        by rewrite lookup_insert_ne.
    + apply op_refused. simpl. rewrite E. simpl. by rewrite E', decide_False by done.
    + apply op_by_change; try done.
      { simpl. rewrite E. simpl. by rewrite E'. }
      destruct st as [? ? gs ? ?]; unfold set_groups; simpl in *. f_equal.
      assert (groupKey p r i ≠ groupKey p r i') as Hk by congruence.
      rewrite delete_insert_id by (by rewrite lookup_delete_ne).
      by rewrite insert_delete_id.
  - apply op_by_change_r; try done.
    destruct st; unfold set_absences; simpl. by rewrite restore_insert.
  - destruct (st_absences st !! key p g u) as [m|] eqn:E.
    + apply op_by_change; try done; [by simpl; rewrite E|].
      destruct st; unfold set_absences; simpl in *. by rewrite insert_delete_id.
    + apply op_noop; [by simpl; rewrite E|done].
Qed.
End operations.

(** ** Refinement of the abstract ledger *)
Lemma key3_inj t t' : id_ok t = true → id_ok t' = true → key3 t = key3 t' → t = t'.
Proof.
  destruct t as [[a b] c], t' as [[a' b'] c']. cbn [id_ok key3].
  rewrite !andb_true_iff. intros [[Ha Hb] _] [[Ha' Hb'] _] H.
  by destruct (key_inj_nul _ _ _ _ _ _ Ha Hb Ha' Hb' H) as (-> & -> & ->).
Qed.

Lemma key3_eq t t' : id_ok t = true → id_ok t' = true → (key3 t = key3 t' ↔ t' = t).
Proof. intros Ht Ht'. split; [intros H; symmetry; by apply key3_inj|by intros ->]. Qed.

(** Lookups after an update, through [key3]. *)
Lemma lookup_key3_insert {A} (t t' : triple_id) (x : A) (m : gmap string A) (M : gmap triple_id A) :
  id_ok t = true → id_ok t' = true → M !! t' = m !! key3 t' →
  <[t := x]> M !! t' = <[key3 t := x]> m !! key3 t'.
Proof.
  intros Ht Ht' HM. destruct (decide (t = t')) as [<-|Hne].
  - by rewrite !lookup_insert_eq.
  - rewrite !lookup_insert_ne; [done| |done]. intros Hk. by apply Hne, key3_inj.
Qed.

Lemma lookup_key3_delete {A} (t t' : triple_id) (m : gmap string A) (M : gmap triple_id A) :
  id_ok t = true → id_ok t' = true → M !! t' = m !! key3 t' →
  delete t M !! t' = delete (key3 t) m !! key3 t'.
Proof.
  intros Ht Ht' HM. destruct (decide (t = t')) as [<-|Hne].
  - by rewrite !lookup_delete_eq.
  - rewrite !lookup_delete_ne; [done| |done]. intros Hk. by apply Hne, key3_inj.
Qed.

Lemma seen_count_implements s L p g u :
  implements s L → id_ok (p, g, u) = true →
  match st_absences s !! key p g u with Some a => ab_Observations a | None => 0 end
  = seen_count L (p, g, u).
Proof.
  intros HL Hid. unfold seen_count. rewrite (im_absent _ _ HL _ Hid). cbn [key3].
  by destruct (st_absences s !! key p g u).
Qed.

(** Each map is handled on its own: the other two parts of [implements] carry over. *)
Lemma implements_records s L r M :
  implements s L →
  (∀ t, id_ok t = true → (t ∈ M ↔ is_Some (r !! key3 t))) →
  implements (set_records r s) (MkLedger M (mapped L) (absent L)).
Proof. intros [H1 H2 H3 H4] HM. by split. Qed.

Lemma implements_absences s L a A :
  implements s L →
  (∀ t, id_ok t = true → A !! t = ab_Observations <$> a !! key3 t) →
  implements (set_absences a s) (MkLedger (managed L) (mapped L) A).
Proof. intros [H1 H2 H3 H4] HM. by split. Qed.

Lemma implements_groups s L g G :
  implements s L →
  (∀ t, id_ok t = true → G !! t = g !! key3 t) →
  (∀ p r i m, id_ok (p, r, i) = true → G !! (p, r, i) = Some m → gm_SourceGroupID m = i) →
  implements (set_groups g s) (MkLedger (managed L) G (absent L)).
Proof. intros [H1 H2 H3 H4] HM HS. by split. Qed.

Lemma effect_move_refines s L s' b p r i i' n path :
  implements s L → op_ok (OMove p r i i' n path) = true →
  op_effect (OMove p r i i' n path) s = Some (s', b) →
  implements s' (spec_step (OMove p r i i' n path) L).
Proof.
  cbn [op_ok]. rewrite !andb_true_iff, negb_true_iff, String.eqb_neq. intros HL [[Hi Hi'] Hne].
  pose proof (im_mapped _ _ HL _ Hi) as Em. pose proof (im_mapped _ _ HL _ Hi') as Em'.
  change (key3 (p, r, i)) with (groupKey p r i) in Em.
  change (key3 (p, r, i')) with (groupKey p r i') in Em'.
  cbn [op_effect spec_step]. rewrite Em, Em'.
  destruct (st_groups s !! groupKey p r i) as [m|]; [|done]. cbn [mbind option_bind].
  assert (∀ x g, (∀ t, id_ok t = true → g !! key3 t =
              delete (groupKey p r i) (<[groupKey p r i' := x]> (st_groups s)) !! key3 t) →
            gm_SourceGroupID x = i' →
            implements (set_groups g s)
              (MkLedger (managed L) (delete (p, r, i) (<[(p, r, i') := x]> (mapped L))) (absent L))) as Hgen.
  { intros x g Hg Hx. apply implements_groups; [done| |].
    - intros t Ht. rewrite Hg by done.
      apply (lookup_key3_delete (p, r, i)); [done..|].
      apply (lookup_key3_insert (p, r, i')); [done..|]. by apply (im_mapped _ _ HL).
    - intros p0 r0 i0 m0 Ht. destruct (decide ((p, r, i) = (p0, r0, i0))) as [<-|Hd].
      { by rewrite lookup_delete_eq. }
      rewrite lookup_delete_ne by done.
      destruct (decide ((p, r, i') = (p0, r0, i0))) as [Heq|Hd'].
      { injection Heq as <- <- <-. rewrite lookup_insert_eq. by intros [= <-]. }
      rewrite lookup_insert_ne by done. by apply (im_source _ _ HL). }
  destruct (st_groups s !! groupKey p r i') as [ex|] eqn:E'.
  - case_decide; [|done]. intros [= <- <-].
    assert (gm_SourceGroupID ex = i') as Hsrc by (eapply (im_source _ _ HL p r i'); eauto).
    rewrite Hsrc. by apply Hgen.
  - intros [= <- <-]. apply Hgen; [|done]. intros t Ht.
    assert (key3 (p, r, i) ≠ key3 (p, r, i')) as Hk.
    { intros Hk%key3_inj; [congruence|done..]. }
    change (key3 (p, r, i)) with (groupKey p r i) in Hk.
    change (key3 (p, r, i')) with (groupKey p r i') in Hk.
    by rewrite delete_insert_ne.
Qed.

Lemma effect_refines o s L s' b :
  implements s L → op_ok o = true → op_effect o s = Some (s', b) →
  implements s' (spec_step o L) ∧ op_result o s = spec_result o L.
Proof.
  intros HL Hok He. split.
  2: { destruct o; try done. cbn [op_result spec_result]. by rewrite (seen_count_implements s L). }
  destruct o as [p g u|p g u|m|p r i|p r i i' n path|p g u|p g u];
    [| | | |by eapply effect_move_refines|..]; cbn [op_ok op_effect spec_step] in *.
  - injection He as <- <-. apply implements_records; [done|]. intros t Ht.
    change (key p g u) with (key3 (p, g, u)).
    rewrite elem_of_union, elem_of_singleton, lookup_insert_is_Some', (im_managed _ _ HL t Ht),
      (key3_eq _ t Hok Ht). tauto.
  - injection He as <- <-. apply implements_records; [done|]. intros t Ht.
    change (key p g u) with (key3 (p, g, u)).
    rewrite elem_of_difference, elem_of_singleton, lookup_delete_is_Some, (im_managed _ _ HL t Ht),
      (key3_eq _ t Hok Ht). tauto.
  - injection He as <- <-. apply implements_groups; [done| |].
    + intros t Ht. apply (lookup_key3_insert (_, _, _)); [done..|]. by apply (im_mapped _ _ HL).
    + intros p r i m' Ht.
      destruct (decide ((gm_Provider m, gm_Rule m, gm_SourceGroupID m) = (p, r, i))) as [Heq|Hd].
      { injection Heq as <- <- <-. rewrite lookup_insert_eq. by intros [= <-]. }
      rewrite lookup_insert_ne by done. by apply (im_source _ _ HL).
  - pose proof (im_mapped _ _ HL (p, r, i) Hok) as Em. change (key3 _) with (groupKey p r i) in Em.
    destruct (st_groups s !! groupKey p r i) as [m|] eqn:E; injection He as <- <-.
    + apply implements_groups; [done| |].
      * intros t Ht. apply (lookup_key3_delete (p, r, i)); [done..|]. by apply (im_mapped _ _ HL).
      * intros p0 r0 i0 m0 Ht. destruct (decide ((p, r, i) = (p0, r0, i0))) as [<-|Hd].
        { by rewrite lookup_delete_eq. }
        rewrite lookup_delete_ne by done. by apply (im_source _ _ HL).
    + rewrite delete_id by done. by destruct L.
  - injection He as <- <-. apply implements_absences; [done|]. intros t Ht.
    rewrite <-lookup_fmap, fmap_insert. cbn [ab_Observations].
    rewrite (seen_count_implements s L) by done.
    apply (lookup_key3_insert (p, g, u)); [done..|].
    rewrite lookup_fmap. by apply (im_absent _ _ HL).
  - pose proof (im_absent _ _ HL (p, g, u) Hok) as Em. change (key3 _) with (key p g u) in Em.
    destruct (st_absences s !! key p g u) as [m|] eqn:E; injection He as <- <-.
    + apply implements_absences; [done|]. intros t Ht.
      rewrite <-lookup_fmap, fmap_delete.
      apply (lookup_key3_delete (p, g, u)); [done..|].
      rewrite lookup_fmap. by apply (im_absent _ _ HL).
    + rewrite delete_id by done. by destruct L.
Qed.

(** ** The invariant is preserved *)
Lemma move_key g p r i i' n path :
  id_ok (gm_Provider g, gm_Rule g, gm_SourceGroupID g) = true → id_ok (p, r, i) = true →
  mappingKey g = groupKey p r i →
  mappingKey (set_source i' n path g) = groupKey p r i' ∧ gm_Provider g = p ∧ gm_Rule g = r.
Proof.
  cbn [id_ok]. rewrite !andb_true_iff. intros [[Ha Hb] _] [[Hp Hr] _] Hk.
  destruct (key_inj_nul _ _ _ _ _ _ Ha Hb Hp Hr Hk) as (<- & <- & _). by destruct g.
Qed.

Lemma op_effect_path o s s' b : op_effect o s = Some (s', b) → st_path s' = st_path s.
Proof.
  destruct o; simpl; intros He; repeat case_match; simplify_option_eq; try done;
    by destruct s.
Qed.

Lemma move_effect_wf p r i i' n path s s' b :
  store_wf s → op_ok (OMove p r i i' n path) = true →
  op_effect (OMove p r i i' n path) s = Some (s', b) → store_wf s'.
Proof.
  intros Hwf. pose proof Hwf as [W1 W2 W3 W4].
  cbn [op_ok op_effect]. rewrite !andb_true_iff. intros [[Hi Hi'] _] He.
  destruct (st_groups s !! groupKey p r i) as [m|] eqn:E; [|done]. cbn [mbind option_bind] in He.
  destruct (move_key m p r i i' n path (W4 _ _ E) Hi (W2 _ _ E)) as (Hk & Hp & Hr).
  destruct (st_groups s !! groupKey p r i') as [ex|] eqn:E'.
  - case_decide; [|done]. injection He as <- <-. split; try done; simpl.
    + intros k g [_ Hg]%lookup_delete_Some.
      apply lookup_insert_Some in Hg as [[<- <-]|[_ Hg]]; [|by apply W2].
      rewrite <-(W2 _ _ E'). by destruct ex.
    + intros k g [_ Hg]%lookup_delete_Some.
      apply lookup_insert_Some in Hg as [[<- <-]|[_ Hg]]; [|by eapply W4].
      specialize (W4 _ _ E'). by destruct ex.
  - injection He as <- <-. split; try done; simpl.
    + intros k g [[<- <-]|[_ [_ Hg]%lookup_delete_Some]]%lookup_insert_Some; [done|by apply W2].
    + intros k g [[<- <-]|[_ [_ Hg]%lookup_delete_Some]]%lookup_insert_Some; [|by eapply W4].
      unfold set_source. simpl. by rewrite Hp, Hr.
Qed.

Lemma op_effect_wf o s s' b :
  store_wf s → op_ok o = true → op_effect o s = Some (s', b) → store_wf s'.
Proof.
  intros Hwf Hok He. destruct o as [p g u|p g u|m|p r i|p r i i' n path|p g u|p g u];
    [| | | |by eapply move_effect_wf|..]; pose proof Hwf as [W1 W2 W3 W4];
    cbn [op_effect op_ok] in *; repeat case_match; simplify_eq; try done; split; try done; simpl.
  - intros k x [[<- <-]|[_ Hx]]%lookup_insert_Some; [done|by apply W1].
  - intros k x [_ Hx]%lookup_delete_Some. by apply W1.
  - intros k x [[<- <-]|[_ Hx]]%lookup_insert_Some; [done|by apply W2].
  - intros k x [[<- <-]|[_ Hx]]%lookup_insert_Some; [done|by eapply W4].
  - intros k x [_ Hx]%lookup_delete_Some. by apply W2.
  - intros k x [_ Hx]%lookup_delete_Some. by eapply W4.
  - intros k x [[<- <-]|[_ Hx]]%lookup_insert_Some; [|by apply W3].
    split; [done|apply wrap64_range].
  - intros k x [[<- <-]|[_ Hx]]%lookup_insert_Some; [|by apply W3].
    split; [done|apply wrap64_range].
  - intros k x [_ Hx]%lookup_delete_Some. by apply W3.
Qed.

Lemma written_synced {S} `{Env S} st (sys : Sys S) w :
  store_wf st → store_text st → written st st sys w → synced w.
Proof.
  intros Hwf Htext (d & Hd & Hst & _ & _ & Hfs). exists (FDoc (encodeDisk d)).
  rewrite Hst, Hfs, lookup_insert_eq. split; [done|].
  rewrite (load_disk_of _ st) by done. by destruct st.
Qed.

Lemma run_op_cases {S} `{Env S} o s (sys : Sys S) r w' :
  path_ok (st_path s) → run_op o (s, sys) = (r, w') →
  match r with Ok b => op_ok_post o s sys b w' | Err _ => op_err_post o s sys w' end.
Proof.
  intros Hpath Hrun. pose proof (run_op_triple o s sys Hpath _ eq_refl) as Ht.
  rewrite Hrun in Ht. by destruct r.
Qed.

Lemma op_ok_post_store {S} `{Env S} o s (sys : Sys S) b w' :
  op_ok_post o s sys b w' → ∃ wrote, op_effect o s = Some (fst w', wrote) ∧ b = op_result o s.
Proof.
  intros (st' & wrote & He & Hb & Hw). exists wrote. destruct wrote.
  - destruct Hw as (d & _ & -> & _). done.
  - destruct Hw as [-> ->]. done.
Qed.

Lemma op_err_post_store {S} `{Env S} o s (sys : Sys S) w' : op_err_post o s sys w' → fst w' = s.
Proof.
  unfold op_err_post. destruct (op_effect o s) as [[st' b]|]; [|by intros ->].
  intros [(fs & _ & -> & _)|(d & _ & -> & _)]; done.
Qed.

(** ** Histories *)
Lemma seen_count_step o L t :
  seen_count (spec_step o L) t =
  match o with
  | OConfirm p g u => if decide ((p, g, u) = t) then wrap64 (seen_count L t + 1) else seen_count L t
  | OReset p g u => if decide ((p, g, u) = t) then 0 else seen_count L t
  | _ => seen_count L t
  end.
Proof.
  unfold seen_count. destruct o; cbn [spec_step]; repeat case_match; try done; cbn [absent];
    subst; rewrite ?lookup_insert_eq, ?lookup_delete_eq, ?lookup_insert_ne, ?lookup_delete_ne by done;
    done.
Qed.

Lemma observations_bounds t ops n :
  0 ≤ n → 0 ≤ observations t ops n ≤ n + Z.of_nat (length ops).
Proof.
  revert n. induction ops as [|o ops IH]; intros n Hn; [simpl; lia|].
  pose proof (IH n Hn). pose proof (IH (n + 1) ltac:(lia)). pose proof (IH 0 ltac:(lia)).
  destruct o; cbn [observations length]; try case_decide; lia.
Qed.

(** ** Properties *)

(** A concrete store, and outsides without and with a failing directory sync. *)
Definition demoStore : Store := MkStore "/var/lib/gb/state.json" ∅ ∅ ∅ true.
Definition demoSys : Sys Time := MkSys zeroTime [] ∅ ∅.
Definition noSyncEnv : Env Time :=
  scriptEnv (λ _ s, (Err (EMsg "no server"), s)) (λ _, None) (λ _, Err (EMsg "no file"))
    (λ t, (t, t)) (λ c s, (match c with FsSyncDir => true | _ => false end, s)).
Definition emptyLedger : Ledger := MkLedger ∅ ∅ ∅.

Lemma demo_path_ok : path_ok (st_path demoStore).
Proof. reflexivity. Qed.

Lemma implements_empty p b : implements (MkStore p ∅ ∅ ∅ b) emptyLedger.
Proof.
  split; intros; simpl in *; rewrite ?lookup_empty in *; try done.
Qed.

(** [C9] Refinement: a store that implements an abstract ledger of triples
    still does after any call.  A call that returns no error takes the abstract
    step and returns its result; a call that fails leaves the in-memory ledger
    exactly as it was. *)
Theorem ledger_refines {S} `{Env S} o s (sys : Sys S) L r w' :
  path_ok (st_path s) → implements s L → op_ok o = true → run_op o (s, sys) = (r, w') →
  match r with
  | Ok b => implements (fst w') (spec_step o L) ∧ b = spec_result o L
  | Err _ => fst w' = s
  end.
Proof.
  intros Hp HL Hok Hrun. apply run_op_cases in Hrun; [|done]. destruct r as [b|e].
  - apply op_ok_post_store in Hrun as (wr & He & ->). by eapply effect_refines.
  - by eapply op_err_post_store.
Qed.

Lemma run_op_step {S} `{Env S} o s (sys : Sys S) L b w' :
  path_ok (st_path s) → implements s L → op_ok o = true → run_op o (s, sys) = (Ok b, w') →
  path_ok (st_path (fst w')) ∧ implements (fst w') (spec_step o L).
Proof.
  intros Hp HL Hok Hrun. apply run_op_cases in Hrun; [|done].
  apply op_ok_post_store in Hrun as (wr & He & ->).
  rewrite (op_effect_path _ _ _ _ He). split; [done|]. by eapply effect_refines.
Qed.

Lemma ledger_refines_witness :
  ∃ w', run_op (H := quietEnv) (OMark "gitlab@1" "7" "42") (demoStore, demoSys) = (Ok false, w') ∧
        implements (fst w') (spec_step (OMark "gitlab@1" "7" "42") emptyLedger).
Proof.
  eexists. split; [vm_compute; reflexivity|].
  apply (ledger_refines (H := quietEnv) (OMark "gitlab@1" "7" "42") demoStore demoSys emptyLedger
           (Ok false) _ demo_path_ok (implements_empty _ _) eq_refl).
  vm_compute. reflexivity.
Defined.

(** [C18] Durability: after a call that succeeds, on a well-formed ledger whose
    texts are UTF-8, the ledger is still well-formed (every entry under its own
    key), and reading the state file as [Open] reads it gives exactly the ledger
    in memory, provided that the call wrote the file or that the file was in
    step with the memory before. *)
Theorem ledger_durable {S} `{Env S} o s (sys : Sys S) b w' :
  path_ok (st_path s) → store_wf s → op_ok o = true → store_text (fst w') →
  run_op o (s, sys) = (Ok b, w') →
  (synced (s, sys) ∨ ∃ s', op_effect o s = Some (s', true)) →
  synced w' ∧ store_wf (fst w').
Proof.
  intros Hp Hwf Hok Htext Hrun Hsync. apply run_op_cases in Hrun; [|done].
  pose proof (op_ok_post_store _ _ _ _ _ Hrun) as (wr & He & _).
  pose proof (op_effect_wf _ _ _ _ Hwf Hok He) as Hwf'. split; [|done].
  destruct Hrun as (st' & wrote & He' & _ & Hw). rewrite He in He'. injection He' as <- <-.
  destruct wr; [by eapply written_synced|]. destruct Hw as [Heq ->].
  destruct Hsync as [|[s' Hs']]; [done|]. rewrite He in Hs'. congruence.
Qed.

Lemma ledger_durable_witness :
  ∃ w', run_op (H := quietEnv) (OConfirm "gitlab@1" "7" "42") (demoStore, demoSys) = (Ok false, w') ∧
        synced w'.
Proof.
  eexists. split; [vm_compute; reflexivity|].
  apply (ledger_durable (H := quietEnv) (OConfirm "gitlab@1" "7" "42") demoStore demoSys false).
  - apply demo_path_ok.
  - apply store_wfb_ok. reflexivity.
  - reflexivity.
  - apply store_textb_ok. vm_compute. reflexivity.
  - vm_compute. reflexivity.
  - right. eexists. reflexivity.
Defined.



(** [C17] Crash safety: at whatever file-system call the replacement of the state
    file stops, the state file holds its previous content or the complete new
    document, never a partial one, and no file but it and the temporary file
    was touched. *)
Theorem state_file_atomic {S} `{Env S} st (sys : Sys S) fs path tmp doc r w' :
  tmp ≠ path → fs !! tmp = None →
  replaceFile path tmp doc (st, set_fs (<[tmp := FTorn]> fs) sys) = (r, w') →
  (sys_fs (snd w') !! path = fs !! path ∨ sys_fs (snd w') !! path = Some (FDoc doc)) ∧
  (∀ p, p ≠ path → p ≠ tmp → sys_fs (snd w') !! p = fs !! p) ∧
  (is_ok r = true → sys_fs (snd w') = <[path := FDoc doc]> fs).
Proof.
  intros Hne Hfree Hrun.
  assert (at_fs st sys (<[tmp := FTorn]> fs) (st, set_fs (<[tmp := FTorn]> fs) sys)) as Hat by done.
  pose proof (replaceFile_triple st sys fs path tmp doc Hne Hfree _ Hat) as Ht.
  rewrite Hrun in Ht.
  assert (∀ f, (f = <[tmp := FTorn]> fs ∨ f = <[tmp := FDoc doc]> fs ∨ f = <[path := FDoc doc]> fs) →
    (f !! path = fs !! path ∨ f !! path = Some (FDoc doc)) ∧
    (∀ p, p ≠ path → p ≠ tmp → f !! p = fs !! p)) as Hf.
  { intros f [->|[->| ->]]; (split; [|by intros; rewrite lookup_insert_ne by congruence]).
    - left. by rewrite lookup_insert_ne.
    - left. by rewrite lookup_insert_ne.
    - right. by rewrite lookup_insert_eq. }
  destruct r as [[]|e].
  - destruct Ht as (_ & _ & _ & Hfs). destruct (Hf (sys_fs (snd w'))); auto.
  - destruct (Hf (sys_fs (snd w'))) as [H1 H2]; [|by split_and!].
    destruct Ht as [(_&_&_& ->)|[(_&_&_& ->)|(_&_&_& ->)]]; auto.
Qed.

Lemma state_file_atomic_witness :
  let res := replaceFile (H := noSyncEnv) "/s" "/t" JNull
               (demoStore, set_fs (<["/t" := FTorn]> ∅) demoSys) in
  fst res = Err (EMsg "sync state directory") ∧
  (sys_fs (snd (snd res)) !! "/s" = None ∨ sys_fs (snd (snd res)) !! "/s" = Some (FDoc JNull)).
Proof.
  cbv zeta. split; [vm_compute; reflexivity|].
  refine (proj1 (state_file_atomic (H := noSyncEnv) demoStore demoSys ∅ "/s" "/t" JNull
           (Err (EMsg "sync state directory")) _ _ eq_refl _)); [discriminate|].
  vm_compute. reflexivity.
Defined.

Lemma run_ops_seen {S} `{Env S} ops s (sys : Sys S) L t w :
  path_ok (st_path s) → implements s L → forallb op_ok ops = true → 0 ≤ seen_count L t →
  seen_count L t + Z.of_nat (length ops) < int64_max →
  run_ops ops (s, sys) = (Ok tt, w) →
  ∃ s' sys' L', w = (s', sys') ∧ path_ok (st_path s') ∧ implements s' L' ∧
    seen_count L' t = observations t ops (seen_count L t).
Proof.
  revert s sys L. induction ops as [|o ops IH]; intros s sys L Hp HL Hok Hn Hmax Hrun.
  { injection Hrun as <-. by exists s, sys, L. }
  cbn [forallb] in Hok. apply andb_true_iff in Hok as [Ho Hok].
  cbn [run_ops] in Hrun. apply bind_ok in Hrun as (b & [s1 sys1] & H1 & H2).
  destruct (run_op_step o s sys L b (s1, sys1) Hp HL Ho H1) as [Hp1 HL1].
  pose proof (seen_count_step o L t) as Hs.
  assert (wrap64 (seen_count L t + 1) = seen_count L t + 1) as Hw.
  { apply wrap64_id. unfold in_int64, int64_min, int64_max in *. simpl in Hmax. lia. }
  rewrite Hw in Hs. cbn [length] in Hmax.
  destruct (IH s1 sys1 (spec_step o L) Hp1 HL1 Hok) as (s' & sys' & L' & -> & Hp' & HL' & Hseen).
  - rewrite Hs. destruct o; try case_decide; lia.
  - rewrite Hs. destruct o; try case_decide; lia.
  - done.
  - exists s', sys', L'. split_and!; try done. rewrite Hseen, Hs. by destruct o.
Qed.

(** [C40] Two observations: after any history of successful calls, confirming an
    absence answers yes exactly when the absence has now been confirmed at
    least twice since it was last reset (or since the start, counting what the
    ledger had already recorded). *)
Theorem absence_needs_two {S} `{Env S} ops s (sys : Sys S) L p g u b w w' :
  path_ok (st_path s) → implements s L → forallb op_ok ops = true → id_ok (p, g, u) = true →
  0 ≤ seen_count L (p, g, u) →
  seen_count L (p, g, u) + Z.of_nat (length ops) < int64_max →
  run_ops ops (s, sys) = (Ok tt, w) → run_op (OConfirm p g u) w = (Ok b, w') →
  b = (2 <=? observations (p, g, u) ops (seen_count L (p, g, u)) + 1).
Proof.
  intros Hp HL Hok Hid Hn Hmax Hrun Hc.
  destruct (run_ops_seen ops s sys L (p, g, u) w Hp HL Hok Hn Hmax Hrun)
    as (s' & sys' & L' & -> & Hp' & HL' & Hseen).
  pose proof (run_op_cases _ _ _ _ _ Hp' Hc) as Hcase. apply op_ok_post_store in Hcase as (wr & He & ->).
  destruct (effect_refines (OConfirm p g u) _ _ _ _ HL' Hid He) as [_ ->]. cbn [spec_result].
  rewrite Hseen, wrap64_id; [done|].
  pose proof (observations_bounds (p, g, u) ops (seen_count L (p, g, u)) Hn).
  unfold in_int64, int64_min, int64_max in *. lia.
Qed.

Lemma absence_needs_two_witness :
  let ops := [OConfirm "gitlab@1" "7" "42"; OMark "gitlab@1" "7" "9"] in
  let w := snd (run_ops (H := quietEnv) ops (demoStore, demoSys)) in
  fst (run_op (H := quietEnv) (OConfirm "gitlab@1" "7" "42") w) = Ok true ∧
  true = (2 <=? observations ("gitlab@1", "7", "42") ops 0 + 1).
Proof.
  cbv zeta. split; [vm_compute; reflexivity|].
  refine (absence_needs_two (H := quietEnv) [OConfirm "gitlab@1" "7" "42"; OMark "gitlab@1" "7" "9"]
           demoStore demoSys emptyLedger "gitlab@1" "7" "42" true
           _ _ demo_path_ok (implements_empty _ _) eq_refl eq_refl _ _ _ _).
  - reflexivity.
  - vm_compute. reflexivity.
  - vm_compute. reflexivity.
  - vm_compute. reflexivity.
Defined.

(** The lock is exclusive: once [Open] has returned a store, [Open] of the
    same path fails as already locked (or on an earlier file-system error) in
    every later world in which the lock file is still held. *)
Theorem open_exclusive {S} `{Env S} path (sys sys' : Sys S) s w' :
  Open path sys = (Ok s, w') → sys_locks w' ⊆ sys_locks sys' →
  path +:+ ".lock" ∈ sys_locks sys' ∧
  ∃ e w'', Open path sys' = (Err e, w'') ∧ sys_locks w'' = sys_locks sys' ∧ sys_fs w'' = sys_fs sys'.
Proof.
  intros Hopen Hsub.
  assert (path +:+ ".lock" ∈ sys_locks w') as Hin.
  { apply (triple_ok (Open path) (λ _, True) (λ _ w, path +:+ ".lock" ∈ sys_locks w) (λ _ _, True)
             sys s w'); [|done|done]. clear. unfold Open.
    do 2 (eapply triple_bind with (R := λ _ _, True);
      [by apply triple_fsFails|intros []; [by apply triple_throw|]]).
    eapply triple_bind with (R := λ _ _, True); [by apply triple_gets|].
    intros []; [by apply triple_throw|].
    eapply triple_bind with (R := λ _ w, path +:+ ".lock" ∈ sys_locks w).
    { apply triple_modify. simpl. set_solver. }
    intros _. eapply triple_bind with (R := λ _ w, path +:+ ".lock" ∈ sys_locks w).
    { apply triple_fsFails. intros w w' b Hw (_ & _ & <-). done. }
    intros b. eapply triple_bind with (R := λ _ w, path +:+ ".lock" ∈ sys_locks w).
    { by apply triple_gets. }
    intros c. assert (∀ e, triple (λ w : Sys S, path +:+ ".lock" ∈ sys_locks w)
      (λ w, let '(_, w') := Close (MkStore path ∅ ∅ ∅ true, w) in (Err e, snd w'))
      (λ (_ : Store) w, path +:+ ".lock" ∈ sys_locks w) (λ (_ : err) _, True)) as Hcl.
    { intros e w _. by destruct (Close _). }
    destruct b; [apply Hcl|]. destruct c as [f|]; [|by apply triple_ret].
    destruct (loadStore path f); [by apply triple_ret|apply Hcl]. }
  split; [by apply Hsub|]. unfold Open, fsFails, mbind, M_bind.
  destruct (env_fault FsMkdirAll (sys_env sys')) as [[] s1]; [by eexists _, _|].
  cbn [sys_env set_env sys_trace sys_fs sys_locks].
  destruct (env_fault FsOpenLock s1) as [[] s2]; [by eexists _, _|].
  unfold gets. cbn [sys_env set_env sys_trace sys_fs sys_locks].
  rewrite bool_decide_true by (by apply Hsub). by eexists _, _.
Qed.

Lemma open_exclusive_witness :
  ∃ s w', Open (H := quietEnv) "/s.json" demoSys = (Ok s, w') ∧ "/s.json.lock" ∈ sys_locks w'.
Proof.
  eexists _, _. split; [vm_compute; reflexivity|].
  eapply (open_exclusive (H := quietEnv) "/s.json" demoSys).
  - vm_compute. reflexivity.
  - reflexivity.
Defined.
