(* ===== verification/StateLive.v ===== *)
(** * The ledger on a disk that works

    When no file-system call fails and no temporary file is left over, every
    call of the store that the ledger does not refuse succeeds, and leaves the
    disk in the same shape. *)

From S2P Require Import Prelude GoStrings GoTime Json World State StateSpec StateFacts.

(** [m] ends with a value. *)
Definition runs {W E A} (m : M W E A) (w : W) : Prop := ∃ a w', m w = (Ok a, w').

(** [m] never fails from a world in [P]. *)
Definition never_fails {W E A} (P : W → Prop) (m : M W E A) : Prop := triple P m (λ _, P) (λ _ _, False).

Lemma never_fails_bind {W E A B} (P : W → Prop) (m : M W E A) (f : A → M W E B) :
  never_fails P m → (∀ a, never_fails P (f a)) → never_fails P (m ≫= f).
Proof. intros Hm Hf. by eapply triple_bind. Qed.

Lemma never_fails_runs {W E A} (P : W → Prop) (m : M W E A) w : never_fails P m → P w → runs m w.
Proof. intros Hm Hw. specialize (Hm w Hw). destruct (m w) as [[a|e] w'] eqn:Hrun; [by exists a, w'|done]. Qed.

(** The ledger file is no temporary file, and no temporary file is left. *)
Definition tidy {S} (w : Store * Sys S) : Prop :=
  path_ok (st_path (fst w)) ∧ ∀ n, sys_fs (snd w) !! (tempPrefix (st_path (fst w)) +:+ n) = None.

Definition disk_works {S : Type} `{Env S} : Prop := ∀ k s, (env_fault k s).1 = false.

Section live.
Context {S : Type} `{Env S} (Hdisk : disk_works).
Notation SW := (Store * Sys S)%type.

Lemma fsTry_works P k msg : (∀ w s, P w → P (fst w, set_env s (snd w))) → never_fails (W := SW) P (fsTry k msg).
Proof.
  intros HP w Hw. unfold fsTry, mbind, M_bind, zoom, fsFails. cbn [view lens_snd].
  pose proof (Hdisk k (sys_env (snd w))) as Hk. destruct (env_fault _ _) as [b s]. cbn [fst] in Hk. subst b.
  exact (HP w s Hw).
Qed.

Lemma removeTemp_keeps (φ : Prop) tmp : triple (E := err) (λ _ : SW, φ) (removeTemp tmp) (λ _ _, φ) (λ _ _, False).
Proof.
  unfold removeTemp. eapply triple_bind with (R := λ _ _, φ).
  - apply triple_zoom. intros w Hw v _. unfold fsFails. by destruct (env_fault _ _).
  - intros []; [by apply triple_ret|by apply triple_modify].
Qed.

(** Saving succeeds: whatever the environment does in between, the ledger and
    the files are known up to the one file that is written. *)
Lemma replaceFile_works path tmp doc : never_fails (W := SW) (λ _, True) (replaceFile path tmp doc).
Proof.
  unfold replaceFile, modifyFs.
  repeat (apply never_fails_bind; [first [by apply fsTry_works | by apply triple_modify]|intros []]). by apply fsTry_works.
Qed.

Lemma saveLocked_works w : tidy w → runs saveLocked w.
Proof.
  intros [_ Hfree]. destruct w as [st sys]. cbn [fst snd] in Hfree.
  cut (triple (λ w, w = (st, sys)) saveLocked (λ _ _, True) (λ _ _, False)).
  { intros Ht. specialize (Ht _ eq_refl). destruct (saveLocked (st, sys)) as [[[]|e] w'] eqn:Hrun; [|done].
    by exists (), w'. }
  unfold saveLocked. eapply triple_bind with (R := λ _, at_fs st sys (sys_fs sys)).
  { eapply triple_conseq; [apply (snapshot_triple st sys)|by intros w ->|by intros d w [_ Hw]|done]. }
  intros d. eapply triple_bind with (R := λ p w, p = st_path st ∧ at_fs st sys (sys_fs sys) w).
  { apply triple_gets. intros w Hw. split; [|done]. by destruct Hw as [-> _]. }
  intros path. apply triple_pure. intros ->.
  assert (∀ k msg, never_fails (at_fs st sys (sys_fs sys)) (fsTry (S := S) k msg)) as Htry by (intros; by apply fsTry_works).
  do 2 (eapply triple_bind; [apply Htry|intros []]).
  eapply triple_bind with (R := λ _, at_fs st sys (sys_fs sys)).
  { apply triple_zoom. intros w Hw. apply triple_tempSuffix. intros v v' n -> Hf. by apply at_fs_frame. }
  intros suffix. cbn zeta. eapply triple_bind with (R := λ b w, b = false ∧ True).
  { apply triple_gets. intros w (_ & _ & _ & ->). by rewrite Hfree. }
  intros taken. apply triple_pure. intros ->.
  eapply triple_bind with (R := λ _ _, True); [by apply triple_modify|]. intros [].
  eapply triple_bind with (R := λ r _, r = Ok ()).
  { apply triple_attempt. eapply triple_conseq; [apply replaceFile_works|done|by intros [] w|done]. }
  intros r. eapply triple_bind with (R := λ _ _, r = Ok ()); [apply removeTemp_keeps|].
  intros []. apply triple_of_outcome. by intros w ->.
Qed.

(** A change of the ledger that keeps the path is written. *)
Lemma change_works f u w : tidy w → (∀ s, st_path (f s) = st_path s) → runs (modifyStore (S := S) f;; saveOr u) w.
Proof.
  intros [Hp Hfree] Hf. destruct (saveLocked_works (f (fst w), snd w)) as ([] & w' & Hrun).
  { split; cbn [fst snd]; by rewrite Hf. }
  exists (), w'. rewrite (bind_run _ _ _ () (f (fst w), snd w)) by done. unfold saveOr.
  rewrite (bind_run _ _ _ (Ok ()) w'); [done|]. unfold attempt. by rewrite Hrun.
Qed.

Ltac at_gets := unfold DeleteGroup, MoveGroup, ResetAbsent, mbind at 1, M_bind at 1; unfold mbind at 1, M_bind at 1, gets at 1; cbn [fst].

Lemma run_op_works o w : tidy w → op_effect o (fst w) ≠ None → runs (run_op o) w.
Proof.
  intros Hw Ho. destruct w as [st sys].
  assert (∀ f u (m : M SW err bool) b, (∀ s, st_path (f s) = st_path s) →
    m (st, sys) = ((modifyStore (S := S) f;; saveOr u);; mret b) (st, sys) → runs m (st, sys)) as Hch.
  { intros f u m b Hf Hm. destruct (change_works f u (st, sys) Hw Hf) as ([] & w' & Hrun).
    exists b, w'. rewrite Hm. by rewrite (bind_run _ _ _ _ _ Hrun). }
  assert (∀ (m : M SW err bool) b w', m (st, sys) = (Ok b, w') → runs m (st, sys)) as Hret by (intros m b w' Hm; by exists b, w').
  destruct o as [p g u|p g u|m|p r i|p r i i' n path|p g u|p g u]; cbn [run_op op_effect fst] in *.
  - eapply (Hch _ _ _ false); [|reflexivity]. done.
  - eapply (Hch _ _ _ false); [|reflexivity]. done.
  - eapply (Hch _ _ _ false); [|reflexivity]. done.
  - destruct (st_groups st !! groupKey p r i) as [m|] eqn:E.
    + eapply (Hch (λ s, set_groups (delete (groupKey p r i) (st_groups s)) s)
        (λ s, set_groups (<[groupKey p r i := m]> (st_groups s)) s) _ false); [done|].
      at_gets. by rewrite E.
    + apply (Hret _ false (st, sys)). at_gets. by rewrite E.
  - destruct (st_groups st !! groupKey p r i) as [m|] eqn:E; [|done].
    destruct (st_groups st !! groupKey p r i') as [ex|] eqn:E'; cbn [mbind option_bind] in Ho.
    + destruct (decide _) as [Hd|] eqn:Hdec; [|done].
      eapply (Hch (λ s, set_groups (delete (groupKey p r i) (<[groupKey p r i' := set_source (gm_SourceGroupID ex) n path ex]> (st_groups s))) s)
        (λ s, set_groups (<[groupKey p r i' := ex]> (<[groupKey p r i := m]> (st_groups s))) s) _ false); [done|].
      at_gets. rewrite E. at_gets. rewrite E', Hdec. done.
    + eapply (Hch (λ s, set_groups (<[groupKey p r i' := set_source i' n path m]> (delete (groupKey p r i) (st_groups s))) s)
        (λ s, set_groups (<[groupKey p r i := m]> (delete (groupKey p r i') (st_groups s))) s) _ false); [done|].
      at_gets. rewrite E. at_gets. rewrite E'. done.
  - eapply (Hch _ _ _ _); [|reflexivity]. done.
  - destruct (st_absences st !! key p g u) as [a|] eqn:E.
    + eapply (Hch (λ s, set_absences (delete (key p g u) (st_absences s)) s)
        (λ s, set_absences (<[key p g u := a]> (st_absences s)) s) _ false); [done|].
      at_gets. by rewrite E.
    + apply (Hret _ false (st, sys)). at_gets. by rewrite E.
Qed.

(** The disk is tidy afterwards. *)
Lemma run_op_tidy o w b w' : tidy w → run_op o w = (Ok b, w') → tidy w'.
Proof.
  destruct w as [st sys]. intros [Hp Hfree] Hrun. cbn [fst snd] in *.
  pose proof (run_op_cases o st sys _ _ Hp Hrun) as (st' & wrote & He & _ & Hw).
  destruct wrote; [|by destruct Hw as [-> ->]].
  pose proof (op_effect_path _ _ _ _ He) as Hpath. destruct Hw as (d & _ & Hst & _ & _ & Hfs).
  unfold tidy. rewrite Hst, Hpath. split; [done|]. intros n. rewrite Hfs, Hpath. rewrite lookup_insert_ne; [apply Hfree|].
  intros Heq. unfold path_ok in Hp. rewrite Heq in Hp at 1. by rewrite hasPrefix_app in Hp.
Qed.

(** A call that is not refused succeeds, and again. *)
Lemma run_op_lives o w : tidy w → op_effect o (fst w) ≠ None →
  ∃ b w', run_op o w = (Ok b, w') ∧ b = op_result o (fst w) ∧ op_ok_post o (fst w) (snd w) b w' ∧ tidy w'.
Proof.
  intros Hw Ho. destruct (run_op_works o w Hw Ho) as (b & w' & Hrun). exists b, w'. split; [done|].
  pose proof (run_op_tidy o w b w' Hw Hrun) as Hw'. destruct w as [st sys]. cbn [fst snd] in *. destruct Hw as [Hp _].
  pose proof (run_op_cases o st sys _ _ Hp Hrun) as Hpost. split; [|by split].
  by destruct Hpost as (st' & wrote & _ & Hb & _).
Qed.
End live.
