(* ===== verification/JsonParse.v ===== *)
(** * [json.Unmarshal]'s reading of bytes

    A parser for JSON texts as [encoding/json] accepts them: white space,
    escapes with surrogate pairs, raw bytes that are not UTF-8 read as U+FFFD,
    the number grammar, a nesting limit of 10000 and nothing after the value.
    Every recursive call consumes a byte, so the length of the text is fuel
    enough. *)

From S2P Require Import Prelude GoStrings Sha256 Json.

Definition isJsonSpace (a : ascii) : bool :=
  let b := byte_of a in (b =? 32) || (b =? 9) || (b =? 10) || (b =? 13).

Definition skipSpace (s : string) : string := trimLeft isJsonSpace s.

(** The four hexadecimal digits of an escape, in either case. *)
Definition hex4 (a b c d : ascii) : option Z :=
  w ← fromHex a; x ← fromHex b; y ← fromHex c; z ← fromHex d;
  Some (((w * 16 + x) * 16 + y) * 16 + z).

Definition utf8Encode (r : Z) : string :=
  if r <? 128 then String (ascii_of r) ""
  else if r <? 2048 then String (ascii_of (192 + r / 64)) (String (ascii_of (128 + r mod 64)) "")
  else if r <? 65536 then
    String (ascii_of (224 + r / 4096)) (String (ascii_of (128 + r / 64 mod 64))
      (String (ascii_of (128 + r mod 64)) ""))
  else
    String (ascii_of (240 + r / 262144)) (String (ascii_of (128 + r / 4096 mod 64))
      (String (ascii_of (128 + r / 64 mod 64)) (String (ascii_of (128 + r mod 64)) ""))).

Definition isHigh (r : Z) : bool := (55296 <=? r) && (r <? 56320).
Definition isLow (r : Z) : bool := (56320 <=? r) && (r <? 57344).

Definition simpleEscape (a : ascii) : option string :=
  let b := byte_of a in
  if (b =? 34) || (b =? 92) || (b =? 47) then Some (String a "")
  else if b =? 98 then Some (String "008" "")
  else if b =? 102 then Some (String "012" "")
  else if b =? 110 then Some (String "010" "")
  else if b =? 114 then Some (String "013" "")
  else if b =? 116 then Some (String "009" "")
  else None.

(** A high surrogate waiting for its low half. *)
Definition flush (pending : option Z) : string :=
  match pending with Some _ => replacement | None => "" end.

(** The rest of a string literal after its opening quote: its bytes, and what
    follows the closing quote. *)
Fixpoint stringBody (pending : option Z) (s : string) : option (string * string) :=
  match s with
  | "" => None
  | String a s =>
      if byte_of a =? 34 then Some (flush pending, s)
      else if byte_of a <? 32 then None
      else if byte_of a =? 92 then
        match s with
        | String "u" (String a (String b (String c (String d s)))) =>
            r ← hex4 a b c d;
            match pending with
            | Some h =>
                if isLow r then
                  '(t, rest) ← stringBody None s;
                  Some (utf8Encode (65536 + (h - 55296) * 1024 + (r - 56320)) +:+ t, rest)
                else if isHigh r then
                  '(t, rest) ← stringBody (Some r) s; Some (replacement +:+ t, rest)
                else
                  '(t, rest) ← stringBody None s; Some (replacement +:+ utf8Encode r +:+ t, rest)
            | None =>
                if isHigh r then stringBody (Some r) s
                else
                  '(t, rest) ← stringBody None s;
                  Some ((if isLow r then replacement else utf8Encode r) +:+ t, rest)
            end
        | String e s =>
            x ← simpleEscape e;
            '(t, rest) ← stringBody None s;
            Some (flush pending +:+ x +:+ t, rest)
        | "" => None
        end
      else
        '(t, rest) ← stringBody None s;
        Some (flush pending +:+ String a t, rest)
  end.

Definition parseString (s : string) : option (string * string) :=
  '(t, rest) ← stringBody None s; Some (coerceUTF8 t, rest).

Fixpoint takeWhile (p : ascii → bool) (s : string) : string * string :=
  match s with
  | "" => ("", "")
  | String a s' => if p a then let '(x, r) := takeWhile p s' in (String a x, r) else ("", s)
  end.

(** The digits of a number, with the part after them. *)
Definition parseNumber (s : string) : option (json * string) :=
  let '(sign, s1) := match s with String "-" s' => ("-", s') | _ => ("", s) end in
  let '(int, s2) := takeWhile is_digit s1 in
  match int with
  | "" => None
  | String "0" (String _ _) => None
  | _ =>
      n ← digits int 0;
      let z := if String.eqb sign "-" then - n else n in
      '(frac, s3) ← match s2 with
                    | String "." s' =>
                        let '(f, r) := takeWhile is_digit s' in
                        if String.eqb f "" then None else Some ("." +:+ f, r)
                    | _ => Some ("", s2)
                    end;
      '(ex, s4) ← match s3 with
                  | String e s' =>
                      if (byte_of e =? 101) || (byte_of e =? 69) then
                        let '(sg, s'') := match s' with
                                          | String "+" t => ("+", t)
                                          | String "-" t => ("-", t)
                                          | _ => ("", s')
                                          end in
                        let '(d, r) := takeWhile is_digit s'' in
                        if String.eqb d "" then None else Some (String e (sg +:+ d), r)
                      else Some ("", s3)
                  | "" => Some ("", s3)
                  end;
      Some (if String.eqb frac "" && String.eqb ex "" then JInt z
            else JFloat (sign +:+ int +:+ frac +:+ ex), s4)
  end.

Definition literal (word : string) (j : json) (s : string) : option (json * string) :=
  if hasPrefix s word then Some (j, trimPrefix s word) else None.

Fixpoint parseValue (fuel : nat) (depth : Z) (s : string) : option (json * string) :=
  match fuel with
  | O => None
  | S fuel =>
      match skipSpace s with
      | "" => None
      | String a rest =>
          let b := byte_of a in
          if b =? 34 then '(t, r) ← parseString rest; Some (JStr t, r)
          else if b =? 123 then
            if 10000 <=? depth then None
            else match skipSpace rest with
                 | String "}" r => Some (JObj [], r)
                 | r => '(l, r) ← parseMembers fuel (depth + 1) r; Some (JObj l, r)
                 end
          else if b =? 91 then
            if 10000 <=? depth then None
            else match skipSpace rest with
                 | String "]" r => Some (JArr [], r)
                 | r => '(l, r) ← parseElements fuel (depth + 1) r; Some (JArr l, r)
                 end
          else if b =? 116 then literal "true" (JBool true) (String a rest)
          else if b =? 102 then literal "false" (JBool false) (String a rest)
          else if b =? 110 then literal "null" JNull (String a rest)
          else parseNumber (String a rest)
      end
  end
with parseMembers (fuel : nat) (depth : Z) (s : string) : option (list (string * json) * string) :=
  match fuel with
  | O => None
  | S fuel =>
      match skipSpace s with
      | String "034" r =>
          '(k, r) ← parseString r;
          match skipSpace r with
          | String ":" r =>
              '(v, r) ← parseValue fuel depth r;
              match skipSpace r with
              | String "," r => '(l, r) ← parseMembers fuel depth r; Some ((k, v) :: l, r)
              | String "}" r => Some ([(k, v)], r)
              | _ => None
              end
          | _ => None
          end
      | _ => None
      end
  end
with parseElements (fuel : nat) (depth : Z) (s : string) : option (list json * string) :=
  match fuel with
  | O => None
  | S fuel =>
      '(v, r) ← parseValue fuel depth s;
      match skipSpace r with
      | String "," r => '(l, r) ← parseElements fuel depth r; Some (v :: l, r)
      | String "]" r => Some ([v], r)
      | _ => None
      end
  end.

(** [json.Unmarshal]'s document; [None] is a syntax error. *)
Definition parseJson (body : string) : option json :=
  '(j, rest) ← parseValue (S (String.length body)) 0 body;
  if String.eqb (skipSpace rest) "" then Some j else None.
