(* ===== verification/Model.v ===== *)
(** * The provider-neutral data model and the counters
    ([internal/model/model.go], [internal/metrics/metrics.go])

    A [Duration] is an [int64] number of nanoseconds, an [int] is a [Z] that
    the operations keep in range, a counter is a [uint64]. *)

From S2P Require Import Prelude GoStrings GoTime.

Module Model.
Record User : Type := MkUser { u_ID : string; u_Username : string; u_Email : string }.

Record Group : Type := MkGroup
  { g_ID : string; g_Name : string; g_Path : string; g_Members : list User }.

Record SyncRequest : Type := MkSync
  { sr_RuleName : string;
    sr_StateKey : string;
    sr_SourceGroup : Group;
    sr_TargetPath : string;
    sr_TargetParent : string;
    sr_CreateGroup : bool;
    sr_AdoptExistingGroup : bool;
    sr_AccessLevel : string;
    sr_Prune : string;
    sr_ProtectedUsers : list string;
    sr_MaxRemovals : Z;
    sr_IdentityMatch : list string;
    sr_EnforceAccessLevel : bool;
    sr_ImmediateRemoval : bool }.

Record Result : Type := MkResult
  { r_Provider : string;
    r_SourceGroup : string;
    r_TargetGroup : string;
    r_CreatedGroup : bool;
    r_Added : Z;
    r_Updated : Z;
    r_Removed : Z;
    r_Unresolved : Z;
    r_SkippedRemoval : Z;
    r_Converged : bool;
    r_Duration : Z }.

Record AccessSyncRequest : Type := MkAccessSync
  { as_RuleName : string;
    as_StateKey : string;
    as_SourceGroup : Group;
    as_SecretPath : string;
    as_AccessProfile : string;
    as_PolicyMode : string;
    as_Discoverable : bool }.

Record AccessResult : Type := MkAccessResult
  { ar_Provider : string;
    ar_SourceGroup : string;
    ar_SecretPath : string;
    ar_VerifiedPolicy : bool;
    ar_Converged : bool;
    ar_Duration : Z }.

#[export] Instance User_eq_dec : EqDecision User.
Proof. solve_decision. Defined.
#[export] Instance Group_eq_dec : EqDecision Group.
Proof. solve_decision. Defined.
#[export] Instance SyncRequest_eq_dec : EqDecision SyncRequest.
Proof. solve_decision. Defined.
#[export] Instance AccessSyncRequest_eq_dec : EqDecision AccessSyncRequest.
Proof. solve_decision. Defined.
End Model.
Export Model.

(** ** Counters *)
Inductive counter : Type :=
| Reconciles | ReconcileErrors | WebhookAccepted | WebhookRejected | EventHintsCoalesced
| EventTargetedRuns | EventFullRepairs | GroupsCreated | MembershipsAdded | MembershipsChanged
| MembershipsRemoved | UnresolvedUsers | AccessPoliciesVerified | ProviderHealthErrors.

#[export] Instance counter_eq_dec : EqDecision counter.
Proof. solve_decision. Defined.

(** The counters of [Metrics]; each is an [atomic.Uint64]. *)
Definition Metrics : Type := counter → Z.

Definition noMetrics : Metrics := λ _, 0.

(** [m.X.Add(n)], which wraps around. *)
Definition addMetric (c : counter) (n : Z) (m : Metrics) : Metrics :=
  λ c', if decide (c' = c) then wrapu64 (m c' + wrapu64 n) else m c'.

Definition inc (c : counter) : Metrics → Metrics := addMetric c 1.

(** [fmt]'s [%d] of a [uint64]. *)
Definition newline : string := String "010" "".

Definition writeMetric (name help : string) (value : Z) : string :=
  "# HELP " +:+ name +:+ " " +:+ help +:+ newline +:+
  "# TYPE " +:+ name +:+ " counter" +:+ newline +:+
  name +:+ " " +:+ itoa value +:+ newline.

Definition exposed : list (counter * string * string) :=
  [ (Reconciles, "groupbridge_reconciles_total", "Completed reconciliation scans.");
    (ReconcileErrors, "groupbridge_reconcile_errors_total",
      "Reconciliation scans that returned an error.");
    (WebhookAccepted, "groupbridge_webhook_accepted_total", "Authenticated Keycloak hints accepted.");
    (WebhookRejected, "groupbridge_webhook_rejected_total", "Keycloak hints rejected.");
    (EventHintsCoalesced, "groupbridge_event_hints_coalesced_total",
      "Authenticated hints merged into bounded event work.");
    (EventTargetedRuns, "groupbridge_event_targeted_reconciles_total",
      "Authoritative single-group event reconciliations attempted.");
    (EventFullRepairs, "groupbridge_event_full_repairs_total",
      "Rate-limited complete repairs requested by unroutable events.");
    (GroupsCreated, "groupbridge_groups_created_total", "Target groups created.");
    (MembershipsAdded, "groupbridge_memberships_added_total", "Target memberships added.");
    (MembershipsChanged, "groupbridge_memberships_changed_total",
      "Target membership access levels changed.");
    (MembershipsRemoved, "groupbridge_memberships_removed_total", "Target memberships removed.");
    (UnresolvedUsers, "groupbridge_unresolved_users_total",
      "Source users not yet resolvable at a target.");
    (AccessPoliciesVerified, "groupbridge_access_policies_verified_total",
      "GitOps-owned target access policies verified.");
    (ProviderHealthErrors, "groupbridge_provider_health_errors_total",
      "Target provider health checks that failed.") ].

Definition WritePrometheus (m : Metrics) : string :=
  concat_strings (map (λ '(c, name, help), writeMetric name help (m c)) exposed).

(** Every counter is exposed exactly once. *)
Lemma exposed_all c : c ∈ (fst ∘ fst) <$> exposed.
Proof. destruct c; vm_compute; repeat constructor. Qed.

Lemma exposed_NoDup : NoDup ((fst ∘ fst) <$> exposed).
Proof. apply (bool_decide_unpack _). vm_compute. done. Qed.

Lemma addMetric_ne c c' n m : c' ≠ c → addMetric c n m c' = m c'.
Proof. intros H. unfold addMetric. by rewrite decide_False. Qed.
#[export] Hint Rewrite addMetric_ne using done : gb.
