(* ===== verification/Credential.v ===== *)
(** * Credentials ([internal/credential/credential.go])

    [Loader] reads its source on every call; [StableLoader] keeps the last
    valid value.  A file is opened, read (at most one byte more than the
    limit) and closed; the environment may fail at any of the three. *)

From S2P Require Import Prelude GoStrings Json World.

Definition maxCredentialBytes : Z := 1048576.

Record Loader : Type := MkLoader
  { ld_environment : string; ld_filePath : string; ld_staticValue : option string }.

(** [New]. *)
Definition New (environment filePath : string) : outcome err Loader :=
  if negb (String.eqb environment "") && negb (String.eqb filePath "") then
    Err (EMsg "credential environment variable and file are mutually exclusive")
  else if String.eqb environment "" && String.eqb filePath "" then
    Err (EMsg "credential requires exactly one environment variable or file")
  else if negb (String.eqb filePath "") && negb (isAbs filePath) then
    Err (EMsg "credential file must be an absolute path")
  else if negb (String.eqb filePath "") && negb (String.eqb (clean filePath) filePath) then
    Err (EMsg "credential file path must be canonical")
  else Ok (MkLoader environment filePath None).

Definition Static (value : string) : Loader := MkLoader "" "" (Some value).

(** The checks at the end of [Load]. *)
Definition checkCredential (raw : string) : outcome err string :=
  let value := trimSpace raw in
  if String.eqb value "" then Err (EMsg "credential is empty")
  else if negb (utf8Valid value) || existsb (λ r, isControl (rune_value r)) (runes value) then
    Err (EMsg "credential contains invalid control characters")
  else Ok value.

Section load.
Context {S : Type} `{Env S}.
Notation MS := (M (Sys S) err).

Definition readCredentialFile (path : string) : MS string :=
  r ← readFile path;
  match r with
  | Err e => mthrow (EWrap "read credential file" e)
  | Ok data =>
      b ← fsFails FsClose;
      if (b : bool) then mthrow (EMsg "close credential file")
      else if maxCredentialBytes <? Z.of_nat (String.length data) then
        mthrow (EMsg "credential file exceeds the limit")
      else mret data
  end.

(** [Loader.Load]. *)
Definition Load (l : Loader) : MS string :=
  value ← match ld_staticValue l with
          | Some v => mret v
          | None =>
              if negb (String.eqb (ld_environment l) "") then
                raw ← lookupEnv (ld_environment l);
                match raw with
                | None => mthrow (EMsg "required credential environment variable is unset")
                | Some v => mret v
                end
              else if negb (String.eqb (ld_filePath l) "") then readCredentialFile (ld_filePath l)
              else mthrow (EMsg "credential loader is not configured")
          end;
  of_outcome (checkCredential value).

Record StableLoader : Type := MkStable { sl_source : Loader; sl_minBytes : Z; sl_last : string }.

Definition byteLen (s : string) : Z := Z.of_nat (String.length s).

(** [StableLoader.Load], over the loader and the outside. *)
Definition StableLoad : M (StableLoader * Sys S) err string :=
  l ← gets fst;
  r ← attempt (zoom (Load (sl_source l)));
  let r := match r with
           | Ok value =>
               if byteLen value <? sl_minBytes l
               then Err (EMsg "credential must contain at least the minimum number of bytes")
               else Ok value
           | Err e => Err e
           end in
  match r with
  | Ok value =>
      modify (λ w, (MkStable (sl_source l) (sl_minBytes l) value, snd w));; mret value
  | Err e => if negb (String.eqb (sl_last l) "") then mret (sl_last l) else mthrow e
  end.

Definition NewStable (source : Loader) (minBytes : Z) : MS StableLoader :=
  if minBytes <? 1 then mthrow (EMsg "stable credential minimum length must be positive")
  else λ w,
    match StableLoad (MkStable source minBytes "", w) with
    | (Ok _, (l, w')) => (Ok l, w')
    | (Err e, (_, w')) => (Err e, w')
    end.
End load.

(** ** Facts *)
Definition credential_ok (v : string) : Prop :=
  v ≠ "" ∧ utf8Valid v = true ∧ ∀ r, r ∈ runes v → isControl (rune_value r) = false.

Lemma checkCredential_ok raw v : checkCredential raw = Ok v → v = trimSpace raw ∧ credential_ok v.
Proof.
  unfold checkCredential. destruct (String.eqb_spec (trimSpace raw) ""); [done|].
  destruct (negb _ || _) eqn:Hb; [done|]. intros [= <-]. split; [done|].
  apply orb_false_iff in Hb as [Hu Hc]. split_and!; [done|by apply negb_false_iff|].
  intros r Hr. apply not_true_iff_false. intros Ht.
  apply not_true_iff_false in Hc. apply Hc. apply existsb_elem. by exists r.
Qed.

Section facts.
Context {S : Type} `{Env S}.

(** A load only consults the outside: it sends no request and writes nothing;
    what it returns has passed the checks. *)
Lemma triple_Load l (P : Sys S → Prop) (Q : string → Sys S → Prop) (X : err → Sys S → Prop) :
  (∀ w w' v, P w → frame w w' → credential_ok v → Q v w') →
  (∀ w w' e, P w → frame w w' → X e w') →
  triple P (Load l) Q X.
Proof.
  intros HQ HX. unfold Load.
  eapply triple_bind with (R := λ v w', ∃ w, P w ∧ frame w w').
  - destruct (ld_staticValue l) as [v|].
    { apply triple_ret. intros w Hw. exists w. by split. }
    destruct (negb _); [|destruct (negb _)].
    + eapply triple_bind with (R := λ _ w', ∃ w, P w ∧ frame w w').
      { apply triple_lookupEnv. eauto. }
      intros [v|]; [apply triple_ret; done|apply triple_throw].
      intros w (w0 & Hw & Hf). by eapply HX.
    + unfold readCredentialFile. eapply triple_bind with (R := λ _ w', ∃ w, P w ∧ frame w w').
      { apply triple_readFile. eauto. }
      intros [data|e].
      2: { apply triple_throw. intros w (w0 & Hw & Hf). by eapply HX. }
      eapply triple_bind with (R := λ _ w', ∃ w, P w ∧ frame w w').
      { apply triple_fsFails. intros w w' b (w0 & Hw & Hf) Hf'. exists w0. split; [done|].
        by etrans. }
      intros b. destruct b; [|destruct (_ <? _)];
        [apply triple_throw|apply triple_throw|apply triple_ret; done];
        intros w (w0 & Hw & Hf); by eapply HX.
    + apply triple_throw. intros w Hw. eapply HX; [done|reflexivity].
  - intros v. apply triple_of_outcome. intros w (w0 & Hw & Hf).
    destruct (checkCredential v) as [v'|e] eqn:Hc; [|by eapply HX].
    apply checkCredential_ok in Hc as [_ Hc]. by eapply HQ.
Qed.
End facts.
