(* ===== verification/CredentialFacts.v ===== *)
(** * Properties of the credential loaders *)

From S2P Require Import Prelude GoStrings GoTime Json World Credential.

Section facts.
Context {S : Type} `{Env S}.

(** What a loader may hold: nothing yet, or a value of the required length. *)
Definition stable_wf (l : StableLoader) : Prop :=
  1 ≤ sl_minBytes l ∧ (sl_last l = "" ∨ (sl_minBytes l ≤ byteLen (sl_last l) ∧ credential_ok (sl_last l))).

Lemma triple_StableLoad l :
  triple (λ w, fst w = l ∧ stable_wf l) StableLoad
    (λ v w, sl_source (fst w) = sl_source l ∧ sl_minBytes (fst w) = sl_minBytes l ∧
            sl_last (fst w) = v ∧ sl_minBytes l ≤ byteLen v ∧ credential_ok v)
    (λ _ w, fst w = l ∧ sl_last l = "").
Proof.
  unfold StableLoad. eapply triple_bind with (R := λ a w, a = l ∧ fst w = l ∧ stable_wf l).
  { apply triple_gets. naive_solver. }
  intros a. apply triple_pure. intros ->.
  eapply triple_bind with (R := λ r w, (fst w = l ∧ stable_wf l) ∧
    match r with Ok v => credential_ok v | Err _ => True end).
  { apply triple_attempt, triple_zoom. intros [l0 sys] [Hl Hw]; simpl in *.
    apply triple_Load; simpl; intros; subst; done. }
  intros r.
  destruct (match r with Ok v => _ | Err e => Err e end) as [v|e] eqn:Hr.
  - assert (r = Ok v ∧ sl_minBytes l ≤ byteLen v) as [-> Hlen].
    { destruct r as [v0|]; [|done]. destruct (Z.ltb_spec (byteLen v0) (sl_minBytes l)); [done|].
      by injection Hr as ->. }
    eapply triple_bind with (R := λ _ w, (sl_source (fst w) = sl_source l ∧
      sl_minBytes (fst w) = sl_minBytes l ∧ sl_last (fst w) = v) ∧ credential_ok v).
    { apply triple_modify. naive_solver. }
    intros _. apply triple_ret. naive_solver.
  - destruct (String.eqb_spec (sl_last l) "") as [He|He]; simpl.
    + apply triple_throw. naive_solver.
    + apply triple_ret. intros w [[-> [_ [?|[? ?]]]] _]; [done|]. done.
Qed.

(** The loader after any number of [Load] calls, whatever happened outside in
    between. *)
Inductive stable_after (l : StableLoader) : StableLoader → Prop :=
| sa_refl : stable_after l l
| sa_load l' sys r l'' sys' :
    stable_after l l' → StableLoad (l', sys) = (r, (l'', sys')) → stable_after l l''.

Lemma stable_after_wf l l' :
  stable_wf l → sl_last l ≠ "" → stable_after l l' →
  stable_wf l' ∧ sl_last l' ≠ "" ∧ sl_minBytes l' = sl_minBytes l.
Proof.
  intros Hwf Hne. induction 1 as [|l' sys r l'' sys' _ (IH1 & IH2 & IH3) Hrun]; [done|].
  pose proof (triple_StableLoad l' (l', sys) (conj eq_refl IH1)) as Ht. rewrite Hrun in Ht.
  destruct r as [v|e]; simpl in Ht; [|naive_solver].
  destruct Ht as (_ & Hm & <- & Hlen & Hok). unfold stable_wf. rewrite Hm.
  split_and!; try done; [by destruct IH1|right; done|by destruct Hok].
Qed.
End facts.

(** A credential that is there and stays the same: whenever it is loaded it is
    [token], whatever the outside does meanwhile. *)
Definition steadyToken {S : Type} `{Env S} (l : Loader) (token : string) : Prop :=
  ∀ w : Sys S, ∃ s, Load l w = (Ok token, set_env s w).

Lemma steady_static {S : Type} `{Env S} l raw token :
  ld_staticValue l = Some raw → checkCredential raw = Ok token → steadyToken l token.
Proof. intros Hs Hc w. exists (sys_env w). unfold Load. rewrite Hs. unfold mbind, M_bind, mret, M_ret, of_outcome. rewrite Hc. by destruct w. Qed.

(** One that comes from an environment variable, as configured. *)
Lemma steady_variable {S : Type} `{Env S} name raw token :
  name ≠ "" → (∀ s, (env_getenv name s).1 = Some raw) → checkCredential raw = Ok token → steadyToken (MkLoader name "" None) token.
Proof.
  intros Hn%String.eqb_neq Hv Hc w. unfold Load. cbn [ld_staticValue ld_environment]. rewrite Hn. cbn [negb].
  unfold mbind, M_bind, lookupEnv, mret, M_ret. specialize (Hv (sys_env w)). destruct (env_getenv _ _) as [o s]. cbn [fst] in Hv. subst o.
  exists s. unfold of_outcome. by rewrite Hc.
Qed.

(** One that comes from a file. *)
Lemma steady_file {S : Type} `{Env S} path raw token :
  path ≠ "" → (∀ s, (env_read path s).1 = Ok raw) → (∀ s, (env_fault FsClose s).1 = false) →
  Z.of_nat (String.length raw) ≤ maxCredentialBytes → checkCredential raw = Ok token → steadyToken (MkLoader "" path None) token.
Proof.
  intros Hn%String.eqb_neq Hv Hf Hl Hc w. unfold Load. cbn [ld_staticValue ld_environment ld_filePath]. rewrite Hn. cbn [negb String.eqb].
  unfold readCredentialFile, mbind, M_bind, readFile, fsFails, mret, M_ret. specialize (Hv (sys_env w)).
  destruct (env_read _ _) as [o s]. cbn [fst] in Hv. subst o. cbn [sys_env set_env]. specialize (Hf s).
  destruct (env_fault _ _) as [b s']. cbn [fst] in Hf. subst b. rewrite (proj2 (Z.ltb_ge _ _) Hl).
  exists s'. unfold of_outcome. rewrite Hc. by destruct w.
Qed.

(** A stable loader serves it, and keeps it for the time that it is missing. *)
Lemma StableLoad_runs {S : Type} `{Env S} l token (w : Sys S) : steadyToken (sl_source l) token → sl_minBytes l ≤ byteLen token →
  ∃ s, Load (sl_source l) w = (Ok token, set_env s w) ∧
    StableLoad (l, w) = (Ok token, (MkStable (sl_source l) (sl_minBytes l) token, set_env s w)).
Proof.
  intros Hl Hmin. destruct (Hl w) as [s Hs]. exists s. split; [exact Hs|]. unfold StableLoad, mbind, M_bind, gets, attempt, zoom. cbn. rewrite Hs.
  by rewrite (proj2 (Z.ltb_ge _ _) Hmin).
Qed.

(** Rotation without an outage: once [NewStable] has succeeded, every later
    [Load] succeeds whatever the source does in between, with a value of at
    least the configured length that is non-empty valid UTF-8 without control
    characters; and it is either the value just read or the last one served. *)
Theorem stable_load_never_fails {S} `{Env S} source k (sys0 sys0' : Sys S) l l' sys r l'' sys' :
  NewStable source k sys0 = (Ok l, sys0') → stable_after l l' →
  StableLoad (l', sys) = (r, (l'', sys')) →
  ∃ v, r = Ok v ∧ k ≤ byteLen v ∧ credential_ok v ∧ sl_last l'' = v.
Proof.
  intros Hnew Hafter Hrun. unfold NewStable in Hnew.
  destruct (Z.ltb_spec k 1) as [|Hk]; [done|].
  destruct (StableLoad _) as [[v0|] [l0 w0]] eqn:H0 in Hnew; [|done]. injection Hnew as -> ->.
  assert (stable_wf (MkStable source k "")) as Hwf0 by (split; [done|by left]).
  pose proof (triple_StableLoad (MkStable source k "") (MkStable source k "", sys0)
    (conj eq_refl Hwf0)) as Ht. rewrite H0 in Ht.
  destruct Ht as (_ & Hm & Hlast & Hlen & Hok). simpl in Hm, Hlast.
  destruct (stable_after_wf l l') as (Hwf & Hne & Hmin).
  { split; [lia|]. right. rewrite Hlast, Hm. done. }
  { rewrite Hlast. by destruct Hok. }
  { done. }
  pose proof (triple_StableLoad l' (l', sys) (conj eq_refl Hwf)) as Ht. rewrite Hrun in Ht.
  destruct r as [v|e]; simpl in Ht; [|naive_solver].
  destruct Ht as (_ & _ & Hl & Hlen' & Hok'). exists v. rewrite Hmin, Hm in Hlen'. done.
Qed.

(** A source that is readable once and then disappears. *)
Definition vanishingEnv : Env nat :=
  {| env_http _ s := (Err (EMsg "no server"), s);
     env_getenv _ s := (match s with O => Some " 0123456789abcdef0123456789abcdef " | _ => None end, 1%nat);
     env_read _ s := (Err (EMsg "no file"), s);
     env_now s := (zeroTime, s);
     env_fault _ s := (false, s);
     env_temp s := ("tmp", s);
     env_order A l s := (l, s);
     env_order_perm A l s := reflexivity l |}.

Definition vanishingLoader : Loader := MkLoader "GROUPBRIDGE_WEBHOOK_SECRET" "" None.
Definition vanishingStable : StableLoader :=
  MkStable vanishingLoader 32 "0123456789abcdef0123456789abcdef".

Lemma stable_load_never_fails_witness :
  fst (Load (H := vanishingEnv) vanishingLoader (MkSys 1%nat [] ∅ ∅))
    = Err (EMsg "required credential environment variable is unset") ∧
  ∃ v, fst (StableLoad (H := vanishingEnv) (vanishingStable, MkSys 1%nat [] ∅ ∅)) = Ok v ∧
       32 ≤ byteLen v.
Proof.
  split; [vm_compute; reflexivity|].
  destruct (stable_load_never_fails (H := vanishingEnv) vanishingLoader 32
    (MkSys O [] ∅ ∅) (MkSys 1%nat [] ∅ ∅) vanishingStable vanishingStable (MkSys 1%nat [] ∅ ∅)
    (Ok "0123456789abcdef0123456789abcdef") vanishingStable (MkSys 1%nat [] ∅ ∅))
    as (v & Hv & Hlen & _).
  - vm_compute. reflexivity.
  - apply sa_refl.
  - vm_compute. reflexivity.
  - exists v. rewrite <-Hv. split; [vm_compute; reflexivity|done].
Defined.

(** A loader built by [New] reads exactly one source: an environment
    variable, or a file named by an absolute canonical path; and [New] accepts
    exactly those references. *)
Theorem new_exactly_one_source environment filePath :
  (∃ l, New environment filePath = Ok l) ↔
  (environment ≠ "" ∧ filePath = "") ∨
  (environment = "" ∧ filePath ≠ "" ∧ isAbs filePath = true ∧ clean filePath = filePath).
Proof.
  unfold New.
  destruct (String.eqb_spec environment ""), (String.eqb_spec filePath ""); simpl;
    [naive_solver| |naive_solver|naive_solver].
  destruct (isAbs filePath); simpl; [|naive_solver].
  destruct (String.eqb_spec (clean filePath) filePath); simpl; naive_solver.
Qed.

(** Every credential that [Load] returns is its source's text with
    surrounding white space removed, non-empty, valid UTF-8 and free of control
    characters; loading sends no request and writes no file. *)
Theorem load_checked {S} `{Env S} l (sys sys' : Sys S) v :
  Load l sys = (Ok v, sys') →
  credential_ok v ∧ frame sys sys' ∧ (∀ s, ld_staticValue l = Some s → v = trimSpace s).
Proof.
  intros Hrun. pose proof (triple_Load l (λ w, w = sys) (λ v w', credential_ok v ∧ frame sys w')
    (λ _ _, True)) as Ht.
  specialize (Ht ltac:(naive_solver) ltac:(naive_solver) sys eq_refl). rewrite Hrun in Ht.
  destruct Ht as [Hok Hf]. split_and!; [done|done|]. intros s Hs.
  unfold Load in Hrun. rewrite Hs in Hrun. unfold mbind, M_bind, mret, M_ret, of_outcome in Hrun.
  destruct (checkCredential s) eqn:Hc; [|done]. injection Hrun as -> _.
  by apply checkCredential_ok in Hc as [-> _].
Qed.

Lemma load_checked_witness :
  fst (Load (H := vanishingEnv) vanishingLoader (MkSys O [] ∅ ∅))
    = Ok "0123456789abcdef0123456789abcdef" ∧
  credential_ok "0123456789abcdef0123456789abcdef".
Proof.
  split; [vm_compute; reflexivity|].
  refine (proj1 (load_checked (H := vanishingEnv) vanishingLoader (MkSys O [] ∅ ∅)
    (MkSys 1%nat [] ∅ ∅) _ _)).
  vm_compute. reflexivity.
Defined.
