(* ===== verification/Webhook.v ===== *)
(** * The webhook receiver ([internal/webhook/keycloak.go])

    [ServeHTTP] authenticates one event delivery and turns it into a hint.
    Its world [Hook] is the handler's state (its secret loader and the
    deliveries seen), the counters, the hints passed on so far and the outside.
    Go's [time.Now] is read at each of the three places the code reads it. *)

From S2P Require Import Prelude GoStrings Sha256 GoTime Json JsonParse World Model Credential.

Definition maxBodyBytes : Z := 65536.
Definition maxSeen : Z := 10000.

Record Hint : Type := MkHint
  { hi_ResourceType : string;
    hi_OperationType : string;
    hi_GroupKey : string;
    hi_UserKey : string;
    hi_GlobalRepair : bool }.

Definition noHint : Hint := MkHint "" "" "" "" false.

#[export] Instance Hint_eq_dec : EqDecision Hint.
Proof. solve_decision. Defined.

Record envelope : Type := MkEnvelope
  { ev_SpecVersion : string;
    ev_EventID : string;
    ev_OccurredAt : string;
    ev_RealmName : string;
    ev_ResourceType : string;
    ev_OperationType : string;
    ev_GroupKey : string;
    ev_UserKey : string }.

(** [json.Unmarshal(body, &event)]. *)
Definition decEnvelope : json → option envelope :=
  decStruct (λ '(MkEnvelope sv id oc re rt ot gk uk) k v,
    if field k "specVersion" then x ← decString sv v; Some (MkEnvelope x id oc re rt ot gk uk)
    else if field k "eventId" then x ← decString id v; Some (MkEnvelope sv x oc re rt ot gk uk)
    else if field k "occurredAt" then x ← decString oc v; Some (MkEnvelope sv id x re rt ot gk uk)
    else if field k "realmName" then x ← decString re v; Some (MkEnvelope sv id oc x rt ot gk uk)
    else if field k "resourceType" then x ← decString rt v; Some (MkEnvelope sv id oc re x ot gk uk)
    else if field k "operationType" then x ← decString ot v; Some (MkEnvelope sv id oc re rt x gk uk)
    else if field k "groupKey" then x ← decString gk v; Some (MkEnvelope sv id oc re rt ot x uk)
    else if field k "userKey" then x ← decString uk v; Some (MkEnvelope sv id oc re rt ot gk x)
    else Some (MkEnvelope sv id oc re rt ot gk uk)) (MkEnvelope "" "" "" "" "" "" "" "").

Definition hexDigit (a : ascii) : bool :=
  is_digit a || ((97 <=? byte_of a) && (byte_of a <=? 102)).

(** A range over a string that finds a byte that is no ASCII finds a rune that
    is no hexadecimal digit. *)
Definition validRoutingKey (value : string) : bool :=
  if negb (byteLen value =? 64) then false else string_all hexDigit value.

(** The checks after the switch of [classify]. *)
Definition routed (hint : Hint) : option Hint :=
  if String.eqb (hi_GroupKey hint) "" && String.eqb (hi_UserKey hint) "" then
    Some (MkHint (hi_ResourceType hint) (hi_OperationType hint) (hi_GroupKey hint) (hi_UserKey hint) true)
  else if (negb (String.eqb (hi_GroupKey hint) "") && negb (validRoutingKey (hi_GroupKey hint))) ||
          (negb (String.eqb (hi_UserKey hint) "") && negb (validRoutingKey (hi_UserKey hint))) then None
  else Some hint.

Definition classify (event : envelope) : option Hint :=
  let rt := ev_ResourceType event in
  let op := ev_OperationType event in
  let gk := ev_GroupKey event in
  let uk := ev_UserKey event in
  let hint gk uk := MkHint rt op gk uk false in
  if String.eqb rt "GROUP" then
    if negb (String.eqb op "CREATE") && negb (String.eqb op "UPDATE") && negb (String.eqb op "DELETE")
    then None
    else if negb (String.eqb uk "") then None
    else routed (hint gk "")
  else if String.eqb rt "GROUP_MEMBERSHIP" then
    if negb (String.eqb op "CREATE") && negb (String.eqb op "DELETE") then None
    else if negb (String.eqb uk "") then None
    else routed (hint gk "")
  else if String.eqb rt "USER" then
    if String.eqb op "LOGIN" then
      if negb (String.eqb gk "") then None else routed (hint "" uk)
    else if String.eqb op "CREATE" then
      if negb (String.eqb uk "") then None else routed (hint gk "")
    else if String.eqb op "UPDATE" then
      if negb (String.eqb gk "") then None else routed (hint "" uk)
    else if String.eqb op "DELETE" then
      if Bool.eqb (String.eqb gk "") (String.eqb uk "") then
        if negb (String.eqb gk "") then None
        else Some (MkHint rt op "" "" true)
      else routed (hint gk uk)
    else None
  else None.

Definition sigPrefix : string := "sha256=".
Definition newlineByte : string := String "010" "".

(** What the signature authenticates. *)
Definition signedText (timestamp delivery body : string) : string :=
  timestamp +:+ newlineByte +:+ delivery +:+ newlineByte +:+ body.

Definition validSignature (secret timestamp delivery body signature : string) : bool :=
  if negb (hasPrefix signature sigPrefix) then false
  else match hexDecode (trimPrefix signature sigPrefix) with
       | None => false
       | Some got =>
           if negb (byteLen got =? 32) then false
           else String.eqb got (hmacSha256 secret (signedText timestamp delivery body))
       end.

(** ** The handler *)
Record Handler : Type := MkHandler
  { h_secret : StableLoader; h_maxSkew : Z; h_realm : string; h_seen : gmap string Time }.

Definition set_seen (seen : gmap string Time) (h : Handler) : Handler :=
  MkHandler (h_secret h) (h_maxSkew h) (h_realm h) seen.
Definition set_secret (l : StableLoader) (h : Handler) : Handler :=
  MkHandler l (h_maxSkew h) (h_realm h) (h_seen h).

(** [New]: nothing has been seen yet. *)
Definition NewHandler (secret : StableLoader) (realm : string) (maxSkew : Z) : Handler :=
  MkHandler secret maxSkew realm ∅.

Record Hook (S : Type) : Type := MkHook
  { hk_handler : Handler; hk_metrics : Metrics; hk_hints : list Hint; hk_sys : Sys S }.
Arguments MkHook {S} _ _ _ _.
Arguments hk_handler {S} _.
Arguments hk_metrics {S} _.
Arguments hk_hints {S} _.
Arguments hk_sys {S} _.

#[export] Program Instance lens_hook_sys S : Lens (Hook S) (Sys S) :=
  {| view := hk_sys;
     update s w := MkHook (hk_handler w) (hk_metrics w) (hk_hints w) s |}.
Next Obligation. done. Qed.
Next Obligation. by intros S []. Qed.
Next Obligation. done. Qed.

#[export] Program Instance lens_hook_secret S : Lens (Hook S) (StableLoader * Sys S) :=
  {| view w := (h_secret (hk_handler w), hk_sys w);
     update v w := MkHook (set_secret (fst v) (hk_handler w)) (hk_metrics w) (hk_hints w) (snd v) |}.
Next Obligation. by intros S [] []. Qed.
Next Obligation. by intros S [[] ? ? ?]. Qed.
Next Obligation. done. Qed.

(** An incoming request: its method, headers, and body, or that reading the
    body failed. *)
Record InRequest : Type := MkIn
  { in_method : string; in_header : list (string * string); in_body : option string }.

(** The three headers of a delivery. *)
Definition timestampOf (r : InRequest) : string := headerGet (in_header r) "X-GroupBridge-Timestamp".
Definition deliveryOf (r : InRequest) : string := headerGet (in_header r) "X-GroupBridge-Delivery".
Definition signatureOf (r : InRequest) : string := headerGet (in_header r) "X-GroupBridge-Signature".

Record Response : Type := MkResponse { rp_status : Z; rp_header : list (string * string) }.

(** What [http.Error] answers, besides the headers already set. *)
Definition httpError (code : Z) (header : list (string * string)) : Response :=
  MkResponse code (header ++ [("Content-Type", "text/plain; charset=utf-8"); ("X-Content-Type-Options", "nosniff")]).

Section serve.
Context {S : Type} `{Env S}.
Notation MH := (M (Hook S) err).

Definition setSeen (seen : gmap string Time) : MH unit :=
  modify (λ w, MkHook (set_seen seen (hk_handler w)) (hk_metrics w) (hk_hints w) (hk_sys w)).
Definition count (c : counter) : MH unit :=
  modify (λ w, MkHook (hk_handler w) (inc c (hk_metrics w)) (hk_hints w) (hk_sys w)).
(** [h.trigger(hint)]. *)
Definition trigger (hint : Hint) : MH unit :=
  modify (λ w, MkHook (hk_handler w) (hk_metrics w) (hk_hints w ++ [hint]) (hk_sys w)).

Definition hookNow : MH Time := zoom timeNow.

Definition reject : MH Response := count WebhookRejected;; mret (httpError 401 []).

Definition fresh (t : Time) : MH bool :=
  maxSkew ← gets (λ w, h_maxSkew (hk_handler w));
  now ← hookNow;
  let delta := sub now t in
  mret ((delta <=? maxSkew) && (wrap64 (- maxSkew) <=? delta)).

(** The entries the loop of [replayed] keeps; the order of the range does not
    matter, since it only deletes the entry it is at. *)
Definition unexpired (cutoff : Time) (seen : gmap string Time) : gmap string Time :=
  filter (λ kv, before kv.2 cutoff = false) seen.

Definition replayed (delivery : string) : MH bool :=
  h ← gets hk_handler;
  now ← hookNow;
  let cutoff := add now (wrap64 (- h_maxSkew h)) in
  let seen := unexpired cutoff (h_seen h) in
  setSeen seen;;
  if bool_decide (is_Some (seen !! delivery)) then mret true
  else if maxSeen <=? Z.of_nat (size seen) then mret true
  else
    now2 ← hookNow;
    setSeen (<[delivery := now2]> seen);;
    mret false.

(** [http.MaxBytesReader] and [io.ReadAll]. *)
Definition readBody (r : InRequest) : option string :=
  match in_body r with
  | None => None
  | Some b => if maxBodyBytes <? byteLen b then None else Some b
  end.

Definition ServeHTTP (r : InRequest) : MH Response :=
  if negb (String.eqb (in_method r) "POST") then mret (httpError 405 [("Allow", "POST")]) else
  match readBody r with
  | None => reject
  | Some body =>
      let timestamp := timestampOf r in
      let delivery := deliveryOf r in
      let signature := signatureOf r in
      match parseInt timestamp with
      | None => reject
      | Some seconds =>
          if String.eqb delivery "" || (128 <? byteLen delivery) then reject else
          f ← fresh (unix seconds);
          if negb f then reject else
          secret ← attempt (zoom StableLoad);
          match secret with
          | Err _ => reject
          | Ok secret =>
              if (byteLen secret <? 32) || negb (validSignature secret timestamp delivery body signature)
              then reject else
              match parseJson body ≫= decEnvelope with
              | None => reject
              | Some event =>
                  realm ← gets (λ w, h_realm (hk_handler w));
                  if negb (String.eqb (ev_SpecVersion event) "1.0") || String.eqb (ev_EventID event) "" ||
                     negb (String.eqb (ev_EventID event) delivery) ||
                     negb (String.eqb (ev_RealmName event) realm)
                  then reject else
                  match classify event with
                  | None => reject
                  | Some hint =>
                      again ← replayed delivery;
                      if (again : bool) then reject else
                      count WebhookAccepted;;
                      trigger hint;;
                      mret (MkResponse 202 [])
                  end
              end
          end
      end
  end.

(** A history of requests, served one after the other. *)
Definition serveAll (rs : list InRequest) : MH (list Response) :=
  mfold (λ acc r, x ← ServeHTTP r; mret (acc ++ [x])) [] rs.
End serve.
