(* ===== verification/WebhookFacts.v ===== *)
(** * Properties of the webhook receiver *)

From S2P Require Import Prelude GoStrings Sha256 GoTime Json JsonParse World Model Credential CredentialFacts Webhook.

(** ** A clock that never goes back

    [C s] is a time no later than every later reading of the clock. *)
Record clock_mono {S} `{Env S} (C : S → Z) : Prop := {
  cm_ok s : time_ok (fst (env_now s));
  cm_now s : C s ≤ total (fst (env_now s)) ≤ C (snd (env_now s));
  cm_getenv n s : C s ≤ C (snd (env_getenv n s));
  cm_read n s : C s ≤ C (snd (env_read n s));
  cm_fault c s : C s ≤ C (snd (env_fault c s))
}.

Section clock.
Context {S : Type} `{Env S} (C : S → Z) (HC : clock_mono C).

Notation from c := (λ w : Sys S, c ≤ C (sys_env w)).

Lemma clock_Load c l : keeps (from c) (Load l).
Proof.
  unfold keeps, Load. eapply triple_bind with (R := λ _, from c).
  - destruct (ld_staticValue l); [by apply triple_ret|]. destruct (negb _); [|destruct (negb _)].
    + eapply triple_bind with (R := λ _, from c).
      { intros w Hw. unfold lookupEnv. pose proof (cm_getenv C HC (ld_environment l) (sys_env w)).
        destruct (env_getenv _ _). simpl in *. lia. }
      intros [v|]; [by apply triple_ret|by apply triple_throw].
    + unfold readCredentialFile. eapply triple_bind with (R := λ _, from c).
      { intros w Hw. unfold readFile. pose proof (cm_read C HC (ld_filePath l) (sys_env w)).
        destruct (env_read _ _). simpl in *. lia. }
      intros [d|]; [|by apply triple_throw]. eapply triple_bind with (R := λ _, from c).
      { intros w Hw. unfold fsFails. pose proof (cm_fault C HC FsClose (sys_env w)).
        destruct (env_fault _ _). simpl in *. lia. }
      intros []; [by apply triple_throw|]. destruct (_ <? _); [by apply triple_throw|by apply triple_ret].
    + by apply triple_throw.
  - intros v. apply triple_of_outcome. intros w Hw. by destruct (checkCredential v).
Qed.

Lemma clock_StableLoad c : keeps (λ w, from c (snd w)) StableLoad.
Proof.
  unfold keeps, StableLoad. eapply triple_bind with (R := λ _ w, from c (snd w)).
  { by apply triple_gets. }
  intros l. eapply triple_bind with (R := λ _ w, from c (snd w)).
  { apply triple_attempt, triple_zoom. intros [l0 s] Hw. simpl.
    eapply triple_conseq; [apply (clock_Load c)|by intros ? ->|done|done]. }
  intros r. destruct (match r with Ok v => _ | Err e => Err e end).
  - eapply triple_bind with (R := λ _ w, from c (snd w)); [by apply triple_modify|].
    intros _. by apply triple_ret.
  - destruct (negb _); [by apply triple_ret|by apply triple_throw].
Qed.
End clock.

(** ** What one delivery does *)
(** The delivery has a fresh timestamp and a signature under [secret] and
    announces [hint] of this realm. *)
Record authentic (secret realm : string) (maxSkew : Z) (r : InRequest) (now : Time) (hint : Hint) : Prop := {
  au_method : in_method r = "POST";
  au_delivery : deliveryOf r ≠ "" ∧ byteLen (deliveryOf r) ≤ 128;
  au_fresh : ∃ seconds, parseInt (timestampOf r) = Some seconds ∧
    wrap64 (- maxSkew) ≤ sub now (unix seconds) ≤ maxSkew;
  au_event : ∃ body ev, in_body r = Some body ∧ byteLen body ≤ maxBodyBytes ∧
    32 ≤ byteLen secret ∧ credential_ok secret ∧
    validSignature secret (timestampOf r) (deliveryOf r) body (signatureOf r) = true ∧
    (parseJson body ≫= decEnvelope = Some ev) ∧ ev_SpecVersion ev = "1.0" ∧
    ev_EventID ev = deliveryOf r ∧ ev_RealmName ev = realm ∧ classify ev = Some hint
}.

Section serve.
Context {S : Type} `{Env S} (C : S → Z).

Notation seen w := (h_seen (hk_handler w)).
Notation clk w := (C (sys_env (hk_sys w))).

(** Configuration and the validity of the secret loader stay as they are. *)
Definition hook_wf (w : Hook S) : Prop := stable_wf (h_secret (hk_handler w)).

Record quiet (w0 w : Hook S) : Prop := {
  q_seen : seen w = seen w0;
  q_skew : h_maxSkew (hk_handler w) = h_maxSkew (hk_handler w0);
  q_realm : h_realm (hk_handler w) = h_realm (hk_handler w0);
  q_hints : hk_hints w = hk_hints w0;
  q_metrics : hk_metrics w = hk_metrics w0;
  q_wf : hook_wf w;
  q_clock : clock_mono C → clk w0 ≤ clk w
}.

(** How a rejected delivery leaves the handler: expired entries may be gone. *)
Record rejected (w0 : Hook S) (w : Hook S) : Prop := {
  rj_hints : hk_hints w = hk_hints w0;
  rj_accepted : hk_metrics w WebhookAccepted = hk_metrics w0 WebhookAccepted;
  rj_skew : h_maxSkew (hk_handler w) = h_maxSkew (hk_handler w0);
  rj_realm : h_realm (hk_handler w) = h_realm (hk_handler w0);
  rj_wf : hook_wf w;
  rj_clock : clock_mono C → clk w0 ≤ clk w;
  rj_seen : seen w = seen w0 ∨
    ∃ now, (seen w = unexpired (add now (wrap64 (- h_maxSkew (hk_handler w0)))) (seen w0)) ∧
           (clock_mono C → time_ok now ∧ clk w0 ≤ total now ≤ clk w)
}.

(** How an accepted delivery leaves it: one hint more, and the delivery recorded. *)
Record accepted (w0 : Hook S) (r : InRequest) (w : Hook S) : Prop := {
  ac_times : ∃ secret nowF nowR now2 hint,
    authentic secret (h_realm (hk_handler w0)) (h_maxSkew (hk_handler w0)) r nowF hint ∧
    hk_hints w = hk_hints w0 ++ [hint] ∧
    (let kept := unexpired (add nowR (wrap64 (- h_maxSkew (hk_handler w0)))) (seen w0) in
     kept !! deliveryOf r = None ∧ Z.of_nat (size kept) < maxSeen ∧
     seen w = <[deliveryOf r := now2]> kept) ∧
    (clock_mono C → time_ok nowF ∧ time_ok nowR ∧ time_ok now2 ∧
       clk w0 ≤ total nowF ≤ total nowR ∧ total nowR ≤ total now2 ≤ clk w);
  ac_accepted : hk_metrics w WebhookAccepted
    = wrapu64 (hk_metrics w0 WebhookAccepted + 1);
  ac_skew : h_maxSkew (hk_handler w) = h_maxSkew (hk_handler w0);
  ac_realm : h_realm (hk_handler w) = h_realm (hk_handler w0);
  ac_wf : hook_wf w
}.

Definition serve_post (w0 : Hook S) (r : InRequest) (p : Response) (w : Hook S) : Prop :=
  (rp_status p = 202 ∧ accepted w0 r w) ∨ (rp_status p ∈ [401; 405] ∧ rejected w0 w).

Notation noErr := (λ (_ : err) (_ : Hook S), False).

Lemma quiet_rejected w0 w : quiet w0 w → rejected w0 w.
Proof. intros [? ? ? ? Hm ? ?]. split; [done|by rewrite Hm|done..|by left]. Qed.

Lemma triple_reject w0 r : triple (rejected w0) reject (serve_post w0 r) noErr.
Proof.
  unfold reject. eapply triple_bind with (R := λ _, rejected w0).
  { apply triple_modify. intros w [Hh Ha ? ? ? ? ?]. by split. }
  intros _. apply triple_ret. intros w Hr. right. split; [set_solver|done].
Qed.

Lemma triple_hookNow (P : Hook S → Prop) (Q : Time → Hook S → Prop) X :
  (∀ w t s, P w → (clock_mono C → time_ok t ∧ clk w ≤ total t ≤ C s) →
     Q t (MkHook (hk_handler w) (hk_metrics w) (hk_hints w) (set_env s (hk_sys w)))) →
  triple P hookNow Q X.
Proof.
  intros HQ w Hw. unfold hookNow, zoom, timeNow. simpl.
  destruct (env_now (sys_env (hk_sys w))) as [t s] eqn:Ht. apply HQ; [done|].
  intros HC. pose proof (cm_ok C HC (sys_env (hk_sys w))) as Hok.
  pose proof (cm_now C HC (sys_env (hk_sys w))). rewrite Ht in *. done.
Qed.

(** The stage after the clock has been read for freshness. *)
Record checked (w0 : Hook S) (nowF : Time) (w : Hook S) : Prop := {
  ck_quiet : quiet w0 w;
  ck_now : clock_mono C → time_ok nowF ∧ clk w0 ≤ total nowF ≤ clk w
}.

Lemma triple_fresh w0 t :
  triple (quiet w0) (fresh t)
    (λ b w, ∃ now, (b = (sub now t <=? h_maxSkew (hk_handler w0)) &&
                       (wrap64 (- h_maxSkew (hk_handler w0)) <=? sub now t)) ∧ checked w0 now w) noErr.
Proof.
  unfold fresh. eapply triple_bind with (R := λ k w, k = h_maxSkew (hk_handler w0) ∧ quiet w0 w).
  { apply triple_gets. intros w Hw. split; [by destruct Hw|done]. }
  intros k. apply triple_pure. intros ->.
  eapply triple_bind with (R := λ now w, checked w0 now w).
  { apply triple_hookNow. intros w now s [] Hnow. split.
    - split; try done. simpl. intros HC. destruct (Hnow HC). specialize (q_clock0 HC). lia.
    - intros HC. destruct (Hnow HC). specialize (q_clock0 HC). simpl. split; [done|lia]. }
  intros now. apply triple_ret. intros w Hw. by exists now.
Qed.

Lemma triple_secret w0 nowF :
  triple (checked w0 nowF) (attempt (zoom (W := Hook S) StableLoad))
    (λ r w, match r with Ok v => credential_ok v | Err _ => True end ∧ checked w0 nowF w) noErr.
Proof.
  apply triple_attempt, triple_zoom. intros w Hw v ->.
  pose proof (triple_StableLoad (h_secret (hk_handler w)) (view w)
    (conj eq_refl (q_wf _ _ (ck_quiet _ _ _ Hw)))) as Ht.
  pose proof (λ HC : clock_mono C, clock_StableLoad C HC (clk w) (view w) (Z.le_refl _)) as Hc.
  destruct Hw as [[] Hnow].
  destruct (StableLoad (view w)) as [[v|e] [l s]]; simpl in *.
  - destruct Ht as (Hs & Hm & Hl & Hlen & Hok). subst v. split; [done|]. split; [split|]; try done.
    + unfold hook_wf, stable_wf in *. simpl. destruct q_wf0. rewrite Hm. split; [done|]. by right.
    + intros HC. specialize (Hc HC). specialize (q_clock0 HC). simpl. lia.
    + intros HC. specialize (Hc HC). destruct (Hnow HC). simpl. split; [done|lia].
  - destruct Ht as [-> Hl]. split; [done|]. split; [split|]; try done.
    + intros HC. specialize (Hc HC). specialize (q_clock0 HC). simpl. lia.
    + intros HC. specialize (Hc HC). destruct (Hnow HC). simpl. split; [done|lia].
Qed.

(** After the replay check: rejected as replayed, or recorded. *)
Definition recorded (w0 : Hook S) (nowF : Time) (d : string) (w : Hook S) : Prop :=
  ∃ nowR now2,
    (let kept := unexpired (add nowR (wrap64 (- h_maxSkew (hk_handler w0)))) (seen w0) in
     kept !! d = None ∧ Z.of_nat (size kept) < maxSeen ∧ seen w = <[d := now2]> kept) ∧
    (clock_mono C → time_ok nowF ∧ time_ok nowR ∧ time_ok now2 ∧
       clk w0 ≤ total nowF ≤ total nowR ∧ total nowR ≤ total now2 ≤ clk w) ∧
    h_maxSkew (hk_handler w) = h_maxSkew (hk_handler w0) ∧
    h_realm (hk_handler w) = h_realm (hk_handler w0) ∧
    hk_hints w = hk_hints w0 ∧ hk_metrics w = hk_metrics w0 ∧ hook_wf w.

Lemma triple_replayed w0 nowF d :
  triple (checked w0 nowF) (replayed d)
    (λ b w, if (b : bool) then rejected w0 w else recorded w0 nowF d w) noErr.
Proof.
  unfold replayed. eapply triple_bind with (R := λ h w, (h_seen h = seen w0 ∧
    h_maxSkew h = h_maxSkew (hk_handler w0)) ∧ checked w0 nowF w).
  { apply triple_gets. intros w Hw. split; [|done]. by destruct Hw as [[] _]. }
  intros h. apply triple_pure. intros [-> ->].
  eapply triple_bind with (R := λ now w, checked w0 nowF w ∧
    (clock_mono C → time_ok now ∧ total nowF ≤ total now ≤ clk w)).
  { apply triple_hookNow. intros w now s [[] Hck] Hnow. split; [split|].
    - split; try done. simpl. intros HC. destruct (Hnow HC). specialize (q_clock0 HC). lia.
    - intros HC. destruct (Hnow HC), (Hck HC). simpl. split; [done|lia].
    - intros HC. destruct (Hnow HC), (Hck HC). simpl. split; [done|lia]. }
  intros nowR. set (kept := unexpired _ _).
  eapply triple_bind with (R := λ _ w, rejected w0 w ∧ seen w = kept ∧ hk_metrics w = hk_metrics w0 ∧
    (clock_mono C → time_ok nowF ∧ time_ok nowR ∧ clk w0 ≤ total nowF ≤ total nowR ∧ total nowR ≤ clk w)).
  { apply triple_modify. intros w [[[] Hck] Hnow]. split; [|split; [done|split; [done|]]].
    - split; try done; simpl; [by rewrite q_metrics0|].
      right. exists nowR. split; [done|]. intros HC. destruct (Hck HC), (Hnow HC). split; [done|]. simpl. lia.
    - intros HC. destruct (Hck HC), (Hnow HC). simpl. split_and!; try done; lia. }
  intros _. destruct (bool_decide _) eqn:Hb.
  { apply triple_ret. by intros w [? _]. }
  destruct (Z.leb_spec maxSeen (Z.of_nat (size kept))) as [|Hsz].
  { apply triple_ret. by intros w [? _]. }
  apply bool_decide_eq_false, eq_None_not_Some in Hb.
  eapply triple_bind with (R := λ now2 w, rejected w0 w ∧ hk_metrics w = hk_metrics w0 ∧
    (clock_mono C → time_ok nowF ∧ time_ok nowR ∧ time_ok now2 ∧
       clk w0 ≤ total nowF ≤ total nowR ∧ total nowR ≤ total now2 ≤ clk w)).
  { apply triple_hookNow. intros w now2 s (Hr & Hs & Hm & Ht) Hnow.
    split; [|split; [done|]].
    - destruct Hr. split; try done. simpl. intros HC. specialize (rj_clock0 HC). destruct (Hnow HC). lia.
      right. exists nowR. split; [done|]. intros HC. destruct (Ht HC) as (? & ? & ? & ?), (Hnow HC). simpl.
      split; [done|]. lia.
    - intros HC. destruct (Ht HC) as (? & ? & ? & ?), (Hnow HC). simpl. split_and!; try done; lia. }
  intros now2. eapply triple_bind with (R := λ _, recorded w0 nowF d); [|intros _; by apply triple_ret].
  apply triple_modify. intros w ([] & Hm & Ht). exists nowR, now2. by split_and!.
Qed.

Lemma triple_reject_from w0 r (P : Hook S → Prop) :
  (∀ w, P w → rejected w0 w) → triple P reject (serve_post w0 r) noErr.
Proof. intros HP. by eapply triple_conseq; [apply triple_reject|..]. Qed.

Lemma checked_rejected w0 now w : checked w0 now w → rejected w0 w.
Proof. intros [Hq _]. by apply quiet_rejected. Qed.

Lemma triple_ServeHTTP w0 r :
  triple (quiet w0) (ServeHTTP r) (serve_post w0 r) noErr.
Proof.
  unfold ServeHTTP. destruct (String.eqb_spec (in_method r) "POST") as [Hm|Hm]; simpl.
  2: { apply triple_ret. intros w Hw. right. split; [set_solver|by apply quiet_rejected]. }
  unfold readBody. destruct (in_body r) as [body|] eqn:Hbody;
    [|by apply triple_reject_from, quiet_rejected].
  destruct (Z.ltb_spec maxBodyBytes (byteLen body)) as [|Hlen];
    [by apply triple_reject_from, quiet_rejected|].
  destruct (parseInt _) as [seconds|] eqn:Hsec; [|by apply triple_reject_from, quiet_rejected].
  destruct (String.eqb_spec (deliveryOf r) "") as [|Hd]; simpl;
    [by apply triple_reject_from, quiet_rejected|].
  destruct (Z.ltb_spec 128 (byteLen (deliveryOf r))) as [|Hd'];
    [by apply triple_reject_from, quiet_rejected|].
  eapply triple_bind; [apply triple_fresh|]. intros f.
  apply triple_exists. intros nowF. apply triple_pure. intros Hf. symmetry in Hf.
  pose proof (triple_reject_from w0 r _ (checked_rejected w0 nowF)) as Hrej.
  destruct f; simpl; [|done].
  apply andb_true_iff in Hf as [Hf1 Hf2]. apply Z.leb_le in Hf1, Hf2.
  eapply triple_bind; [apply triple_secret|]. intros secret. apply triple_pure. intros Hcred.
  destruct secret as [secret|e]; [|done].
  destruct (Z.ltb_spec (byteLen secret) 32) as [|Hsl]; simpl; [done|].
  destruct (validSignature _ _ _ _ _) eqn:Hsig; simpl;
    [|done].
  destruct (parseJson body ≫= decEnvelope) as [ev|] eqn:Hev;
    [|done].
  apply (triple_bind _ _ _ (λ realm w, realm = h_realm (hk_handler w0) ∧ checked w0 nowF w)).
  { apply triple_gets. intros w Hw. split; [by destruct Hw as [[] _]|done]. }
  intros realm. apply triple_pure. intros ->.
  destruct (String.eqb_spec (ev_SpecVersion ev) "1.0") as [Hv|]; simpl;
    [|done].
  destruct (String.eqb_spec (ev_EventID ev) "") as [|_]; simpl;
    [done|].
  destruct (String.eqb_spec (ev_EventID ev) (deliveryOf r)) as [Hid|]; simpl;
    [|done].
  destruct (String.eqb_spec (ev_RealmName ev) (h_realm (hk_handler w0))) as [Hr|]; simpl;
    [|done].
  destruct (classify ev) as [hint|] eqn:Hc;
    [|done].
  eapply triple_bind; [apply triple_replayed|]. intros [].
  { by apply triple_reject_from. }
  assert (authentic secret (h_realm (hk_handler w0)) (h_maxSkew (hk_handler w0)) r nowF hint) as Hau.
  { split; [done|done|by exists seconds|by exists body, ev]. }
  intros w (nowR & now2 & Hk & Ht & Hsk & Hre & Hh & Hme & Hwf). left. split; [done|]. split; try done.
  - exists secret, nowF, nowR, now2, hint. simpl. rewrite Hh.
    split; [done|]. split; [done|]. by split.
  - simpl. unfold inc, addMetric. rewrite decide_True by done. by rewrite Hme.
Qed.
End serve.

(** ** Histories *)
Section history.
Context {S : Type} `{Env S} (C : S → Z).
Notation seen w := (h_seen (hk_handler w)).
Notation clk w := (C (sys_env (hk_sys w))).

(** The loader finds this secret. *)
Definition loads (secret : string) (l : StableLoader) : Prop :=
  steadyToken (sl_source l) secret ∧ sl_minBytes l ≤ byteLen secret.

(** The delivery is new, and there is room to record it. *)
Definition unrecorded r (w : Hook S) : Prop := seen w !! deliveryOf r = None ∧ Z.of_nat (size (seen w)) < maxSeen.

Lemma replayed_new r (w : Hook S) : unrecorded r w →
  ∃ w', replayed (deliveryOf r) w = (Ok (E := err) false, w') ∧ hk_hints w' = hk_hints w.
Proof.
  intros [Hn Hroom]. unfold replayed, mbind, M_bind, gets, hookNow, zoom, timeNow, setSeen, modify. cbn.
  destruct (env_now (sys_env (hk_sys w))) as [t s]. cbn. set (kept := unexpired _ _).
  assert (kept ⊆ seen w) as Hsub by apply map_filter_subseteq. pose proof (map_subseteq_size _ _ Hsub).
  rewrite bool_decide_eq_false_2.
  2: { intros [x Hx]. pose proof (lookup_weaken _ _ _ _ Hx Hsub). congruence. }
  destruct (Z.leb_spec maxSeen (Z.of_nat (size kept))); [lia|]. cbn. destruct (env_now s) as [t2 s2]. eexists. split; [reflexivity|done].
Qed.

(** A genuine new delivery is taken. *)
Lemma ServeHTTP_admits r (w : Hook S) secret hint : loads secret (h_secret (hk_handler w)) → unrecorded r w →
  authentic secret (h_realm (hk_handler w)) (h_maxSkew (hk_handler w)) r (env_now (sys_env (hk_sys w))).1 hint →
  ∃ w', ServeHTTP r w = (Ok (MkResponse 202 []), w') ∧ hk_hints w' = hk_hints w ++ [hint].
Proof.
  intros [Hl Hmin] Hu [Hm [Hd Hd'] (seconds & Hsec & Hskew) (body & ev & Hb & Hlen & H32 & _ & Hsig & Hev & Hv & Hid & Hr & Hc)].
  unfold ServeHTTP, readBody. rewrite Hm, Hb, Hsec, String.eqb_refl. cbn [negb].
  rewrite (proj2 (Z.ltb_ge _ _) Hlen), (proj2 (String.eqb_neq _ _) Hd), (proj2 (Z.ltb_ge _ _) Hd'). cbn [orb].
  destruct (env_now (sys_env (hk_sys w))) as [now s] eqn:Hnow. cbn [fst] in Hskew.
  set (w1 := MkHook (hk_handler w) (hk_metrics w) (hk_hints w) (set_env s (hk_sys w))).
  rewrite (bind_run _ _ w true w1).
  2: { unfold fresh, mbind, M_bind, gets, hookNow, zoom, timeNow. cbn. rewrite Hnow. cbn. f_equal. f_equal.
       destruct Hskew as [H1%Z.leb_le H2%Z.leb_le]. by rewrite H1, H2. }
  cbn [negb]. destruct (StableLoad_runs (h_secret (hk_handler w)) secret (hk_sys w1) Hl Hmin) as (s2 & _ & Hst).
  set (w2 := update (Lens := lens_hook_secret S) (MkStable (sl_source (h_secret (hk_handler w))) (sl_minBytes (h_secret (hk_handler w))) secret, set_env s2 (hk_sys w1)) w1).
  rewrite (bind_run _ _ w1 (Ok secret) w2).
  2: { unfold attempt, zoom. cbn [view lens_hook_secret]. change (h_secret (hk_handler w1)) with (h_secret (hk_handler w)). by rewrite Hst. }
  rewrite (proj2 (Z.ltb_ge _ _) H32), Hsig, Hev. cbn [negb orb].
  rewrite (bind_run _ _ w2 (h_realm (hk_handler w)) w2) by done.
  rewrite Hv, Hid, Hr, (proj2 (String.eqb_neq _ _) Hd), !String.eqb_refl, Hc. cbn [negb orb String.eqb].
  destruct (replayed_new r w2 Hu) as (w3 & H3 & Hh3). rewrite (bind_run _ _ _ _ _ H3).
  eexists. split; [reflexivity|]. cbn. by rewrite Hh3.
Qed.

(** What the secret loader finds after the clock was read for the first time. *)
Definition loaded (w : Hook S) (secret : string) : Prop :=
  ∃ v, StableLoad (h_secret (hk_handler w), set_env (env_now (sys_env (hk_sys w))).2 (hk_sys w)) = (Ok secret, v).

Lemma reject_refuses (w w' : Hook S) p : reject w = (Ok (E := err) p, w') → rp_status p ≠ 202.
Proof. unfold reject, mbind, M_bind, mret, M_ret. cbn. by intros [= <- _]. Qed.

(** An accepted request is authentic under that secret, at that time. *)
Lemma ServeHTTP_secret r (w w' : Hook S) p : hook_wf w → ServeHTTP r w = (Ok p, w') → rp_status p = 202 →
  ∃ secret hint, loaded w secret ∧
    authentic secret (h_realm (hk_handler w)) (h_maxSkew (hk_handler w)) r (env_now (sys_env (hk_sys w))).1 hint.
Proof.
  intros Hwf Hrun Hp. unfold ServeHTTP in Hrun. destruct (String.eqb_spec (in_method r) "POST") as [Hm|]; cbn [negb] in Hrun;
    [|by injection Hrun as <- _].
  unfold readBody in Hrun. destruct (in_body r) as [body|] eqn:Hb; [|by apply reject_refuses in Hrun].
  destruct (Z.ltb_spec maxBodyBytes (byteLen body)) as [|Hlen]; [by apply reject_refuses in Hrun|].
  destruct (parseInt _) as [seconds|] eqn:Hsec; [|by apply reject_refuses in Hrun].
  destruct (String.eqb_spec (deliveryOf r) "") as [|Hd]; cbn [orb] in Hrun; [by apply reject_refuses in Hrun|].
  destruct (Z.ltb_spec 128 (byteLen (deliveryOf r))) as [|Hd']; [by apply reject_refuses in Hrun|].
  unfold loaded. destruct (env_now (sys_env (hk_sys w))) as [now s] eqn:Hnow. cbn [fst snd].
  set (w1 := MkHook (hk_handler w) (hk_metrics w) (hk_hints w) (set_env s (hk_sys w))).
  rewrite (bind_run _ _ w ((sub now (unix seconds) <=? h_maxSkew (hk_handler w)) &&
    (wrap64 (- h_maxSkew (hk_handler w)) <=? sub now (unix seconds))) w1) in Hrun.
  2: { unfold fresh, mbind, M_bind, gets, hookNow, zoom, timeNow. cbn. by rewrite Hnow. }
  destruct (_ && _) eqn:Hf; cbn [negb] in Hrun; [|by apply reject_refuses in Hrun].
  apply andb_true_iff in Hf as [Hf1%Z.leb_le Hf2%Z.leb_le].
  destruct (StableLoad (h_secret (hk_handler w), set_env s (hk_sys w))) as [o v] eqn:Hload.
  rewrite (bind_run _ _ w1 o (update (Lens := lens_hook_secret S) v w1)) in Hrun.
  2: { unfold attempt, zoom. cbn [view lens_hook_secret w1 hk_handler hk_sys]. rewrite Hload. by destruct o. }
  destruct o as [secret|e]; [|by apply reject_refuses in Hrun].
  pose proof (triple_StableLoad (h_secret (hk_handler w)) (h_secret (hk_handler w), set_env s (hk_sys w)) (conj eq_refl Hwf)) as Hcred.
  rewrite Hload in Hcred. destruct v as [l sys]. destruct Hcred as (_ & _ & Hlast & _ & Hcred). cbn in Hlast, Hcred. subst secret.
  set (secret := sl_last l) in *.
  destruct (Z.ltb_spec (byteLen secret) 32) as [|H32]; cbn [orb] in Hrun; [by apply reject_refuses in Hrun|].
  destruct (validSignature _ _ _ _ _) eqn:Hsig; cbn [negb] in Hrun; [|by apply reject_refuses in Hrun].
  destruct (parseJson body ≫= decEnvelope) as [ev|] eqn:Hev; [|by apply reject_refuses in Hrun].
  match type of Hrun with (_ ≫= _) ?u = _ => rewrite (bind_run _ _ u (h_realm (hk_handler w)) u) in Hrun by done end.
  destruct (String.eqb_spec (ev_SpecVersion ev) "1.0") as [Hv|]; cbn [negb orb] in Hrun; [|by apply reject_refuses in Hrun].
  destruct (String.eqb_spec (ev_EventID ev) "") as [|_]; cbn [negb orb] in Hrun; [by apply reject_refuses in Hrun|].
  destruct (String.eqb_spec (ev_EventID ev) (deliveryOf r)) as [Hid|]; cbn [negb orb] in Hrun; [|by apply reject_refuses in Hrun].
  destruct (String.eqb_spec (ev_RealmName ev) (h_realm (hk_handler w))) as [Hr|]; cbn [negb orb] in Hrun; [|by apply reject_refuses in Hrun].
  destruct (classify ev) as [hint|] eqn:Hc; [|by apply reject_refuses in Hrun].
  exists secret, hint. split; [by eexists|]. split; [done|done|by exists seconds|by exists body, ev].
Qed.

(** The body of the request determines the hint. *)
Lemma authentic_hint r secret secret' realm skew now now' hint hint' :
  authentic secret realm skew r now hint → authentic secret' realm skew r now' hint' → hint = hint'.
Proof.
  intros [_ _ _ (body & ev & Hb & _ & _ & _ & _ & Hev & _ & _ & _ & Hc)] [_ _ _ (body' & ev' & Hb' & _ & _ & _ & _ & Hev' & _ & _ & _ & Hc')].
  rewrite Hb in Hb'. injection Hb' as <-. rewrite Hev in Hev'. injection Hev' as <-. rewrite Hc in Hc'. by injection Hc'.
Qed.

Lemma serve_cases r w p w' : hook_wf w → ServeHTTP r w = (p, w') →
  ∃ p', p = Ok p' ∧ serve_post C w r p' w'.
Proof.
  intros Hwf Hrun. pose proof (triple_ServeHTTP C w r w) as Ht. rewrite Hrun in Ht.
  assert (quiet C w w) as Hq by (split; done). specialize (Ht Hq).
  destruct p as [p|e]; [by exists p|done].
Qed.

(** What [unexpired] keeps, when the cutoff is a representable time. *)
Lemma cutoff_total now skew : time_ok now → 0 ≤ total now → 0 < skew < int64_max →
  time_ok (add now (wrap64 (- skew))) ∧ total (add now (wrap64 (- skew))) = total now - skew.
Proof.
  intros Hok Hpos Hsk. rewrite wrap64_id by (unfold in_int64, int64_max, int64_min in *; lia).
  apply add_exact; [done|unfold in_int64, int64_max, int64_min in *; lia|].
  destruct Hok. unfold_time. lia.
Qed.

(** An entry first recorded at or after [T] is still there, or the clock is
    past [T + skew]. *)
Record remembers (skew T : Z) (d : string) (w : Hook S) : Prop := {
  rm_wf : hook_wf w;
  rm_skew : h_maxSkew (hk_handler w) = skew;
  rm_clock : T ≤ clk w;
  rm_entry : (∃ t, (seen w !! d = Some t) ∧ time_ok t ∧ T ≤ total t) ∨ T + skew < clk w
}.

Lemma remembers_unexpired skew T d now t (m : gmap string Time) :
  0 ≤ T → 0 < skew < int64_max → time_ok now → T ≤ total now →
  m !! d = Some t → time_ok t → T ≤ total t →
  unexpired (add now (wrap64 (- skew))) m !! d = Some t ∨ T + skew < total now.
Proof.
  intros HT Hsk Hnow Hge Hm Ht Htt. destruct (cutoff_total now skew) as [Hok Htot]; [done|lia|done|].
  destruct (before t (add now (wrap64 (- skew)))) eqn:Hb.
  - right. apply before_spec in Hb; [|done..]. lia.
  - left. unfold unexpired. by apply map_lookup_filter_Some_2.
Qed.

Lemma remembers_serve (HC : clock_mono C) skew T d w r p w' :
  0 ≤ T → 0 < skew < int64_max → remembers skew T d w → serve_post C w r p w' →
  remembers skew T d w'.
Proof.
  intros HT Hsk [Hwf Hskew Hclk Hent] [[_ Ha]|[_ Hr]].
  - destruct Ha as [(secret & nowF & nowR & now2 & hint & _ & _ & (_ & _ & Hseen) & Ht) _ Hs _ Hw].
    destruct (Ht HC) as (_ & HokR & Hok2 & ? & ?). split; [done|congruence|lia|].
    rewrite Hseen, Hskew. destruct (decide (deliveryOf r = d)) as [<-|Hne].
    + left. exists now2. rewrite lookup_insert_eq. split; [done|]. split; [done|lia].
    + rewrite lookup_insert_ne by done. destruct Hent as [(t & Hl & Hok & Hge)|]; [|right; lia].
      destruct (remembers_unexpired skew T d nowR t (seen w)) as [Hu|]; try done; [lia| |right; lia].
      left. by exists t.
  - destruct Hr as [_ _ Hs _ Hw Hc Hseen]. specialize (Hc HC).
    split; [done|congruence|lia|]. destruct Hent as [(t & Hl & Hok & Hge)|]; [|right; lia].
    destruct Hseen as [->|(now & Hseen & Hnow)]; [left; by exists t|].
    destruct (Hnow HC) as (Hokn & ? & ?). rewrite Hseen, Hskew.
    destruct (remembers_unexpired skew T d now t (seen w)) as [Hu|]; try done; [lia| |right; lia].
    left. by exists t.
Qed.

Lemma remembers_serveAll (HC : clock_mono C) skew T d rs w ps w' :
  0 ≤ T → 0 < skew < int64_max → remembers skew T d w → serveAll rs w = (Ok ps, w') →
  remembers skew T d w'.
Proof.
  intros HT Hsk Hrem Hrun.
  assert (triple (remembers skew T d) (serveAll rs) (λ _, remembers skew T d)
    (λ (_ : err) (_ : Hook S), True)) as Ht.
  { apply (triple_mfold_inv _ (λ _, remembers skew T d)). intros r acc _.
    eapply triple_bind with (R := λ _, remembers skew T d); [|intros p; by apply triple_ret].
    intros w1 Hw1. destruct (ServeHTTP r w1) as [p w2] eqn:H1.
    destruct (serve_cases r w1 p w2) as (p' & -> & Hp); [by destruct Hw1|done|].
    by eapply remembers_serve. }
  specialize (Ht w Hrem). by rewrite Hrun in Ht.
Qed.
End history.

(** ** Properties *)

(** [C12] Authentication: the handler always answers.  It answers 202 only to a
    POST with a timestamp that was fresh when the clock was first read and a
    valid HMAC-SHA256 signature over timestamp, delivery id and body, under the
    secret of at least 32 bytes that the handler's loader then found, whose
    event is of this realm, carries the delivery id and classifies as the one
    hint that is passed on; every other request is answered 401 or 405, passes
    nothing on, is not counted as accepted and records no delivery.  And it does
    answer 202 to such a request when it is signed with the secret that the
    loader loads, has not been seen before and there is room to record it. *)
Theorem webhook_authenticates {S} `{Env S} r (w w' : Hook S) res :
  hook_wf w → ServeHTTP r w = (res, w') →
  ∃ p, res = Ok p ∧ rp_status p ∈ [202; 401; 405] ∧
    (rp_status p = 202 → ∃ secret hint, loaded w secret ∧
       authentic secret (h_realm (hk_handler w)) (h_maxSkew (hk_handler w)) r (env_now (sys_env (hk_sys w))).1 hint ∧
       hk_hints w' = hk_hints w ++ [hint] ∧ is_Some (h_seen (hk_handler w') !! deliveryOf r)) ∧
    (rp_status p ≠ 202 →
       hk_hints w' = hk_hints w ∧ hk_metrics w' WebhookAccepted = hk_metrics w WebhookAccepted ∧
       h_seen (hk_handler w') ⊆ h_seen (hk_handler w)) ∧
    (∀ secret hint, loads secret (h_secret (hk_handler w)) → unrecorded r w →
       authentic secret (h_realm (hk_handler w)) (h_maxSkew (hk_handler w)) r (env_now (sys_env (hk_sys w))).1 hint →
       rp_status p = 202 ∧ hk_hints w' = hk_hints w ++ [hint]).
Proof.
  intros Hwf Hrun. destruct (serve_cases (λ _, 0) r w res w' Hwf Hrun) as (p & -> & Hp).
  exists p. split; [done|].
  assert (∀ secret hint, loads secret (h_secret (hk_handler w)) → unrecorded r w →
    authentic secret (h_realm (hk_handler w)) (h_maxSkew (hk_handler w)) r (env_now (sys_env (hk_sys w))).1 hint →
    rp_status p = 202 ∧ hk_hints w' = hk_hints w ++ [hint]) as Hadmit.
  { intros secret hint Hl Hu Ha. destruct (ServeHTTP_admits r w secret hint Hl Hu Ha) as (w2 & Hrun2 & Hh).
    rewrite Hrun in Hrun2. by injection Hrun2 as -> ->. }
  destruct Hp as [[Hst Ha]|[Hst [Hh Ha _ _ _ _ Hseen]]].
  - rewrite Hst. split; [set_solver|]. split; [|split; [done|intros; split; [done|by eapply Hadmit]]]. intros _.
    destruct Ha as [(secret & nowF & nowR & now2 & hint & Hau & Hh & (_ & _ & Hs) & _) _ _ _ _].
    destruct (ServeHTTP_secret r w w' p Hwf Hrun Hst) as (secret' & hint' & Hload & Hau').
    pose proof (authentic_hint _ _ _ _ _ _ _ _ _ Hau' Hau) as ->. exists secret', hint. rewrite Hs, lookup_insert_eq.
    split; [done|]. split; [done|]. split; [done|by eexists].
  - split; [set_solver|]. split; [intros He; rewrite He in Hst; set_solver|]. split; [|done]. intros _.
    split_and!; [done|done|]. destruct Hseen as [->|(now & -> & _)]; [done|].
    apply map_filter_subseteq.
Qed.

(** [C32] Replays: a delivery id that was accepted once is accepted again, after
    any number of other requests and with any timestamp, only if that timestamp
    lies after the time the first request arrived, less the time that the
    handling of the second request takes: freshness and replay read the clock
    one after the other.  So a delivery whose timestamp is at least that much
    behind the clock when it is first accepted is never accepted twice. *)
Theorem webhook_replay_bound {S} `{Env S} (C : S → Z) r1 rs r2 (w0 w1 w2 w3 : Hook S) p1 ps p2 :
  clock_mono C → hook_wf w0 → 0 ≤ C (sys_env (hk_sys w0)) →
  0 < h_maxSkew (hk_handler w0) < int64_max →
  ServeHTTP r1 w0 = (Ok p1, w1) → rp_status p1 = 202 → serveAll rs w1 = (Ok ps, w2) →
  deliveryOf r2 = deliveryOf r1 → ServeHTTP r2 w2 = (Ok p2, w3) → rp_status p2 = 202 →
  ∃ seconds, parseInt (timestampOf r2) = Some seconds ∧
    C (sys_env (hk_sys w0)) <
      total (unix seconds) + (C (sys_env (hk_sys w3)) - C (sys_env (hk_sys w2))).
Proof.
  intros HC Hwf HT Hsk H1 Hp1 Hs Hd H2 Hp2.
  destruct (serve_cases C r1 w0 _ w1 Hwf H1) as (p1' & [= <-] & [[_ Ha]|[Hr _]]);
    [|rewrite Hp1 in Hr; set_solver].
  set (T := C (sys_env (hk_sys w0))) in *. set (skew := h_maxSkew (hk_handler w0)) in *.
  assert (remembers C skew T (deliveryOf r1) w1) as Hrem.
  { destruct Ha as [(secret & nowF & nowR & now2 & hint & _ & _ & (_ & _ & Hseen) & Ht) _ Hsk' _ Hwf'].
    destruct (Ht HC) as (_ & _ & Hok & ? & ?). split; [done|done|lia|].
    left. exists now2. rewrite Hseen, lookup_insert_eq. split; [done|]. split; [done|lia]. }
  eapply remembers_serveAll in Hrem; [|done..]. destruct Hrem as [Hwf2 Hsk2 Hge2 Hent].
  destruct (serve_cases C r2 w2 _ w3 Hwf2 H2) as (p2' & [= <-] & [[_ Ha2]|[Hr _]]);
    [|rewrite Hp2 in Hr; set_solver].
  destruct Ha2 as [(secret & nowF & nowR & now2 & hint & Hau & _ & (Hnone & _ & _) & Ht) _ _ _ _].
  destruct (Ht HC) as (HokF & HokR & _ & ? & ?).
  destruct (au_fresh _ _ _ _ _ _ Hau) as (seconds & Hsec & _ & Hfresh).
  exists seconds. split; [done|]. rewrite Hsk2 in *.
  rewrite (sub_saturates nowF (unix seconds) HokF (unix_ok seconds)) in Hfresh.
  assert (total nowF - total (unix seconds) ≤ skew) as Hf by (unfold clamp64 in Hfresh; lia).
  destruct Hent as [(t & Hl & Hokt & Hget)|Hexp]; [|lia].
  rewrite Hd in Hnone.
  destruct (remembers_unexpired skew T (deliveryOf r1) nowR t _ HT Hsk HokR ltac:(lia) Hl Hokt Hget)
    as [Hu|]; [congruence|lia].
Qed.

(** Bounded memory: the receiver never remembers more than 10000
    deliveries. *)
Theorem webhook_seen_bounded {S} `{Env S} r (w w' : Hook S) res :
  hook_wf w → Z.of_nat (size (h_seen (hk_handler w))) ≤ maxSeen → ServeHTTP r w = (res, w') →
  Z.of_nat (size (h_seen (hk_handler w'))) ≤ maxSeen.
Proof.
  intros Hwf Hsz Hrun. destruct (serve_cases (λ _, 0) r w res w' Hwf Hrun) as (p & _ & Hp).
  destruct Hp as [[_ [(? & ? & nowR & ? & ? & _ & _ & (Hn & Hlt & ->) & _) _ _ _ _]]|[_ [_ _ _ _ _ _ Hseen]]].
  - rewrite map_size_insert_None by done. lia.
  - destruct Hseen as [->|(now & -> & _)]; [done|].
    assert (size (unexpired (add now (wrap64 (- h_maxSkew (hk_handler w)))) (h_seen (hk_handler w)))
            ≤ size (h_seen (hk_handler w)))%nat by (apply map_size_filter).
    lia.
Qed.

Definition one_key (hint : Hint) : Prop :=
  if hi_GlobalRepair hint then hi_GroupKey hint = "" ∧ hi_UserKey hint = ""
  else (validRoutingKey (hi_GroupKey hint) = true ∧ hi_UserKey hint = "") ∨
       (hi_GroupKey hint = "" ∧ validRoutingKey (hi_UserKey hint) = true).

Lemma routed_one_key rt op gk uk hint :
  routed (MkHint rt op gk uk false) = Some hint → gk = "" ∨ uk = "" →
  hi_ResourceType hint = rt ∧ hi_OperationType hint = op ∧ one_key hint.
Proof.
  unfold routed, one_key. cbn [hi_GroupKey hi_UserKey hi_ResourceType hi_OperationType].
  destruct (String.eqb_spec gk "") as [->|Hg], (String.eqb_spec uk "") as [->|Hu];
    cbn [andb negb orb]; intros Hr Hk.
  - by injection Hr as <-.
  - destruct (validRoutingKey uk) eqn:Hv; [|done]. injection Hr as <-. simpl. split_and!; [done..|by right].
  - rewrite orb_false_r in Hr. destruct (validRoutingKey gk) eqn:Hv; [|done]. injection Hr as <-. simpl.
    split_and!; [done..|by left].
  - naive_solver.
Qed.

(** Every hint that [classify] lets through copies the event's types and is
    either a request for a global repair, which carries no key, or carries
    exactly one key, of 64 lower-case hexadecimal digits. *)
Theorem classify_routes event hint :
  classify event = Some hint →
  hi_ResourceType hint = ev_ResourceType event ∧ hi_OperationType hint = ev_OperationType event ∧
  one_key hint.
Proof.
  unfold classify. intros Hc.
  repeat match type of Hc with
  | (if ?b then _ else _) = Some _ => destruct b eqn:?; try discriminate
  end;
  try (by injection Hc as <-); apply routed_one_key in Hc; try done; auto.
  repeat match goal with H : Bool.eqb _ _ = false |- _ => apply eqb_false_iff in H end.
  destruct (String.eqb_spec (ev_GroupKey event) ""), (String.eqb_spec (ev_UserKey event) ""); auto. done.
Qed.

(** ** A concrete signed delivery

    The clock reads 1700000000 s six times less three, then 301 s later. *)
Definition quote : string := String "034" "".
Fixpoint jsonText (l : list (string * string)) : string :=
  match l with
  | [] => ""
  | [(k, v)] => quote +:+ k +:+ quote +:+ ":" +:+ quote +:+ v +:+ quote
  | (k, v) :: l => quote +:+ k +:+ quote +:+ ":" +:+ quote +:+ v +:+ quote +:+ "," +:+ jsonText l
  end.

Definition demoSecret : string := "0123456789abcdef0123456789abcdef".
Definition demoDelivery : string := "3f6c1a52".
Definition demoGroupKey : string := hexEncode (sha256 "team").
Definition demoBody : string :=
  "{" +:+ jsonText [("specVersion", "1.0"); ("eventId", demoDelivery); ("realmName", "corp");
    ("resourceType", "GROUP_MEMBERSHIP"); ("operationType", "DELETE"); ("groupKey", demoGroupKey)]
  +:+ "}".
(** 300 s ahead of the receiver's clock: the most that [fresh] accepts. *)
Definition demoTimestamp : string := "1700000300".
Definition demoRequest : InRequest :=
  MkIn "POST"
    [("X-GroupBridge-Timestamp", demoTimestamp);
     ("X-GroupBridge-Delivery", demoDelivery);
     ("X-GroupBridge-Signature",
       sigPrefix +:+ hexEncode (hmacSha256 demoSecret (signedText demoTimestamp demoDelivery demoBody)))]
    (Some demoBody).

Definition demoClock (n : nat) : Time :=
  unix (if (n <? 3)%nat then 1700000000 else 1700000301).
Definition demoEnv : Env nat :=
  scriptEnv (λ _ s, (Err (EMsg "no server"), s)) (λ _, Some demoSecret) (λ _, Err (EMsg "no file"))
    (λ n, (demoClock n, S n)) (λ _ s, (false, s)).
Definition demoHandler : Handler :=
  NewHandler (MkStable (MkLoader "GROUPBRIDGE_WEBHOOK_SECRET" "" None) 32 demoSecret)
    "corp" (300 * Second).
Definition demoHook : Hook nat := MkHook demoHandler noMetrics [] (MkSys O [] ∅ ∅).
Definition demoHook1 : Hook nat := snd (ServeHTTP (H := demoEnv) demoRequest demoHook).
Definition demoHook2 : Hook nat := snd (ServeHTTP (H := demoEnv) demoRequest demoHook1).

Lemma demo_wf : hook_wf demoHook.
Proof.
  split; [simpl; lia|right]. split; [by vm_compute|].
  apply (checkCredential_ok demoSecret demoSecret). vm_compute. reflexivity.
Qed.

Lemma demo_clock : clock_mono (H := demoEnv) (λ n, total (demoClock n)).
Proof.
  split; intros; simpl; try lia; [apply unix_ok|]. split; [lia|].
  unfold demoClock. destruct (Nat.ltb_spec s 3), (Nat.ltb_spec (S s) 3); vm_compute; try done; lia.
Qed.

Lemma demo_first : fst (ServeHTTP (H := demoEnv) demoRequest demoHook) = Ok (MkResponse 202 []).
Proof. vm_compute. reflexivity. Qed.
Lemma demo_second : fst (ServeHTTP (H := demoEnv) demoRequest demoHook1) = Ok (MkResponse 202 []).
Proof. vm_compute. reflexivity. Qed.

Lemma demo_run1 :
  ServeHTTP (H := demoEnv) demoRequest demoHook = (Ok (MkResponse 202 []), demoHook1).
Proof. rewrite <-demo_first. unfold demoHook1. apply surjective_pairing. Qed.
Lemma demo_run2 :
  ServeHTTP (H := demoEnv) demoRequest demoHook1 = (Ok (MkResponse 202 []), demoHook2).
Proof. rewrite <-demo_second. unfold demoHook2. apply surjective_pairing. Qed.

Lemma webhook_authenticates_witness :
  ∃ secret hint, loaded (H := demoEnv) demoHook secret ∧
    authentic secret "corp" (300 * Second) demoRequest (demoClock 0) hint ∧ hk_hints demoHook1 = [hint].
Proof.
  destruct (webhook_authenticates (H := demoEnv) demoRequest demoHook demoHook1
    (Ok (MkResponse 202 [])) demo_wf) as (p & Hp & _ & Hacc & _).
  { exact demo_run1. }
  injection Hp as <-. destruct (Hacc eq_refl) as (secret & hint & Hload & Hau & Hh & _).
  exists secret, hint. split; [exact Hload|]. split; [exact Hau|exact Hh].
Defined.

(** The replay window is real: a correctly signed delivery whose timestamp
    is 300 s ahead is accepted, and the very same request is accepted again 301
    s later, when the record of it has expired but its timestamp has not. *)
Theorem webhook_replay_accepted :
  ServeHTTP (H := demoEnv) demoRequest demoHook = (Ok (MkResponse 202 []), demoHook1) ∧
  ServeHTTP (H := demoEnv) demoRequest demoHook1 = (Ok (MkResponse 202 []), demoHook2) ∧
  length (hk_hints demoHook2) = 2%nat.
Proof. split; [exact demo_run1|]. split; [exact demo_run2|]. vm_compute. reflexivity. Qed.

Lemma webhook_replay_bound_witness :
  ∃ seconds, parseInt (timestampOf demoRequest) = Some seconds ∧
    total (demoClock (sys_env (hk_sys demoHook))) <
      total (unix seconds) + (total (demoClock (sys_env (hk_sys demoHook2))) -
                              total (demoClock (sys_env (hk_sys demoHook1)))).
Proof.
  destruct (webhook_replay_bound (H := demoEnv) (λ n, total (demoClock n)) demoRequest [] demoRequest
    demoHook demoHook1 demoHook1 demoHook2 (MkResponse 202 []) [] (MkResponse 202 [])
    demo_clock demo_wf) as (seconds & Hs & Hlt).
  - vm_compute. discriminate.
  - vm_compute. split; reflexivity.
  - exact demo_run1.
  - reflexivity.
  - reflexivity.
  - reflexivity.
  - exact demo_run2.
  - reflexivity.
  - exists seconds. split; [exact Hs|exact Hlt].
Defined.

Lemma webhook_seen_bounded_witness :
  Z.of_nat (size (h_seen (hk_handler demoHook1))) ≤ maxSeen.
Proof.
  apply (webhook_seen_bounded (H := demoEnv) demoRequest demoHook demoHook1
    (Ok (MkResponse 202 [])) demo_wf).
  - vm_compute. discriminate.
  - exact demo_run1.
Defined.

Lemma classify_routes_witness :
  one_key (MkHint "GROUP_MEMBERSHIP" "DELETE" demoGroupKey "" false).
Proof.
  refine (proj2 (proj2 (classify_routes
    (MkEnvelope "1.0" demoDelivery "" "corp" "GROUP_MEMBERSHIP" "DELETE" demoGroupKey "") _ _))).
  vm_compute. reflexivity.
Defined.
