(* ===== verification/Config.v ===== *)
(** * Configuration ([internal/config/config.go])

    The configuration as data and its validation.  [Validate] collects every
    problem in order; an error is abbreviated to its constant text.  The YAML
    decoder and [url.Parse] are parameters: a [nil] slice is [None], which
    [sourceGroupPaths] distinguishes from an empty one. *)

From S2P Require Import Prelude GoStrings GoTime World Credential.

(** ** Data *)
Record ServerTLS : Type := MkServerTLS { tls_CertFile : string; tls_KeyFile : string }.

Record Server : Type := MkServer
  { sv_Address : string; sv_ShutdownTimeout : Z; sv_TLS : ServerTLS }.

Record WebhookConfig : Type := MkWebhookConfig
  { wc_SecretEnv : string; wc_SecretFile : string; wc_MaxSkew : Z }.

Record SourceConfig : Type := MkSourceConfig
  { so_Type : string;
    so_BaseURL : string;
    so_AllowInsecureHTTP : bool;
    so_Realm : string;
    so_ClientID : string;
    so_ClientSecretEnv : string;
    so_ClientSecretFile : string;
    so_PollInterval : Z }.

Record VaultKubernetesAuth : Type := MkVaultKubernetesAuth
  { ka_Mount : string; ka_Role : string; ka_TokenFile : string }.

Record Target : Type := MkTarget
  { ta_Name : string;
    ta_Type : string;
    ta_BaseURL : string;
    ta_AllowInsecureHTTP : bool;
    ta_TokenEnv : string;
    ta_TokenFile : string;
    ta_ResolverTokenEnv : string;
    ta_ResolverTokenFile : string;
    ta_OIDCProvider : string;
    ta_OIDCMount : string;
    ta_KVMount : string;
    ta_KubernetesAuth : VaultKubernetesAuth }.

Record VaultRule : Type := MkVaultRule
  { vr_PathPrefix : string;
    vr_AccessProfile : string;
    vr_PolicyMode : string;
    vr_Discoverable : bool }.

Record Rule : Type := MkRule
  { ru_Name : string;
    ru_SourceGroupPrefix : string;
    ru_SourceGroupPaths : option (list string);
    ru_TargetProvider : string;
    ru_TargetParent : string;
    ru_CreateGroups : bool;
    ru_AdoptExistingGroup : bool;
    ru_AccessLevel : string;
    ru_Prune : string;
    ru_ProtectedUsers : list string;
    ru_MaxRemovals : Z;
    ru_IdentityMatch : list string;
    ru_EnforceAccessLevel : bool;
    ru_Vault : option VaultRule }.

Record Config : Type := MkConfig
  { cf_Server : Server;
    cf_Webhook : WebhookConfig;
    cf_Source : SourceConfig;
    cf_Targets : list Target;
    cf_Rules : list Rule;
    cf_StatePath : string }.

Definition defaults : Config :=
  MkConfig (MkServer ":8080" (10 * Second) (MkServerTLS "" ""))
    (MkWebhookConfig "" "" (300 * Second))
    (MkSourceConfig "keycloak" "" false "" "" "" "" (300 * Second))
    [] [] "/var/lib/groupbridge/state.json".

(** ** Field checks *)
Definition isSlash : ascii → bool := is_slash.

(** [strings.Trim(s, "/")]. *)
Definition trimSlash (s : string) : string := trim isSlash s.

Definition hasSuffixSlash (s : string) : bool :=
  match lastByte s with Some a => isSlash a | None => false end.

Definition mountByte (a : ascii) : bool := is_lower a || is_digit a || is_dash a.

Definition safeVaultPath (value : string) : bool :=
  if String.eqb value "" || hasPrefix value "/" || hasSuffixSlash value then false
  else forallb (λ segment,
    negb (String.eqb segment "" || String.eqb segment "." || String.eqb segment "..") &&
    string_all mountByte segment) (split "/" value).

Definition validateCredentialReference (environment filePath : string) (required : bool) : list err :=
  if negb (String.eqb environment "") && negb (String.eqb filePath "") then
    [EMsg "mutually exclusive"]
  else if required && String.eqb environment "" && String.eqb filePath "" then
    [EMsg "requires exactly one"]
  else if negb (String.eqb filePath "") && negb (isAbs filePath) then
    [EMsg "must be an absolute path"]
  else if negb (String.eqb filePath "") && negb (String.eqb (clean filePath) filePath) then
    [EMsg "must be a canonical path"]
  else [].

(** What [validateBaseURL] reads of a parsed URL. *)
Record URL : Type := MkURL
  { url_Scheme : string;
    url_Host : string;
    url_hasUser : bool;
    url_RawQuery : string;
    url_Fragment : string }.

Definition validateBaseURL (parse : string → option URL) (raw : string) (allowInsecure : bool)
    : list err :=
  match parse raw with
  | None => [EMsg "must be an absolute http(s) URL without credentials, query, or fragment"]
  | Some u =>
      if (negb (String.eqb (url_Scheme u) "http") && negb (String.eqb (url_Scheme u) "https")) ||
         String.eqb (url_Host u) "" || url_hasUser u || negb (String.eqb (url_RawQuery u) "") ||
         negb (String.eqb (url_Fragment u) "")
      then [EMsg "must be an absolute http(s) URL without credentials, query, or fragment"]
      else if negb (String.eqb (url_Scheme u) "https") && negb allowInsecure
      then [EMsg "must use https unless allowInsecureHTTP is explicitly true"]
      else []
  end.

(** The bytes [unsafeDeclaredPathChars] keeps. *)
Definition slugByte (a : ascii) : bool := is_lower a || is_digit a || is_dash a.

(** [strings.Trim(unsafe.ReplaceAllString(strings.ToLower(segment), "-"), "-_")]. *)
Definition slugOf (segment : string) : string :=
  trim is_dash (replaceRuns slugByte false (toLower segment)).

Definition vaultByte (a : ascii) : bool := is_lower a || is_upper a || is_digit a || is_dash a.

(** One segment of [declaredTargetPath]; a type that is neither contributes none. *)
Definition declaredSegment (targetType segment : string) : outcome err (list string) :=
  if String.eqb targetType "vault" then
    if String.eqb segment "" || (63 <? byteLen segment) then Err (EMsg "Vault path segment is unsafe")
    else if negb (string_all vaultByte segment) then Err (EMsg "Vault path segment is unsafe")
    else Ok [toLower segment]
  else if String.eqb targetType "gitlab" then
    if String.eqb (slugOf segment) "" then Err (EMsg "group path segment has no target-safe characters")
    else Ok [slugOf segment]
  else Ok [].

Fixpoint declaredSegments (targetType : string) (segments : list string) : outcome err (list string) :=
  match segments with
  | [] => Ok []
  | s :: l => x ← declaredSegment targetType s; xs ← declaredSegments targetType l; Ok (x ++ xs)
  end.

Definition rootedPrefix (p : string) : string := "/" +:+ trimSlash p.

Definition declaredTargetPath (targetType : string) (rule : Rule) (sourcePath : string)
    : outcome err string :=
  let prefix := rootedPrefix (ru_SourceGroupPrefix rule) in
  let relative := if String.eqb prefix "/" then trimPrefix sourcePath "/"
                  else trimPrefix sourcePath (prefix +:+ "/") in
  mapped ← declaredSegments targetType (split "/" relative);
  let parent := match ru_Vault rule with
                | Some v => if String.eqb targetType "vault" then vr_PathPrefix v else ru_TargetParent rule
                | None => ru_TargetParent rule
                end in
  Ok (trimSlash (trimSlash parent +:+ "/" +:+ join "/" mapped)).

Definition accessLevelNames : list string := ["guest"; "planner"; "reporter"; "developer"; "maintainer"].

(** ** [Validate] *)
Definition when_err (b : bool) (msg : string) : list err := if b then [EMsg msg] else [].

Definition inList (x : string) (l : list string) : bool := bool_decide (x ∈ l).

Definition nonEmpty (s : string) : bool := negb (String.eqb s "").

Section validate.
Context (parseURL : string → option URL).

Definition validateServer (s : Server) : list err :=
  when_err (String.eqb (sv_Address s) "") "server.address is required" ++
  when_err (sv_ShutdownTimeout s <=? 0) "server.shutdownTimeout must be positive" ++
  when_err (negb (Bool.eqb (String.eqb (tls_CertFile (sv_TLS s)) "") (String.eqb (tls_KeyFile (sv_TLS s)) "")))
    "server.tls.certFile and server.tls.keyFile must be configured together" ++
  when_err (nonEmpty (tls_CertFile (sv_TLS s)) &&
            (negb (isAbs (tls_CertFile (sv_TLS s))) || negb (isAbs (tls_KeyFile (sv_TLS s)))))
    "server.tls.certFile and server.tls.keyFile must be absolute paths".

Definition validateWebhook (w : WebhookConfig) : list err :=
  validateCredentialReference (wc_SecretEnv w) (wc_SecretFile w) true ++
  when_err (wc_MaxSkew w <=? 0) "webhook.maxSkew must be positive".

Definition validateSource (s : SourceConfig) : list err :=
  when_err (negb (String.eqb (so_Type s) "keycloak")) "source.type must be keycloak" ++
  when_err (String.eqb (so_BaseURL s) "" || String.eqb (so_Realm s) "" || String.eqb (so_ClientID s) "")
    "source.baseURL, realm, and clientID are required" ++
  validateCredentialReference (so_ClientSecretEnv s) (so_ClientSecretFile s) true ++
  (EWrap "source.baseURL" <$> validateBaseURL parseURL (so_BaseURL s) (so_AllowInsecureHTTP s)) ++
  when_err (so_PollInterval s <=? 0) "source.pollInterval must be positive".

Definition validateTarget (t : Target) : list err :=
  let k := ta_KubernetesAuth t in
  when_err (String.eqb (ta_Name t) "" || String.eqb (ta_Type t) "" || String.eqb (ta_BaseURL t) "")
    "target requires name, type, and baseURL" ++
  when_err (negb (String.eqb (ta_Type t) "gitlab") && negb (String.eqb (ta_Type t) "vault"))
    "target type is not compiled in" ++
  (if String.eqb (ta_Type t) "gitlab" then
     validateCredentialReference (ta_TokenEnv t) (ta_TokenFile t) true ++
     validateCredentialReference (ta_ResolverTokenEnv t) (ta_ResolverTokenFile t) false ++
     when_err (nonEmpty (ta_OIDCMount t) || nonEmpty (ta_KVMount t) || nonEmpty (ka_Mount k) ||
               nonEmpty (ka_Role k) || nonEmpty (ka_TokenFile k)) "target contains Vault-only fields"
   else if String.eqb (ta_Type t) "vault" then
     when_err (nonEmpty (ta_TokenEnv t) || nonEmpty (ta_TokenFile t) ||
               nonEmpty (ta_ResolverTokenEnv t) || nonEmpty (ta_ResolverTokenFile t))
       "Vault target must not use tokens" ++
     when_err (negb (safeVaultPath (ta_OIDCMount t)) || negb (safeVaultPath (ta_KVMount t)) ||
               negb (safeVaultPath (ka_Mount k))) "Vault mounts must be a safe mount path" ++
     when_err (String.eqb (ka_Role k) "" || negb (hasPrefix (ka_TokenFile k) "/"))
       "Vault kubernetesAuth requires role and absolute tokenFile" ++
     when_err (nonEmpty (ta_OIDCProvider t)) "target contains GitLab-only fields"
   else []) ++
  (EWrap "target baseURL" <$> validateBaseURL parseURL (ta_BaseURL t) (ta_AllowInsecureHTTP t)).

(** The loop over the targets: the map of targets by name is built on the way. *)
Fixpoint validateTargets (targets : gmap string Target) (ts : list Target)
    : list err * gmap string Target :=
  match ts with
  | [] => ([], targets)
  | t :: ts =>
      let here := validateTarget t ++
        when_err (bool_decide (is_Some (targets !! ta_Name t))) "duplicate target name" in
      let '(errs, m) := validateTargets (<[ta_Name t := t]> targets) ts in
      (here ++ errs, m)
  end.

Definition pathsOf (r : Rule) : list string := default [] (ru_SourceGroupPaths r).

(** The first loop over [sourceGroupPaths]. *)
Definition pathDeclared (r : Rule) (path : string) : bool :=
  let prefix := rootedPrefix (ru_SourceGroupPrefix r) in
  negb (String.eqb path "" || negb (String.eqb path ("/" +:+ trimSlash path)) ||
        (negb (String.eqb prefix "/") && negb (hasPrefix path (prefix +:+ "/"))) ||
        (String.eqb prefix "/" && String.eqb path "/")).

Fixpoint validatePaths (r : Rule) (seen : list string) (paths : list string) : list err :=
  match paths with
  | [] => []
  | p :: ps =>
      when_err (negb (pathDeclared r p)) "sourceGroupPaths entry must be a canonical absolute descendant" ++
      when_err (inList p seen) "sourceGroupPaths contains duplicate" ++
      validatePaths r (p :: seen) ps
  end.

(** The second: no two declared paths share a target path. *)
Fixpoint validateDeclared (targetType : string) (r : Rule) (seen : list string) (paths : list string)
    : list err :=
  match paths with
  | [] => []
  | p :: ps =>
      match declaredTargetPath targetType r p with
      | Err e => EWrap "sourceGroupPaths entry" e :: validateDeclared targetType r seen ps
      | Ok t => when_err (inList t seen) "sourceGroupPaths entries collide at target path" ++
                validateDeclared targetType r (t :: seen) ps
      end
  end.

Definition validateMatch (target : Target) (m : string) : list err :=
  when_err (negb (inList m ["oidc"; "oidc-username"; "username"; "email"]))
    "identityMatch contains unsupported value" ++
  when_err (inList m ["oidc"; "oidc-username"] &&
            (String.eqb (ta_OIDCProvider target) "" ||
             (String.eqb (ta_ResolverTokenEnv target) "" && String.eqb (ta_ResolverTokenFile target) "")))
    "matching needs oidcProvider and a resolver token".

Definition validateGitLabRule (target : Target) (r : Rule) : list err :=
  when_err (bool_decide (is_Some (ru_Vault r))) "GitLab rule must not contain vault" ++
  when_err (negb (inList (ru_AccessLevel r) accessLevelNames)) "accessLevel is invalid" ++
  when_err (bool_decide (ru_IdentityMatch r = [])) "identityMatch must not be empty" ++
  concat (validateMatch target <$> ru_IdentityMatch r) ++
  when_err (bool_decide (1 < length (ru_IdentityMatch r))%nat && inList "oidc-username" (ru_IdentityMatch r))
    "oidc-username must be the only identityMatch strategy".

Definition validateVaultRule (r : Rule) : list err :=
  match ru_Vault r with
  | None => [EMsg "Vault rule requires vault.pathPrefix as a safe mount path"]
  | Some v =>
      (if negb (safeVaultPath (vr_PathPrefix v)) then
         [EMsg "Vault rule requires vault.pathPrefix as a safe mount path"]
       else when_err (negb (inList (vr_AccessProfile v) ["viewer"; "editor"]))
              "Vault accessProfile must be viewer or editor") ++
      when_err (nonEmpty (vr_PolicyMode v) && negb (String.eqb (vr_PolicyMode v) "verify-only"))
        "Vault policyMode must be verify-only"
  end ++
  when_err (negb (String.eqb (ru_Prune r) "none")) "read-only Vault target requires prune none" ++
  when_err (nonEmpty (ru_TargetParent r) || nonEmpty (ru_AccessLevel r) ||
            negb (bool_decide (ru_IdentityMatch r = [])) || negb (bool_decide (ru_ProtectedUsers r = [])) ||
            negb (ru_MaxRemovals r =? 0) || ru_EnforceAccessLevel r || ru_CreateGroups r ||
            ru_AdoptExistingGroup r) "Vault rule contains GitLab-only fields".

Definition validateRule (targets : gmap string Target) (names : list string) (r : Rule) : list err :=
  when_err (String.eqb (ru_Name r) "" || negb (hasPrefix (ru_SourceGroupPrefix r) "/") ||
            String.eqb (ru_TargetProvider r) "")
    "rule requires name, absolute sourceGroupPrefix, and targetProvider" ++
  when_err (inList (ru_Name r) names) "duplicate rule name" ++
  validatePaths r [] (pathsOf r) ++
  when_err (bool_decide (targets !! ru_TargetProvider r = None)) "rule references unknown target" ++
  when_err (negb (inList (ru_Prune r) ["none"; "managed-only"; "authoritative"]))
    "prune must be none, managed-only, or authoritative" ++
  when_err (ru_MaxRemovals r <? 0) "maxRemovals cannot be negative" ++
  match targets !! ru_TargetProvider r with
  | None => []
  | Some target =>
      validateDeclared (ta_Type target) r [] (pathsOf r) ++
      (if String.eqb (ta_Type target) "gitlab" then validateGitLabRule target r
       else if String.eqb (ta_Type target) "vault" then validateVaultRule r
       else [])
  end.

(** The loop over the rules. *)
Fixpoint validateRules (targets : gmap string Target) (names : list string) (rs : list Rule) : list err :=
  match rs with
  | [] => []
  | r :: rs =>
      validateRule targets names r ++
      validateRules targets (ru_Name r :: names) rs
  end.

Definition validationErrors (c : Config) : list err :=
  let '(targetErrs, targets) := validateTargets ∅ (cf_Targets c) in
  validateServer (cf_Server c) ++ validateWebhook (cf_Webhook c) ++ validateSource (cf_Source c) ++
  targetErrs ++
  when_err (bool_decide (cf_Targets c = [])) "at least one target is required" ++
  validateRules targets [] (cf_Rules c) ++
  when_err (bool_decide (cf_Rules c = [])) "at least one rule is required" ++
  when_err (String.eqb (cf_StatePath c) "") "state.path is required".

(** [Validate]: [errors.Join] of no errors is nil. *)
Definition Validate (c : Config) : outcome err unit :=
  match validationErrors c with [] => Ok tt | errs => Err (EJoin errs) end.

Definition maxConfigBytes : nat := Z.to_nat 1048576.

(** [Decode], with the YAML decoder as it fills in the defaults; it reads at
    most [maxConfigBytes] bytes. *)
Definition Decode (yaml : Config → string → outcome err Config) (text : string) : outcome err Config :=
  match yaml defaults (String.substring 0 maxConfigBytes text) with
  | Err e => Err (EWrap "decode config" e)
  | Ok c =>
      let w := cf_Webhook c in
      let w := if String.eqb (wc_SecretEnv w) "" && String.eqb (wc_SecretFile w) ""
               then MkWebhookConfig "GROUPBRIDGE_WEBHOOK_SECRET" (wc_SecretFile w) (wc_MaxSkew w) else w in
      let s := cf_Source c in
      let s := if String.eqb (so_ClientSecretEnv s) "" && String.eqb (so_ClientSecretFile s) ""
               then MkSourceConfig (so_Type s) (so_BaseURL s) (so_AllowInsecureHTTP s) (so_Realm s)
                      (so_ClientID s) "GROUPBRIDGE_KEYCLOAK_CLIENT_SECRET" (so_ClientSecretFile s)
                      (so_PollInterval s)
               else s in
      let c := MkConfig (cf_Server c) w s (cf_Targets c) (cf_Rules c) (cf_StatePath c) in
      _ ← Validate c; Ok c
  end.

(** [Load]. *)
Definition LoadConfig {S} `{Env S} (yaml : Config → string → outcome err Config) (path : string) : M (Sys S) err Config :=
  f ← readFile path;
  match f with
  | Err e => mthrow (EWrap "open config" e)
  | Ok text => of_outcome (Decode yaml text)
  end.
End validate.

(** [Secret]. *)
Definition Secret {S} `{Env S} (envName : string) : M (Sys S) err string :=
  v ← lookupEnv envName;
  match v with
  | Some v =>
      if String.eqb (trimSpace v) "" then mthrow (EMsg "required secret environment variable is unset")
      else mret v
  | None => mthrow (EMsg "required secret environment variable is unset")
  end.
