(* ===== verification/Paths.v ===== *)
(** * Names and paths of the reconciler
    ([internal/reconcile/reconciler.go], from [vaultPolicyMode] on) *)

From S2P Require Import Prelude GoStrings GoTime World State Model Credential Config.

Definition vaultPolicyMode (rule : Rule) : string :=
  match ru_Vault rule with
  | Some v => if String.eqb (vr_PolicyMode v) "" then "verify-only" else vr_PolicyMode v
  | None => "verify-only"
  end.

Definition isVault (rule : Rule) : bool := bool_decide (is_Some (ru_Vault rule)).

Definition sourceStateKey (rule : Rule) (group : Group) : string :=
  if isVault rule || bool_decide (is_Some (ru_SourceGroupPaths rule)) then g_Path group else g_ID group.

Definition sourcePathAllowed (rule : Rule) (path : string) : bool :=
  match ru_SourceGroupPaths rule with
  | None => true
  | Some l => inList path l
  end.

Definition sourceNativeID (mapping : GroupMapping) : string :=
  if String.eqb (gm_SourceNativeID mapping) "" then gm_SourceGroupID mapping else gm_SourceNativeID mapping.

(** [None] for a path that is not below the prefix. *)
Definition relativeGroupPath (groupPath prefix : string) : option string :=
  let groupPath := "/" +:+ trimSlash groupPath in
  let prefix := "/" +:+ trimSlash prefix in
  if String.eqb prefix "/" then
    if String.eqb groupPath "/" then None else Some (trimSlash groupPath)
  else if String.eqb groupPath prefix then None
  else if negb (hasPrefix groupPath (prefix +:+ "/")) then None
  else Some (trimPrefix groupPath (prefix +:+ "/")).

Fixpoint targetSegments (segments : list string) : outcome err (list string) :=
  match segments with
  | [] => Ok []
  | s :: l =>
      if String.eqb (slugOf s) "" then Err (EMsg "group path segment has no GitLab-safe characters")
      else xs ← targetSegments l; Ok (slugOf s :: xs)
  end.

Definition targetGroupPath (parent relative : string) : outcome err string :=
  mapped ← targetSegments (split "/" (trimSlash relative));
  Ok (trimSlash (join "/" [trimSlash parent; join "/" mapped])).

(** [^[A-Za-z0-9_-]{1,63}$]. *)
Definition vaultPathSegment (s : string) : bool :=
  negb (String.eqb s "") && (byteLen s <=? 63) && string_all vaultByte s.

Fixpoint vaultSegments (segments : list string) : outcome err (list string) :=
  match segments with
  | [] => Ok []
  | s :: l =>
      if negb (vaultPathSegment s) || String.eqb s "." || String.eqb s ".." then
        Err (EMsg "Vault path segment must contain 1-63 ASCII letters, digits, hyphens, or underscores")
      else xs ← vaultSegments l; Ok (toLower s :: xs)
  end.

Definition vaultParts (raw : string) : outcome err (list string) :=
  if String.eqb raw "" then Ok [] else vaultSegments (split "/" raw).

Definition vaultSecretPath (parent relative : string) : outcome err string :=
  p ← vaultParts (trimSlash parent);
  r ← vaultParts (trimSlash relative);
  let result := join "/" (p ++ r) in
  if String.eqb result "" || (240 <? byteLen result) then
    Err (EMsg "Vault secret path must contain 1-240 safe characters")
  else Ok result.
