(* ===== verification/PathsFacts.v ===== *)
(** * Properties of the path functions and of the configuration's use of them *)

From S2P Require Import Prelude Unicode GoStrings GoTime World State Model Credential Config Paths.

(** ** Shapes of slugs and segments *)
Definition slug_ok (s : string) : bool :=
  negb (String.eqb s "") && string_all slugByte s && headOk is_dash s && lastOk is_dash s.

Lemma slugByte_not_slash a : slugByte a = true → negb (isSlash a) = true.
Proof.
  unfold slugByte, isSlash, is_slash. intros H. apply negb_true_iff, not_true_iff_false.
  intros ->%Ascii.eqb_eq. by vm_compute in H.
Qed.

Lemma slugOf_ok s : slugOf s ≠ "" → slug_ok (slugOf s) = true.
Proof.
  intros Hne. unfold slug_ok. destruct (String.eqb_spec (slugOf s) ""); [done|]. simpl.
  destruct (trim_ends is_dash (replaceRuns slugByte false (toLower s))) as [H1 H2].
  fold (slugOf s) in H1, H2. rewrite H1, H2, !andb_true_r. unfold slugOf. apply string_all_trim.
  eapply string_all_weaken; [|apply replaceRuns_all].
  intros a [Ha|Ha%Ascii.eqb_eq]%orb_true_iff; [done|by subst].
Qed.

(** What a list of non-empty segments without a slash looks like joined. *)
Definition segment_ok (s : string) : Prop := s ≠ "" ∧ has_no "/" s = true.

Lemma segment_ends s : segment_ok s → headOk isSlash s = true ∧ lastOk isSlash s = true.
Proof.
  intros [_ H]. split; [apply headOk_all|apply lastOk_all]; exact H.
Qed.

Lemma join_segments_ends l : Forall segment_ok l → l ≠ [] →
  join "/" l ≠ "" ∧ headOk isSlash (join "/" l) = true ∧ lastOk isSlash (join "/" l) = true.
Proof.
  induction 1 as [|s l Hs Hl IH]; [done|]. intros _. destruct (segment_ends s Hs) as [Hh Ht].
  destruct Hs as [Hne _]. destruct (decide (l = [])) as [->|Hl']; [by split_and!|].
  destruct (IH Hl') as (Hne' & _ & Hlast). rewrite join_cons by done. split_and!.
  - by destruct s.
  - by destruct s.
  - rewrite lastOk_app by done. cbn [lastOk]. by destruct (join "/" l).
Qed.

Lemma join_segments_trim l : Forall segment_ok l → trimSlash (join "/" l) = join "/" l.
Proof.
  intros Hl. destruct (decide (l = [])) as [->|Hne]; [done|].
  destruct (join_segments_ends l Hl Hne) as (_ & ? & ?). by apply trim_id.
Qed.

Lemma join_app c l k : l ≠ [] → k ≠ [] → join c (l ++ k) = join c l +:+ String c (join c k).
Proof.
  intros Hl Hk. induction l as [|x l IH]; [done|].
  destruct (decide (l = [])) as [->|Hl']; [by apply join_cons|].
  cbn [app]. rewrite !join_cons by (by destruct l). rewrite IH by done. by rewrite app_assoc.
Qed.

Lemma slug_segment s : slug_ok s = true → segment_ok s.
Proof.
  unfold slug_ok. rewrite !andb_true_iff. intros [[[Hne Hall] _] _]. split.
  - by destruct (String.eqb_spec s "").
  - unfold has_no. by eapply string_all_weaken; [|exact Hall]; apply slugByte_not_slash.
Qed.

(** ** Slash-trimmed texts *)
Lemma trimSlash_ends s : headOk isSlash (trimSlash s) = true ∧ lastOk isSlash (trimSlash s) = true.
Proof. apply trim_ends. Qed.

Lemma trimSlash_idem s : trimSlash (trimSlash s) = trimSlash s.
Proof. apply trim_idem. Qed.

Lemma trimSlash_rooted s : trimSlash ("/" +:+ trimSlash s) = trimSlash s.
Proof.
  unfold trimSlash at 1, trim. cbn [trimLeft].
  change ("/" +:+ trimSlash s) with (String "/" (trimSlash s)). cbn [trimLeft].
  destruct (trimSlash_ends s) as [H1 H2].
  change (isSlash "/") with true. cbn match. rewrite trimLeft_id by done. by apply trimRight_id.
Qed.

Lemma trimSlash_parent p j : j ≠ "" → headOk isSlash j = true → lastOk isSlash j = true →
  trimSlash (trimSlash p +:+ "/" +:+ j) = if String.eqb (trimSlash p) "" then j else trimSlash p +:+ "/" +:+ j.
Proof.
  intros Hne Hh Hl. destruct (trimSlash_ends p) as [H1 H2].
  destruct (String.eqb_spec (trimSlash p) "") as [->|Hp].
  - change ("" +:+ "/" +:+ j) with (String "/" j). unfold trimSlash, trim. cbn [trimLeft].
    change (isSlash "/") with true. cbn match. rewrite trimLeft_id by done. by apply trimRight_id.
  - apply trim_id.
    + by destruct (trimSlash p).
    + rewrite lastOk_app by done. change ("/" +:+ j) with (String "/" j). cbn [lastOk]. by destruct j.
Qed.

(** ** Lists of segments *)
Lemma targetSegments_ok l xs : targetSegments l = Ok xs →
  xs = slugOf <$> l ∧ Forall (λ s, slugOf s ≠ "") l.
Proof.
  revert xs. induction l as [|s l IH]; intros xs; simpl; [by intros [= <-]|].
  destruct (String.eqb_spec (slugOf s) ""); [done|].
  destruct (targetSegments l) as [ys|]; [|done]. intros [= <-].
  destruct (IH ys eq_refl) as [-> ?]. by split; [|constructor].
Qed.

Lemma targetSegments_Ok l : Forall (λ s, slugOf s ≠ "") l → targetSegments l = Ok (slugOf <$> l).
Proof.
  induction 1 as [|s l Hs Hl IH]; [done|]. simpl. destruct (String.eqb_spec (slugOf s) ""); [done|].
  by rewrite IH.
Qed.

Lemma declared_gitlab_ok l xs : declaredSegments "gitlab" l = Ok xs →
  xs = slugOf <$> l ∧ Forall (λ s, slugOf s ≠ "") l.
Proof.
  revert xs. induction l as [|s l IH]; intros xs; [by intros [= <-]|].
  cbn [declaredSegments]. unfold declaredSegment. change (String.eqb "gitlab" "vault") with false.
  change (String.eqb "gitlab" "gitlab") with true. cbn match.
  destruct (String.eqb_spec (slugOf s) ""); [done|]. cbn [mbind outcome_bind].
  destruct (declaredSegments "gitlab" l) as [ys|]; [|done]. intros [= <-].
  destruct (IH ys eq_refl) as [-> ?]. by split; [|constructor].
Qed.

Lemma slugs_ok l : Forall (λ s, slugOf s ≠ "") l → Forall (λ s, slug_ok s = true) (slugOf <$> l).
Proof. intros Hl. apply Forall_fmap. eapply Forall_impl; [exact Hl|]. intros s. apply slugOf_ok. Qed.

Lemma slugs_segments l : Forall (λ s, slug_ok s = true) l → Forall segment_ok l.
Proof. intros Hl. eapply Forall_impl; [exact Hl|apply slug_segment]. Qed.

Lemma slugOf_empty : slugOf "" = "".
Proof. reflexivity. Qed.

(** Segments that are all non-empty leave nothing to trim. *)
Lemma split_nonempty_trim s : Forall (λ x, x ≠ "") (split "/" s) → s ≠ "" ∧ trimSlash s = s.
Proof.
  intros Hall. rewrite <-(join_split "/" s).
  assert (Forall segment_ok (split "/" s)) as Hseg.
  { pose proof (split_no_sep "/" s) as Hns. rewrite Forall_forall in *. intros x Hx.
    split; [by apply Hall|by apply Hns]. }
  split; [|by apply join_segments_trim].
  apply join_segments_ends; [done|apply split_not_nil].
Qed.

Lemma slugs_nonempty l : Forall (λ s, slugOf s ≠ "") l → Forall (λ x, x ≠ "") l.
Proof. intros Hl. eapply Forall_impl; [exact Hl|]. by intros x Hx ->. Qed.

(** ** Vault segments *)
Lemma vaultByte_not_slash a : vaultByte a = true → negb (isSlash a) = true.
Proof.
  unfold isSlash, is_slash. intros H. apply negb_true_iff, not_true_iff_false.
  intros ->%Ascii.eqb_eq. by vm_compute in H.
Qed.

Lemma ascii_cases (P : ascii → bool) :
  forallb P (ascii_of <$> (Z.of_nat <$> seq 0 256)) = true → ∀ a, P a = true.
Proof.
  intros Hall a. rewrite forallb_forall in Hall. apply Hall.
  rewrite <-list_elem_of_In. apply list_elem_of_fmap. exists (byte_of a). rewrite ascii_byte_of.
  split; [done|]. pose proof (byte_of_range a). apply list_elem_of_fmap. exists (Z.to_nat (byte_of a)).
  split; [lia|]. apply elem_of_seq. lia.
Qed.

Lemma lower_vault a : implb (vaultByte a) (mountByte (lower_ascii a) && (byte_of a <? 128)) = true.
Proof. revert a. apply ascii_cases. vm_compute. reflexivity. Qed.

Lemma lower_mount a : implb (mountByte a) (Ascii.eqb (lower_ascii a) a && vaultByte a) = true.
Proof. revert a. apply ascii_cases. vm_compute. reflexivity. Qed.

Lemma lower_byte a : byte_of a < 128 → encodeRune (ToLower (byte_of a)) = String (lower_ascii a) "".
Proof.
  intros Ha%Z.ltb_lt. cut (implb (byte_of a <? 128) (String.eqb (encodeRune (ToLower (byte_of a))) (String (lower_ascii a) "")) = true).
  { rewrite Ha. cbn [implb]. by intros Heq%String.eqb_eq. }
  revert a Ha. intros a _. revert a. apply ascii_cases. vm_compute. reflexivity.
Qed.

Lemma toLower_cons a s : byte_of a < 128 → toLower (String a s) = String (lower_ascii a) (toLower s).
Proof.
  intros Ha. unfold toLower, mapRunes. cbn [runes]. rewrite (proj2 (Z.ltb_lt _ _) Ha). cbn [foldr rune_value].
  by rewrite lower_byte.
Qed.

Lemma toLower_vault s : string_all vaultByte s = true →
  string_all mountByte (toLower s) = true ∧ String.length (toLower s) = String.length s.
Proof.
  induction s as [|a s IH]; [done|]. cbn [string_all]. intros [Ha Hs]%andb_true_iff.
  pose proof (lower_vault a) as Hl. rewrite Ha in Hl. cbn [implb] in Hl.
  apply andb_true_iff in Hl as [Hm Hb%Z.ltb_lt]. destruct (IH Hs) as [H1 H2].
  rewrite toLower_cons by done. cbn [string_all String.length]. by rewrite Hm, H1, H2.
Qed.

Lemma toLower_mount s : string_all mountByte s = true →
  string_all vaultByte s = true ∧ toLower s = s.
Proof.
  induction s as [|a s IH]; [done|]. cbn [string_all]. intros [Ha Hs]%andb_true_iff.
  pose proof (lower_mount a) as Hl. rewrite Ha in Hl. cbn [implb] in Hl.
  apply andb_true_iff in Hl as [He%Ascii.eqb_eq Hv]. destruct (IH Hs) as [H1 H2].
  pose proof (lower_vault a) as Hl. rewrite Hv in Hl. cbn [implb] in Hl.
  apply andb_true_iff in Hl as [_ Hb%Z.ltb_lt].
  rewrite toLower_cons by done. by rewrite He, Hv, H1, H2.
Qed.

(** A segment of a Vault path, before and after lower-casing. *)
Definition vseg (s : string) : Prop := s ≠ "" ∧ byteLen s ≤ 63 ∧ string_all vaultByte s = true.

Lemma vaultPathSegment_spec s : vaultPathSegment s = true ↔ vseg s.
Proof.
  unfold vaultPathSegment, vseg. rewrite !andb_true_iff, negb_true_iff, Z.leb_le.
  destruct (String.eqb_spec s ""); naive_solver.
Qed.

Lemma vseg_not_dots s : vseg s → String.eqb s "." || String.eqb s ".." = false.
Proof.
  intros (_ & _ & Hall). destruct (String.eqb_spec s ".") as [->|]; [by vm_compute in Hall|].
  destruct (String.eqb_spec s "..") as [->|]; [by vm_compute in Hall|]. done.
Qed.

Lemma vaultSegments_spec l xs :
  vaultSegments l = Ok xs ↔ Forall vseg l ∧ xs = toLower <$> l.
Proof.
  revert xs. induction l as [|s l IH]; intros xs; cbn [vaultSegments].
  { split; [by intros [= <-]|by intros [_ ->]]. }
  destruct (vaultPathSegment s) eqn:Hs; simpl.
  - apply vaultPathSegment_spec in Hs. rewrite vseg_not_dots by done. cbn match.
    rewrite Forall_cons. destruct (vaultSegments l) as [ys|e].
    + destruct (proj1 (IH ys) eq_refl) as [Hl ->]. cbn [mbind outcome_bind].
      split; [intros [= <-]; by split|by intros [_ ->]].
    + cbn [mbind outcome_bind]. split; [done|]. intros [[_ Hl] ->]. exfalso.
      by pose proof (proj2 (IH (toLower <$> l)) (conj Hl eq_refl)).
  - split; [done|]. intros [[H _]%Forall_cons _]. apply vaultPathSegment_spec in H. congruence.
Qed.

Lemma declared_vault_spec l xs :
  declaredSegments "vault" l = Ok xs ↔ Forall vseg l ∧ xs = toLower <$> l.
Proof.
  revert xs. induction l as [|s l IH]; intros xs; cbn [declaredSegments].
  { split; [by intros [= <-]|by intros [_ ->]]. }
  assert (declaredSegment "vault" s = if vaultPathSegment s then Ok [toLower s]
    else Err (EMsg "Vault path segment is unsafe")) as ->.
  { unfold declaredSegment, vaultPathSegment. change (String.eqb "vault" "vault") with true. cbn match.
    destruct (String.eqb_spec s ""); [done|]. cbn [orb negb andb].
    destruct (Z.ltb_spec 63 (byteLen s)), (Z.leb_spec (byteLen s) 63); try lia; [done|].
    by destruct (string_all vaultByte s). }
  destruct (vaultPathSegment s) eqn:Hs; cbn [mbind outcome_bind].
  - apply vaultPathSegment_spec in Hs. rewrite Forall_cons.
    destruct (declaredSegments "vault" l) as [ys|e].
    + destruct (proj1 (IH ys) eq_refl) as [Hl ->]. cbn [mbind outcome_bind].
      split; [intros [= <-]; by split|by intros [_ ->]].
    + cbn [mbind outcome_bind]. split; [done|]. intros [[_ Hl] ->]. exfalso.
      by pose proof (proj2 (IH (toLower <$> l)) (conj Hl eq_refl)).
  - split; [done|]. intros [[H _]%Forall_cons _]. apply vaultPathSegment_spec in H. congruence.
Qed.

Lemma vseg_lower l : Forall vseg l →
  Forall (λ s, s ≠ "" ∧ byteLen s ≤ 63 ∧ string_all mountByte s = true) (toLower <$> l).
Proof.
  intros Hl. apply Forall_fmap. eapply Forall_impl; [exact Hl|]. intros s (Hne & Hlen & Hall).
  destruct (toLower_vault s Hall) as [H1 H2]. unfold compose. split_and!; [|unfold byteLen in *; lia|done].
  intros He. rewrite He in H2. by destruct s.
Qed.

Lemma mount_segment s : s ≠ "" → string_all mountByte s = true → segment_ok s.
Proof.
  intros Hne Hall. split; [done|]. eapply string_all_weaken; [|exact Hall].
  intros a Ha. apply vaultByte_not_slash. pose proof (lower_mount a) as Hl. rewrite Ha in Hl.
  by apply andb_true_iff in Hl as [_ ?].
Qed.

Lemma mount_segments l :
  Forall (λ s, s ≠ "" ∧ byteLen s ≤ 63 ∧ string_all mountByte s = true) l → Forall segment_ok l.
Proof. intros Hl. eapply Forall_impl; [exact Hl|]. intros s (? & _ & ?). by apply mount_segment. Qed.

Lemma hasPrefix_slash s : hasPrefix s "/" = negb (headOk isSlash s).
Proof. destruct s as [|a s]; [done|]. simpl. rewrite andb_true_r. by rewrite negb_involutive. Qed.

Lemma hasSuffix_slash s : hasSuffixSlash s = negb (lastOk isSlash s).
Proof.
  unfold hasSuffixSlash. induction s as [|a s IH]; [done|]. destruct s as [|b s].
  - simpl. by rewrite negb_involutive.
  - exact IH.
Qed.

(** [safeVaultPath] accepts exactly the joined lists of safe segments. *)
Definition mount_ok (s : string) : Prop := s ≠ "" ∧ string_all mountByte s = true.

Lemma safeVaultPath_join l : l ≠ [] → Forall mount_ok l → safeVaultPath (join "/" l) = true.
Proof.
  intros Hne Hl.
  assert (Forall segment_ok l) as Hseg.
  { eapply Forall_impl; [exact Hl|]. intros s []. by apply mount_segment. }
  destruct (join_segments_ends l Hseg Hne) as (Hn & Hh & Ht).
  unfold safeVaultPath. rewrite hasPrefix_slash, hasSuffix_slash, Hh, Ht.
  destruct (String.eqb_spec (join "/" l) ""); [done|]. cbn [orb negb].
  rewrite split_join; [|done|by eapply Forall_impl; [exact Hseg|]; intros s []].
  apply forallb_forall. intros s Hs. rewrite <-list_elem_of_In in Hs.
  rewrite Forall_forall in Hl. destruct (Hl s Hs) as [Hse Hall]. rewrite Hall, andb_true_r.
  destruct (String.eqb_spec s "") as [|]; [done|].
  destruct (String.eqb_spec s ".") as [->|]; [by vm_compute in Hall|].
  destruct (String.eqb_spec s "..") as [->|]; [by vm_compute in Hall|]. done.
Qed.

Lemma safeVaultPath_split v : safeVaultPath v = true →
  v ≠ "" ∧ trimSlash v = v ∧ Forall mount_ok (split "/" v).
Proof.
  unfold safeVaultPath. destruct (String.eqb_spec v ""); [done|]. rewrite hasPrefix_slash, hasSuffix_slash.
  destruct (headOk isSlash v) eqn:Hh, (lastOk isSlash v) eqn:Ht; try done. cbn [orb negb].
  intros Hall. split_and!; [done|by apply trim_id|].
  apply Forall_forall. intros s Hs. rewrite forallb_forall in Hall.
  specialize (Hall s). rewrite <-list_elem_of_In in Hall. apply Hall in Hs.
  apply andb_true_iff in Hs as [Hs Ha]. split; [|done].
  by destruct (String.eqb_spec s "").
Qed.

(** ** Properties *)

(** GitLab target paths: [targetGroupPath] succeeds exactly when every
    segment of the relative path has a safe byte; its result is then the
    trimmed parent followed by one slug per segment, each slug made of
    lower-case letters, digits, dashes and underscores, with no dash or
    underscore at either end.  So the target is always strictly below the
    configured parent. *)
Theorem targetGroupPath_below_parent parent relative t :
  targetGroupPath parent relative = Ok t →
  ∃ slugs, slugs = slugOf <$> split "/" (trimSlash relative) ∧
    Forall (λ s, slug_ok s = true) slugs ∧ join "/" slugs ≠ "" ∧
    t = (if String.eqb (trimSlash parent) "" then join "/" slugs
         else trimSlash parent +:+ "/" +:+ join "/" slugs).
Proof.
  unfold targetGroupPath. destruct (targetSegments _) as [xs|] eqn:Hx; [|done]. cbn [mbind outcome_bind].
  intros [= <-]. apply targetSegments_ok in Hx as [-> Hall]. pose proof (slugs_ok _ Hall) as Hok.
  destruct (join_segments_ends _ (slugs_segments _ Hok)) as (Hne & Hh & Hl).
  { intros He%fmap_nil_inv. by apply split_not_nil in He. }
  exists (slugOf <$> split "/" (trimSlash relative)). split_and!; try done.
  by rewrite <-trimSlash_parent.
Qed.

Lemma targetGroupPath_below_parent_witness :
  targetGroupPath "platform/" "Team A/Dev_Ops!" = Ok "platform/team-a/dev_ops" ∧
  ∃ slugs, slugs = slugOf <$> split "/" (trimSlash "Team A/Dev_Ops!") ∧
    Forall (λ s, slug_ok s = true) slugs ∧ join "/" slugs ≠ "" ∧
    "platform/team-a/dev_ops" = trimSlash "platform/" +:+ "/" +:+ join "/" slugs.
Proof.
  split; [vm_compute; reflexivity|].
  apply (targetGroupPath_below_parent "platform/" "Team A/Dev_Ops!"). vm_compute. reflexivity.
Defined.

(** Vault secret paths: whatever [vaultSecretPath] returns is a safe mount
    path of 1 to 240 bytes made of at most 63-byte segments of lower-case
    letters, digits, dashes and underscores. *)
Theorem vaultSecretPath_safe parent relative t :
  vaultSecretPath parent relative = Ok t →
  safeVaultPath t = true ∧ 1 ≤ byteLen t ≤ 240 ∧
  Forall (λ s, byteLen s ≤ 63) (split "/" t).
Proof.
  unfold vaultSecretPath.
  assert (∀ raw xs, vaultParts raw = Ok xs →
    Forall (λ s, s ≠ "" ∧ byteLen s ≤ 63 ∧ string_all mountByte s = true) xs) as Hparts.
  { intros raw xs. unfold vaultParts. destruct (String.eqb raw ""); [by intros [= <-]|].
    intros [Hl ->]%vaultSegments_spec. by apply vseg_lower. }
  destruct (vaultParts (trimSlash parent)) as [ps|] eqn:Hp; [|done].
  destruct (vaultParts (trimSlash relative)) as [rs|] eqn:Hr; [|done]. cbn [mbind outcome_bind].
  destruct (String.eqb_spec (join "/" (ps ++ rs)) "") as [|Hne]; [done|].
  destruct (Z.ltb_spec 240 (byteLen (join "/" (ps ++ rs)))) as [|Hlen]; [done|]. intros [= <-].
  assert (Forall (λ s, s ≠ "" ∧ byteLen s ≤ 63 ∧ string_all mountByte s = true) (ps ++ rs)) as Hall.
  { apply Forall_app; eauto. }
  assert (ps ++ rs ≠ []) as Hnil by (by intros He; rewrite He in Hne).
  split_and!.
  - apply safeVaultPath_join; [done|]. eapply Forall_impl; [exact Hall|]. intros s (? & _ & ?). by split.
  - unfold byteLen in *. destruct (join "/" (ps ++ rs)); [done|]. simpl. lia.
  - done.
  - rewrite split_join; [|done|].
    + eapply Forall_impl; [exact Hall|]. by intros s (_ & ? & _).
    + pose proof (mount_segments _ Hall) as Hs. eapply Forall_impl; [exact Hs|]. by intros s [].
Qed.

Lemma vaultSecretPath_safe_witness : safeVaultPath "orgs/team-a/dev" = true.
Proof. apply (vaultSecretPath_safe "/orgs/" "Team-A/Dev"). vm_compute. reflexivity. Defined.

Lemma rooted_empty s : "/" +:+ s = "/" ↔ s = "".
Proof. destruct s; simpl; naive_solver. Qed.

Lemma rooted_inj s t : "/" +:+ s = "/" +:+ t → s = t.
Proof. intros He. change (String "/" s = String "/" t) in He. by injection He. Qed.

(** Scope of a rule: a group path is inside a prefix exactly when it is the
    prefix followed by a slash and a non-empty rest, which is what the rule
    maps; the prefix itself is a boundary and is not managed. *)
Lemma relativeGroupPath_iff groupPath prefix relative :
  relativeGroupPath groupPath prefix = Some relative ↔
  relative ≠ "" ∧ trimSlash groupPath =
    (if String.eqb (trimSlash prefix) "" then relative else trimSlash prefix +:+ "/" +:+ relative).
Proof.
  unfold relativeGroupPath.
  destruct (String.eqb_spec (trimSlash prefix) "") as [->|Hp].
  - change (String.eqb ("/" +:+ "") "/") with true. cbn match. rewrite trimSlash_rooted.
    destruct (String.eqb_spec ("/" +:+ trimSlash groupPath) "/") as [He|Hne].
    + apply (proj1 (rooted_empty _)) in He. rewrite He. naive_solver.
    + rewrite rooted_empty in Hne. split; [by intros [= <-]|by intros [_ ->]].
  - destruct (String.eqb_spec ("/" +:+ trimSlash prefix) "/") as [He|_].
    { by apply (proj1 (rooted_empty _)) in He. }
    destruct (trimSlash_ends groupPath) as [_ Hlast].
    set (g := trimSlash groupPath) in *. set (p := trimSlash prefix) in *.
    assert ("/" +:+ p +:+ "/" = "/" +:+ (p +:+ "/")) as Ha by done.
    destruct (String.eqb_spec ("/" +:+ g) ("/" +:+ p)) as [He|Hne].
    { apply rooted_inj in He. split; [done|]. intros [_ Hg]. rewrite He in Hg.
      apply (f_equal String.length) in Hg. rewrite !string_length_app in Hg. simpl in Hg. lia. }
    destruct (hasPrefix ("/" +:+ g) (("/" +:+ p) +:+ "/")) eqn:Hpre; cbn [negb].
    + apply hasPrefix_spec in Hpre as [t Ht]. rewrite Ht, trimPrefix_app.
      assert (g = p +:+ "/" +:+ t) as Hg.
      { apply rooted_inj. rewrite Ht, !app_assoc. done. }
      split.
      * intros [= <-]. split; [|done]. intros ->. rewrite Hg in Hlast.
        rewrite lastOk_app in Hlast by done. done.
      * intros [_ Heq]. rewrite Hg in Heq. f_equal.
        apply (f_equal (dropBytes (String.length p))) in Heq. rewrite !dropBytes_app in Heq. by apply rooted_inj in Heq.
    + split; [done|]. intros [_ Heq]. exfalso. apply not_true_iff_false in Hpre. apply Hpre.
      apply hasPrefix_spec. exists relative. rewrite Heq, !app_assoc. done.
Qed.

(** ** Declared paths *)
Definition declaredRelative (r : Rule) (p : string) : string :=
  let prefix := rootedPrefix (ru_SourceGroupPrefix r) in
  if String.eqb prefix "/" then trimPrefix p "/" else trimPrefix p (prefix +:+ "/").

Lemma declared_relative r p : pathDeclared r p = true →
  relativeGroupPath p (ru_SourceGroupPrefix r) = Some (declaredRelative r p).
Proof.
  unfold pathDeclared, declaredRelative, rootedPrefix. rewrite negb_true_iff, !orb_false_iff.
  intros [[[_ Hcan] Hpre] Hroot].
  apply negb_false_iff, String.eqb_eq in Hcan. apply relativeGroupPath_iff.
  destruct (String.eqb_spec ("/" +:+ trimSlash (ru_SourceGroupPrefix r)) "/") as [He|Hne].
  - apply (proj1 (rooted_empty _)) in He. rewrite He in *. cbn [andb] in Hroot.
    destruct (String.eqb_spec p "/") as [|Hp]; [done|].
    assert (trimPrefix p "/" = trimSlash p) as -> by (rewrite Hcan at 1; apply trimPrefix_app).
    split; [|done]. intros Ht. rewrite Ht in Hcan. done.
  - rewrite rooted_empty in Hne. destruct (String.eqb_spec (trimSlash (ru_SourceGroupPrefix r)) "") as [|_]; [done|].
    cbn [negb andb] in Hpre. apply negb_false_iff, hasPrefix_spec in Hpre as [x Hx].
    set (q := trimSlash (ru_SourceGroupPrefix r)) in *.
    assert (trimPrefix p (("/" +:+ q) +:+ "/") = x) as -> by (rewrite Hx; apply trimPrefix_app).
    assert (trimSlash p = q +:+ "/" +:+ x) as Ht.
    { apply rooted_inj. rewrite <-Hcan, Hx, !app_assoc. done. }
    split; [|done]. intros ->. destruct (trimSlash_ends p) as [_ Hl]. rewrite Ht in Hl.
    by rewrite lastOk_app in Hl.
Qed.

Lemma declared_segments_clean ty rel xs :
  declaredSegments ty (split "/" rel) = Ok xs → ty = "gitlab" ∨ ty = "vault" →
  Forall (λ x, x ≠ "") (split "/" rel).
Proof.
  intros Hd [->| ->].
  - apply declared_gitlab_ok in Hd as [_ Hall]. by apply slugs_nonempty.
  - apply declared_vault_spec in Hd as [Hall _]. eapply Forall_impl; [exact Hall|]. by intros s [].
Qed.

(** A safe prefix is read as its segments, as far as they are short enough. *)
Lemma prefix_segments prefix : safeVaultPath prefix = true → Forall (λ s, byteLen s ≤ 63) (split "/" prefix) →
  vaultSegments (split "/" prefix) = Ok (split "/" prefix).
Proof.
  intros (_ & _ & Hpall)%safeVaultPath_split Hlens. apply vaultSegments_spec. split.
  - rewrite Forall_forall in *. intros s Hin. destruct (Hpall s Hin) as [Hne Hm].
    destruct (toLower_mount s Hm) as [Hvb _]. split; [done|]. by split; [apply Hlens|].
  - symmetry. rewrite <-(list_fmap_id (split "/" prefix)) at 2.
    apply list_fmap_ext. intros i s Hin%list_elem_of_lookup_2.
    rewrite Forall_forall in Hpall. destruct (Hpall s Hin) as [_ Hm]. by destruct (toLower_mount s Hm) as [_ ->].
Qed.

Lemma vault_path_of_segments prefix rel : safeVaultPath prefix = true → Forall vseg (split "/" rel) → rel ≠ "" → trimSlash rel = rel →
  vaultSecretPath prefix rel =
    (ps ← vaultSegments (split "/" prefix);
     let result := join "/" (ps ++ (toLower <$> split "/" rel)) in
     if String.eqb result "" || (240 <? byteLen result)
     then Err (EMsg "Vault secret path must contain 1-240 safe characters") else Ok result).
Proof.
  intros (Hpne & Htp & _)%safeVaultPath_split Hvs Hrne Htr. unfold vaultSecretPath, vaultParts. rewrite Htr, Htp.
  rewrite (proj2 (String.eqb_neq _ _) Hpne), (proj2 (String.eqb_neq _ _) Hrne).
  destruct (vaultSegments (split "/" prefix)); [|done]. cbn [mbind outcome_bind].
  by rewrite (proj2 (vaultSegments_spec _ _) (conj Hvs eq_refl)).
Qed.

Lemma join_below prefix rel : safeVaultPath prefix = true → Forall vseg (split "/" rel) →
  join "/" (split "/" prefix ++ (toLower <$> split "/" rel)) ≠ "".
Proof.
  intros (Hpne & _ & _)%safeVaultPath_split Hvs. assert (toLower <$> split "/" rel ≠ []) as Hnil.
  { intros He%fmap_nil_inv. by apply split_not_nil in He. }
  rewrite join_app; [|apply split_not_nil|done]. rewrite join_split. by destruct prefix.
Qed.

Lemma trim_below prefix rel : safeVaultPath prefix = true → Forall vseg (split "/" rel) →
  trimSlash (trimSlash prefix +:+ "/" +:+ join "/" (toLower <$> split "/" rel)) = join "/" (split "/" prefix ++ (toLower <$> split "/" rel)).
Proof.
  intros (Hpne & Htp & _)%safeVaultPath_split Hvs. assert (toLower <$> split "/" rel ≠ []) as Hnil.
  { intros He%fmap_nil_inv. by apply split_not_nil in He. }
  destruct (join_segments_ends _ (mount_segments _ (vseg_lower _ Hvs)) Hnil) as (Hj & Hh & Hl).
  rewrite trimSlash_parent by done. rewrite Htp.
  rewrite (proj2 (String.eqb_neq _ _) Hpne), join_app; [|apply split_not_nil|done]. by rewrite join_split.
Qed.

(** [C35] The target path that validation computes for a declared source path is
    the one reconciliation uses, or reconciliation rejects it: the path is in
    the rule's scope, for GitLab mapping its relative part gives the declared
    target, and for Vault it gives the declared target or an error, which comes
    only from what reconciliation alone checks, a segment of the configured
    prefix over 63 bytes or a path over 240 bytes. *)
Theorem declared_target_agrees ty r p t :
  pathDeclared r p = true → declaredTargetPath ty r p = Ok t →
  ∃ rel, relativeGroupPath p (ru_SourceGroupPrefix r) = Some rel ∧
    (ty = "gitlab" → targetGroupPath (ru_TargetParent r) rel = Ok t) ∧
    (∀ v, ty = "vault" → ru_Vault r = Some v → safeVaultPath (vr_PathPrefix v) = true →
       if decide (Forall (λ s, byteLen s ≤ 63) (split "/" (vr_PathPrefix v)) ∧ byteLen t ≤ 240)
       then vaultSecretPath (vr_PathPrefix v) rel = Ok t
       else ∃ e, vaultSecretPath (vr_PathPrefix v) rel = Err e).
Proof.
  intros Hp Hd. pose proof (declared_relative r p Hp) as Hrel. unfold declaredTargetPath in Hd.
  fold (declaredRelative r p) in Hd. set (rel := declaredRelative r p) in *.
  destruct (declaredSegments ty (split "/" rel)) as [xs|] eqn:Hs; [|done]. cbn [mbind outcome_bind] in Hd.
  injection Hd as <-. exists rel. split; [done|]. split.
  - intros ->. pose proof (declared_segments_clean _ _ _ Hs (or_introl eq_refl)) as Hc.
    apply declared_gitlab_ok in Hs as [-> Hall]. unfold targetGroupPath.
    destruct (split_nonempty_trim rel Hc) as [_ ->]. rewrite targetSegments_Ok by done.
    by destruct (ru_Vault r).
  - intros v -> Hv Hsafe. rewrite Hv.
    change (String.eqb "vault" "vault") with true. cbn match.
    pose proof (declared_segments_clean _ _ _ Hs (or_intror eq_refl)) as Hc.
    apply declared_vault_spec in Hs as [Hvs ->]. destruct (split_nonempty_trim rel Hc) as [Hrne Htr].
    rewrite vault_path_of_segments by done.
    destruct (decide (Forall (λ s, byteLen s ≤ 63) (split "/" (vr_PathPrefix v)))) as [Hlens|Hlens].
    + rewrite (prefix_segments _ Hsafe Hlens). cbn [mbind outcome_bind].
      rewrite (trim_below _ _ Hsafe Hvs). destruct (String.eqb_spec (join "/" (split "/" (vr_PathPrefix v) ++ (toLower <$> split "/" rel))) "")
        as [He|_]; [by destruct (join_below _ _ Hsafe Hvs)|]. cbn [orb].
      destruct (Z.ltb_spec 240 (byteLen (join "/" (split "/" (vr_PathPrefix v) ++ (toLower <$> split "/" rel))))) as [Hlt|Hle];
        case_decide as Hdec; [destruct Hdec; lia|by eexists|done|by destruct Hdec].
    + rewrite decide_False by (by intros [? _]). destruct (vaultSegments (split "/" (vr_PathPrefix v))) as [ps|e] eqn:Hps; [|by eexists].
      apply vaultSegments_spec in Hps as [Hall _]. destruct Hlens. eapply Forall_impl; [exact Hall|]. by intros s (_ & ? & _).
Qed.

Definition demoRule : Rule :=
  MkRule "teams" "/orgs" (Some ["/orgs/Team A"; "/orgs/Team A/Dev"]) "gitlab" "platform" true false
    "developer" "managed-only" [] 10 ["oidc"] true None.

Lemma declared_target_agrees_witness :
  ∃ rel, relativeGroupPath "/orgs/Team A/Dev" "/orgs" = Some rel ∧
    targetGroupPath "platform" rel = Ok "platform/team-a/dev".
Proof.
  destruct (declared_target_agrees "gitlab" demoRule "/orgs/Team A/Dev" "platform/team-a/dev") as (rel & Hrel & Hg & _);
    [vm_compute; reflexivity..|]. exists rel. split; [exact Hrel|exact (Hg eq_refl)].
Defined.
