(* ===== verification/ConfigFacts.v ===== *)
(** * What a validated configuration guarantees *)

From S2P Require Import Prelude GoStrings GoTime World State Model Credential Config Paths.

Lemma when_err_nil b msg : when_err b msg = [] ↔ b = false.
Proof. by destruct b. Qed.

Lemma inList_true x l : inList x l = true ↔ x ∈ l.
Proof. apply bool_decide_eq_true. Qed.

Lemma inList_false x l : inList x l = false ↔ x ∉ l.
Proof. apply bool_decide_eq_false. Qed.

(** ** What the checks mean *)

(** A required credential reference, as [credential.New] accepts it. *)
Definition reference_ok (environment filePath : string) : Prop :=
  ∃ l, New environment filePath = Ok l.

Lemma reference_agrees environment filePath :
  validateCredentialReference environment filePath true = [] ↔ reference_ok environment filePath.
Proof.
  unfold validateCredentialReference, reference_ok, New.
  destruct (String.eqb environment ""), (String.eqb filePath ""); cbn [negb andb];
    [by split; [|intros []]|..];
    try (destruct (isAbs filePath); cbn [negb andb]; [|by split; [|intros []]]);
    try (destruct (String.eqb (clean filePath) filePath); cbn [negb andb]; [|by split; [|intros []]]);
    first [by split; [|intros []]|by split; eauto].
Qed.

Lemma optional_reference_agrees environment filePath :
  validateCredentialReference environment filePath false = [] ↔
  (environment = "" ∧ filePath = "") ∨ reference_ok environment filePath.
Proof.
  destruct (String.eqb_spec environment "") as [->|He], (String.eqb_spec filePath "") as [->|Hf].
  { split; [by left|done]. }
  1-3: rewrite <-reference_agrees; unfold validateCredentialReference;
    repeat (destruct (String.eqb_spec _ ""); [by subst|]); rewrite ?(proj2 (String.eqb_neq _ _) He),
      ?(proj2 (String.eqb_neq _ _) Hf); naive_solver.
Qed.

(** What starting the program needs of a target. *)
Record target_ok (t : Target) : Prop := {
  to_name : ta_Name t ≠ "";
  to_kind :
    (ta_Type t = "gitlab" ∧ reference_ok (ta_TokenEnv t) (ta_TokenFile t) ∧
      ((ta_ResolverTokenEnv t = "" ∧ ta_ResolverTokenFile t = "") ∨
       reference_ok (ta_ResolverTokenEnv t) (ta_ResolverTokenFile t))) ∨
    (ta_Type t = "vault" ∧ safeVaultPath (ta_OIDCMount t) = true ∧ safeVaultPath (ta_KVMount t) = true ∧
      safeVaultPath (ka_Mount (ta_KubernetesAuth t)) = true ∧ ka_Role (ta_KubernetesAuth t) ≠ "")
}.

(** What reconciliation needs of a rule with its target. *)
Record rule_ok (t : Target) (r : Rule) : Prop := {
  ro_name : ru_Name r ≠ "";
  ro_target : ta_Name t = ru_TargetProvider r;
  ro_prune : ru_Prune r ∈ ["none"; "managed-only"; "authoritative"];
  ro_removals : 0 ≤ ru_MaxRemovals r;
  ro_paths : NoDup (pathsOf r) ∧ Forall (λ p, pathDeclared r p = true) (pathsOf r);
  ro_targets : ∃ ts, Forall2 (λ p x, declaredTargetPath (ta_Type t) r p = Ok x) (pathsOf r) ts ∧ NoDup ts;
  ro_kind :
    (ta_Type t = "gitlab" ∧ ru_Vault r = None ∧ ru_AccessLevel r ∈ accessLevelNames ∧
      ru_IdentityMatch r ≠ [] ∧
      ("oidc-username" ∈ ru_IdentityMatch r → ru_IdentityMatch r = ["oidc-username"])) ∨
    (ta_Type t = "vault" ∧ ru_Prune r = "none" ∧
      ∃ v, ru_Vault r = Some v ∧ safeVaultPath (vr_PathPrefix v) = true ∧
        vr_AccessProfile v ∈ ["viewer"; "editor"] ∧ vaultPolicyMode r = "verify-only")
}.

Section facts.
Context (parseURL : string → option URL).

Lemma validateTarget_ok t : validateTarget parseURL t = [] → target_ok t.
Proof.
  unfold validateTarget. rewrite !app_nil. intros (H1 & H2 & H3 & _).
  rewrite when_err_nil in H1, H2. rewrite !orb_false_iff in H1. destruct H1 as [[H1 _] _].
  split; [by apply String.eqb_neq|].
  destruct (String.eqb_spec (ta_Type t) "gitlab") as [Hg|Hg].
  - rewrite !app_nil in H3. destruct H3 as (Hr & Ho & _). left. split_and!; [done| |].
    + by apply reference_agrees.
    + by apply optional_reference_agrees.
  - destruct (String.eqb_spec (ta_Type t) "vault") as [Hv|Hv]; [|done].
    rewrite !app_nil in H3. destruct H3 as (_ & Hm & Hr & _). rewrite when_err_nil in Hm, Hr.
    rewrite !orb_false_iff, !negb_false_iff in Hm. apply orb_false_iff in Hr as [Hr _].
    right. split_and!; [done|apply Hm..|by apply String.eqb_neq].
Qed.

(** The map built on the way is the list of the targets by name. *)
Lemma validateTargets_ok ts m :
  fst (validateTargets parseURL m ts) = [] →
  Forall target_ok ts ∧ NoDup (ta_Name <$> ts) ∧ (∀ t, t ∈ ts → m !! ta_Name t = None) ∧
  (∀ k t, snd (validateTargets parseURL m ts) !! k = Some t ↔
     m !! k = Some t ∨ (t ∈ ts ∧ ta_Name t = k)).
Proof.
  revert m. induction ts as [|t ts IH]; intros m; cbn [validateTargets].
  { intros _. split_and!; [constructor|constructor|set_solver|]. intros. set_solver. }
  specialize (IH (<[ta_Name t := t]> m)).
  destruct (validateTargets parseURL _ ts) as [errs m'] eqn:Hv. cbn [fst snd] in *.
  rewrite !app_nil, when_err_nil, bool_decide_eq_false, <-eq_None_not_Some.
  intros ((Ht & Hnone) & Herr). destruct (IH Herr) as (Hall & Hnd & Hfresh & Hlook).
  assert (ta_Name t ∉ ta_Name <$> ts) as Hni.
  { intros (t' & He & Hin)%list_elem_of_fmap. apply Hfresh in Hin.
    by rewrite <-He, lookup_insert_eq in Hin. }
  split_and!.
  - constructor; [by apply validateTarget_ok|done].
  - cbn. by constructor.
  - intros t' [->|Hin]%elem_of_cons; [done|]. specialize (Hfresh t' Hin).
    by apply lookup_insert_None in Hfresh as [? _].
  - intros k t'. rewrite Hlook, elem_of_cons. destruct (decide (k = ta_Name t)) as [->|Hne].
    + rewrite lookup_insert_eq, Hnone. split.
      * intros [[= ->]|[Hin He]]; [by right; split; [left|]|right; by split; [right|]].
      * intros [?|[[->|Hin] He]]; [done|by left|by right].
    + rewrite lookup_insert_ne by done. split.
      * intros [?|[? ?]]; [by left|right; by split; [right|]].
      * intros [?|[[->|?] ?]]; [by left|congruence|by right].
Qed.

End facts.

Lemma validatePaths_ok r seen ps : validatePaths r seen ps = [] →
  NoDup ps ∧ (∀ p, p ∈ ps → p ∉ seen) ∧ Forall (λ p, pathDeclared r p = true) ps.
Proof.
  revert seen. induction ps as [|p ps IH]; intros seen; cbn [validatePaths].
  { intros _. split_and!; [constructor|set_solver|constructor]. }
  rewrite !app_nil, !when_err_nil, negb_false_iff, inList_false.
  intros (Hp & Hn & (Hnd & Hfresh & Hall)%IH). split_and!.
  - constructor; [|done]. intros Hin. apply Hfresh in Hin. set_solver.
  - intros q [->|Hin]%elem_of_cons; [done|]. apply Hfresh in Hin. set_solver.
  - by constructor.
Qed.

Lemma validateDeclared_ok ty r seen ps : validateDeclared ty r seen ps = [] →
  ∃ ts, Forall2 (λ p x, declaredTargetPath ty r p = Ok x) ps ts ∧ NoDup ts ∧ ∀ t, t ∈ ts → t ∉ seen.
Proof.
  revert seen. induction ps as [|p ps IH]; intros seen; cbn [validateDeclared].
  { intros _. exists []. split_and!; [constructor|constructor|set_solver]. }
  destruct (declaredTargetPath ty r p) as [t|] eqn:Ht; [|done].
  rewrite app_nil, when_err_nil, inList_false. intros (Hn & (ts & Hf & Hnd & Hfresh)%IH).
  exists (t :: ts). split_and!.
  - by constructor.
  - constructor; [|done]. intros Hin. apply Hfresh in Hin. set_solver.
  - intros x [->|Hin]%elem_of_cons; [done|]. apply Hfresh in Hin. set_solver.
Qed.

Lemma validateGitLabRule_ok t r : validateGitLabRule t r = [] →
  ru_Vault r = None ∧ ru_AccessLevel r ∈ accessLevelNames ∧ ru_IdentityMatch r ≠ [] ∧
  ("oidc-username" ∈ ru_IdentityMatch r → ru_IdentityMatch r = ["oidc-username"]).
Proof.
  unfold validateGitLabRule. rewrite !app_nil, !when_err_nil, negb_false_iff, !bool_decide_eq_false.
  intros (H1 & H2 & H3 & _ & H5). apply inList_true in H2. split_and!; [by apply eq_None_not_Some|done|done|].
  intros Hin. apply andb_false_iff in H5 as [H5|H5]; [|by apply inList_false in H5].
  apply bool_decide_eq_false in H5. destruct (ru_IdentityMatch r) as [|x [|y l]]; [done| |simpl in H5; lia].
  set_solver.
Qed.

Lemma validateVaultRule_ok r : validateVaultRule r = [] →
  ru_Prune r = "none" ∧ ∃ v, ru_Vault r = Some v ∧ safeVaultPath (vr_PathPrefix v) = true ∧
    vr_AccessProfile v ∈ ["viewer"; "editor"] ∧ vaultPolicyMode r = "verify-only".
Proof.
  unfold validateVaultRule, vaultPolicyMode. destruct (ru_Vault r) as [v|]; [|done].
  rewrite !app_nil, !when_err_nil, negb_false_iff. intros ((Hv & Hm) & Hp & _).
  apply String.eqb_eq in Hp. split; [done|]. exists v.
  destruct (safeVaultPath (vr_PathPrefix v)); [|done]. cbn [negb] in Hv.
  apply when_err_nil, negb_false_iff, inList_true in Hv. split_and!; [done..|].
  unfold nonEmpty in Hm. destruct (String.eqb (vr_PolicyMode v) ""); [done|]. cbn in Hm.
  by apply negb_false_iff, String.eqb_eq in Hm.
Qed.

Lemma validateRule_ok targets names r : validateRule targets names r = [] →
  ru_Name r ∉ names ∧ ∃ t, targets !! ru_TargetProvider r = Some t ∧
    (target_ok t → ta_Name t = ru_TargetProvider r → rule_ok t r).
Proof.
  unfold validateRule. rewrite !app_nil, !when_err_nil, inList_false, bool_decide_eq_false, negb_false_iff.
  intros (H1 & Hn & Hp & Ht & Hpr & Hm & Hrest). split; [done|].
  destruct (targets !! ru_TargetProvider r) as [t|]; [|done]. exists t. split; [done|]. intros Hok Hname.
  rewrite app_nil in Hrest. destruct Hrest as (Hd & Hk).
  rewrite !orb_false_iff in H1. destruct H1 as [[H1 _] _].
  apply validatePaths_ok in Hp as (Hnd & _ & Hall).
  apply validateDeclared_ok in Hd as (ts & Hf & Hnt & _).
  split; [by apply String.eqb_neq|done|by apply inList_true|by apply Z.ltb_ge|done|by exists ts|].
  destruct Hok as [_ [(Hty & _)|(Hty & _)]]; rewrite Hty in Hk |- *.
  - left. split; [done|]. by apply (validateGitLabRule_ok t).
  - right. split; [done|]. by apply validateVaultRule_ok.
Qed.

Lemma validateRules_ok targets names rs : validateRules targets names rs = [] →
  NoDup (ru_Name <$> rs) ∧ (∀ r, r ∈ rs → ru_Name r ∉ names) ∧
  ∀ r, r ∈ rs → ∃ t, targets !! ru_TargetProvider r = Some t ∧
    (target_ok t → ta_Name t = ru_TargetProvider r → rule_ok t r).
Proof.
  revert names. induction rs as [|r rs IH]; intros names; cbn [validateRules].
  { intros _. split_and!; [constructor|set_solver|set_solver]. }
  rewrite app_nil. intros ((Hn & Hr)%validateRule_ok & (Hnd & Hfresh & Hall)%IH). split_and!.
  - cbn. constructor; [|done]. intros (r' & He & Hin)%list_elem_of_fmap. apply Hfresh in Hin.
    rewrite <-He in Hin. set_solver.
  - intros r' [->|Hin]%elem_of_cons; [done|]. apply Hfresh in Hin. set_solver.
  - intros r' [->|Hin]%elem_of_cons; [done|]. by apply Hall.
Qed.

Lemma validated parseURL c :
  Validate parseURL c = Ok tt →
  NoDup (ta_Name <$> cf_Targets c) ∧ NoDup (ru_Name <$> cf_Rules c) ∧ cf_Rules c ≠ [] ∧
  reference_ok (so_ClientSecretEnv (cf_Source c)) (so_ClientSecretFile (cf_Source c)) ∧
  reference_ok (wc_SecretEnv (cf_Webhook c)) (wc_SecretFile (cf_Webhook c)) ∧
  0 < wc_MaxSkew (cf_Webhook c) ∧ 0 < so_PollInterval (cf_Source c) ∧
  (∀ t, t ∈ cf_Targets c → target_ok t) ∧
  (∀ r, r ∈ cf_Rules c → ∃ t, t ∈ cf_Targets c ∧ rule_ok t r).
Proof.
  unfold Validate, validationErrors.
  pose proof (validateTargets_ok parseURL (cf_Targets c) ∅) as Htok.
  destruct (validateTargets parseURL ∅ (cf_Targets c)) as [te tm].
  destruct (_ ++ _) eqn:Herr; [|done]. intros _. rewrite !app_nil in Herr.
  destruct Herr as (_ & Hwh & Hsrc & Hte & _ & Hrules & Hrne & _). cbn [fst snd] in Htok.
  unfold validateWebhook in Hwh. rewrite !app_nil in Hwh. destruct Hwh as (Hw & Hskew).
  destruct (Htok Hte) as (Hall & Hnt & _ & Hlook).
  apply validateRules_ok in Hrules as (Hnr & _ & Hr).
  unfold validateSource in Hsrc. rewrite !app_nil in Hsrc. destruct Hsrc as (_ & _ & Hsec & _ & Hpoll).
  apply when_err_nil in Hskew, Hpoll, Hrne. apply Z.leb_gt in Hskew, Hpoll.
  apply bool_decide_eq_false in Hrne. rewrite Forall_forall in Hall. split_and!; try done.
  - by apply reference_agrees.
  - by apply reference_agrees.
  - intros r Hin. destruct (Hr r Hin) as (t & Ht & Hok).
    apply Hlook in Ht as [Ht|[Hin' Hname]]; [by rewrite lookup_empty in Ht|].
    exists t. split; [done|]. apply Hok; [by apply Hall|done].
Qed.
(** [C36] Validation: in an accepted configuration target names and rule names
    are unique, every target is of a compiled-in kind with credential
    references that [credential.New] accepts, every rule has exactly one target
    and settings that fit its kind, its declared source paths are distinct and
    in scope, and no two of them map to the same target path. *)
Theorem validate_guarantees parseURL c :
  Validate parseURL c = Ok tt →
  NoDup (ta_Name <$> cf_Targets c) ∧ NoDup (ru_Name <$> cf_Rules c) ∧ cf_Rules c ≠ [] ∧
  reference_ok (so_ClientSecretEnv (cf_Source c)) (so_ClientSecretFile (cf_Source c)) ∧
  reference_ok (wc_SecretEnv (cf_Webhook c)) (wc_SecretFile (cf_Webhook c)) ∧
  0 < wc_MaxSkew (cf_Webhook c) ∧ 0 < so_PollInterval (cf_Source c) ∧
  (∀ t, t ∈ cf_Targets c → target_ok t) ∧
  (∀ r, r ∈ cf_Rules c → ∃ t, t ∈ cf_Targets c ∧ rule_ok t r).
Proof. apply validated. Qed.

(** A configuration and a URL parser that accepts one base URL. *)
Definition demoParse (raw : string) : option URL :=
  if String.eqb raw "https://id.example" then Some (MkURL "https" "id.example" false "" "") else None.
Definition demoConfig : Config :=
  MkConfig (MkServer ":8080" (10 * Second) (MkServerTLS "" ""))
    (MkWebhookConfig "" "/run/secrets/webhook" (300 * Second))
    (MkSourceConfig "keycloak" "https://id.example" false "corp" "groupbridge" "KC_SECRET" ""
      (300 * Second))
    [MkTarget "gitlab" "gitlab" "https://id.example" false "GITLAB_TOKEN" "" "RESOLVER_TOKEN" ""
       "openid_connect" "" "" (MkVaultKubernetesAuth "" "" "")]
    [MkRule "teams" "/orgs" (Some ["/orgs/Team A"; "/orgs/Team B"]) "gitlab" "platform" true false
       "developer" "managed-only" [] 10 ["oidc"] true None]
    "/var/lib/groupbridge/state.json".

Lemma validate_guarantees_witness :
  Validate demoParse demoConfig = Ok tt ∧ NoDup (ta_Name <$> cf_Targets demoConfig).
Proof.
  split; [vm_compute; reflexivity|].
  refine (proj1 (validate_guarantees demoParse demoConfig _)). vm_compute. reflexivity.
Defined.
