(* ===== verification/Events.v ===== *)
(** * Event routing and the queue of dirty keys ([internal/reconcile/events.go])

    [routeIndex] maps private HMAC routing keys to native identifiers;
    [eventQueue] coalesces hints until the reconciler drains them. *)

From S2P Require Import Prelude GoStrings Sha256 GoTime World State Model Credential Webhook.

Definition maxDirtyRoutes : Z := 10000.
Definition eventSettleWindow : Z := 200 * Millisecond.
Definition eventMaxDelay : Z := 2 * Second.
Definition membershipConfirmDelay : Z := 1500 * Millisecond.
Definition jitProvisioningRetryDelay : Z := 3 * Second.
Definition topologyRepairMinInterval : Z := 5 * Second.

Definition routingKey (secret domain realm identifier : string) : string :=
  hexEncode (hmacSha256 secret
    ("groupbridge-route-v1" +:+ newlineByte +:+ domain +:+ newlineByte +:+ realm +:+ newlineByte +:+ identifier)).

(** ** The route index *)
Module RouteIndex.
Record routeIndex : Type := MkRouteIndex
  { ri_realm : string;
    ri_secret : string;
    ri_groupIDs : gmap string string;
    ri_groupKeys : gmap string string;
    ri_userGroups : gmap string (gset string);
    ri_groupUsers : gmap string (gset string) }.

Definition newRouteIndex (realm : string) : routeIndex := MkRouteIndex realm "" ∅ ∅ ∅ ∅.

(** Add a group under the key of one of its users, making the set if needed. *)
Definition addUserGroup (k groupID : string) (m : gmap string (gset string)) : gmap string (gset string) :=
  <[k := {[groupID]} ∪ default ∅ (m !! k)]> m.

(** Remove it, and the set with it when it becomes empty. *)
Definition removeUserGroup (k groupID : string) (m : gmap string (gset string)) : gmap string (gset string) :=
  match m !! k with
  | None => m
  | Some s => if decide (s ∖ {[groupID]} = ∅) then delete k m else <[k := s ∖ {[groupID]}]> m
  end.

(** One iteration of [rebuildWithSecretLocked]; the order in which it ranges
    over a set of users does not matter to the sets it builds. *)
Definition indexGroup (secret realm : string) (i : routeIndex) (g : string * gset string) : routeIndex :=
  let groupKey := routingKey secret "group" realm g.1 in
  MkRouteIndex (ri_realm i) (ri_secret i)
    (<[groupKey := g.1]> (ri_groupIDs i)) (<[g.1 := groupKey]> (ri_groupKeys i))
    (foldl (λ m u, addUserGroup (routingKey secret "user" realm u) g.1 m) (ri_userGroups i) (elements g.2))
    (ri_groupUsers i).

(** [rebuildWithSecretLocked], ranging over [groupUsers] in the order [l]. *)
Definition rebuildWith (secret : string) (l : list (string * gset string)) (i : routeIndex) : routeIndex :=
  foldl (indexGroup secret (ri_realm i))
    (MkRouteIndex (ri_realm i) (ri_secret i) ∅ ∅ ∅ (ri_groupUsers i)) l.

(** The identifiers of a group's members that have one. *)
Definition memberIDs (group : Group) : list string :=
  filter (λ id, id ≠ "") (u_ID <$> g_Members group).

Definition set_groupUsers (m : gmap string (gset string)) (i : routeIndex) : routeIndex :=
  MkRouteIndex (ri_realm i) (ri_secret i) (ri_groupIDs i) (ri_groupKeys i) (ri_userGroups i) m.
Definition set_routeSecret (s : string) (i : routeIndex) : routeIndex :=
  MkRouteIndex (ri_realm i) s (ri_groupIDs i) (ri_groupKeys i) (ri_userGroups i) (ri_groupUsers i).

Definition groupUsersOf (groups : list Group) : gmap string (gset string) :=
  foldl (λ m g, <[g_ID g := list_to_set (memberIDs g)]> m) ∅ groups.

(** [Update] once the secret is known. *)
Definition updateWith (secret : string) (group : Group) (i : routeIndex) : routeIndex :=
  let ukey u := routingKey secret "user" (ri_realm i) u in
  let old := elements (default ∅ (ri_groupUsers i !! g_ID group)) in
  let removed := foldl (λ m u, removeUserGroup (ukey u) (g_ID group) m) (ri_userGroups i) old in
  let added := foldl (λ m u, addUserGroup (ukey u) (g_ID group) m) removed (memberIDs group) in
  let groupKey := routingKey secret "group" (ri_realm i) (g_ID group) in
  MkRouteIndex (ri_realm i) (ri_secret i)
    (<[groupKey := g_ID group]> (ri_groupIDs i)) (<[g_ID group := groupKey]> (ri_groupKeys i))
    added (<[g_ID group := list_to_set (memberIDs group)]> (ri_groupUsers i)).

Definition ResolveGroup (routeKey : string) (i : routeIndex) : option string := ri_groupIDs i !! routeKey.
Definition RouteForGroup (groupID : string) (i : routeIndex) : option string := ri_groupKeys i !! groupID.

Section ops.
Context {S : Type} `{Env S}.

(** The index, the secret loader it shares with the webhook, the outside. *)
Notation RW := (routeIndex * (StableLoader * Sys S))%type.
Notation MR := (M RW err).

#[local] Program Instance lens_route_sys : Lens RW (Sys S) :=
  {| view w := snd (snd w); update s w := (fst w, (fst (snd w), s)) |}.
Next Obligation. done. Qed.
Next Obligation. by intros [? []]. Qed.
Next Obligation. done. Qed.

Definition modifyIndex (f : routeIndex → routeIndex) : MR unit := modify (λ w, (f (fst w), snd w)).

Definition rebuildWithSecretLocked (secret : string) : MR unit :=
  i ← gets fst;
  l ← zoom (W := RW) (V := Sys S) (rangeOrder (map_to_list (ri_groupUsers i)));
  modifyIndex (rebuildWith secret l).

Definition refreshSecretLocked : MR string :=
  secret ← zoom (W := RW) (V := StableLoader * Sys S) StableLoad;
  if byteLen secret <? 32 then mthrow (EMsg "routing secret must contain at least 32 bytes")
  else
    current ← gets (λ w, ri_secret (fst w));
    if String.eqb secret current then mret current
    else
      modifyIndex (set_routeSecret secret);;
      rebuildWithSecretLocked secret;;
      mret secret.

Definition Replace (groups : list Group) : MR unit :=
  secret ← refreshSecretLocked;
  modifyIndex (set_groupUsers (groupUsersOf groups));;
  rebuildWithSecretLocked secret.

Definition Update (group : Group) : MR unit :=
  secret ← refreshSecretLocked;
  modifyIndex (updateWith secret group).

Definition Refresh : MR unit := refreshSecretLocked;; mret tt.

Definition ResolveUser (routeKey : string) : MR (option (list string)) :=
  s ← gets (λ w, ri_userGroups (fst w) !! routeKey);
  match s with
  | None => mret None
  | Some groupSet => l ← zoom (W := RW) (V := Sys S) (rangeOrder (elements groupSet)); mret (Some l)
  end.
End ops.
End RouteIndex.
Export RouteIndex.

(** ** The queue *)
Module Queue.
Record eventWork : Type := MkWork { ew_allProviders : bool; ew_confirmRemoval : bool }.
Definition noWork : eventWork := MkWork false false.
Definition mergeWork (w other : eventWork) : eventWork :=
  MkWork (ew_allProviders w || ew_allProviders other) (ew_confirmRemoval w || ew_confirmRemoval other).

Record eventUserWork : Type := MkUserWork { uw_jitRetry : bool; uw_confirmMembership : bool }.
Definition mergeUserWork (w other : eventUserWork) : eventUserWork :=
  MkUserWork (uw_jitRetry w || uw_jitRetry other) (uw_confirmMembership w || uw_confirmMembership other).

Record eventBatch : Type := MkBatch
  { eb_groups : gmap string eventWork; eb_users : gmap string eventUserWork; eb_globalRepair : bool }.

Record delayedWork : Type := MkDelayed
  { dw_routeKey : string; dw_reason : string; dw_work : eventWork; dw_due : Time }.

(** [eq_wake]: a token is in the channel, whose capacity is one.  [eq_timer]:
    the timer the queue holds. *)
Record eventQueue : Type := MkQueue
  { eq_groups : gmap string eventWork;
    eq_users : gmap string eventUserWork;
    eq_global : bool;
    eq_wake : bool;
    eq_delayed : gmap string delayedWork;
    eq_timer : option nat;
    eq_closed : bool }.

(** The runtime's timers: those still armed, with their deadlines, and how many
    have fired without [releaseDue] having run yet. *)
Record timers : Type := MkTimers { tm_next : nat; tm_armed : gmap nat Time; tm_fired : nat }.

Record qstate : Type := MkQ { qs_queue : eventQueue; qs_timers : timers; qs_metrics : Metrics }.

#[export] Instance eventWork_eq_dec : EqDecision eventWork.
Proof. solve_decision. Defined.
#[export] Instance eventUserWork_eq_dec : EqDecision eventUserWork.
Proof. solve_decision. Defined.
#[export] Instance delayedWork_eq_dec : EqDecision delayedWork.
Proof. solve_decision. Defined.

Definition newEventQueue : eventQueue := MkQueue ∅ ∅ false false ∅ None false.

Definition onQueue (f : eventQueue → eventQueue) (s : qstate) : qstate :=
  MkQ (f (qs_queue s)) (qs_timers s) (qs_metrics s).
Definition coalesced (s : qstate) : qstate :=
  MkQ (qs_queue s) (qs_timers s) (inc EventHintsCoalesced (qs_metrics s)).

Definition set_groups (g : gmap string eventWork) (q : eventQueue) : eventQueue :=
  MkQueue g (eq_users q) (eq_global q) (eq_wake q) (eq_delayed q) (eq_timer q) (eq_closed q).
Definition set_users (u : gmap string eventUserWork) (q : eventQueue) : eventQueue :=
  MkQueue (eq_groups q) u (eq_global q) (eq_wake q) (eq_delayed q) (eq_timer q) (eq_closed q).
Definition set_delayed (d : gmap string delayedWork) (q : eventQueue) : eventQueue :=
  MkQueue (eq_groups q) (eq_users q) (eq_global q) (eq_wake q) d (eq_timer q) (eq_closed q).
Definition set_timer (t : option nat) (q : eventQueue) : eventQueue :=
  MkQueue (eq_groups q) (eq_users q) (eq_global q) (eq_wake q) (eq_delayed q) t (eq_closed q).

(** [signalLocked]: a non-blocking send. *)
Definition signalLocked : qstate → qstate :=
  onQueue (λ q, MkQueue (eq_groups q) (eq_users q) (eq_global q) true (eq_delayed q) (eq_timer q) (eq_closed q)).

(** [timer.Stop()] followed by forgetting it. *)
Definition stopTimer (s : qstate) : qstate :=
  match eq_timer (qs_queue s) with
  | None => s
  | Some id =>
      MkQ (set_timer None (qs_queue s))
        (MkTimers (tm_next (qs_timers s)) (delete id (tm_armed (qs_timers s))) (tm_fired (qs_timers s)))
        (qs_metrics s)
  end.

Definition globalLocked (s : qstate) : qstate :=
  let s := if eq_global (qs_queue s) then coalesced s else s in
  let s := onQueue (λ q, MkQueue ∅ ∅ true (eq_wake q) ∅ (eq_timer q) (eq_closed q)) s in
  signalLocked (stopTimer s).

Definition dirtyCount (q : eventQueue) : Z :=
  Z.of_nat (size (eq_groups q)) + Z.of_nat (size (eq_users q)) + Z.of_nat (size (eq_delayed q)).

Definition Add (hint : Hint) (s : qstate) : qstate :=
  let q := qs_queue s in
  if eq_closed q then s
  else if hi_GlobalRepair hint then globalLocked s
  else if eq_global q then coalesced s
  else
    let finish (s : qstate) :=
      if maxDirtyRoutes <? dirtyCount (qs_queue s) then globalLocked s else signalLocked s in
    if negb (String.eqb (hi_UserKey hint) "") then
      let work := MkUserWork (String.eqb (hi_OperationType hint) "LOGIN")
        (String.eqb (hi_OperationType hint) "UPDATE" || String.eqb (hi_OperationType hint) "DELETE") in
      finish match eq_users q !! hi_UserKey hint with
             | Some current =>
                 coalesced (onQueue (set_users (<[hi_UserKey hint := mergeUserWork current work]> (eq_users q))) s)
             | None => onQueue (set_users (<[hi_UserKey hint := work]> (eq_users q))) s
             end
    else if negb (String.eqb (hi_GroupKey hint) "") then
      let work := MkWork (String.eqb (hi_ResourceType hint) "GROUP")
        (negb (String.eqb (hi_ResourceType hint) "GROUP") && String.eqb (hi_OperationType hint) "DELETE") in
      finish match eq_groups q !! hi_GroupKey hint with
             | Some current =>
                 coalesced (onQueue (set_groups (<[hi_GroupKey hint := mergeWork current work]> (eq_groups q))) s)
             | None => onQueue (set_groups (<[hi_GroupKey hint := work]> (eq_groups q))) s
             end
    else globalLocked s.

(** The loop that finds the earliest due time. *)
Definition earliestDue (l : list delayedWork) : Time :=
  foldl (λ e d, if isZero e || before (dw_due d) e then dw_due d else e) zeroTime l.

(** [resetTimerLocked] at time [now], ranging over the delayed work in order [l];
    [AfterFunc] and [Reset] arm a timer [wait] from [now]. *)
Definition resetTimerLocked (now : Time) (l : list delayedWork) (s : qstate) : qstate :=
  match l with
  | [] => stopTimer s
  | _ =>
      let wait := Z.max 0 (sub (earliestDue l) now) in
      let t := qs_timers s in
      match eq_timer (qs_queue s) with
      | None =>
          MkQ (set_timer (Some (tm_next t)) (qs_queue s))
            (MkTimers (S (tm_next t)) (<[tm_next t := add now wait]> (tm_armed t)) (tm_fired t))
            (qs_metrics s)
      | Some id =>
          MkQ (qs_queue s)
            (MkTimers (tm_next t) (<[id := add now wait]> (tm_armed t)) (tm_fired t)) (qs_metrics s)
      end
  end.

Definition delayedKey (reason routeKey : string) : string := reason +:+ String NUL routeKey.

(** [ScheduleGroup]: [now1] is read for the due time, [now2] when the timer is
    set; [order] is the order of the range over the delayed work. *)
Definition ScheduleGroup (now1 now2 : Time) (order : list delayedWork → list delayedWork)
    (routeKey : string) (work : eventWork) (delay : Z) (reason : string) (s : qstate) : qstate :=
  let q := qs_queue s in
  if eq_closed q then s
  else
    let key := delayedKey reason routeKey in
    let due := add now1 delay in
    let finish (s : qstate) := resetTimerLocked now2 (order (values (eq_delayed (qs_queue s)))) s in
    match eq_delayed q !! key with
    | Some current =>
        let current := MkDelayed (dw_routeKey current) (dw_reason current) (mergeWork (dw_work current) work) due in
        finish (coalesced (onQueue (set_delayed (<[key := current]> (eq_delayed q))) s))
    | None =>
        if maxDirtyRoutes <=? dirtyCount q then globalLocked s
        else finish (onQueue (set_delayed (<[key := MkDelayed routeKey reason work due]> (eq_delayed q))) s)
    end.

Definition AddGlobalAfter (now1 now2 : Time) (order : list delayedWork → list delayedWork) (delay : Z)
    : qstate → qstate :=
  ScheduleGroup now1 now2 order "" noWork delay "global".

Definition Drain (s : qstate) : eventBatch * qstate :=
  let q := qs_queue s in
  (MkBatch (eq_groups q) (eq_users q) (eq_global q),
   onQueue (λ q, MkQueue ∅ ∅ false (eq_wake q) (eq_delayed q) (eq_timer q) (eq_closed q)) s).

Definition CloseQueue (s : qstate) : qstate :=
  if eq_closed (qs_queue s) then s
  else stopTimer (onQueue (λ q, MkQueue (eq_groups q) (eq_users q) (eq_global q) (eq_wake q) (eq_delayed q)
                                  (eq_timer q) true) s).

(** The loop of [releaseDue] over the delayed work in order [l]; [true] when it
    returned early because a global repair was due. *)
Fixpoint releaseLoop (now : Time) (l : list (string * delayedWork)) (s : qstate) : bool * qstate :=
  match l with
  | [] => (false, s)
  | (k, d) :: l =>
      if after (dw_due d) now then releaseLoop now l s
      else
        let s := onQueue (λ q, set_delayed (delete k (eq_delayed q)) q) s in
        if String.eqb (dw_reason d) "global" then (true, globalLocked s)
        else
          let s := if eq_global (qs_queue s) then s
                   else onQueue (λ q, set_groups
                          (<[dw_routeKey d := mergeWork (default noWork (eq_groups q !! dw_routeKey d)) (dw_work d)]>
                             (eq_groups q)) q) s in
          releaseLoop now l s
  end.

(** [releaseDue], called when a timer has fired. *)
Definition releaseDue (now now2 : Time) (l : list (string * delayedWork))
    (order : list delayedWork → list delayedWork) (s : qstate) : qstate :=
  if eq_closed (qs_queue s) then s
  else
    let '(stopped, s) := releaseLoop now l s in
    if stopped : bool then s
    else
      let s := onQueue (set_timer None) s in
      signalLocked (resetTimerLocked now2 (order (values (eq_delayed (qs_queue s)))) s).

(** The runtime fires an armed timer: its call of [releaseDue] is pending. *)
Definition fireTimer (id : nat) (s : qstate) : qstate :=
  let t := qs_timers s in
  MkQ (qs_queue s) (MkTimers (tm_next t) (delete id (tm_armed t)) (S (tm_fired t))) (qs_metrics s).

(** A pending call starts running. *)
Definition takeFired (s : qstate) : qstate :=
  let t := qs_timers s in
  MkQ (qs_queue s) (MkTimers (tm_next t) (tm_armed t) (pred (tm_fired t))) (qs_metrics s).

(** The consumer receives the wake token. *)
Definition receiveWake (s : qstate) : qstate :=
  onQueue (λ q, MkQueue (eq_groups q) (eq_users q) (eq_global q) false (eq_delayed q) (eq_timer q) (eq_closed q)) s.
End Queue.
Export Queue.
