(* ===== verification/RoutesFacts.v ===== *)
(** * Properties of the private route index *)

From S2P Require Import Prelude GoStrings Sha256 GoTime World State Model Credential CredentialFacts Webhook Events.

#[local] Opaque routingKey.

(** ** What the index should be

    [index_ok secret i]: the three derived maps of [i] are the ones that the
    members on record ([ri_groupUsers]) determine under [secret]. *)
Section spec.
Context (secret : string).

Definition gkey (i : routeIndex) (g : string) : string := routingKey secret "group" (ri_realm i) g.
Definition ukey (i : routeIndex) (u : string) : string := routingKey secret "user" (ri_realm i) u.

Definition memberWith (i : routeIndex) (k g : string) : Prop :=
  ∃ us u, ri_groupUsers i !! g = Some us ∧ u ∈ us ∧ k = ukey i u.

Record index_ok (i : routeIndex) : Prop := {
  ix_keys g : ri_groupKeys i !! g = (λ _, gkey i g) <$> (ri_groupUsers i !! g);
  ix_ids k g : ri_groupIDs i !! k = Some g → is_Some (ri_groupUsers i !! g) ∧ k = gkey i g;
  ix_found g : is_Some (ri_groupUsers i !! g) → is_Some (ri_groupIDs i !! gkey i g);
  ix_users k g : g ∈ default ∅ (ri_userGroups i !! k) ↔ memberWith i k g;
  ix_nonempty k : ri_userGroups i !! k ≠ Some ∅
}.
End spec.

(** ** Maps from keys to sets of groups *)
Notation groupsAt m k := (default (∅ : gset string) (m !! k)).
Definition no_empty (m : gmap string (gset string)) : Prop := ∀ k, m !! k ≠ Some ∅.

Lemma addUserGroup_spec k g m k' g' :
  g' ∈ groupsAt (addUserGroup k g m) k' ↔ g' ∈ groupsAt m k' ∨ (g' = g ∧ k' = k).
Proof.
  unfold addUserGroup. destruct (decide (k' = k)) as [->|Hne].
  - rewrite lookup_insert_eq. cbn. set_solver.
  - rewrite lookup_insert_ne by done. set_solver.
Qed.

Lemma addUserGroup_no_empty k g m : no_empty m → no_empty (addUserGroup k g m).
Proof.
  intros Hm k'. unfold addUserGroup. destruct (decide (k' = k)) as [->|Hne].
  - rewrite lookup_insert_eq. intros [= He]. set_solver.
  - rewrite lookup_insert_ne by done. apply Hm.
Qed.

Lemma removeUserGroup_spec k g m k' g' :
  g' ∈ groupsAt (removeUserGroup k g m) k' ↔ g' ∈ groupsAt m k' ∧ ¬ (g' = g ∧ k' = k).
Proof.
  unfold removeUserGroup. destruct (m !! k) as [s|] eqn:Hs.
  - destruct (decide (k' = k)) as [->|Hne].
    + rewrite Hs. case_decide as He; rewrite ?lookup_delete_eq, ?lookup_insert_eq; cbn; set_solver.
    + case_decide; rewrite ?lookup_delete_ne, ?lookup_insert_ne by done; set_solver.
  - split; [|by intros []]. intros Hin. split; [done|]. intros [_ ->]. by rewrite Hs in Hin.
Qed.

Lemma removeUserGroup_no_empty k g m : no_empty m → no_empty (removeUserGroup k g m).
Proof.
  intros Hm k'. unfold removeUserGroup. destruct (m !! k) as [s|] eqn:Hs; [|apply Hm].
  case_decide as He.
  - destruct (decide (k' = k)) as [->|]; [by rewrite lookup_delete_eq|].
    rewrite lookup_delete_ne by done. apply Hm.
  - destruct (decide (k' = k)) as [->|]; [rewrite lookup_insert_eq; congruence|].
    rewrite lookup_insert_ne by done. apply Hm.
Qed.

Section folds.
Context (f : string → string) (g : string).

Lemma fold_add_spec us m k g' :
  g' ∈ groupsAt (foldl (λ m u, addUserGroup (f u) g m) m us) k ↔
  g' ∈ groupsAt m k ∨ (g' = g ∧ ∃ u, u ∈ us ∧ k = f u).
Proof.
  revert m. induction us as [|u us IH]; intros m; cbn [foldl]; [set_solver|].
  rewrite IH, addUserGroup_spec. set_solver.
Qed.

Lemma fold_add_no_empty us m : no_empty m → no_empty (foldl (λ m u, addUserGroup (f u) g m) m us).
Proof. revert m. induction us as [|u us IH]; intros m Hm; [done|]. by apply IH, addUserGroup_no_empty. Qed.

Lemma fold_remove_spec us m k g' :
  g' ∈ groupsAt (foldl (λ m u, removeUserGroup (f u) g m) m us) k ↔
  g' ∈ groupsAt m k ∧ ¬ (g' = g ∧ ∃ u, u ∈ us ∧ k = f u).
Proof.
  revert m. induction us as [|u us IH]; intros m; cbn [foldl]; [set_solver|].
  rewrite IH, removeUserGroup_spec. set_solver.
Qed.

Lemma fold_remove_no_empty us m :
  no_empty m → no_empty (foldl (λ m u, removeUserGroup (f u) g m) m us).
Proof. revert m. induction us as [|u us IH]; intros m Hm; [done|]. by apply IH, removeUserGroup_no_empty. Qed.
End folds.

(** ** Rebuilding *)

(** The maps after indexing the groups of [l]. *)
Record indexed (secret realm : string) (l : list (string * gset string)) (j : routeIndex) : Prop := {
  id_keys g : ri_groupKeys j !! g = if decide (g ∈ l.*1) then Some (routingKey secret "group" realm g) else None;
  id_ids k g : ri_groupIDs j !! k = Some g → g ∈ l.*1 ∧ k = routingKey secret "group" realm g;
  id_found g : g ∈ l.*1 → is_Some (ri_groupIDs j !! routingKey secret "group" realm g);
  id_users k g : g ∈ groupsAt (ri_userGroups j) k ↔
    ∃ us u, (g, us) ∈ l ∧ u ∈ us ∧ k = routingKey secret "user" realm u;
  id_nonempty : no_empty (ri_userGroups j)
}.

Lemma indexed_step secret realm l j x :
  indexed secret realm l j → indexed secret realm (l ++ [x]) (indexGroup secret realm j x).
Proof.
  destruct x as [g0 us0]. intros [Hk Hi Hf Hu Hn]. unfold indexGroup. split; cbn.
  - intros g. rewrite fmap_app. cbn. destruct (decide (g = g0)) as [->|Hne].
    + rewrite lookup_insert_eq, decide_True by set_solver. done.
    + rewrite lookup_insert_ne, Hk by done. apply decide_ext. set_solver.
  - intros k g. rewrite fmap_app. cbn. intros [[<- <-]|[_ [? ->]%Hi]]%lookup_insert_Some;
      (split; [apply elem_of_app|done]); [right; by left|by left].
  - intros g. rewrite fmap_app. cbn. intros Hin.
    destruct (decide (routingKey secret "group" realm g0 = routingKey secret "group" realm g)) as [->|Hne].
    + rewrite lookup_insert_eq. by eexists.
    + rewrite lookup_insert_ne by done. apply Hf. set_solver.
  - intros k g. rewrite fold_add_spec, Hu. setoid_rewrite elem_of_elements.
    split.
    + intros [(us & u & Hin & ? & ?)|[-> (u & ? & ?)]].
      * exists us, u. split; [|done]. apply elem_of_app. by left.
      * exists us0, u. split; [|done]. apply elem_of_app. right. by apply list_elem_of_singleton.
    + intros (us & u & [?|[= -> ->]%list_elem_of_singleton]%elem_of_app & ? & ?);
        [left; by exists us, u|right; split; [done|by exists u]].
  - by apply fold_add_no_empty.
Qed.

Lemma indexed_all secret realm l j0 :
  ri_groupIDs j0 = ∅ → ri_groupKeys j0 = ∅ → ri_userGroups j0 = ∅ →
  indexed secret realm l (foldl (indexGroup secret realm) j0 l).
Proof.
  intros H1 H2 H3. induction l as [|x l IH] using rev_ind.
  - cbn [foldl]. split; rewrite ?H1, ?H2, ?H3.
    + intros g. by rewrite lookup_empty.
    + intros k g Hl. by rewrite lookup_empty in Hl.
    + intros g Hg. by apply elem_of_nil in Hg.
    + intros k g. rewrite lookup_empty. cbn. split; [set_solver|]. intros (us & u & Hg & _). by apply elem_of_nil in Hg.
    + intros k. by rewrite lookup_empty.
  - rewrite foldl_snoc. by apply indexed_step.
Qed.

Lemma foldl_indexGroup_fields secret realm l j :
  let j' := foldl (indexGroup secret realm) j l in
  ri_realm j' = ri_realm j ∧ ri_secret j' = ri_secret j ∧ ri_groupUsers j' = ri_groupUsers j.
Proof.
  cbv zeta. revert j. induction l as [|x l IH]; intros j; [done|]. cbn [foldl].
  by destruct (IH (indexGroup secret realm j x)) as (-> & -> & ->).
Qed.

Lemma rebuildWith_fields secret l i :
  ri_realm (rebuildWith secret l i) = ri_realm i ∧ ri_secret (rebuildWith secret l i) = ri_secret i ∧
  ri_groupUsers (rebuildWith secret l i) = ri_groupUsers i.
Proof.
  apply (foldl_indexGroup_fields secret (ri_realm i) l
    (MkRouteIndex (ri_realm i) (ri_secret i) ∅ ∅ ∅ (ri_groupUsers i))).
Qed.

(** In whatever order the groups are ranged over, the rebuilt index is right. *)
Lemma rebuildWith_ok secret l i :
  l ≡ₚ map_to_list (ri_groupUsers i) → index_ok secret (rebuildWith secret l i).
Proof.
  intros Hl. destruct (rebuildWith_fields secret l i) as (Hr & _ & Hu).
  assert (∀ g us, (g, us) ∈ l ↔ ri_groupUsers i !! g = Some us) as Hin.
  { intros g us. by rewrite Hl, elem_of_map_to_list. }
  assert (∀ g, g ∈ l.*1 ↔ is_Some (ri_groupUsers i !! g)) as Hdom.
  { intros g. rewrite list_elem_of_fmap. split.
    - intros ([g' us] & -> & Hx%Hin). by exists us.
    - intros [us Hx%Hin]. by exists (g, us). }
  pose proof (indexed_all secret (ri_realm i) l
    (MkRouteIndex (ri_realm i) (ri_secret i) ∅ ∅ ∅ (ri_groupUsers i)) eq_refl eq_refl eq_refl) as [Hk Hi Hf Hus Hn].
  fold (rebuildWith secret l i) in *.
  split; unfold gkey, ukey, memberWith; rewrite ?Hu; unfold ukey; rewrite ?Hr.
  - intros g. rewrite Hk. case_decide as Hd; rewrite Hdom in Hd.
    + destruct Hd as [us ->]. done.
    + apply eq_None_not_Some in Hd. by rewrite Hd.
  - intros k g [Hx ->]%Hi. by rewrite <-Hdom.
  - intros g Hx. by apply Hf, Hdom.
  - intros k g. rewrite Hus. by setoid_rewrite Hin.
  - exact Hn.
Qed.

(** ** Updating in place is as good as rebuilding *)
Lemma updateWith_ok secret group i :
  index_ok secret i → index_ok secret (updateWith secret group i).
Proof.
  intros [Hk Hi Hf Hu Hn]. unfold updateWith. set (g0 := g_ID group).
  split; unfold gkey, memberWith, ukey in *; cbn.
  - intros g. destruct (decide (g = g0)) as [->|Hne]; [by rewrite !lookup_insert_eq|].
    rewrite !lookup_insert_ne by done. apply Hk.
  - intros k g [[<- <-]|[_ [Hs ->]%Hi]]%lookup_insert_Some.
    + rewrite lookup_insert_eq. split; [by eexists|done].
    + split; [|done]. destruct (decide (g = g0)) as [->|Hne]; [rewrite lookup_insert_eq; by eexists|].
      by rewrite lookup_insert_ne.
  - intros g Hs. destruct (decide (routingKey secret "group" (ri_realm i) g0 = routingKey secret "group" (ri_realm i) g))
      as [->|Hne]; [rewrite lookup_insert_eq; by eexists|].
    rewrite lookup_insert_ne by done. apply Hf.
    destruct (decide (g = g0)) as [->|Hne']; [done|]. by rewrite lookup_insert_ne in Hs.
  - intros k g. rewrite fold_add_spec, fold_remove_spec, Hu. setoid_rewrite elem_of_elements.
    destruct (decide (g = g0)) as [->|Hne].
    + rewrite lookup_insert_eq. split.
      * intros [[(us & u & Hus & Hin & ->) Hno]|[_ (u & Hin & ->)]].
        -- exfalso. apply Hno. split; [done|]. exists u. by rewrite Hus.
        -- eexists _, u. split; [done|]. split; [by apply elem_of_list_to_set|done].
      * intros (us & u & [= <-] & Hin & ->). right. split; [done|]. exists u.
        split; [by apply elem_of_list_to_set in Hin|done].
    + rewrite lookup_insert_ne by done. split; [|by left; split; [|intros []]].
      intros [[Hm _]|[? _]]; done.
  - apply fold_add_no_empty, fold_remove_no_empty. exact Hn.
Qed.

(** ** The operations *)
Section ops.
Context {S : Type} `{Env S}.
Notation RW := (routeIndex * (StableLoader * Sys S))%type.

(** A route index at any point of its life. *)
Definition route_wf (w : RW) : Prop :=
  index_ok (ri_secret (fst w)) (fst w) ∧ stable_wf (fst (snd w)).

Lemma index_ok_secret s s' i : index_ok s i → index_ok s (set_routeSecret s' i).
Proof. intros []. by split. Qed.

(** Ranging over the groups and rebuilding. *)
Lemma triple_rebuild (P : RW → Prop) (Q : unit → RW → Prop) (X : err → RW → Prop) secret :
  (∀ (w : RW) sys l, P w → l ≡ₚ map_to_list (ri_groupUsers (fst w)) →
     Q tt (rebuildWith secret l (fst w), (fst (snd w), sys))) →
  triple P (rebuildWithSecretLocked secret) Q X.
Proof.
  intros HQ. unfold rebuildWithSecretLocked.
  eapply triple_bind with (R := λ i w, i = fst w ∧ P w); [by apply triple_gets|].
  intros i. eapply triple_bind with (R := λ l w, ∃ w0 sys, P w0 ∧ w = (fst w0, (fst (snd w0), sys)) ∧
    l ≡ₚ map_to_list (ri_groupUsers (fst w0))).
  { apply triple_zoom. intros w [-> Hw]. apply triple_rangeOrder.
    intros s s' l -> _ Hl. by exists w, s'. }
  intros l. apply triple_modify. intros w (w0 & sys & Hw & -> & Hl). exact (HQ w0 sys l Hw Hl).
Qed.

Lemma triple_refresh i0 :
  triple (λ w : RW, fst w = i0 ∧ route_wf w) refreshSecretLocked
    (λ secret w, route_wf w ∧ secret = ri_secret (fst w) ∧ 32 ≤ byteLen secret ∧
       ri_groupUsers (fst w) = ri_groupUsers i0 ∧ ri_realm (fst w) = ri_realm i0)
    (λ _ w, fst w = i0 ∧ route_wf w).
Proof.
  unfold refreshSecretLocked.
  eapply triple_bind with (R := λ _ w, fst w = i0 ∧ route_wf w).
  { apply triple_zoom. intros w [Hw [Hix Hst]] v ->. cbn [view lens_snd].
    pose proof (triple_StableLoad (fst (snd w)) (snd w) (conj eq_refl Hst)) as Ht.
    destruct (StableLoad (snd w)) as [[s|e] [l sys]]; cbn in *.
    - destruct Ht as (_ & Hm & Hl & Hlen & Hok). split; [done|]. split; [done|]. unfold stable_wf in *. cbn.
      rewrite Hm, Hl. destruct Hst. split; [done|by right].
    - destruct Ht as [-> _]. done. }
  intros secret. destruct (Z.ltb_spec (byteLen secret) 32); [by apply triple_throw|].
  eapply triple_bind with (R := λ c w, c = ri_secret i0 ∧ fst w = i0 ∧ route_wf w).
  { apply triple_gets. by intros w [<- ?]. }
  intros c. apply triple_pure. intros ->. destruct (String.eqb_spec secret (ri_secret i0)) as [->|Hne].
  { apply triple_ret. intros w [<- Hw]. done. }
  eapply triple_bind with (R := λ _ w, fst w = set_routeSecret secret i0 ∧ stable_wf (fst (snd w))).
  { apply triple_modify. intros w [<- [_ Hst]]. done. }
  intros _. eapply triple_bind with (R := λ _ w, route_wf w ∧ secret = ri_secret (fst w) ∧
     ri_groupUsers (fst w) = ri_groupUsers i0 ∧ ri_realm (fst w) = ri_realm i0).
  { apply triple_rebuild. intros w sys l [Hw Hst] Hl. unfold route_wf. cbn.
    destruct (rebuildWith_fields secret l (fst w)) as (Hr & Hs & Hu).
    rewrite Hs, Hr, Hu, Hw. cbn. rewrite <-Hw. split_and!; try done. by apply rebuildWith_ok. }
  intros _. apply triple_ret. intros w (? & ? & ? & ?). by split_and!.
Qed.

(** What each operation makes of the members on record. *)
Inductive routeOp : Type := RReplace (gs : list Group) | RUpdate (g : Group) | RRefresh.

Definition run_route (o : routeOp) : M RW err unit :=
  match o with RReplace gs => Replace gs | RUpdate g => Update g | RRefresh => Refresh end.

Definition route_effect (o : routeOp) (m : gmap string (gset string)) : gmap string (gset string) :=
  match o with
  | RReplace gs => groupUsersOf gs
  | RUpdate g => <[g_ID g := list_to_set (memberIDs g)]> m
  | RRefresh => m
  end.

Lemma triple_run_route o i0 :
  triple (λ w : RW, fst w = i0 ∧ route_wf w) (run_route o)
    (λ _ w, route_wf w ∧ 32 ≤ byteLen (ri_secret (fst w)) ∧ ri_realm (fst w) = ri_realm i0 ∧
       ri_groupUsers (fst w) = route_effect o (ri_groupUsers i0))
    (λ _ w, fst w = i0 ∧ route_wf w).
Proof.
  destruct o as [gs|g|]; cbn [run_route route_effect]; unfold Replace, Update, Refresh;
    (eapply triple_bind; [apply triple_refresh|]); intros secret.
  - eapply triple_bind with (R := λ _ w, secret = ri_secret (fst w) ∧ 32 ≤ byteLen secret ∧
      stable_wf (fst (snd w)) ∧ ri_groupUsers (fst w) = groupUsersOf gs ∧ ri_realm (fst w) = ri_realm i0).
    { apply triple_modify. intros w ([_ ?] & ? & ? & _ & ?). by split_and!. }
    intros _. apply triple_rebuild. intros w sys l (-> & ? & ? & Hu & Hr) Hl. unfold route_wf. cbn.
    destruct (rebuildWith_fields (ri_secret (fst w)) l (fst w)) as (-> & -> & ->).
    split_and!; try done. by apply rebuildWith_ok.
  - apply triple_modify. intros w ([Hix ?] & -> & ? & Hu & ?). unfold route_wf. cbn.
    split_and!; try done; [by apply updateWith_ok|by rewrite Hu].
  - apply triple_ret. intros w (? & -> & ? & ? & ?). by split_and!.
Qed.
End ops.

(** ** Properties *)

(** [C24] Consistency of the route index: [Replace], [Update] and [Refresh] keep
    the derived maps equal to what the recorded members determine under the
    current secret, whatever order maps are ranged over and whether or not the
    secret has just rotated; an operation that fails changes nothing, and one
    that succeeds records exactly the members it was given, under a secret of
    at least 32 bytes. *)
Theorem route_index_consistent {S} `{Env S} o (w w' : routeIndex * (StableLoader * Sys S)) r :
  route_wf w → run_route o w = (r, w') →
  route_wf w' ∧
  match r with
  | Ok _ => ri_groupUsers (fst w') = route_effect o (ri_groupUsers (fst w)) ∧
            32 ≤ byteLen (ri_secret (fst w'))
  | Err _ => fst w' = fst w
  end.
Proof.
  intros Hwf Hrun. pose proof (triple_run_route o (fst w) w (conj eq_refl Hwf)) as Ht.
  rewrite Hrun in Ht. destruct r; [by destruct Ht as (? & ? & _ & ?)|by destruct Ht].
Qed.

(** Resolution: in a consistent index a group key resolves to a group that
    is on record and has that key, a group on record has a route, and, when the
    keys of the groups on record are distinct, the route of a group resolves to
    that group.  A user key resolves to exactly the groups on record with a
    member of that key, and to nothing when there is none. *)
Theorem route_index_resolves {S} `{Env S} (w w' : routeIndex * (StableLoader * Sys S)) k r :
  route_wf w → ResolveUser k w = (Ok r, w') →
  let i := fst w in let secret := ri_secret i in
  (∀ g, ResolveGroup k i = Some g → RouteForGroup g i = Some k) ∧
  ((∀ g g', is_Some (ri_groupUsers i !! g) → is_Some (ri_groupUsers i !! g') →
      gkey secret i g = gkey secret i g' → g = g') →
   ∀ g, is_Some (ri_groupUsers i !! g) → ResolveGroup (gkey secret i g) i = Some g) ∧
  match r with
  | Some l => l ≠ [] ∧ NoDup l ∧ ∀ g, g ∈ l ↔ memberWith secret i k g
  | None => ∀ g, ¬ memberWith secret i k g
  end.
Proof.
  intros [[Hk Hi Hf Hu Hn] _] Hrun. cbv zeta. split_and!.
  - intros g Hg. apply Hi in Hg as [[us Hus] ->]. unfold RouteForGroup. by rewrite Hk, Hus.
  - intros Hinj g Hg. unfold ResolveGroup. destruct (Hf g Hg) as [g' Hg']. rewrite Hg'.
    destruct (Hi _ _ Hg') as [Hs He]. by rewrite (Hinj g g' Hg Hs He).
  - unfold ResolveUser in Hrun. apply bind_ok in Hrun as (s & w1 & [= <- <-] & Hrun).
    destruct (ri_userGroups (fst w) !! k) as [gs|] eqn:Hgs.
    + apply bind_ok in Hrun as (l & w2 & Hl & [= <- <-]). unfold zoom, rangeOrder in Hl. cbn in Hl.
      pose proof (env_order_perm _ (elements gs) (sys_env (snd (snd w)))) as Hperm.
      destruct (env_order _ _ _) as [l' s']. injection Hl as -> <-. cbn in Hperm. split_and!.
      * intros ->. apply Permutation_nil_l in Hperm. symmetry in Hperm. apply elements_empty_inv in Hperm.
        apply (Hn k). rewrite Hgs. f_equal. by apply leibniz_equiv.
      * rewrite Hperm. apply NoDup_elements.
      * intros g. rewrite Hperm, elem_of_elements. pose proof (Hu k g) as Hug. by rewrite Hgs in Hug.
    + injection Hrun as <- <-. intros g Hg. pose proof (Hu k g) as Hug. rewrite Hgs in Hug. apply Hug in Hg. set_solver.
Qed.

(** A concrete index: two groups, one shared member. *)
Definition routeDemoSecret : string := "0123456789abcdef0123456789abcdef".
Definition routeDemoEnv : Env Time :=
  scriptEnv (λ _ s, (Err (EMsg "no server"), s)) (λ _, Some routeDemoSecret) (λ _, Err (EMsg "no file"))
    (λ t, (t, t)) (λ _ s, (false, s)).
Definition routeDemoLoader : StableLoader :=
  MkStable (MkLoader "GROUPBRIDGE_WEBHOOK_SECRET" "" None) 32 routeDemoSecret.
Definition demoGroups : list Group :=
  [MkGroup "g1" "dev" "/orgs/dev" [MkUser "u1" "ann" ""; MkUser "u2" "bob" ""];
   MkGroup "g2" "ops" "/orgs/ops" [MkUser "u1" "ann" ""]].
Definition routeDemo0 : routeIndex * (StableLoader * Sys Time) :=
  (newRouteIndex "corp", (routeDemoLoader, MkSys zeroTime [] ∅ ∅)).
Definition routeDemo1 : routeIndex * (StableLoader * Sys Time) :=
  snd (run_route (H := routeDemoEnv) (RReplace demoGroups) routeDemo0).

Lemma newRouteIndex_ok realm secret : index_ok secret (newRouteIndex realm).
Proof.
  unfold newRouteIndex. split; cbn; intros *; rewrite ?lookup_empty; try done.
  cbn. split; [set_solver|]. by intros (us & u & [=] & _).
Qed.

Lemma routeDemo0_wf : route_wf routeDemo0.
Proof.
  split; [apply newRouteIndex_ok|]. split; [cbn; lia|]. right. split; [by vm_compute|].
  apply (checkCredential_ok routeDemoSecret routeDemoSecret). vm_compute. reflexivity.
Qed.

Lemma routeDemo1_run :
  run_route (H := routeDemoEnv) (RReplace demoGroups) routeDemo0 = (Ok tt, routeDemo1).
Proof.
  unfold routeDemo1.
  assert (fst (run_route (H := routeDemoEnv) (RReplace demoGroups) routeDemo0) = Ok tt) as <-
    by (vm_compute; reflexivity).
  apply surjective_pairing.
Qed.

Lemma route_index_consistent_witness :
  route_wf routeDemo1 ∧
  ri_groupUsers (fst routeDemo1) = groupUsersOf demoGroups ∧ 32 ≤ byteLen (ri_secret (fst routeDemo1)).
Proof.
  apply (route_index_consistent (H := routeDemoEnv) (RReplace demoGroups) routeDemo0 routeDemo1 (Ok tt)
    routeDemo0_wf routeDemo1_run).
Defined.

Definition demoUserKey : string := routingKey routeDemoSecret "user" "corp" "u2".

Lemma routeDemo1_wf : route_wf routeDemo1.
Proof.
  pose proof (triple_run_route (H := routeDemoEnv) (RReplace demoGroups) (fst routeDemo0) routeDemo0
    (conj eq_refl routeDemo0_wf)) as Ht. rewrite routeDemo1_run in Ht. by destruct Ht.
Qed.

Lemma routeDemo1_resolve :
  ResolveUser (H := routeDemoEnv) demoUserKey routeDemo1 = (Ok (Some ["g1"]), routeDemo1).
Proof. vm_cast_no_check (eq_refl (Ok (E := err) (Some ["g1"]), routeDemo1)). Qed.

Lemma route_index_resolves_witness :
  memberWith (ri_secret (fst routeDemo1)) (fst routeDemo1) demoUserKey "g1".
Proof.
  destruct (route_index_resolves (H := routeDemoEnv) routeDemo1 routeDemo1 demoUserKey (Some ["g1"])
    routeDemo1_wf routeDemo1_resolve) as (_ & _ & _ & _ & Hall).
  apply Hall. apply list_elem_of_singleton. reflexivity.
Defined.
