(* ===== verification/QueueFacts.v ===== *)
(** * Properties of the event queue

    The queue, the timers of the runtime and the consumer as a transition
    system.  Every method holds the mutex throughout, so a call is one step. *)

From S2P Require Import Prelude GoStrings GoTime World State Model Webhook Events.

(** ** Steps *)
Inductive phase : Type := Waiting | Settling | Working (b : eventBatch).

(** A permutation of the delayed work, as a range over the map may visit it. *)
Definition some_order (order : list delayedWork → list delayedWork) : Prop := ∀ l, order l ≡ₚ l.

(** One call of a producer, of the runtime's timers or of the consumer; the
    counters are shared with the rest of the process ([step_count]). *)
Inductive qstep : phase * qstate → phase * qstate → Prop :=
| step_add p s h : qstep (p, s) (p, Add h s)
| step_schedule p s now1 now2 order k w d r :
    some_order order → qstep (p, s) (p, ScheduleGroup now1 now2 order k w d r s)
| step_fire p s id t :
    tm_armed (qs_timers s) !! id = Some t → qstep (p, s) (p, fireTimer id s)
| step_release p s now now2 l order :
    (0 < tm_fired (qs_timers s))%nat → l ≡ₚ map_to_list (eq_delayed (qs_queue s)) → some_order order →
    qstep (p, s) (p, releaseDue now now2 l order (takeFired s))
| step_close p s : qstep (p, s) (p, CloseQueue s)
| step_count p s m : qstep (p, s) (p, MkQ (qs_queue s) (qs_timers s) m)
| step_wake s : eq_wake (qs_queue s) = true → qstep (Waiting, s) (Settling, receiveWake s)
| step_burst s : eq_wake (qs_queue s) = true → qstep (Settling, s) (Settling, receiveWake s)
| step_drain s : qstep (Settling, s) (Working (fst (Drain s)), snd (Drain s))
| step_done b s : qstep (Working b, s) (Waiting, s).

Definition qinit : phase * qstate := (Waiting, MkQ newEventQueue (MkTimers O ∅ O) noMetrics).

Inductive reachable : phase * qstate → Prop :=
| reach_init : reachable qinit
| reach_step x y : reachable x → qstep x y → reachable y.

(** ** The invariant *)
Definition dirty (q : eventQueue) : Prop := eq_groups q ≠ ∅ ∨ eq_users q ≠ ∅ ∨ eq_global q = true.

(** A wake-up is on its way: the token is there, or the consumer has taken it
    and is going to drain. *)
Definition awake (x : phase * qstate) : Prop := eq_wake (qs_queue (snd x)) = true ∨ fst x = Settling.

(** Delayed work will be released: the queue's timer is armed, or has fired. *)
Definition timed (s : qstate) : Prop :=
  eq_delayed (qs_queue s) = ∅ ∨ (0 < tm_fired (qs_timers s))%nat ∨
  ∃ id t, eq_timer (qs_queue s) = Some id ∧ tm_armed (qs_timers s) !! id = Some t.

Record qinv (x : phase * qstate) : Prop := {
  qi_size : dirtyCount (qs_queue (snd x)) ≤ maxDirtyRoutes;
  qi_wake : dirty (qs_queue (snd x)) → awake x;
  qi_timer : eq_closed (qs_queue (snd x)) = false → timed (snd x);
  qi_global : eq_global (qs_queue (snd x)) = true → eq_groups (qs_queue (snd x)) = ∅ ∧ eq_users (qs_queue (snd x)) = ∅
}.

(** The part of the invariant that does not speak of wake-ups. *)
Record qcore (s : qstate) : Prop := {
  qc_size : dirtyCount (qs_queue s) ≤ maxDirtyRoutes;
  qc_timer : eq_closed (qs_queue s) = false → timed s;
  qc_global : eq_global (qs_queue s) = true → eq_groups (qs_queue s) = ∅ ∧ eq_users (qs_queue s) = ∅
}.

Lemma qinv_core x : qinv x → qcore (snd x).
Proof. intros []. by split. Qed.

Lemma qinv_signalled p s : qcore s → eq_wake (qs_queue s) = true → qinv (p, s).
Proof. intros [] Hw. split; [done|intros _; by left|done|done]. Qed.

Lemma stopTimer_queue s : qs_queue (stopTimer s) = set_timer None (qs_queue s).
Proof. destruct s as [[? ? ? ? ? [id|] ?] t m]; done. Qed.

Lemma globalLocked_queue s :
  qs_queue (globalLocked s) = MkQueue ∅ ∅ true true ∅ None (eq_closed (qs_queue s)).
Proof.
  unfold globalLocked, signalLocked, onQueue. cbn [qs_queue].
  rewrite stopTimer_queue. by destruct (eq_global (qs_queue s)).
Qed.

Lemma globalLocked_core s : qcore (globalLocked s).
Proof.
  split; unfold timed; rewrite globalLocked_queue; cbn; [|by left|done].
  unfold dirtyCount, maxDirtyRoutes. cbn. rewrite !map_size_empty. lia.
Qed.

Lemma qinv_global p s : qinv (p, globalLocked s).
Proof. apply qinv_signalled; [apply globalLocked_core|by rewrite globalLocked_queue]. Qed.

(** [resetTimerLocked] only touches the timer, and leaves the work timed. *)
Lemma resetTimer_queue now l s :
  ∃ t, qs_queue (resetTimerLocked now l s) = set_timer t (qs_queue s).
Proof.
  unfold resetTimerLocked. destruct l as [|d l]; [exists None; apply stopTimer_queue|].
  destruct (eq_timer (qs_queue s)) as [id|] eqn:Ht; [|by eexists].
  exists (Some id). cbn. rewrite <-Ht. by destruct (qs_queue s).
Qed.

Lemma resetTimer_timed now order s :
  some_order order →
  timed (resetTimerLocked now (order (values (eq_delayed (qs_queue s)))) s).
Proof.
  intros Ho. specialize (Ho (values (eq_delayed (qs_queue s)))). unfold resetTimerLocked, timed.
  destruct (order (values _)) as [|d l].
  - left. rewrite stopTimer_queue. cbn. apply Permutation_nil_l in Ho. unfold values in Ho.
    symmetry in Ho. apply fmap_nil_inv in Ho. by apply map_to_list_empty_iff.
  - right; right. destruct (eq_timer (qs_queue s)) as [id|] eqn:Ht; cbn.
    + exists id. eexists. split; [done|]. by rewrite lookup_insert_eq.
    + eexists _, _. split; [done|]. by rewrite lookup_insert_eq.
Qed.

Lemma qcore_timer_irrelevant s t :
  dirtyCount (set_timer t (qs_queue s)) = dirtyCount (qs_queue s).
Proof. done. Qed.

(** After a change of the delayed work that is followed by [resetTimerLocked]. *)
Lemma qcore_reset now order s :
  some_order order → dirtyCount (qs_queue s) ≤ maxDirtyRoutes →
  (eq_global (qs_queue s) = true → eq_groups (qs_queue s) = ∅ ∧ eq_users (qs_queue s) = ∅) →
  qcore (resetTimerLocked now (order (values (eq_delayed (qs_queue s)))) s).
Proof.
  intros Ho Hsz Hg. pose proof (resetTimer_timed now order s Ho) as Ht.
  destruct (resetTimer_queue now (order (values (eq_delayed (qs_queue s)))) s) as [t Hq].
  split; rewrite ?Hq; [done|intros _; exact Ht|done].
Qed.

Lemma size_insert_le {A} (k : string) (x : A) (m : gmap string A) :
  Z.of_nat (size (<[k := x]> m)) ≤ Z.of_nat (size m) + 1.
Proof.
  rewrite map_size_insert. destruct (m !! k); cbn; lia.
Qed.

Lemma size_insert_some {A} (k : string) (x y : A) (m : gmap string A) :
  m !! k = Some y → size (<[k := x]> m) = size m.
Proof. intros H. rewrite map_size_insert, H. cbn. done. Qed.

(** ** Each step keeps the invariant *)
Lemma qinv_Add p s h : qinv (p, s) → qinv (p, Add h s).
Proof.
  intros Hinv. pose proof (qinv_core _ Hinv) as Hc. cbn [snd] in Hc. unfold Add.
  destruct (eq_closed (qs_queue s)) eqn:Hcl; [done|].
  destruct (hi_GlobalRepair h); [apply qinv_global|].
  destruct (eq_global (qs_queue s)) eqn:Hgl.
  { destruct Hinv. by split. }
  destruct Hc as [_ Ht _]. specialize (Ht Hcl).
  assert (∀ s', qs_timers s' = qs_timers s → eq_delayed (qs_queue s') = eq_delayed (qs_queue s) →
     eq_timer (qs_queue s') = eq_timer (qs_queue s) → eq_global (qs_queue s') = false →
     qinv (p, if maxDirtyRoutes <? dirtyCount (qs_queue s') then globalLocked s' else signalLocked s')) as Hfin.
  { intros s' H1 H2 H3 H4. destruct (Z.ltb_spec maxDirtyRoutes (dirtyCount (qs_queue s')));
      [apply qinv_global|].
    apply qinv_signalled; [|done]. split.
    - done.
    - intros _. unfold timed. cbn. rewrite H1, H2, H3. exact Ht.
    - cbn. by rewrite H4. }
  destruct (negb (String.eqb (hi_UserKey h) "")).
  { destruct (eq_users (qs_queue s) !! hi_UserKey h); by apply Hfin. }
  destruct (negb (String.eqb (hi_GroupKey h) "")); [|apply qinv_global].
  destruct (eq_groups (qs_queue s) !! hi_GroupKey h); by apply Hfin.
Qed.

(** A step that leaves what is dirty, the token and the phase alone. *)
Lemma qinv_quiet p s s' :
  qinv (p, s) → qcore s' → eq_groups (qs_queue s') = eq_groups (qs_queue s) →
  eq_users (qs_queue s') = eq_users (qs_queue s) → eq_global (qs_queue s') = eq_global (qs_queue s) →
  eq_wake (qs_queue s') = eq_wake (qs_queue s) → qinv (p, s').
Proof.
  intros [_ Hw _ _] [] Hg Hu Hgl Hwk. split; try done.
  unfold dirty, awake in *. cbn in *. by rewrite Hg, Hu, Hgl, Hwk.
Qed.

Lemma qinv_Schedule p s now1 now2 order k w d r :
  some_order order → qinv (p, s) → qinv (p, ScheduleGroup now1 now2 order k w d r s).
Proof.
  intros Ho Hinv. pose proof (qinv_core _ Hinv) as [Hsz _ Hgl]. cbn [snd] in *. unfold ScheduleGroup.
  destruct (eq_closed (qs_queue s)) eqn:Hcl; [done|].
  assert (∀ m s', qs_queue s' = set_delayed m (qs_queue s) → dirtyCount (qs_queue s') ≤ maxDirtyRoutes →
    qinv (p, resetTimerLocked now2 (order (values (eq_delayed (qs_queue s')))) s')) as Hfin.
  { intros m s' Hq Hsz'. destruct (resetTimer_queue now2 (order (values (eq_delayed (qs_queue s')))) s') as [t Ht].
    eapply qinv_quiet; [exact Hinv| |by rewrite Ht, Hq..]. apply qcore_reset; [done|done|]. by rewrite Hq. }
  destruct (eq_delayed (qs_queue s) !! delayedKey r k) as [cur|] eqn:Hcur.
  - eapply (Hfin _ (coalesced _)); [done|]. cbn. unfold dirtyCount in *. cbn.
    by rewrite (size_insert_some _ _ _ _ Hcur).
  - destruct (Z.leb_spec maxDirtyRoutes (dirtyCount (qs_queue s))); [apply qinv_global|].
    eapply Hfin; [done|]. cbn. unfold dirtyCount in *. cbn.
    pose proof (size_insert_le (delayedKey r k) (MkDelayed k r w (add now1 d)) (eq_delayed (qs_queue s))). lia.
Qed.

(** The loop of [releaseDue]. *)
Lemma releaseLoop_inv now l s :
  NoDup (l.*1) → (∀ k d, (k, d) ∈ l → is_Some (eq_delayed (qs_queue s) !! k)) →
  dirtyCount (qs_queue s) ≤ maxDirtyRoutes →
  (eq_global (qs_queue s) = true → eq_groups (qs_queue s) = ∅ ∧ eq_users (qs_queue s) = ∅) →
  let '(stopped, s') := releaseLoop now l s in
  if (stopped : bool) then ∃ s0, s' = globalLocked s0
  else dirtyCount (qs_queue s') ≤ maxDirtyRoutes ∧
       (eq_global (qs_queue s') = true → eq_groups (qs_queue s') = ∅ ∧ eq_users (qs_queue s') = ∅) ∧
       eq_closed (qs_queue s') = eq_closed (qs_queue s).
Proof.
  revert s. induction l as [|[k d] l IH]; intros s Hnd Hin Hsz Hgl; cbn [releaseLoop]; [done|].
  cbn in Hnd. apply NoDup_cons in Hnd as [Hk Hnd].
  destruct (after (dw_due d) now).
  { apply IH; try done. intros k' d' Hin'. apply (Hin k' d'). by right. }
  destruct (String.eqb (dw_reason d) "global"); [by eexists|].
  set (s1 := onQueue (λ q, set_delayed (delete k (eq_delayed q)) q) s).
  assert (dirtyCount (qs_queue s1) = dirtyCount (qs_queue s) - 1) as Hsz1.
  { destruct (Hin k d) as [x Hx]; [by left|]. unfold dirtyCount. cbn.
    rewrite map_size_delete, Hx. cbn.
    assert (size (eq_delayed (qs_queue s)) ≠ 0)%nat by (intros He%map_size_empty_inv; by rewrite He in Hx).
    lia. }
  assert (∀ k' d', (k', d') ∈ l → is_Some (eq_delayed (qs_queue s1) !! k')) as Hin1.
  { intros k' d' Hl. cbn. rewrite lookup_delete_ne; [apply (Hin k' d'); by right|].
    intros ->. apply Hk. apply list_elem_of_fmap. by exists (k', d'). }
  destruct (eq_global (qs_queue s1)) eqn:Hg.
  - apply (IH s1); try done; lia.
  - match goal with |- context [releaseLoop now l ?s2] => set (s2' := s2) end.
    apply (IH s2'); try done.
    + unfold dirtyCount in *. cbn.
      pose proof (size_insert_le (dw_routeKey d)
        (mergeWork (default noWork (eq_groups (qs_queue s) !! dw_routeKey d)) (dw_work d)) (eq_groups (qs_queue s))).
      cbn in Hsz1. lia.
    + cbn. cbn in Hg. by rewrite Hg.
Qed.

Lemma qinv_release p s now now2 l order :
  l ≡ₚ map_to_list (eq_delayed (qs_queue s)) → some_order order → (0 < tm_fired (qs_timers s))%nat →
  qinv (p, s) → qinv (p, releaseDue now now2 l order (takeFired s)).
Proof.
  intros Hl Ho Hf Hinv. pose proof (qinv_core _ Hinv) as [Hsz _ Hgl]. cbn [snd] in *. unfold releaseDue.
  change (qs_queue (takeFired s)) with (qs_queue s).
  destruct (eq_closed (qs_queue s)) eqn:Hcl.
  { eapply qinv_quiet; [exact Hinv| |done..]. split; cbn; [done| |done]. by rewrite Hcl. }
  pose proof (releaseLoop_inv now l (takeFired s)) as Hloop.
  destruct (releaseLoop now l (takeFired s)) as [stopped s'].
  destruct stopped.
  - destruct Hloop as [s0 ->]; [| |done|done|apply qinv_global].
    + rewrite Hl. apply NoDup_fst_map_to_list.
    + intros k d Hin. rewrite Hl in Hin. apply elem_of_map_to_list in Hin. by eexists.
  - destruct Hloop as (Hsz' & Hgl' & _); [| |done|done|].
    + rewrite Hl. apply NoDup_fst_map_to_list.
    + intros k d Hin. rewrite Hl in Hin. apply elem_of_map_to_list in Hin. by eexists.
    + set (s1 := onQueue (set_timer None) s').
      pose proof (qcore_reset now2 order s1 Ho Hsz' Hgl') as [? Ht ?].
      apply qinv_signalled; [|done]. split; [done|exact Ht|done].
Qed.

Lemma qinv_step x y : qinv x → qstep x y → qinv y.
Proof.
  intros Hinv Hstep. destruct Hstep as [p s h|p s now1 now2 order k w d r Ho|p s id t Hid
    |p s now now2 l order Hf Hl Ho|p s|p s m|s Hw|s Hw|s|b s].
  - by apply qinv_Add.
  - by apply qinv_Schedule.
  - eapply qinv_quiet; [exact Hinv| |done..]. destruct (qinv_core _ Hinv) as [? Ht ?]. split; [done| |done].
    intros Hcl. right; left. cbn. lia.
  - by apply qinv_release.
  - unfold CloseQueue. destruct (eq_closed (qs_queue s)) eqn:Hcl; [done|].
    eapply qinv_quiet; [exact Hinv| |by rewrite stopTimer_queue..].
    destruct (qinv_core _ Hinv) as [? _ ?].
    split; rewrite ?stopTimer_queue; cbn; [done|done|done].
  - destruct Hinv as [? Hw Ht ?]. split; [done|intros Hd; by destruct (Hw Hd); [left|right]|exact Ht|done].
  - destruct Hinv as [? ? Ht ?]. split; [done|intros _; by right|exact Ht|done].
  - destruct Hinv as [? ? Ht ?]. split; [done|intros _; by right|exact Ht|done].
  - destruct Hinv as [Hsz _ Ht _]. split; cbn.
    + unfold dirtyCount in *. cbn in *. rewrite !map_size_empty. lia.
    + intros [?|[?|?]]; done.
    + exact Ht.
    + done.
  - destruct Hinv as [? Hw Ht ?]. split; try done. intros Hd. destruct (Hw Hd) as [?|?]; [by left|done].
Qed.

Lemma reachable_inv x : reachable x → qinv x.
Proof.
  induction 1 as [|x y _ IH Hs]; [|by eapply qinv_step].
  split; cbn; [| |by left|done].
  - unfold dirtyCount. cbn. rewrite !map_size_empty. unfold maxDirtyRoutes. lia.
  - intros [?|[?|?]]; done.
Qed.

(** ** Nothing is lost *)
Definition work_le (w w' : eventWork) : Prop :=
  (ew_allProviders w → ew_allProviders w') ∧ (ew_confirmRemoval w → ew_confirmRemoval w').
Definition user_le (w w' : eventUserWork) : Prop :=
  (uw_jitRetry w → uw_jitRetry w') ∧ (uw_confirmMembership w → uw_confirmMembership w').

Lemma work_le_merge_l w w' v : work_le w w' → work_le w (mergeWork w' v).
Proof. intros [H1 H2]. split; cbn; intros H; [apply H1 in H|apply H2 in H]; by apply orb_prop_intro; left. Qed.
Lemma work_le_merge_r w v : work_le w (mergeWork v w).
Proof. split; cbn; intros H; by apply orb_prop_intro; right. Qed.
Lemma user_le_merge_l w w' v : user_le w w' → user_le w (mergeUserWork w' v).
Proof. intros [H1 H2]. split; cbn; intros H; [apply H1 in H|apply H2 in H]; by apply orb_prop_intro; left. Qed.
Lemma user_le_merge_r w v : user_le w (mergeUserWork v w).
Proof. split; cbn; intros H; by apply orb_prop_intro; right. Qed.

(** The work a hint asks for. *)
Definition userWorkOf (h : Hint) : eventUserWork :=
  MkUserWork (String.eqb (hi_OperationType h) "LOGIN")
    (String.eqb (hi_OperationType h) "UPDATE" || String.eqb (hi_OperationType h) "DELETE").
Definition groupWorkOf (h : Hint) : eventWork :=
  MkWork (String.eqb (hi_ResourceType h) "GROUP")
    (negb (String.eqb (hi_ResourceType h) "GROUP") && String.eqb (hi_OperationType h) "DELETE").

(** A batch does what a hint asks for: under its key, or by a full repair. *)
Definition covers (h : Hint) (b : eventBatch) : Prop :=
  eb_globalRepair b = true ∨
  (hi_GlobalRepair h = false ∧ hi_UserKey h ≠ "" ∧
     ∃ w, eb_users b !! hi_UserKey h = Some w ∧ user_le (userWorkOf h) w) ∨
  (hi_GlobalRepair h = false ∧ hi_UserKey h = "" ∧ hi_GroupKey h ≠ "" ∧
     ∃ w, eb_groups b !! hi_GroupKey h = Some w ∧ work_le (groupWorkOf h) w).

Definition pending (h : Hint) (s : qstate) : Prop := covers h (fst (Drain s)).

(** An open queue in which nothing waits to be drained. *)
Record rested (q : eventQueue) : Prop := {
  re_open : eq_closed q = false;
  re_global : eq_global q = false;
  re_groups : eq_groups q = ∅;
  re_users : eq_users q = ∅;
  re_room : Z.of_nat (size (eq_delayed q)) < maxDirtyRoutes
}.

(** A hint that names a group and nothing else. *)
Definition namesGroup (h : Hint) (key : string) : Prop :=
  hi_GlobalRepair h = false ∧ hi_UserKey h = "" ∧ hi_GroupKey h = key ∧ key ≠ "".

(** Such a hint wakes the consumer of a rested queue, and is all that it drains. *)
Lemma hint_alone h key s : rested (qs_queue s) → namesGroup h key →
  let s1 := Add h s in
  eq_wake (qs_queue s1) = true ∧ (Drain (receiveWake s1)).1 = MkBatch {[key := groupWorkOf h]} ∅ false ∧
  rested (qs_queue (Drain (receiveWake s1)).2).
Proof.
  intros [Hc Hg Hgr Hu Hroom] (Hgl & Huk & Hgk & Hne%String.eqb_neq). cbn zeta. unfold Add.
  rewrite Hc, Hgl, Hg, Huk, Hgk, Hne, Hgr, (lookup_empty (M := gmap string)). cbn [negb String.eqb].
  set (s1 := onQueue _ s). assert (maxDirtyRoutes <? dirtyCount (qs_queue s1) = false) as ->.
  { apply Z.ltb_ge. unfold dirtyCount. cbn [qs_queue onQueue set_groups eq_groups eq_users eq_delayed s1].
    rewrite Hu, insert_empty, map_size_singleton, map_size_empty. lia. }
  split; [done|]. unfold Drain, receiveWake, signalLocked, s1. cbn. rewrite insert_empty, Hu, Hg. done.
Qed.

Lemma pending_global h s : eq_global (qs_queue s) = true → pending h s.
Proof. intros Hg. by left. Qed.

Lemma pending_globalLocked h s : pending h (globalLocked s).
Proof. apply pending_global. by rewrite globalLocked_queue. Qed.

Lemma pending_same h s s' :
  pending h s → eq_groups (qs_queue s') = eq_groups (qs_queue s) →
  eq_users (qs_queue s') = eq_users (qs_queue s) → eq_global (qs_queue s') = eq_global (qs_queue s) →
  pending h s'.
Proof. unfold pending, covers. cbn. by intros Hp -> -> ->. Qed.

Lemma pending_users h s k w w' :
  pending h s → (∀ v, eq_users (qs_queue s) !! k = Some v → w' = mergeUserWork v w) →
  pending h (onQueue (set_users (<[k := w']> (eq_users (qs_queue s)))) s).
Proof.
  intros [Hg|[(Hn & Hu & v & Hv & Hle)|Hgr]] Hk; [by left| |by right; right].
  right; left. split; [done|]. split; [done|]. cbn in *.
  destruct (decide (k = hi_UserKey h)) as [->|Hne].
  - exists w'. rewrite lookup_insert_eq. split; [done|]. rewrite (Hk v Hv). by apply user_le_merge_l.
  - exists v. by rewrite lookup_insert_ne.
Qed.

Lemma pending_groups h s k w w' :
  pending h s → (∀ v, eq_groups (qs_queue s) !! k = Some v → w' = mergeWork v w) →
  pending h (onQueue (set_groups (<[k := w']> (eq_groups (qs_queue s)))) s).
Proof.
  intros [Hg|[Hu|(Hn & Hu & Hgk & v & Hv & Hle)]] Hk; [by left|by right; left|].
  right; right. split; [done|]. split; [done|]. split; [done|]. cbn in *.
  destruct (decide (k = hi_GroupKey h)) as [->|Hne].
  - exists w'. rewrite lookup_insert_eq. split; [done|]. rewrite (Hk v Hv). by apply work_le_merge_l.
  - exists v. by rewrite lookup_insert_ne.
Qed.

(** A new hint is pending at once, and keeps what was. *)
Lemma pending_finish h s :
  pending h s → pending h (if maxDirtyRoutes <? dirtyCount (qs_queue s) then globalLocked s else signalLocked s).
Proof. intros Hp. destruct (_ <? _); [apply pending_globalLocked|exact Hp]. Qed.

Lemma pending_Add h h' s : pending h s → pending h (Add h' s).
Proof.
  intros Hp. unfold Add. destruct (eq_closed (qs_queue s)); [done|].
  destruct (hi_GlobalRepair h'); [apply pending_globalLocked|].
  destruct (eq_global (qs_queue s)); [exact Hp|].
  destruct (negb (String.eqb (hi_UserKey h') "")).
  { apply pending_finish. destruct (eq_users (qs_queue s) !! hi_UserKey h') as [c|] eqn:Hc.
    - refine (pending_users h s _ _ _ Hp _). intros v Hv. rewrite Hc in Hv. by injection Hv as ->.
    - refine (pending_users h s _ (MkUserWork false false) _ Hp _). intros v Hv. congruence. }
  destruct (negb (String.eqb (hi_GroupKey h') "")); [|apply pending_globalLocked].
  apply pending_finish. destruct (eq_groups (qs_queue s) !! hi_GroupKey h') as [c|] eqn:Hc.
  - refine (pending_groups h s _ _ _ Hp _). intros v Hv. rewrite Hc in Hv. by injection Hv as ->.
  - refine (pending_groups h s _ noWork _ Hp _). intros v Hv. congruence.
Qed.

Lemma Add_pending h s : eq_closed (qs_queue s) = false → pending h (Add h s).
Proof.
  intros Hcl. unfold Add. rewrite Hcl. destruct (hi_GlobalRepair h) eqn:Hg; [apply pending_globalLocked|].
  destruct (eq_global (qs_queue s)) eqn:Hgl; [by left|].
  destruct (String.eqb_spec (hi_UserKey h) "") as [Hu|Hu]; cbn [negb].
  - destruct (String.eqb_spec (hi_GroupKey h) "") as [Hk|Hk]; cbn [negb]; [apply pending_globalLocked|].
    apply pending_finish. right; right. split; [done|]. split; [done|]. split; [done|].
    destruct (eq_groups (qs_queue s) !! hi_GroupKey h); cbn; rewrite lookup_insert_eq;
      (eexists; split; [done|]); [apply work_le_merge_r|by split].
  - apply pending_finish. right; left. split; [done|]. split; [done|].
    destruct (eq_users (qs_queue s) !! hi_UserKey h); cbn; rewrite lookup_insert_eq;
      (eexists; split; [done|]); [apply user_le_merge_r|by split].
Qed.

Lemma pending_resetTimer h now l s : pending h s → pending h (resetTimerLocked now l s).
Proof.
  intros Hp. destruct (resetTimer_queue now l s) as [t Ht]. by eapply pending_same; [exact Hp|rewrite Ht..].
Qed.

Lemma pending_Schedule h now1 now2 order k w d r s :
  pending h s → pending h (ScheduleGroup now1 now2 order k w d r s).
Proof.
  intros Hp. unfold ScheduleGroup. destruct (eq_closed (qs_queue s)); [done|].
  destruct (eq_delayed (qs_queue s) !! delayedKey r k).
  - by apply pending_resetTimer.
  - destruct (_ <=? _); [apply pending_globalLocked|by apply pending_resetTimer].
Qed.

Lemma pending_releaseLoop h now l s : pending h s → pending h (snd (releaseLoop now l s)).
Proof.
  revert s. induction l as [|[k d] l IH]; intros s Hp; cbn [releaseLoop]; [done|].
  destruct (after (dw_due d) now); [by apply IH|].
  destruct (String.eqb (dw_reason d) "global"); [apply pending_globalLocked|].
  destruct (eq_global _); [by apply IH|]. apply IH.
  set (s1 := onQueue (λ q, set_delayed (delete k (eq_delayed q)) q) s).
  refine (pending_groups h s1 (dw_routeKey d) (dw_work d) _ Hp _). cbn. intros v ->. done.
Qed.

Lemma pending_release h now now2 l order s : pending h s → pending h (releaseDue now now2 l order s).
Proof.
  intros Hp. unfold releaseDue. destruct (eq_closed (qs_queue s)); [done|].
  pose proof (pending_releaseLoop h now l s Hp) as Hp'. destruct (releaseLoop now l s) as [[] s']; [done|].
  cbn in Hp'. by apply (pending_resetTimer h now2 _ (onQueue (set_timer None) s')).
Qed.

(** One step keeps a hint pending, or drains it in a batch that covers it. *)
Lemma pending_step h x y : pending h (snd x) → qstep x y →
  pending h (snd y) ∨ ∃ b, fst y = Working b ∧ covers h b.
Proof.
  intros Hp Hs. destruct Hs; cbn [snd] in *.
  - left. by apply pending_Add.
  - left. by apply pending_Schedule.
  - by left.
  - left. by apply pending_release.
  - left. unfold CloseQueue. destruct (eq_closed _); [done|].
    by eapply pending_same; [exact Hp|rewrite stopTimer_queue..].
  - by left.
  - by left.
  - by left.
  - right. eexists. split; [done|exact Hp].
  - by left.
Qed.

(** ** What [releaseDue] releases *)
Definition is_due (now : Time) (d : delayedWork) : bool := negb (after (dw_due d) now).
Definition is_global (d : delayedWork) : bool := String.eqb (dw_reason d) "global".

Lemma releaseLoop_global now l s :
  (∃ k d, (k, d) ∈ l ∧ is_due now d = true ∧ is_global d = true) →
  fst (releaseLoop now l s) = true ∧ ∃ s0, snd (releaseLoop now l s) = globalLocked s0.
Proof.
  unfold is_due, is_global. revert s. induction l as [|[k d] l IH]; intros s (k0 & d0 & Hin & Hdue & Hg).
  { by apply elem_of_nil in Hin. }
  cbn [releaseLoop]. apply elem_of_cons in Hin as [[= -> ->]|Hin].
  - apply negb_true_iff in Hdue. rewrite Hdue, Hg. split; [done|by eexists].
  - destruct (after (dw_due d) now); [by apply IH; exists k0, d0|].
    destruct (String.eqb (dw_reason d) "global"); [split; [done|by eexists]|].
    by apply IH; exists k0, d0.
Qed.

(** What the loop does to the queue when no global repair is due in [l]. *)
Record releases (now : Time) (l : list (string * delayedWork)) (q q' : eventQueue) : Prop := {
  rl_delayed k d : eq_delayed q' !! k = Some d ↔
    eq_delayed q !! k = Some d ∧ ¬ (∃ d', (k, d') ∈ l ∧ is_due now d' = true);
  rl_global : eq_global q' = eq_global q;
  rl_users : eq_users q' = eq_users q;
  rl_groups r v : eq_global q = false → eq_groups q !! r = Some v → ∃ w, eq_groups q' !! r = Some w ∧ work_le v w;
  rl_covered k d : eq_global q = false → (k, d) ∈ l → is_due now d = true →
    ∃ w, eq_groups q' !! dw_routeKey d = Some w ∧ work_le (dw_work d) w
}.

#[local] Instance work_le_preorder : PreOrder work_le.
Proof. split; [intros w; by split|]. intros u v w [? ?] [? ?]. split; tauto. Qed.

Lemma releases_nil now q : releases now [] q q.
Proof.
  split; try done.
  - intros k d. split; [intros ?; split; [done|by intros (? & ?%elem_of_nil & _)]|by intros []].
  - intros r v _ Hv. by exists v.
  - by intros k d _ ?%elem_of_nil.
Qed.

(** Work that is not due stays. *)
Lemma releases_skip now k0 d0 l q q' : is_due now d0 = false → releases now l q q' → releases now ((k0, d0) :: l) q q'.
Proof.
  intros Ha [H1 H2 H3 H4 H5]. split; [|done..|].
  - intros k d. rewrite H1. split; intros [Hl Hno]; (split; [done|]); intros (d' & Hin & Hd); apply Hno.
    + apply elem_of_cons in Hin as [[= -> ->]|Hin]; [by rewrite Ha in Hd|by exists d'].
    + exists d'. split; [by right|done].
  - intros k d Hg [[= -> ->]|Hin]%elem_of_cons Hd; [by rewrite Ha in Hd|by eapply H5].
Qed.

(** The queue once the due work [d] under [k] is moved to the groups. *)
Definition releaseOne (k : string) (d : delayedWork) (q : eventQueue) : eventQueue :=
  let q := set_delayed (delete k (eq_delayed q)) q in
  if eq_global q then q
  else set_groups (<[dw_routeKey d := mergeWork (default noWork (eq_groups q !! dw_routeKey d)) (dw_work d)]> (eq_groups q)) q.

Lemma releaseOne_same k d q : eq_delayed (releaseOne k d q) = delete k (eq_delayed q) ∧
  eq_global (releaseOne k d q) = eq_global q ∧ eq_users (releaseOne k d q) = eq_users q.
Proof. unfold releaseOne. cbn. destruct (eq_global q) eqn:E; cbn; by rewrite ?E. Qed.

Lemma releaseOne_groups k d q : eq_global q = false → eq_groups (releaseOne k d q) =
  <[dw_routeKey d := mergeWork (default noWork (eq_groups q !! dw_routeKey d)) (dw_work d)]> (eq_groups q).
Proof. intros Hg. unfold releaseOne. cbn [eq_global set_delayed]. by rewrite Hg. Qed.

Lemma releases_take now k0 d0 l q q' : is_due now d0 = true → releases now l (releaseOne k0 d0 q) q' →
  releases now ((k0, d0) :: l) q q'.
Proof.
  intros Ha [H1 H2 H3 H4 H5]. destruct (releaseOne_same k0 d0 q) as (Hdel & Hgl & Hus). rewrite Hgl in H2, H4, H5.
  assert (eq_global q = false → ∃ w, eq_groups q' !! dw_routeKey d0 = Some w ∧
    work_le (mergeWork (default noWork (eq_groups q !! dw_routeKey d0)) (dw_work d0)) w) as Hown.
  { intros Hg. apply H4; [done|]. by rewrite releaseOne_groups, lookup_insert_eq. }
  split; [|done|congruence|..].
  - intros k d. rewrite H1, Hdel, lookup_delete_Some. split.
    + intros [[Hne Hl] Hno]. split; [done|]. intros (d' & [[= ? ?]|Hin]%elem_of_cons & Hd); [done|].
      apply Hno. by exists d'.
    + intros [Hl Hno]. split; [split; [|done]|].
      * intros <-. apply Hno. exists d0. split; [by left|done].
      * intros (d' & Hin & Hd). apply Hno. exists d'. split; [by right|done].
  - intros r v Hg Hv. destruct (decide (r = dw_routeKey d0)) as [->|Hne].
    + destruct (Hown Hg) as (w & Hw & Hle). exists w. split; [done|]. etrans; [|exact Hle]. rewrite Hv. by apply work_le_merge_l.
    + apply H4; [done|]. by rewrite releaseOne_groups, lookup_insert_ne.
  - intros k d Hg [[= -> ->]|Hin]%elem_of_cons Hd; [|by eapply H5].
    destruct (Hown Hg) as (w & Hw & Hle). exists w. split; [done|]. etrans; [|exact Hle]. apply work_le_merge_r.
Qed.

Lemma releaseLoop_plain now l s :
  (∀ k d, (k, d) ∈ l → is_due now d = true → is_global d = false) →
  fst (releaseLoop now l s) = false ∧ releases now l (qs_queue s) (qs_queue (snd (releaseLoop now l s))).
Proof.
  revert s. induction l as [|[k0 d0] l IH]; intros s Hng; [split; [done|apply releases_nil]|].
  assert (∀ k d, (k, d) ∈ l → is_due now d = true → is_global d = false) as Hng' by (intros k d Hin; apply (Hng k d); by right).
  cbn [releaseLoop]. destruct (after (dw_due d0) now) eqn:Ha.
  - destruct (IH s Hng') as [H1 H2]. split; [done|]. apply releases_skip; [|done]. unfold is_due. by rewrite Ha.
  - assert (is_due now d0 = true) as Hdue by (unfold is_due; by rewrite Ha).
    pose proof (Hng k0 d0 ltac:(by left) Hdue) as Hg. unfold is_global in Hg. rewrite Hg. cbn zeta.
    match goal with |- context [releaseLoop now l ?x] => destruct (IH x Hng') as [H1 H2] end.
    split; [done|]. apply releases_take; [done|]. unfold releaseOne, onQueue in *. cbn in *. by destruct (eq_global (qs_queue s)).
Qed.

Lemma pending_steps h x y : rtc qstep x y → pending h (snd x) →
  pending h (snd y) ∨
  ∃ z b s', rtc qstep x z ∧ qstep z (Working b, s') ∧ covers h b ∧ rtc qstep (Working b, s') y.
Proof.
  induction 1 as [x|x z y Hxz Hzy IH]; intros Hp; [by left|].
  destruct (pending_step h x z Hp Hxz) as [Hpz|(b & Hb & Hc)].
  - destruct (IH Hpz) as [?|(z' & b & s' & H1 & H2 & H3 & H4)]; [by left|right].
    exists z', b, s'. split; [by eapply rtc_l|done].
  - right. destruct z as [pz sz]. cbn in Hb. subst pz. exists x, b, sz. split; [apply rtc_refl|done].
Qed.

Lemma reachable_steps x y : reachable x → rtc qstep x y → reachable y.
Proof. intros Hx. induction 1 as [|x z y Hxz _ IH]; [done|]. apply IH. by eapply reach_step. Qed.

(** ** Properties *)

(** [C23] The queue is bounded and wakes its consumer: in every reachable state
    at most 10000 keys are dirty or delayed; if any work is waiting then a
    wake-up is pending or the consumer is already about to drain; and while the
    queue is open, delayed work always has an armed or fired timer. *)
Theorem queue_invariant x : reachable x →
  dirtyCount (qs_queue (snd x)) ≤ maxDirtyRoutes ∧
  (dirty (qs_queue (snd x)) → awake x) ∧
  (eq_closed (qs_queue (snd x)) = false → timed (snd x)).
Proof. intros Hx. destruct (reachable_inv x Hx). done. Qed.

Definition demoHint : Hint := MkHint "GROUP_MEMBERSHIP" "DELETE" "k1" "" false.
Definition queueDemo : phase * qstate := (Waiting, Add demoHint (snd qinit)).

Lemma queue_invariant_witness : dirty (qs_queue (snd queueDemo)) ∧ awake queueDemo.
Proof.
  assert (dirty (qs_queue (snd queueDemo))) as Hd by (left; vm_compute; discriminate).
  split; [exact Hd|].
  refine (proj1 (proj2 (queue_invariant queueDemo _)) Hd).
  apply (reach_step qinit); [apply reach_init|apply step_add].
Defined.

(** [C10] No hint is lost: once an open queue has taken a hint, then after any
    steps of producers, timers and consumer it is still pending, with the
    consumer's wake-up on its way, or has been drained in a batch that covers
    it, by its key with at least the work it asked for or by a full repair. *)
Theorem hint_never_lost h p s y :
  reachable (p, s) → eq_closed (qs_queue s) = false → rtc qstep (p, Add h s) y →
  (pending h (snd y) ∧ (dirty (qs_queue (snd y)) → awake y)) ∨
  ∃ z b s', rtc qstep (p, Add h s) z ∧ qstep z (Working b, s') ∧ covers h b ∧ rtc qstep (Working b, s') y.
Proof.
  intros Hreach Hcl Hsteps.
  assert (reachable y) as Hy.
  { eapply reachable_steps; [|exact Hsteps]. eapply reach_step; [exact Hreach|apply step_add]. }
  destruct (pending_steps h _ y Hsteps (Add_pending h s Hcl)) as [Hp|Hd]; [left|by right].
  split; [done|]. by destruct (reachable_inv y Hy).
Qed.

Definition demoDrained : phase * qstate :=
  (Working (fst (Drain (receiveWake (Add demoHint (snd qinit))))), snd (Drain (receiveWake (Add demoHint (snd qinit))))).

Lemma hint_never_lost_witness :
  (pending demoHint (snd demoDrained) ∧ (dirty (qs_queue (snd demoDrained)) → awake demoDrained)) ∨
  ∃ z b s', rtc qstep queueDemo z ∧ qstep z (Working b, s') ∧ covers demoHint b ∧
            rtc qstep (Working b, s') demoDrained.
Proof.
  apply (hint_never_lost demoHint Waiting (snd qinit) demoDrained).
  - apply reach_init.
  - reflexivity.
  - eapply rtc_l; [apply step_wake; reflexivity|]. eapply rtc_l; [apply step_drain|apply rtc_refl].
Defined.

(** Delayed work is released exactly when it is due: when [releaseDue] runs
    on an open queue, whatever order it ranges in, either a global repair was
    due and everything is replaced by one full repair, or the entries that
    remain delayed are exactly those not due yet, every released entry is
    covered by the dirty work under its route key (unless a full repair is
    already pending), nothing dirty is dropped, and the consumer is signalled. *)
Theorem release_due_exact now now2 l order s :
  eq_closed (qs_queue s) = false → l ≡ₚ map_to_list (eq_delayed (qs_queue s)) →
  let q := qs_queue s in let q' := qs_queue (releaseDue now now2 l order s) in
  eq_wake q' = true ∧
  if decide (Exists (λ kd, is_due now kd.2 && is_global kd.2 = true) l)
  then eq_global q' = true ∧ eq_delayed q' = ∅
  else (∀ k d, eq_delayed q' !! k = Some d ↔ eq_delayed q !! k = Some d ∧ is_due now d = false) ∧
       eq_global q' = eq_global q ∧ eq_users q' = eq_users q ∧
       (eq_global q = false →
          (∀ r v, eq_groups q !! r = Some v → ∃ w, eq_groups q' !! r = Some w ∧ work_le v w) ∧
          (∀ k d, eq_delayed q !! k = Some d → is_due now d = true →
             ∃ w, eq_groups q' !! dw_routeKey d = Some w ∧ work_le (dw_work d) w)).
Proof.
  intros Hcl Hl. cbv zeta. unfold releaseDue. rewrite Hcl.
  assert (∀ k d, (k, d) ∈ l ↔ eq_delayed (qs_queue s) !! k = Some d) as Hin.
  { intros k d. by rewrite Hl, elem_of_map_to_list. }
  case_decide as Hg.
  - destruct (releaseLoop_global now l s) as [H1 [s0 H2]].
    { apply Exists_exists in Hg as ([k d] & Hkd & Hb). apply andb_true_iff in Hb as [? ?]. by exists k, d. }
    destruct (releaseLoop now l s) as [stopped s']. cbn in H1, H2. subst.
    by rewrite globalLocked_queue.
  - destruct (releaseLoop_plain now l s) as [H1 R].
    { intros k d Hkd Hdue. apply not_true_iff_false. intros Hgl. apply Hg, Exists_exists.
      exists (k, d). split; [done|]. cbn. by rewrite Hdue, Hgl. }
    destruct (releaseLoop now l s) as [stopped s']. cbn in H1, R. subst stopped.
    set (s1 := onQueue (set_timer None) s').
    destruct (resetTimer_queue now2 (order (values (eq_delayed (qs_queue s1)))) s1) as [t Ht].
    assert (qs_queue (signalLocked (resetTimerLocked now2 (order (values (eq_delayed (qs_queue s1)))) s1)) =
      MkQueue (eq_groups (qs_queue s')) (eq_users (qs_queue s')) (eq_global (qs_queue s')) true
        (eq_delayed (qs_queue s')) t (eq_closed (qs_queue s'))) as Hq.
    { unfold signalLocked, onQueue. cbn [qs_queue]. by rewrite Ht. }
    cbv beta iota zeta. fold s1. rewrite Hq. cbn [eq_wake eq_delayed eq_global eq_users eq_groups].
    destruct R as [R1 R2 R3 R4 R5]. split; [done|]. split_and!; [|done|done|].
    + intros k d. rewrite R1. split.
      * intros [Hk Hno]. split; [done|]. apply not_true_iff_false. intros Hd. apply Hno. exists d. by rewrite Hin.
      * intros [Hk Hd]. split; [done|]. intros (d' & Hd'%Hin & Hdue). congruence.
    + intros Hgf. split; [intros r v; by apply R4|]. intros k d Hk. apply (R5 k d Hgf). by apply Hin.
Qed.

Definition demoDelayed : qstate :=
  ScheduleGroup (unix 100) (unix 100) id "k1" (MkWork true false) membershipConfirmDelay
    "membership-confirmation" (snd qinit).

Lemma release_due_exact_witness :
  eq_wake (qs_queue (releaseDue (unix 102) (unix 102)
    (map_to_list (eq_delayed (qs_queue demoDelayed))) id demoDelayed)) = true.
Proof.
  refine (proj1 (release_due_exact (unix 102) (unix 102)
    (map_to_list (eq_delayed (qs_queue demoDelayed))) id demoDelayed _ _)).
  - vm_compute. reflexivity.
  - reflexivity.
Defined.
