(* ===== verification/Trigger.v ===== *)
(** * Gathering a burst of wake-ups ([internal/reconcile/trigger.go])

    [waitForTriggerBurst] as a transition system: time passes while the select
    blocks, which it does only until the nearer timer expires; a ready case may
    be taken in any order.  Times are nanoseconds. *)

From S2P Require Import Prelude.

Record burst : Type := MkBurst
  { b_now : Z; b_settleAt : Z; b_maxAt : Z; b_received : list Z }.

(** What the wait reacts to. *)
Inductive burstEvent : Type := BElapse (t : Z) | BTrigger.
Inductive burstEnd : Type := BDone | BStop | BMaximum | BSettle | BClosed.

Section wait.
Context (settleWindow maxDelay : Z).

Definition burstStart (now : Z) : burst := MkBurst now (now + settleWindow) (now + maxDelay) [].

(** One iteration of the loop that does not return. *)
Definition burstStep (e : burstEvent) (b : burst) : option burst :=
  match e with
  | BElapse t =>
      if (b_now b <=? t) && (t <=? Z.min (b_settleAt b) (b_maxAt b))
      then Some (MkBurst t (b_settleAt b) (b_maxAt b) (b_received b)) else None
  | BTrigger =>
      Some (MkBurst (b_now b) (b_now b + settleWindow) (b_maxAt b) (b_received b ++ [b_now b]))
  end.

(** The cases that return, with what they return. *)
Definition burstReturn (e : burstEnd) (b : burst) : option bool :=
  match e with
  | BDone | BStop => Some false
  | BClosed => Some true
  | BMaximum => if b_maxAt b <=? b_now b then Some true else None
  | BSettle => if b_settleAt b <=? b_now b then Some true else None
  end.

Fixpoint burstRun (es : list burstEvent) (b : burst) : option burst :=
  match es with
  | [] => Some b
  | e :: es => b' ← burstStep e b; burstRun es b'
  end.

(** [waitForTriggerBurst]: the events seen, then the case that returns; the
    result and the time of the return. *)
Definition waitForTriggerBurst (now : Z) (es : list burstEvent) (last : burstEnd) : option (bool * Z) :=
  b ← burstRun es (burstStart now);
  r ← burstReturn last b;
  Some (r, b_now b).

(** ** Facts *)
Record burst_ok (start : Z) (b : burst) : Prop := {
  bo_now : start ≤ b_now b ≤ start + maxDelay;
  bo_settle : b_now b ≤ b_settleAt b;
  bo_max : b_maxAt b = start + maxDelay;
  bo_last : b_settleAt b = match last (b_received b) with Some t => t | None => start end + settleWindow;
  bo_received : Forall (λ t, start ≤ t ≤ b_now b) (b_received b)
}.

Lemma burst_ok_start now : 0 ≤ settleWindow → 0 ≤ maxDelay → burst_ok now (burstStart now).
Proof. intros. split; cbn; try lia. constructor. Qed.

Lemma burst_ok_step start e b b' : 0 ≤ settleWindow →
  burst_ok start b → burstStep e b = Some b' → burst_ok start b'.
Proof.
  intros Hs [Hn Hse Hm Hl Hr] Hstep. destruct e as [t|]; cbn in Hstep.
  - destruct (Z.leb_spec (b_now b) t), (Z.leb_spec t (Z.min (b_settleAt b) (b_maxAt b))); try done.
    injection Hstep as <-. split; cbn; try done; try lia.
    eapply Forall_impl; [exact Hr|]. cbn. lia.
  - injection Hstep as <-. split; cbn; try done; try lia.
    + by rewrite last_snoc.
    + apply Forall_app. split; [done|]. constructor; [lia|constructor].
Qed.

Lemma burst_ok_run start es b b' : 0 ≤ settleWindow →
  burst_ok start b → burstRun es b = Some b' → burst_ok start b'.
Proof.
  intros Hs. revert b. induction es as [|e es IH]; intros b Hb Hrun; cbn in Hrun; [by injection Hrun as <-|].
  destruct (burstStep e b) as [b1|] eqn:He; [|done]. cbn in Hrun.
  eapply IH; [|exact Hrun]. by eapply burst_ok_step.
Qed.
End wait.

(** [C39] Bounded delay: however many wake-ups keep arriving, the wait returns at
    most [maxDelay] after it began; when it returns because the window settled,
    a full settle window has passed without a wake-up; and it can always make
    progress: some timer case is ready, or time can pass up to the nearer
    deadline. *)
Theorem burst_bounded settleWindow maxDelay now es b :
  0 ≤ settleWindow → 0 ≤ maxDelay → burstRun settleWindow es (burstStart settleWindow maxDelay now) = Some b →
  now ≤ b_now b ≤ now + maxDelay ∧
  (burstReturn BSettle b = Some true → Forall (λ t, t + settleWindow ≤ b_now b) (b_received b)) ∧
  (burstReturn BSettle b = Some true ∨ burstReturn BMaximum b = Some true ∨
   ∃ t b', b_now b < t ∧ burstStep settleWindow (BElapse t) b = Some b' ∧
     (burstReturn BSettle b' = Some true ∨ burstReturn BMaximum b' = Some true)).
Proof.
  intros Hs Hm Hrun. pose proof (burst_ok_run _ _ now es _ b Hs (burst_ok_start _ _ now Hs Hm) Hrun) as Hok.
  pose proof Hok as [Hn Hse Hmx Hl Hr].
  split; [done|]. split.
  - cbn. destruct (Z.leb_spec (b_settleAt b) (b_now b)) as [Hle|]; [|done]. intros _.
    destruct (last (b_received b)) as [t|] eqn:Hlast.
    + clear -Hl Hle Hlast Hrun Hs Hm.
      assert (∀ es b0 b1, burstRun settleWindow es b0 = Some b1 →
        Forall (λ t, t ≤ b_now b0) (b_received b0) →
        StronglySorted Z.le (b_received b0) → StronglySorted Z.le (b_received b1)) as Hsort.
      { clear. induction es as [|e es IH]; intros b0 b1 Hr Hb Hs; cbn in Hr; [by injection Hr as <-|].
        destruct (burstStep settleWindow e b0) as [b2|] eqn:He; [|done]. cbn in Hr.
        eapply IH; [exact Hr| |]; destruct e as [t|]; cbn in He.
        - destruct (Z.leb_spec (b_now b0) t), (Z.leb_spec t (Z.min (b_settleAt b0) (b_maxAt b0))); try done.
          injection He as <-. cbn. eapply Forall_impl; [exact Hb|]. cbn. lia.
        - injection He as <-. cbn. apply Forall_app. split; [done|]. by repeat constructor.
        - destruct (_ && _) in He; [|done]. by injection He as <-.
        - injection He as <-. cbn. apply StronglySorted_app. split_and!; [|done|by repeat constructor].
          intros x y Hx ->%list_elem_of_singleton. rewrite Forall_forall in Hb. by apply Hb. }
      pose proof (Hsort es _ b Hrun ltac:(constructor) ltac:(constructor)) as Hss.
      apply last_Some in Hlast as [l Hl']. rewrite Hl' in Hss |- *.
      apply StronglySorted_app in Hss as (Hall & _ & _).
      apply Forall_app. split; [|constructor; [lia|constructor]].
      apply Forall_forall. intros x Hx. specialize (Hall x t Hx). set_solver by lia.
    + apply last_None in Hlast. rewrite Hlast. constructor.
  - cbn. destruct (Z.leb_spec (b_settleAt b) (b_now b)); [by left|].
    destruct (Z.leb_spec (b_maxAt b) (b_now b)); [by right; left|]. right; right.
    exists (Z.min (b_settleAt b) (b_maxAt b)). eexists. split; [lia|].
    rewrite (proj2 (Z.leb_le (b_now b) _)) by lia. rewrite Z.leb_refl. split; [done|]. cbn.
    destruct (Z.leb_spec (b_settleAt b) (Z.min (b_settleAt b) (b_maxAt b))); [by left|right].
    by rewrite (proj2 (Z.leb_le (b_maxAt b) _)) by lia.
Qed.

Lemma burst_bounded_witness :
  let es := [BElapse 150; BTrigger; BElapse 300; BTrigger; BElapse 450; BTrigger; BElapse 500] in
  waitForTriggerBurst 200 500 0 es BMaximum = Some (true, 500) ∧ 0 ≤ 500 ≤ 0 + 500.
Proof.
  cbv zeta. split; [reflexivity|].
  refine (proj1 (burst_bounded 200 500 0
    [BElapse 150; BTrigger; BElapse 300; BTrigger; BElapse 450; BTrigger; BElapse 500]
    (MkBurst 500 650 500 [150; 300; 450]) _ _ _)); [lia|lia|reflexivity].
Defined.
