(* ===== verification/GitLab.v ===== *)
(** * The GitLab provider ([internal/provider/gitlab/client.go])

    Each method of [Client] runs over [GL]: the client's cached identity, the
    ownership ledger and the outside.  Query strings are lists of pairs, JSON
    bodies are parsed documents, and the loop over the pages of a member list
    takes the number of pages it may read. *)

From S2P Require Import Prelude GoStrings Sha256 GoTime Json World State Model Credential Config Paths.

Definition apiPageSize : Z := 100.
Definition ownerLevel : Z := 50.

(** [accessLevels[name]]: a missing name gives zero. *)
Definition accessLevels (name : string) : Z :=
  if String.eqb name "guest" then 10
  else if String.eqb name "planner" then 15
  else if String.eqb name "reporter" then 20
  else if String.eqb name "developer" then 30
  else if String.eqb name "maintainer" then 40
  else 0.

Record Client : Type := MkClient
  { c_name : string;
    c_baseURL : string;
    c_token : Loader;
    c_resolverToken : Loader;
    c_oidcProvider : string;
    c_ownershipKey : string }.

(** [strings.TrimRight(s, "/")]. *)
Definition trimRightSlash (s : string) : string := trimRight isSlash s.

Definition ownershipKey (name baseURL : string) : string :=
  name +:+ "@" +:+ hexEncode (String.substring 0 8 (sha256 (trimRightSlash (toLower baseURL)))).

Definition NewWithCredentials (name baseURL : string) (token resolverToken : Loader)
    (oidcProvider : string) : Client :=
  MkClient name (trimRightSlash baseURL) token resolverToken oidcProvider (ownershipKey name baseURL).

(** ** API objects *)
Record group : Type := MkGLGroup { gg_ID : Z; gg_Name : string; gg_Path : string; gg_FullPath : string }.

Record member : Type := MkMember
  { m_ID : Z; m_Username : string; m_AccessLevel : Z; m_MemberRoleID : option Z }.

Record identity : Type := MkIdentity { i_Provider : string; i_ExternUID : string }.

Record user : Type := MkGLUser
  { gu_ID : Z; gu_Username : string; gu_Email : string; gu_State : string; gu_Identities : list identity }.

Definition noGroup : group := MkGLGroup 0 "" "" "".
Definition noMember : member := MkMember 0 "" 0 None.
Definition noUser : user := MkGLUser 0 "" "" "" [].

Definition decGroup : json → option group :=
  decStruct (λ '(MkGLGroup i n p f) k v,
    if field k "id" then x ← decInt i v; Some (MkGLGroup x n p f)
    else if field k "name" then x ← decString n v; Some (MkGLGroup i x p f)
    else if field k "path" then x ← decString p v; Some (MkGLGroup i n x f)
    else if field k "full_path" then x ← decString f v; Some (MkGLGroup i n p x)
    else Some (MkGLGroup i n p f)) noGroup.

Definition decMember : json → option member :=
  decStruct (λ '(MkMember i u a r) k v,
    if field k "id" then x ← decInt i v; Some (MkMember x u a r)
    else if field k "username" then x ← decString u v; Some (MkMember i x a r)
    else if field k "access_level" then x ← decInt a v; Some (MkMember i u x r)
    else if field k "member_role_id" then x ← decIntPtr v; Some (MkMember i u a x)
    else Some (MkMember i u a r)) noMember.

Definition decIdentity : json → option identity :=
  decStruct (λ '(MkIdentity p e) k v,
    if field k "provider" then x ← decString p v; Some (MkIdentity x e)
    else if field k "extern_uid" then x ← decString e v; Some (MkIdentity p x)
    else Some (MkIdentity p e)) (MkIdentity "" "").

Definition decUser : json → option user :=
  decStruct (λ '(MkGLUser i u e s ids) k v,
    if field k "id" then x ← decInt i v; Some (MkGLUser x u e s ids)
    else if field k "username" then x ← decString u v; Some (MkGLUser i x e s ids)
    else if field k "email" then x ← decString e v; Some (MkGLUser i u x s ids)
    else if field k "state" then x ← decString s v; Some (MkGLUser i u e x ids)
    else if field k "identities" then x ← decList decIdentity v; Some (MkGLUser i u e s x)
    else Some (MkGLUser i u e s ids)) noUser.

Definition hasIdentity (candidate : user) (provider externUID : string) : bool :=
  existsb (λ id, String.eqb (i_Provider id) provider && String.eqb (i_ExternUID id) externUID)
    (gu_Identities candidate).

(** ** The world of the client *)
Record GL (S : Type) : Type := MkGL
  { gl_identityID : Z; gl_identityTokenHash : string; gl_store : Store; gl_sys : Sys S }.
Arguments MkGL {S} _ _ _ _.
Arguments gl_identityID {S} _.
Arguments gl_identityTokenHash {S} _.
Arguments gl_store {S} _.
Arguments gl_sys {S} _.

#[export] Program Instance lens_gl_sys S : Lens (GL S) (Sys S) :=
  {| view := gl_sys; update s w := MkGL (gl_identityID w) (gl_identityTokenHash w) (gl_store w) s |}.
Next Obligation. done. Qed.
Next Obligation. by intros S []. Qed.
Next Obligation. done. Qed.

#[export] Program Instance lens_gl_store S : Lens (GL S) (Store * Sys S) :=
  {| view w := (gl_store w, gl_sys w);
     update v w := MkGL (gl_identityID w) (gl_identityTokenHash w) (fst v) (snd v) |}.
Next Obligation. by intros S []. Qed.
Next Obligation. by intros S []. Qed.
Next Obligation. done. Qed.

(** ** Results under construction *)
Definition set_created (b : bool) (r : Result) : Result :=
  MkResult (r_Provider r) (r_SourceGroup r) (r_TargetGroup r) b (r_Added r) (r_Updated r) (r_Removed r)
    (r_Unresolved r) (r_SkippedRemoval r) (r_Converged r) (r_Duration r).
Definition add_added (r : Result) : Result :=
  MkResult (r_Provider r) (r_SourceGroup r) (r_TargetGroup r) (r_CreatedGroup r) (r_Added r + 1) (r_Updated r)
    (r_Removed r) (r_Unresolved r) (r_SkippedRemoval r) (r_Converged r) (r_Duration r).
Definition add_updated (r : Result) : Result :=
  MkResult (r_Provider r) (r_SourceGroup r) (r_TargetGroup r) (r_CreatedGroup r) (r_Added r) (r_Updated r + 1)
    (r_Removed r) (r_Unresolved r) (r_SkippedRemoval r) (r_Converged r) (r_Duration r).
Definition add_removed (r : Result) : Result :=
  MkResult (r_Provider r) (r_SourceGroup r) (r_TargetGroup r) (r_CreatedGroup r) (r_Added r) (r_Updated r)
    (r_Removed r + 1) (r_Unresolved r) (r_SkippedRemoval r) (r_Converged r) (r_Duration r).
Definition add_unresolved (r : Result) : Result :=
  MkResult (r_Provider r) (r_SourceGroup r) (r_TargetGroup r) (r_CreatedGroup r) (r_Added r) (r_Updated r)
    (r_Removed r) (r_Unresolved r + 1) (r_SkippedRemoval r) (r_Converged r) (r_Duration r).
Definition add_skipped (r : Result) : Result :=
  MkResult (r_Provider r) (r_SourceGroup r) (r_TargetGroup r) (r_CreatedGroup r) (r_Added r) (r_Updated r)
    (r_Removed r) (r_Unresolved r) (r_SkippedRemoval r + 1) (r_Converged r) (r_Duration r).
Definition set_converged (b : bool) (r : Result) : Result :=
  MkResult (r_Provider r) (r_SourceGroup r) (r_TargetGroup r) (r_CreatedGroup r) (r_Added r) (r_Updated r)
    (r_Removed r) (r_Unresolved r) (r_SkippedRemoval r) b (r_Duration r).
Definition set_duration (d : Z) (r : Result) : Result :=
  MkResult (r_Provider r) (r_SourceGroup r) (r_TargetGroup r) (r_CreatedGroup r) (r_Added r) (r_Updated r)
    (r_Removed r) (r_Unresolved r) (r_SkippedRemoval r) (r_Converged r) d.

Section client.
Context {S : Type} `{Env S} (c : Client).
Notation MG := (M (GL S) err).

(** ** Requests *)

(** What a request asks for: its method, path, query and body. *)
Record call : Type := MkCall
  { cl_method : string; cl_path : string; cl_query : list (string * string); cl_body : payload }.

Definition hasBody (p : payload) : bool := match p with BNone => false | _ => true end.

Definition requestOf (token : string) (x : call) : HttpReq :=
  MkReq (cl_method x) (c_baseURL c +:+ cl_path x) (cl_query x)
    ([("PRIVATE-TOKEN", token); ("Accept", "application/json"); ("User-Agent", "GroupBridge/1")] ++
     (if hasBody (cl_body x) then [("Content-Type", "application/json")] else []))
    (cl_body x).

(** [requestWithToken]; [dst] is how the body is decoded and the destination's
    initial value, or [None] when the body is discarded. *)
Definition requestWithToken {A} (token : string) (x : call) (init : A) (dst : option (json → option A))
    : MG (Z * list (string * string) * A) :=
  o ← zoom (httpDo (requestOf token x));
  match o with
  | Err e => mthrow (httpErr "build GitLab request" "call GitLab" e)
  | Ok resp =>
      if negb (is2xx (rs_status resp)) then mret (rs_status resp, rs_header resp, init)
      else match dst with
           | Some dec =>
               if rs_status resp =? 204 then mret (rs_status resp, rs_header resp, init)
               else match rs_body resp ≫= dec with
                    | Some a => mret (rs_status resp, rs_header resp, a)
                    | None => mthrow (EMsg "decode GitLab response")
                    end
           | None => mret (rs_status resp, rs_header resp, init)
           end
  end.

Definition request {A} (x : call) (init : A) (dst : option (json → option A))
    : MG (Z * list (string * string) * A) :=
  token ← wrap_err (EWrap "load GitLab mutation credential") (zoom (W := GL S) (V := Sys S) (Load (c_token c)));
  requestWithToken token x init dst.

Definition groupPath (fullPath : string) : string := "/api/v4/groups/" +:+ pathEscape fullPath.
Definition membersPath (groupID : Z) : string := "/api/v4/groups/" +:+ itoa groupID +:+ "/members".
Definition memberPath (groupID userID : Z) : string := membersPath groupID +:+ "/" +:+ itoa userID.

Definition getGroup (fullPath : string) : MG (option group) :=
  '(status, _, g) ← request (MkCall "GET" (groupPath fullPath) [] BNone) noGroup (Some decGroup);
  if status =? 404 then mret None
  else if negb (is2xx status) then mthrow (EMsg "GitLab groups API returned an error")
  else mret (Some g).

Definition createGroup (segment : string) (parent : option group) : MG group :=
  let body := [("name", encString segment); ("path", encString segment); ("visibility", JStr "private")] ++
    match parent with Some p => [("parent_id", JInt (gg_ID p))] | None => [] end in
  '(status, _, g) ← request (MkCall "POST" "/api/v4/groups" [] (BJson (JObj body))) noGroup (Some decGroup);
  if negb (is2xx status) then mthrow (EMsg "GitLab groups API returned an error") else mret g.

(** The pages of the member list from [page] on; at most [fuel] of them. *)
Fixpoint listMembersFrom (fuel : nat) (groupID page : Z) (all : list member) : MG (list member) :=
  match fuel with
  | O => mthrow EFuel
  | Datatypes.S fuel =>
      '(status, headers, batch) ← request
        (MkCall "GET" (membersPath groupID) [("page", itoa page); ("per_page", itoa apiPageSize)] BNone)
        [] (Some (decList decMember));
      if negb (is2xx status) then mthrow (EMsg "GitLab group members API returned an error")
      else
        let all := all ++ batch in
        if String.eqb (headerGet headers "X-Next-Page") "" then mret all
        else listMembersFrom fuel groupID (page + 1) all
  end.

Definition listMembers (fuel : nat) (groupID : Z) : MG (list member) := listMembersFrom fuel groupID 1 [].

(** The query of one identity strategy, or [None] when it does not apply. *)
Definition identityQuery (source : User) (f : string) : option (list (string * string)) :=
  if String.eqb f "oidc" then
    if String.eqb (u_ID source) "" || String.eqb (c_oidcProvider c) "" then None
    else Some [("extern_uid", u_ID source); ("provider", c_oidcProvider c)]
  else if String.eqb f "oidc-username" then
    if String.eqb (u_Username source) "" || String.eqb (c_oidcProvider c) "" then None
    else Some [("extern_uid", u_Username source); ("provider", c_oidcProvider c)]
  else if String.eqb f "username" then
    if String.eqb (u_Username source) "" then None else Some [("username", u_Username source)]
  else if String.eqb f "email" then
    if String.eqb (u_Email source) "" then None else Some [("search", u_Email source)]
  else None.

(** The exact match each strategy demands of a returned user. *)
Definition identityMatches (source : User) (f : string) (candidate : user) : bool :=
  (String.eqb f "oidc" && hasIdentity candidate (c_oidcProvider c) (u_ID source)) ||
  (String.eqb f "oidc-username" && hasIdentity candidate (c_oidcProvider c) (u_Username source)) ||
  (String.eqb f "username" && equalFold (gu_Username candidate) (u_Username source)) ||
  (String.eqb f "email" && equalFold (gu_Email candidate) (u_Email source)).

Fixpoint findUserLoop (source : User) (match_ : list string) : MG (option user) :=
  match match_ with
  | [] => mret None
  | f :: rest =>
      match identityQuery source f with
      | None => findUserLoop source rest
      | Some query =>
          token ← wrap_err (EWrap "load GitLab resolver credential")
                    (zoom (W := GL S) (V := Sys S) (Load (c_resolverToken c)));
          '(status, _, users) ← requestWithToken token
            (MkCall "GET" "/api/v4/users" (query ++ [("per_page", itoa apiPageSize)]) BNone)
            [] (Some (decList decUser));
          if negb (is2xx status) then mthrow (EMsg "GitLab users API returned an error")
          else
            match List.filter (identityMatches source f) users with
            | [] => findUserLoop source rest
            | [u] => mret (Some u)
            | _ => mthrow (EMsg "GitLab returned several exact identity matches")
            end
      end
  end.

Definition findUser (source : User) (match_ : list string) : MG (option user) :=
  if bool_decide (1 < length match_)%nat && inList "oidc-username" match_
  then mthrow (EMsg "oidc-username must be the only identity match strategy")
  else findUserLoop source match_.

Definition addMember (groupID userID level : Z) : MG unit :=
  '(status, _, _) ← request
    (MkCall "POST" (membersPath groupID) [] (BJson (JObj [("user_id", JInt userID); ("access_level", JInt level)])))
    tt None;
  if negb (is2xx status) then mthrow (EMsg "GitLab group members API returned an error") else mret tt.

Definition getMember (groupID userID : Z) : MG (option member) :=
  '(status, _, m) ← request (MkCall "GET" (memberPath groupID userID) [] BNone) noMember (Some decMember);
  if status =? 404 then mret None
  else if negb (is2xx status) then mthrow (EMsg "GitLab group member API returned an error")
  else mret (Some m).

Definition updateMember (groupID userID level : Z) : MG unit :=
  '(status, _, _) ← request
    (MkCall "PUT" (memberPath groupID userID) [] (BJson (JObj [("access_level", JInt level)]))) tt None;
  if negb (is2xx status) then mthrow (EMsg "GitLab group members API returned an error") else mret tt.

Definition removeQuery : list (string * string) :=
  [("skip_subresources", "true"); ("unassign_issuables", "false")].

Definition removeMember (groupID userID : Z) : MG unit :=
  '(status, _, _) ← request (MkCall "DELETE" (memberPath groupID userID) removeQuery BNone) tt None;
  if negb (status =? 404) && negb (is2xx status)
  then mthrow (EMsg "GitLab group members API returned an error") else mret tt.

Definition setIdentity (id : Z) (hash : string) : MG unit :=
  modify (λ w, MkGL id hash (gl_store w) (gl_sys w)).

Definition currentIdentity : MG Z :=
  token ← wrap_err (EWrap "load GitLab mutation credential") (zoom (W := GL S) (V := Sys S) (Load (c_token c)));
  let tokenHash := sha256 token in
  cached ← gets (λ w, (gl_identityID w, gl_identityTokenHash w));
  if negb (cached.1 =? 0) && String.eqb cached.2 tokenHash then mret cached.1
  else
    '(status, _, current) ← requestWithToken token (MkCall "GET" "/api/v4/user" [] BNone) noUser (Some decUser);
    if negb (is2xx status) || (gu_ID current =? 0) then mthrow (EMsg "GitLab current-user API returned an error")
    else
      setIdentity (gu_ID current) tokenHash;;
      mret (gu_ID current).

Definition HealthCheck : MG unit := _ ← currentIdentity; mret tt.

(** ** Group provisioning *)

(** The loop that creates the missing segments, from index [i] on. *)
Fixpoint ensureSegments (done rest : list string) (current : option group) (createdAny : bool)
    : MG (option group * bool) :=
  match rest with
  | [] => mret (current, createdAny)
  | seg :: rest =>
      let candidatePath := join "/" (done ++ [seg]) in
      found ← getGroup candidatePath;
      match found with
      | Some g => ensureSegments (done ++ [seg]) rest (Some g) createdAny
      | None =>
          created ← wrap_err (EWrap "create GitLab group") (createGroup seg current);
          ensureSegments (done ++ [seg]) rest (Some created) true
      end
  end.

Definition ensureGroup (fullPath parentPath : string) (create : bool) : MG (group * bool) :=
  let fullPath := trimSlash fullPath in
  let parentPath := trimSlash parentPath in
  if String.eqb fullPath "" then mthrow (EMsg "target group path is empty")
  else if negb (String.eqb parentPath "") && negb (String.eqb fullPath parentPath) &&
          negb (hasPrefix fullPath (parentPath +:+ "/"))
  then mthrow (EMsg "target path is not below configured parent")
  else
    found ← getGroup fullPath;
    match found with
    | Some g => mret (g, false)
    | None =>
        if negb create then mthrow (EMsg "GitLab group does not exist and createGroups is false")
        else
          let remaining := split "/" fullPath in
          start ← (if String.eqb parentPath "" then mret (None, O)
                   else
                     parent ← getGroup parentPath;
                     match parent with
                     | None => mthrow (EMsg "configured GitLab parent group does not exist")
                     | Some p => mret (Some p, length (split "/" parentPath))
                     end);
          '(current, createdAny) ← ensureSegments (take start.2 remaining) (drop start.2 remaining) start.1 false;
          match current with
          | None => mthrow (EMsg "could not resolve GitLab group")
          | Some g => mret (g, createdAny)
          end
    end.

(** ** [SyncGroup]

    Its error carries the result so far. *)
Notation MB := (M (GL S) (Result * err)).

Definition lift {A} (result : Result) (m : MG A) : MB A := wrap_err (λ e, (result, e)) m.
Definition liftWith {A} (result : Result) (ctx : string) (m : MG A) : MB A :=
  wrap_err (λ e, (result, EWrap ctx e)) m.
Definition failWith {A} (result : Result) (msg : string) : MB A := mthrow (result, EMsg msg).

(** A ledger call of this client for a user of a group. *)
Definition ledger {A} (m : M (Store * Sys S) err A) : MG A := zoom (W := GL S) (V := Store * Sys S) m.

Definition set_owned (b : bool) (m : GroupMapping) : GroupMapping :=
  MkGroupMapping (gm_Provider m) (gm_Rule m) (gm_SourceGroupID m) (gm_SourceNativeID m)
    (gm_SourceGroupPath m) (gm_TargetGroupID m) (gm_TargetGroupPath m) b.

(** Find or create the target group and bind the source group to it. *)
Definition bindTarget (req : SyncRequest) (result : Result) : MB (group * Result) :=
  '(target, created) ← lift result (ensureGroup (sr_TargetPath req) (sr_TargetParent req) (sr_CreateGroup req));
  let result := set_created created result in
  let stateKey := if String.eqb (sr_StateKey req) "" then g_ID (sr_SourceGroup req) else sr_StateKey req in
  prev ← lift result (ledger (State.Group (c_ownershipKey c) (sr_RuleName req) stateKey));
  mapping ← match prev with
            | Some m =>
                if decide (gm_TargetGroupID m = itoa (gg_ID target) ∧ gm_TargetGroupPath m = gg_FullPath target)
                then mret (if sr_AdoptExistingGroup req && negb (gm_Owned m) then set_owned true m else m)
                else failWith result "source group was previously bound to another GitLab group; refusing retarget"
            | None =>
                mret (MkGroupMapping (c_ownershipKey c) (sr_RuleName req) stateKey (g_ID (sr_SourceGroup req))
                        (g_Path (sr_SourceGroup req)) (itoa (gg_ID target)) (gg_FullPath target)
                        (created || sr_AdoptExistingGroup req))
            end;
  let mapping := set_source (gm_SourceGroupID mapping) (g_ID (sr_SourceGroup req))
                   (g_Path (sr_SourceGroup req)) mapping in
  if String.eqb (sr_Prune req) "authoritative" && negb (gm_Owned mapping)
  then failWith result "authoritative prune requires a GroupBridge-created group or adoptExistingGroup=true"
  else
    liftWith result "record source-to-target group mapping" (ledger (PutGroup mapping));;
    mret (target, result).

(** Resolve the source members; users that are missing or not active are counted. *)
Definition resolveMembers (req : SyncRequest) (result : Result) : MB (gmap Z user * Result) :=
  mfold (λ '(desired, result) sourceUser,
    found ← liftWith result "resolve a GitLab user for source group" (findUser sourceUser (sr_IdentityMatch req));
    match found with
    | Some u =>
        if String.eqb (gu_State u) "active" then mret (<[gu_ID u := u]> desired, result)
        else mret (desired, add_unresolved result)
    | None => mret (desired, add_unresolved result)
    end) (∅, result) (g_Members (sr_SourceGroup req)).

(** One desired user: add, update or leave alone. *)
Definition applyUser (req : SyncRequest) (target : group) (existing : gmap Z member) (level : Z)
    (result : Result) (entry : Z * user) : MB Result :=
  let id := entry.1 in
  let gid := itoa (gg_ID target) in
  liftWith result "reset GitLab membership absence observation"
    (ledger (ResetAbsent (c_ownershipKey c) gid (itoa id)));;
  match existing !! id with
  | None =>
      liftWith result "add GitLab member" (addMember (gg_ID target) id level);;
      verified ← liftWith result "verify GitLab member after add" (getMember (gg_ID target) id);
      if match verified with None => true | Some v => m_AccessLevel v <? level end
      then failWith result "verify GitLab member after add: membership is not active at the requested level"
      else
        liftWith result "record managed GitLab membership"
          (ledger (MarkManaged (c_ownershipKey c) gid (itoa id)));;
        mret (add_added result)
  | Some current =>
      match m_MemberRoleID current with
      | Some _ =>
          if (m_AccessLevel current <? level) ||
             (sr_EnforceAccessLevel req && negb (m_AccessLevel current =? level))
          then failWith result "GitLab member has a custom role that GroupBridge cannot safely change"
          else mret result
      | None =>
          if (m_AccessLevel current <? level) ||
             (sr_EnforceAccessLevel req && negb (m_AccessLevel current =? level) &&
              (m_AccessLevel current <? ownerLevel))
          then
            managed ← (if String.eqb (sr_Prune req) "managed-only"
                       then lift result (ledger (IsManaged (c_ownershipKey c) gid (itoa id)))
                       else mret true);
            if negb managed
            then failWith result "GitLab member predates GroupBridge; refusing to change unowned access"
            else
              liftWith result "update GitLab member" (updateMember (gg_ID target) id level);;
              verified ← liftWith result "verify GitLab member after update" (getMember (gg_ID target) id);
              if match verified with None => true | Some v => negb (m_AccessLevel v =? level) end
              then failWith result "verify GitLab member after update: requested level is not active"
              else mret (add_updated result)
          else mret result
      end
  end.

Definition isProtected (req : SyncRequest) (m : member) : bool :=
  inList (toLower (m_Username m)) (toLower <$> sr_ProtectedUsers req).

(** One listed member: keep it or add it to the removals. *)
Definition considerRemoval (req : SyncRequest) (target : group) (desired : gmap Z user) (selfID : Z)
    (acc : list member * bool * Result) (current : member) : MB (list member * bool * Result) :=
  let '(removals, pendingRemoval, result) := acc in
  let gid := itoa (gg_ID target) in
  if bool_decide (is_Some (desired !! m_ID current)) then mret acc
  else if (m_ID current =? selfID) || (ownerLevel <=? m_AccessLevel current) ||
          bool_decide (is_Some (m_MemberRoleID current))
  then mret (removals, pendingRemoval, add_skipped result)
  else if isProtected req current then mret (removals, pendingRemoval, add_skipped result)
  else
    managed ← lift result (ledger (IsManaged (c_ownershipKey c) gid (itoa (m_ID current))));
    if String.eqb (sr_Prune req) "authoritative" || (String.eqb (sr_Prune req) "managed-only" && managed)
    then
      confirmed ← (if sr_ImmediateRemoval req then mret true
                   else liftWith result "confirm absent GitLab membership"
                          (ledger (ConfirmAbsent (c_ownershipKey c) gid (itoa (m_ID current)))));
      if negb confirmed then mret (removals, true, add_skipped result)
      else mret (removals ++ [current], pendingRemoval, result)
    else mret acc.

Definition applyRemoval (target : group) (result : Result) (current : member) : MB Result :=
  let gid := itoa (gg_ID target) in
  liftWith result "remove GitLab member" (removeMember (gg_ID target) (m_ID current));;
  liftWith result "update managed GitLab membership state"
    (ledger (Unmark (c_ownershipKey c) gid (itoa (m_ID current))));;
  liftWith result "clear GitLab membership absence observation"
    (ledger (ResetAbsent (c_ownershipKey c) gid (itoa (m_ID current))));;
  mret (add_removed result).

Definition indexMembers (members : list member) : gmap Z member :=
  foldl (λ m x, <[m_ID x := x]> m) ∅ members.

(** From the check that everyone was resolved to the end. *)
Definition removalPhase (req : SyncRequest) (target : group) (members : list member)
    (desired : gmap Z user) (result : Result) : MB Result :=
  if 0 <? r_Unresolved result then mret result
  else
    selfID ← lift result currentIdentity;
    '(removals, pendingRemoval, result) ←
      mfold (considerRemoval req target desired selfID) ([], false, result) members;
    if sr_MaxRemovals req <? Z.of_nat (length removals) then failWith result "refusing removals: maxRemovals"
    else
      result ← mfold (applyRemoval target) result removals;
      mret (set_converged (negb pendingRemoval) result).

(** From the listing of the members to the end. *)
Definition syncMembers (fuel : nat) (req : SyncRequest) (target : group) (result : Result) : MB Result :=
  members ← liftWith result "list direct GitLab members" (listMembers fuel (gg_ID target));
  '(desired, result) ← resolveMembers req result;
  order ← zoom (W := GL S) (V := Sys S) (rangeOrder (map_to_list desired));
  result ← mfold (applyUser req target (indexMembers members) (accessLevels (sr_AccessLevel req))) result order;
  removalPhase req target members desired result.

Definition syncBody (fuel : nat) (req : SyncRequest) (result : Result) : MB Result :=
  '(target, result) ← bindTarget req result;
  syncMembers fuel req target result.

Definition SyncGroup (fuel : nat) (req : SyncRequest) : MB Result :=
  started ← zoom (W := GL S) (V := Sys S) timeNow;
  let result := MkResult (c_name c) (g_Path (sr_SourceGroup req)) (sr_TargetPath req) false 0 0 0 0 0 false 0 in
  r ← attempt (syncBody fuel req result);
  finished ← zoom (W := GL S) (V := Sys S) timeNow;
  match r with
  | Ok res => mret (set_duration (sub finished started) res)
  | Err (res, e) => mthrow (set_duration (sub finished started) res, e)
  end.
End client.
