(* ===== verification/GitLabSpec.v ===== *)
(** * What each call of the GitLab client does

    Specifications by [triple] from one starting world: what is sent, what is
    learnt from the answers, what becomes of the ledger. *)

From S2P Require Import Prelude GoStrings Sha256 GoTime Json World State StateSpec StateFacts Model Credential Config Paths GitLab.

Section spec.
Context {S : Type} `{Env S} (c : Client).
Implicit Types (w : GL S).

Notation trace w := (sys_trace (gl_sys w)).

(** [w] is [w0] after the exchanges [l]; the ledger and the identity are as before. *)
Record after (w0 : GL S) (l : list Exchange) (w : GL S) : Prop := {
  af_trace : trace w = trace w0 ++ l;
  af_store : gl_store w = gl_store w0;
  af_id : gl_identityID w = gl_identityID w0;
  af_hash : gl_identityTokenHash w = gl_identityTokenHash w0
}.

Lemma after_refl w : after w [] w.
Proof. split; [by rewrite (right_id_L [] (++))|done..]. Qed.

Lemma after_trans w0 w1 w2 l1 l2 : after w0 l1 w1 → after w1 l2 w2 → after w0 (l1 ++ l2) w2.
Proof. intros [] []. split; [|congruence..]. rewrite (assoc_L (++)). congruence. Qed.

(** [ex] sent the request that [x] describes, with some token. *)
Definition sent_by (x : call) (ex : Exchange) : Prop := ∃ token, ex.1 = requestOf c token x.

(** How the body of an answer is read. *)
Definition decoded {A} (resp : HttpResp) (init : A) (dst : option (json → option A)) : option A :=
  if negb (is2xx (rs_status resp)) then Some init
  else match dst with
       | Some dec => if rs_status resp =? 204 then Some init else rs_body resp ≫= dec
       | None => Some init
       end.

(** [ex] is [x] answered with [a]. *)
Definition answered {A} (x : call) (init : A) (dst : option (json → option A))
    (a : Z * list (string * string) * A) (ex : Exchange) : Prop :=
  sent_by x ex ∧ ∃ resp, ex.2 = Ok resp ∧ a.1.1 = rs_status resp ∧ a.1.2 = rs_header resp ∧
    decoded resp init dst = Some a.2.

Lemma triple_requestWithToken {A} token x (init : A) dst w0 :
  triple (λ w, w = w0) (requestWithToken c token x init dst)
    (λ a w, ∃ ex, after w0 [ex] w ∧ answered x init dst a ex)
    (λ _ w, ∃ ex, after w0 [ex] w ∧ sent_by x ex).
Proof.
  unfold requestWithToken.
  eapply triple_bind with (R := λ o w, after w0 [(requestOf c token x, o)] w).
  { apply triple_zoom. intros w -> v ->. unfold httpDo. destruct (env_http _ _) as [o s]. by split. }
  intros [resp|e]; [|apply triple_throw; intros w Hw; eexists; split; [exact Hw|by exists token]].
  assert (∀ a, decoded resp init dst = Some a →
    triple (after w0 [(requestOf c token x, Ok resp)]) (mret (rs_status resp, rs_header resp, a))
      (λ a w, ∃ ex, after w0 [ex] w ∧ answered x init dst a ex)
      (λ (_ : err) w, ∃ ex, after w0 [ex] w ∧ sent_by x ex)) as Hret.
  { intros a Ha. apply triple_ret. intros w Hw. eexists. split; [exact Hw|].
    split; [by exists token|]. by exists resp. }
  assert (triple (after w0 [(requestOf c token x, Ok resp)]) (mthrow (EMsg "decode GitLab response"))
      (λ (a : Z * list (string * string) * A) w, ∃ ex, after w0 [ex] w ∧ answered x init dst a ex)
      (λ _ w, ∃ ex, after w0 [ex] w ∧ sent_by x ex)) as Hthrow.
  { apply triple_throw. intros w Hw. eexists. split; [exact Hw|by exists token]. }
  unfold decoded in Hret.
  destruct (negb (is2xx (rs_status resp))); [by apply Hret|].
  destruct dst as [dec|]; [|by apply Hret].
  destruct (rs_status resp =? 204); [by apply Hret|].
  destruct (rs_body resp ≫= dec); [by apply Hret|exact Hthrow].
Qed.

Lemma triple_loadToken l ctx w0 :
  triple (λ w, w = w0) (wrap_err (EWrap ctx) (zoom (W := GL S) (V := Sys S) (Load l)))
    (λ _ w, after w0 [] w) (λ _ w, after w0 [] w).
Proof.
  apply triple_wrap_err, triple_zoom. intros w ->.
  apply triple_Load; intros v v' a -> Hf; intros; split; cbn; rewrite ?(right_id_L [] (++)); try done;
    symmetry; apply Hf.
Qed.

(** A request with the mutation token: at most one exchange. *)
Lemma triple_request1 {A} x (init : A) dst w0 :
  triple (λ w, w = w0) (request c x init dst)
    (λ a w, ∃ ex, after w0 [ex] w ∧ answered x init dst a ex)
    (λ _ w, after w0 [] w ∨ ∃ ex, after w0 [ex] w ∧ sent_by x ex).
Proof.
  unfold request. eapply triple_bind with (R := λ _ w, after w0 [] w).
  { eapply triple_conseq; [apply (triple_loadToken _ _ w0)|done|intros a w Hw; exact Hw|by left]. }
  intros token. apply triple_at. intros w1 H1.
  eapply triple_conseq; [apply (triple_requestWithToken _ _ _ _ w1)|done|..].
  - intros a w (ex & Hw & Ha). exists ex. split; [|done]. by apply (after_trans _ _ _ _ _ H1).
  - intros e w (ex & Hw & Ha). right. exists ex. split; [by apply (after_trans _ _ _ _ _ H1)|done].
Qed.

Lemma triple_request {A} x (init : A) dst w0 :
  triple (λ w, w = w0) (request c x init dst)
    (λ a w, ∃ ex, after w0 [ex] w ∧ answered x init dst a ex)
    (λ _ w, ∃ l, after w0 l w ∧ Forall (sent_by x) l).
Proof.
  eapply triple_conseq; [apply (triple_request1 _ _ _ w0)|done|done|].
  intros e w [Hw|(ex & Hw & Hs)]; eexists; (split; [exact Hw|by repeat constructor]).
Qed.

(** ** Reads *)
Definition isGet (ex : Exchange) : Prop := rq_method ex.1 = "GET".

(** Only GET requests were sent. *)
Definition read_only w0 w : Prop := ∃ l, after w0 l w ∧ Forall isGet l.

Lemma sent_get p q b ex : sent_by (MkCall "GET" p q b) ex → isGet ex.
Proof. intros [token Ht]. unfold isGet. by rewrite Ht. Qed.

Lemma answered_get {A} p q b (init : A) dst a ex :
  answered (MkCall "GET" p q b) init dst a ex → isGet ex.
Proof. intros [Hs _]. by eapply sent_get. Qed.

Lemma read_only_refl w : read_only w w.
Proof. exists []. split; [apply after_refl|constructor]. Qed.

Lemma read_only_trans w0 w1 w2 : read_only w0 w1 → read_only w1 w2 → read_only w0 w2.
Proof.
  intros (l1 & H1 & F1) (l2 & H2 & F2). exists (l1 ++ l2).
  split; [by eapply after_trans|by apply Forall_app].
Qed.

(** A request whose outcome is all that matters: the rule for the calls below. *)
Lemma triple_request_then {A B} x (init : A) dst (k : Z * list (string * string) * A → M (GL S) err B)
    w0 (Q : B → GL S → Prop) (X : err → GL S → Prop) :
  (∀ a ex w1, after w0 [ex] w1 → answered x init dst a ex → triple (λ w, w = w1) (k a) Q X) →
  (∀ l w1 e, after w0 l w1 → Forall (sent_by x) l → X e w1) →
  triple (λ w, w = w0) (request c x init dst ≫= k) Q X.
Proof.
  intros Hk HX. eapply triple_bind.
  - eapply triple_conseq; [apply (triple_request _ _ _ w0)|done|intros a w Hw; exact Hw|].
    intros e w (l & Hw & Hl). by eapply HX.
  - intros a. apply triple_at. intros w1 (ex & Hw & Ha). by eapply Hk.
Qed.

Notation getGroupCall p := (MkCall "GET" (groupPath p) [] BNone).

Definition group_answer (p : string) (r : option group) (ex : Exchange) : Prop :=
  ∃ st h g, answered (getGroupCall p) noGroup (Some decGroup) (st, h, g) ex ∧
    if st =? 404 then r = None else is2xx st = true ∧ r = Some g.

Lemma triple_getGroup p w0 :
  triple (λ w, w = w0) (getGroup c p)
    (λ r w, ∃ ex, after w0 [ex] w ∧ group_answer p r ex) (λ _ w, read_only w0 w).
Proof.
  apply triple_request_then.
  - intros [[st h] g] ex w1 Hw Ha. destruct (st =? 404) eqn:H4.
    { apply triple_ret. intros w ->. exists ex. split; [done|]. exists st, h, g. by rewrite H4. }
    destruct (is2xx st) eqn:H2; cbn [negb].
    + apply triple_ret. intros w ->. exists ex. split; [done|]. exists st, h, g. by rewrite H4.
    + apply triple_throw. intros w ->. exists [ex]. split; [done|]. constructor; [by eapply answered_get|done].
  - intros l w1 e Hw Hl. exists l. split; [done|]. eapply Forall_impl; [exact Hl|apply sent_get].
Qed.

Lemma group_answer_get p r ex : group_answer p r ex → isGet ex.
Proof. intros (st & h & g & Ha & _). by eapply answered_get. Qed.

(** The record of a direct member, as a look at it showed it. *)
Definition member_answer (gid uid : Z) (r : option member) (ex : Exchange) : Prop :=
  ∃ st h m, answered (MkCall "GET" (memberPath gid uid) [] BNone) noMember (Some decMember) (st, h, m) ex ∧
    if st =? 404 then r = None else is2xx st = true ∧ r = Some m.

Lemma member_answer_get gid uid r ex : member_answer gid uid r ex → isGet ex.
Proof. intros (st & h & m & Ha & _). by eapply answered_get. Qed.

Lemma triple_getMember gid uid w0 :
  triple (λ w, w = w0) (getMember c gid uid)
    (λ r w, ∃ ex, after w0 [ex] w ∧ member_answer gid uid r ex)
    (λ _ w, read_only w0 w).
Proof.
  apply triple_request_then.
  - intros [[st h] m] ex w1 Hw Ha. pose proof (answered_get _ _ _ _ _ _ _ Ha) as Hg. destruct (st =? 404) eqn:H4.
    { apply triple_ret. intros w ->. exists ex. split; [done|]. exists st, h, m. by rewrite H4. }
    destruct (is2xx st) eqn:H2; cbn [negb].
    + apply triple_ret. intros w ->. exists ex. split; [done|]. exists st, h, m. by rewrite H4.
    + apply triple_throw. intros w ->. exists [ex]. split; [done|]. by constructor.
  - intros l w1 e Hw Hl. exists l. split; [done|]. eapply Forall_impl; [exact Hl|apply sent_get].
Qed.

(** The exchanges of a complete listing, and the members they carry. *)
Definition pageCall (gid page : Z) : call :=
  MkCall "GET" (membersPath gid) [("page", itoa page); ("per_page", itoa apiPageSize)] BNone.

Inductive pages (gid : Z) : Z → list Exchange → list member → Prop :=
| pages_last page ex st h batch :
    answered (pageCall gid page) [] (Some (decList decMember)) (st, h, batch) ex →
    is2xx st = true → headerGet h "X-Next-Page" = "" → pages gid page [ex] batch
| pages_more page ex st h batch l rest :
    answered (pageCall gid page) [] (Some (decList decMember)) (st, h, batch) ex →
    is2xx st = true → headerGet h "X-Next-Page" ≠ "" → pages gid (page + 1) l rest →
    pages gid page (ex :: l) (batch ++ rest).

Lemma pages_get gid page l ms : pages gid page l ms → Forall isGet l.
Proof.
  induction 1; constructor; try done; by eapply answered_get.
Qed.

Lemma triple_listMembersFrom fuel gid page all w0 :
  triple (λ w, w = w0) (listMembersFrom c fuel gid page all)
    (λ r w, ∃ l rest, after w0 l w ∧ pages gid page l rest ∧ r = all ++ rest) (λ _ w, read_only w0 w).
Proof.
  revert page all w0. induction fuel as [|fuel IH]; intros page all w0; cbn [listMembersFrom].
  { apply triple_throw. intros w ->. apply read_only_refl. }
  apply triple_request_then.
  - intros [[st h] batch] ex w1 Hw Ha. pose proof (answered_get _ _ _ _ _ _ _ Ha) as Hg.
    assert (read_only w0 w1) as Hro by (exists [ex]; split; [done|by constructor]).
    destruct (is2xx st) eqn:H2; cbn [negb]; [|by apply triple_throw; intros w ->].
    destruct (String.eqb_spec (headerGet h "X-Next-Page") "") as [He|Hne].
    + apply triple_ret. intros w ->. exists [ex], batch. split; [done|]. split; [by econstructor|done].
    + eapply triple_conseq; [apply (IH _ _ w1)|done|..].
      * intros r w (l & rest & Hl & Hp & ->). exists (ex :: l), (batch ++ rest).
        split; [by apply (after_trans _ _ _ [ex] l Hw)|]. split; [by eapply pages_more|].
        by rewrite (assoc_L (++)).
      * intros e w Hr. by eapply read_only_trans.
  - intros l w1 e Hw Hl. exists l. split; [done|]. eapply Forall_impl; [exact Hl|apply sent_get].
Qed.

Lemma triple_listMembers fuel gid w0 :
  triple (λ w, w = w0) (listMembers c fuel gid)
    (λ r w, ∃ l, after w0 l w ∧ pages gid 1 l r) (λ _ w, read_only w0 w).
Proof.
  eapply triple_conseq; [apply (triple_listMembersFrom _ _ _ _ w0)|done| |done].
  intros r w (l & rest & Hw & Hp & ->). by exists l.
Qed.

(** ** Finding a user *)

(** [u] is the only user of an answer that matches [source] exactly under [f]. *)
Definition exact_match (source : User) (f : string) (u : user) (ex : Exchange) : Prop :=
  isGet ex ∧ ∃ q st h us, identityQuery c source f = Some q ∧
    answered (MkCall "GET" "/api/v4/users" (q ++ [("per_page", itoa apiPageSize)]) BNone)
      [] (Some (decList decUser)) (st, h, us) ex ∧
    List.filter (identityMatches c source f) us = [u].

Lemma triple_findUserLoop source ms w0 :
  triple (λ w, w = w0) (findUserLoop c source ms)
    (λ r w, ∃ l, after w0 l w ∧ Forall isGet l ∧
       ∀ u, r = Some u → ∃ f ex, f ∈ ms ∧ ex ∈ l ∧ exact_match source f u ex)
    (λ _ w, read_only w0 w).
Proof.
  revert w0. induction ms as [|f ms IH]; intros w0; cbn [findUserLoop].
  { apply triple_ret. intros w ->. exists []. split; [apply after_refl|]. by split. }
  assert (∀ w1 l1, after w0 l1 w1 → Forall isGet l1 →
    triple (λ w, w = w1) (findUserLoop c source ms)
      (λ r w, ∃ l, after w0 l w ∧ Forall isGet l ∧
        ∀ u, r = Some u → ∃ f' ex, f' ∈ f :: ms ∧ ex ∈ l ∧ exact_match source f' u ex)
      (λ _ w, read_only w0 w)) as Hrest.
  { intros w1 l1 H1 F1. eapply triple_conseq; [apply (IH w1)|done|..].
    - intros r w (l & Hl & Fl & Hu). exists (l1 ++ l). split; [by eapply after_trans|].
      split; [by apply Forall_app|]. intros u Hr. destruct (Hu u Hr) as (f' & ex & ? & ? & ?).
      exists f', ex. split; [by right|]. split; [apply elem_of_app; by right|done].
    - intros e w Hr. eapply read_only_trans; [|exact Hr]. by exists l1. }
  destruct (identityQuery c source f) as [q|] eqn:Hq; [|apply (Hrest w0 []); [apply after_refl|constructor]].
  eapply triple_bind with (R := λ _ w, after w0 [] w).
  { eapply triple_conseq; [apply (triple_loadToken _ _ w0)|done|intros ? ? Hw; exact Hw|].
    intros e w Hw. by exists []. }
  intros token. apply triple_at. intros w1 H1. eapply triple_bind.
  { eapply triple_conseq; [apply (triple_requestWithToken token _ _ _ w1)|done|intros a w Hw; exact Hw|].
    intros e w (ex & Hw & Hs). exists [ex]. split; [by apply (after_trans _ _ _ _ _ H1)|].
    constructor; [by eapply sent_get|done]. }
  intros [[st h] us]. apply triple_at. intros w2 (ex & Hw & Ha).
  pose proof (answered_get _ _ _ _ _ _ _ Ha) as Hg.
  pose proof (after_trans _ _ _ _ _ H1 Hw) as H2. cbn [app] in H2.
  assert (read_only w0 w2) as Hro by (exists [ex]; split; [done|by constructor]).
  destruct (is2xx st); cbn [negb]; [|by apply triple_throw; intros w ->].
  destruct (List.filter (identityMatches c source f) us) as [|u [|u' us']] eqn:Hf.
  - by apply (Hrest w2 [ex]); [|constructor].
  - apply triple_ret. intros w ->. exists [ex]. split; [done|]. split; [by constructor|].
    intros u' [= <-]. exists f, ex. split; [by left|]. split; [by left|]. split; [done|].
    by exists q, st, h, us.
  - apply triple_throw. by intros w ->.
Qed.

Lemma triple_findUser source ms w0 :
  triple (λ w, w = w0) (findUser c source ms)
    (λ r w, ∃ l, after w0 l w ∧ Forall isGet l ∧
       ∀ u, r = Some u → ∃ f ex, f ∈ ms ∧ ex ∈ l ∧ exact_match source f u ex)
    (λ _ w, read_only w0 w).
Proof.
  unfold findUser. destruct (_ && _); [|apply triple_findUserLoop].
  apply triple_throw. intros w ->. apply read_only_refl.
Qed.

(** ** Writes *)
Definition groupPost (seg : string) (parent : option group) : call :=
  MkCall "POST" "/api/v4/groups" []
    (BJson (JObj ([("name", encString seg); ("path", encString seg); ("visibility", JStr "private")] ++
       match parent with Some p => [("parent_id", JInt (gg_ID p))] | None => [] end))).
Definition addCall (gid uid level : Z) : call :=
  MkCall "POST" (membersPath gid) [] (BJson (JObj [("user_id", JInt uid); ("access_level", JInt level)])).
Definition updateCall (gid uid level : Z) : call :=
  MkCall "PUT" (memberPath gid uid) [] (BJson (JObj [("access_level", JInt level)])).
Definition removeCall (gid uid : Z) : call := MkCall "DELETE" (memberPath gid uid) removeQuery BNone.

(** A call whose answer is only checked for its status. *)
Lemma triple_createGroup seg parent w0 :
  triple (λ w, w = w0) (createGroup c seg parent)
    (λ g w, ∃ ex st h, after w0 [ex] w ∧ is2xx st = true ∧
       answered (groupPost seg parent) noGroup (Some decGroup) (st, h, g) ex)
    (λ _ w, ∃ l, after w0 l w ∧ Forall (sent_by (groupPost seg parent)) l).
Proof.
  apply triple_request_then.
  - intros [[st h] g] ex w1 Hw Ha. destruct (is2xx st) eqn:H2; cbn [negb].
    + apply triple_ret. intros w ->. by exists ex, st, h.
    + apply triple_throw. intros w ->. exists [ex]. split; [done|]. constructor; [by destruct Ha|done].
  - intros l w1 e Hw Hl. by exists l.
Qed.

Lemma triple_addMember gid uid level w0 :
  triple (λ w, w = w0) (addMember c gid uid level)
    (λ _ w, ∃ ex, after w0 [ex] w ∧ sent_by (addCall gid uid level) ex)
    (λ _ w, ∃ l, after w0 l w ∧ Forall (sent_by (addCall gid uid level)) l).
Proof.
  apply triple_request_then.
  - intros [[st h] g] ex w1 Hw [Ha _]. destruct (is2xx st) eqn:H2; cbn [negb].
    + apply triple_ret. intros w ->. by exists ex.
    + apply triple_throw. intros w ->. exists [ex]. split; [done|]. by constructor.
  - intros l w1 e Hw Hl. by exists l.
Qed.

Lemma triple_updateMember gid uid level w0 :
  triple (λ w, w = w0) (updateMember c gid uid level)
    (λ _ w, ∃ ex, after w0 [ex] w ∧ sent_by (updateCall gid uid level) ex)
    (λ _ w, ∃ l, after w0 l w ∧ Forall (sent_by (updateCall gid uid level)) l).
Proof.
  apply triple_request_then.
  - intros [[st h] g] ex w1 Hw [Ha _]. destruct (is2xx st) eqn:H2; cbn [negb].
    + apply triple_ret. intros w ->. by exists ex.
    + apply triple_throw. intros w ->. exists [ex]. split; [done|]. by constructor.
  - intros l w1 e Hw Hl. by exists l.
Qed.

(** GitLab answered a removal with success, or that there is no such member. *)
Definition goneAnswer gid uid (ex : Exchange) : Prop :=
  ∃ st h, answered (removeCall gid uid) tt None (st, h, tt) ex ∧ (st = 404 ∨ is2xx st = true).

Lemma triple_removeMember gid uid w0 :
  triple (λ w, w = w0) (removeMember c gid uid)
    (λ _ w, ∃ ex, after w0 [ex] w ∧ goneAnswer gid uid ex)
    (λ _ w, after w0 [] w ∨ ∃ ex, after w0 [ex] w ∧ sent_by (removeCall gid uid) ex).
Proof.
  unfold removeMember. eapply triple_bind; [apply (triple_request1 _ _ _ w0)|].
  intros [[st h] []]. apply triple_at. intros w1 (ex & Hw & Ha).
  destruct (negb (st =? 404) && negb (is2xx st)) eqn:Hst.
  - apply triple_throw. intros w ->. right. exists ex. split; [done|by destruct Ha].
  - apply triple_ret. intros w ->. exists ex. split; [done|]. exists st, h. split; [done|].
    apply andb_false_iff in Hst as [Hst|Hst]; apply negb_false_iff in Hst; [left; by apply Z.eqb_eq|by right].
Qed.

(** ** The current identity *)

(** Like [after], but the cached identity may have changed. *)
Record reads (w0 : GL S) (l : list Exchange) (w : GL S) : Prop := {
  rd_trace : trace w = trace w0 ++ l;
  rd_store : gl_store w = gl_store w0;
  rd_get : Forall isGet l
}.

Lemma after_reads w0 l w : after w0 l w → Forall isGet l → reads w0 l w.
Proof. intros [] Hl. by split. Qed.

Lemma triple_currentIdentity w0 :
  triple (λ w, w = w0) (currentIdentity c)
    (λ id w, ∃ l, reads w0 l w ∧ gl_identityID w = id ∧ id ≠ 0)
    (λ _ w, ∃ l, reads w0 l w).
Proof.
  unfold currentIdentity. eapply triple_bind with (R := λ _ w, after w0 [] w).
  { eapply triple_conseq; [apply (triple_loadToken _ _ w0)|done|intros ? ? Hw; exact Hw|].
    intros e w Hw. exists []. by apply after_reads. }
  intros token. eapply triple_bind with (R := λ p w, p = (gl_identityID w, gl_identityTokenHash w) ∧ after w0 [] w).
  { by apply triple_gets. }
  intros [id hash]. cbn [fst snd]. apply triple_at. intros w1 [[= Hid Hhash] H1].
  destruct (negb (id =? 0) && String.eqb hash (sha256 token)) eqn:Hc.
  { apply triple_ret. intros w ->. apply andb_true_iff in Hc as [Hc _].
    exists []. split; [by apply after_reads|]. split; [done|].
    apply negb_true_iff, Z.eqb_neq in Hc. done. }
  eapply triple_bind.
  { eapply triple_conseq; [apply (triple_requestWithToken token _ _ _ w1)|done|intros a w Hw; exact Hw|].
    intros e w (ex & Hw & Hs). exists [ex]. apply after_reads; [by apply (after_trans _ _ _ _ _ H1)|].
    constructor; [by eapply sent_get|done]. }
  intros [[st h] u]. apply triple_at. intros w2 (ex & Hw & Ha).
  pose proof (answered_get _ _ _ _ _ _ _ Ha) as Hg.
  pose proof (after_trans _ _ _ _ _ H1 Hw) as H2. cbn [app] in H2.
  destruct (negb (is2xx st) || (gu_ID u =? 0)) eqn:Hb.
  { apply triple_throw. intros w ->. exists [ex]. by apply after_reads; [|constructor]. }
  apply orb_false_iff in Hb as [_ Hb]. apply Z.eqb_neq in Hb.
  eapply triple_bind with (R := λ _ w, reads w0 [ex] w ∧ gl_identityID w = gu_ID u).
  { apply triple_modify. intros w ->. split; [|done]. destruct H2. by split; [| |constructor]. }
  intros _. apply triple_ret. intros w [Hr Hi]. by exists [ex].
Qed.

(** ** Provisioning the target group *)

(** The exchanges of [ensureGroup]: reads, and groups created one below the
    other, each after it was found missing. *)
Definition isGroupPost (ex : Exchange) : Prop := ∃ seg parent, sent_by (groupPost seg parent) ex.

(** GitLab named the group [g] when it was asked for the path, or, after it had
    answered that there is none, when a group of that last segment was created. *)
Definition located (path : string) (g : group) (l : list Exchange) : Prop :=
  (∃ ex, ex ∈ l ∧ group_answer path (Some g) ex) ∨
  ∃ done_ seg parent st h missing ex, path = join "/" (done_ ++ [seg]) ∧ missing ∈ l ∧ group_answer path None missing ∧
    ex ∈ l ∧ answered (groupPost seg parent) noGroup (Some decGroup) (st, h, g) ex ∧ is2xx st = true.

Lemma located_sub path g l l' : (∀ ex, ex ∈ l → ex ∈ l') → located path g l → located path g l'.
Proof.
  intros Hl [(ex & Hin & Ha)|(d & seg & p & st & h & missing & ex & Hp & Hm & Hn & Hin & Ha & H2)]; [left; by eauto|right].
  exists d, seg, p, st, h, missing, ex. split_and!; try done; by apply Hl.
Qed.

Lemma triple_ensureSegments done_ rest cur any w0 :
  triple (λ w, w = w0) (ensureSegments c done_ rest cur any)
    (λ r w, ∃ l, after w0 l w ∧ Forall (λ ex, isGet ex ∨ isGroupPost ex) l ∧
       (r.2 = true → any = true ∨ Exists isGroupPost l) ∧
       ∀ g, r.1 = Some g → rest = [] ∧ cur = Some g ∨ located (join "/" (done_ ++ rest)) g l)
    (λ _ w, ∃ l, after w0 l w ∧ Forall (λ ex, isGet ex ∨ isGroupPost ex) l).
Proof.
  revert done_ cur any w0. induction rest as [|seg rest IH]; intros done_ cur any w0; cbn [ensureSegments].
  { apply triple_ret. intros w ->. exists []. split; [apply after_refl|]. split; [constructor|].
    split; [by left|]. intros g Hg. by left. }
  eapply triple_bind.
  { eapply triple_conseq; [apply (triple_getGroup _ w0)|done|intros a w Hw; exact Hw|].
    intros e w (l & Hl & Fl). exists l. split; [done|]. eapply Forall_impl; [exact Fl|by left]. }
  intros found. apply triple_at. intros w1 (ex & Hw & Hans). pose proof (group_answer_get _ _ _ Hans) as Hg.
  assert (∀ l1 w2 any' cur', after w0 l1 w2 → Forall (λ ex, isGet ex ∨ isGroupPost ex) l1 →
    (any' = true → any = true ∨ Exists isGroupPost l1) →
    (∀ g, cur' = Some g → located (join "/" (done_ ++ [seg])) g l1) →
    triple (λ w, w = w2) (ensureSegments c (done_ ++ [seg]) rest cur' any')
      (λ r w, ∃ l, after w0 l w ∧ Forall (λ ex, isGet ex ∨ isGroupPost ex) l ∧
         (r.2 = true → any = true ∨ Exists isGroupPost l) ∧
         ∀ g, r.1 = Some g → seg :: rest = [] ∧ cur = Some g ∨ located (join "/" (done_ ++ seg :: rest)) g l)
      (λ _ w, ∃ l, after w0 l w ∧ Forall (λ ex, isGet ex ∨ isGroupPost ex) l)) as Hrest.
  { intros l1 w2 any' cur' H1 F1 Ha Hc. eapply triple_conseq; [apply (IH _ _ _ w2)|done|..].
    - intros r w (l & Hl & Fl & Hr & Hg'). exists (l1 ++ l). split; [by eapply after_trans|].
      split; [by apply Forall_app|]. split.
      + intros [Hany|Hex]%Hr; [destruct (Ha Hany); [by left|right; apply Exists_app; by left]|].
        right. apply Exists_app. by right.
      + intros g Hrg. right. destruct (Hg' g Hrg) as [[-> Hcur]|Hloc].
        * eapply located_sub; [|by apply Hc]. set_solver.
        * rewrite <-(assoc_L (++)) in Hloc. eapply located_sub; [|exact Hloc]. set_solver.
    - intros e w (l & Hl & Fl). exists (l1 ++ l). split; [by eapply after_trans|by apply Forall_app]. }
  destruct found as [g|].
  - apply (Hrest [ex]); [done|constructor; [by left|done]|by left|].
    intros g' [= <-]. left. exists ex. split; [by left|done].
  - eapply triple_bind.
    { apply triple_wrap_err. eapply triple_conseq; [apply (triple_createGroup _ _ w1)|done|intros a w Hw'; exact Hw'|].
      intros e w (l & Hl & Fl). exists (ex :: l). split; [by apply (after_trans _ _ _ [ex] l Hw)|].
      constructor; [by left|]. eapply Forall_impl; [exact Fl|]. intros ex' Hs. right. by exists seg, cur. }
    intros g. apply triple_at. intros w2 (ex' & st & h & Hw' & H2 & Hcr). pose proof Hcr as [Hs _].
    assert (isGroupPost ex') as Hp by (by exists seg, cur).
    apply (Hrest [ex; ex']).
    + by apply (after_trans _ _ _ [ex] [ex'] Hw).
    + constructor; [by left|]. constructor; [by right|done].
    + intros _. right. apply Exists_cons. right. by constructor.
    + intros g' [= <-]. right. exists done_, seg, cur, st, h, ex, ex'. split_and!; try done; [by left|by right; left].
Qed.

(** A path below another one has more segments. *)
Lemma below_longer s p : hasPrefix s (p +:+ "/") = true → (length (split "/" p) < length (split "/" s))%nat.
Proof.
  intros [t ->]%hasPrefix_spec. rewrite app_assoc. change ("/" +:+ t) with (String "/" t).
  rewrite split_sep, length_app. pose proof (split_not_nil "/" t). destruct (split "/" t); [done|cbn; lia].
Qed.

Lemma triple_ensureGroup path parent create w0 :
  triple (λ w, w = w0) (ensureGroup c path parent create)
    (λ r w, ∃ l, after w0 l w ∧ Forall (λ ex, isGet ex ∨ (create = true ∧ isGroupPost ex)) l ∧
       (r.2 = true → create = true ∧ Exists isGroupPost l) ∧ located (trimSlash path) r.1 l)
    (λ _ w, ∃ l, after w0 l w ∧ Forall (λ ex, isGet ex ∨ (create = true ∧ isGroupPost ex)) l).
Proof.
  assert (∀ w1 l1, after w0 l1 w1 → Forall isGet l1 →
    ∃ l, after w0 l w1 ∧ Forall (λ ex, isGet ex ∨ (create = true ∧ isGroupPost ex)) l) as Herr.
  { intros w1 l1 H1 F1. exists l1. split; [done|]. eapply Forall_impl; [exact F1|by left]. }
  unfold ensureGroup. destruct (String.eqb (trimSlash path) "").
  { apply triple_throw. intros w ->. by apply (Herr w0 []); [apply after_refl|]. }
  destruct (negb (String.eqb (trimSlash parent) "") && _ && _) eqn:Hbelow.
  { apply triple_throw. intros w ->. by apply (Herr w0 []); [apply after_refl|]. }
  eapply triple_bind.
  { eapply triple_conseq; [apply (triple_getGroup _ w0)|done|intros a w Hw; exact Hw|].
    intros e w (l & Hl & Fl). by apply (Herr w l). }
  intros found. apply triple_at. intros w1 (ex & Hw & Hans). pose proof (group_answer_get _ _ _ Hans) as Hg.
  assert (Forall isGet [ex]) as F1 by (by constructor).
  destruct found as [g|].
  { apply triple_ret. intros w ->. exists [ex]. split; [done|].
    split; [eapply Forall_impl; [exact F1|by left]|]. split; [done|]. left. exists ex. split; [by left|done]. }
  destruct create; cbn [negb]; [|by apply triple_throw; intros w ->; apply (Herr w1 [ex])].
  eapply triple_bind with (R := λ start w, ∃ l, after w0 l w ∧ Forall isGet l ∧
    (start.2 < length (split "/" (trimSlash path)) ∨ ∃ ex p, start.1 = Some p ∧ ex ∈ l ∧ group_answer (trimSlash path) (Some p) ex)%nat).
  { destruct (String.eqb_spec (trimSlash parent) "") as [|Hne].
    { apply triple_ret. intros w ->. exists [ex]. split; [done|]. split; [done|]. left. cbn [snd].
      pose proof (split_not_nil "/" (trimSlash path)). by destruct (split _ _); [|cbn; lia]. }
    eapply triple_bind.
    { eapply triple_conseq; [apply (triple_getGroup _ w1)|done|intros a w Hw'; exact Hw'|].
      intros e w (l & Hl & Fl). apply (Herr w (ex :: l)); [by apply (after_trans _ _ _ [ex] l Hw)|by constructor]. }
    intros p. apply triple_at. intros w2 (ex' & Hw' & Hans'). pose proof (group_answer_get _ _ _ Hans') as Hg'.
    pose proof (after_trans _ _ _ _ _ Hw Hw') as H2.
    assert (Forall isGet ([ex] ++ [ex'])) as F2 by (by repeat constructor).
    destruct p as [p|].
    { apply triple_ret. intros w ->. eexists. split; [exact H2|]. split; [done|]. cbn [fst snd].
      destruct (String.eqb_spec (trimSlash path) (trimSlash parent)) as [Heq|Hneq].
      - right. exists ex', p. split; [done|]. split; [set_solver|]. by rewrite Heq.
      - left. apply (below_longer (trimSlash path) (trimSlash parent)). rewrite andb_comm in Hbelow.
        by destruct (hasPrefix _ _). }
    apply triple_throw. intros w ->. by apply (Herr w2 ([ex] ++ [ex'])). }
  intros start. apply triple_at. intros w2 (l & H2 & F2 & Hstart).
  eapply triple_bind.
  { eapply triple_conseq; [apply (triple_ensureSegments _ _ _ _ w2)|done|intros a w Hw'; exact Hw'|].
    intros e w (l' & Hl & Fl). exists (l ++ l'). split; [by eapply after_trans|]. apply Forall_app.
    split; [eapply Forall_impl; [exact F2|by left]|eapply Forall_impl; [exact Fl|]]. intros x [?|?]; [by left|by right]. }
  intros [cur any]. apply triple_at. intros w3 (l' & Hl & Fl & Hany & Hcur).
  assert (Forall (λ ex, isGet ex ∨ (true = true ∧ isGroupPost ex)) (l ++ l')) as F3.
  { apply Forall_app. split; [eapply Forall_impl; [exact F2|by left]|eapply Forall_impl; [exact Fl|]].
    intros x [?|?]; [by left|by right]. }
  pose proof (after_trans _ _ _ _ _ H2 Hl) as H3.
  destruct cur as [g|]; [apply triple_ret|apply triple_throw]; intros w ->; eexists; (split; [exact H3|]).
  - split; [done|]. cbn [fst snd] in *. split; [intros [?|?]%Hany; [done|]; split; [done|]; apply Exists_app; by right|].
    rewrite take_drop, join_split in Hcur. destruct (Hcur g eq_refl) as [[Hnil Hst]|Hloc]; [|eapply located_sub; [|exact Hloc]; set_solver].
    destruct Hstart as [Hlt|(ex0 & p & Hp & Hin & Ha)].
    { exfalso. apply (f_equal length) in Hnil. rewrite length_drop in Hnil. cbn in Hnil. lia. }
    left. exists ex0. split; [set_solver|congruence].
  - done.
Qed.
End spec.

(** ** The ledger, seen from the client *)
Section ledger.
Context {S : Type} `{Env S} (c : Client).
Implicit Types (w : GL S).
Notation trace w := (sys_trace (gl_sys w)).

Record ledger_step (o : ledgerOp) (w0 w : GL S) : Prop := {
  ls_effect : ∃ wr, op_effect o (gl_store w0) = Some (gl_store w, wr);
  ls_trace : trace w = trace w0;
  ls_id : gl_identityID w = gl_identityID w0
}.

Definition gl_path_ok w : Prop := path_ok (st_path (gl_store w)).

Lemma ledger_step_path o w0 w : ledger_step o w0 w → gl_path_ok w0 → gl_path_ok w.
Proof. intros [[wr He] _ _] Hp. unfold gl_path_ok. by rewrite (op_effect_path _ _ _ _ He). Qed.

Lemma op_ok_post_trace o s (sys : Sys S) b (w : Store * Sys S) : op_ok_post o s sys b w → sys_trace (snd w) = sys_trace sys.
Proof.
  intros (st' & wr & _ & _ & Hw). destruct wr; [|by destruct Hw as [_ ->]].
  by destruct Hw as (d & _ & _ & Ht & _).
Qed.

Lemma op_err_post_trace o s (sys : Sys S) (w : Store * Sys S) : op_err_post o s sys w → sys_trace (snd w) = sys_trace sys.
Proof.
  unfold op_err_post. destruct (op_effect o s) as [[st' b]|]; [|by intros ->].
  by intros [(fs & _ & _ & Ht & _)|(d & _ & _ & Ht & _)].
Qed.

Lemma triple_ledger_op o w0 : gl_path_ok w0 →
  triple (λ w, w = w0) (ledger (run_op o))
    (λ b w, ledger_step o w0 w ∧ b = op_result o (gl_store w0)) (λ _ w, after w0 [] w).
Proof.
  intros Hp. apply triple_zoom. intros w -> v ->. cbn [view lens_gl_store].
  pose proof (run_op_cases o (gl_store w0) (gl_sys w0)) as Hr.
  destruct (run_op o (gl_store w0, gl_sys w0)) as [[b|e] [s sys]]; specialize (Hr _ _ Hp eq_refl); cbn in Hr.
  - pose proof (op_ok_post_store _ _ _ _ _ Hr) as (wr & He & Hb).
    split; [|done]. split; [by exists wr|by apply (op_ok_post_trace _ _ _ _ _ Hr)|done].
  - pose proof (op_err_post_store _ _ _ _ Hr) as Hs. cbn in Hs. subst s.
    split; cbn; try done. rewrite (right_id_L [] (++)). by apply (op_err_post_trace _ _ _ _ Hr).
Qed.

Lemma triple_ledger_unit o (m : M (Store * Sys S) err unit) w0 : run_op o = (m;; mret false) → gl_path_ok w0 →
  triple (λ w, w = w0) (ledger m) (λ _ w, ledger_step o w0 w) (λ _ w, after w0 [] w).
Proof.
  intros Ho Hp w ->. pose proof (triple_ledger_op o w0 Hp w0 eq_refl) as Ht. rewrite Ho in Ht.
  unfold ledger, zoom, mbind, M_bind, mret, M_ret in *.
  destruct (m (view w0)) as [[[]|e] v]; [by destruct Ht|exact Ht].
Qed.

(** The key of a user of the group [gid], and what is recorded of the others. *)
Definition uk (gid : Z) (uid : Z) : string := key (c_ownershipKey c) (itoa gid) (itoa uid).

Lemma uk_inj gid i j : uk gid i = uk gid j → i = j.
Proof.
  unfold uk, key. intros He%append_inj. injection He as He. apply append_inj in He.
  injection He as He. by apply (inj pretty) in He.
Qed.

(** Nothing changed for the users outside [P]. *)
Record untouched (gid : Z) (P : Z → Prop) (s0 s : Store) : Prop := {
  ut_path : st_path s = st_path s0;
  ut_records i : ¬ P i → st_records s !! uk gid i = st_records s0 !! uk gid i;
  ut_absences i : ¬ P i → st_absences s !! uk gid i = st_absences s0 !! uk gid i
}.

Lemma untouched_refl gid P s : untouched gid P s s.
Proof. by split. Qed.

Lemma untouched_trans gid (P : Z → Prop) s0 s1 s2 :
  untouched gid P s0 s1 → untouched gid P s1 s2 → untouched gid P s0 s2.
Proof.
  intros [H1 H2 H3] [G1 G2 G3]. split; [congruence|..]; intros i Hi;
    [by rewrite G2, H2|by rewrite G3, H3].
Qed.

Lemma untouched_weaken gid (P Q : Z → Prop) s0 s1 :
  (∀ i, P i → Q i) → untouched gid P s0 s1 → untouched gid Q s0 s1.
Proof. intros HPQ []. split; [done|..]; intros i Hi; [apply ut_records0|apply ut_absences0]; naive_solver. Qed.

(** The calls that concern one user of the group. *)
Definition user_op (gid uid : Z) (o : ledgerOp) : Prop :=
  let p := c_ownershipKey c in
  o = OMark p (itoa gid) (itoa uid) ∨ o = OUnmark p (itoa gid) (itoa uid) ∨
  o = OConfirm p (itoa gid) (itoa uid) ∨ o = OReset p (itoa gid) (itoa uid).

Lemma untouched_user gid (P : Z → Prop) uid o w0 w :
  user_op gid uid o → P uid → ledger_step o w0 w → untouched gid P (gl_store w0) (gl_store w).
Proof.
  intros Ho HP [[wr He] _ _].
  assert (∀ i, ¬ P i → uk gid uid ≠ uk gid i) as Hne.
  { intros i Hi Heq%uk_inj. by subst. }
  split; [by eapply op_effect_path|..]; intros i Hi; specialize (Hne i Hi); unfold uk in *;
    destruct Ho as [->|[->|[->| ->]]]; cbn in He; repeat case_match; injection He as <- <-; cbn;
    rewrite ?lookup_insert_ne, ?lookup_delete_ne by done; done.
Qed.

Lemma untouched_put gid P m w0 w : ledger_step (OPut m) w0 w → untouched gid P (gl_store w0) (gl_store w).
Proof. intros [[wr He] _ _]. cbn in He. injection He as <- _. by split. Qed.

(** ** The rest of the ledger *)
Lemma uk_group_inj g i g' i' : uk g i = uk g' i' → g = g'.
Proof.
  unfold uk, key. intros He%append_inj. injection He as [Hg _]%cut_inj; try apply itoa_no_nul. by apply (inj pretty) in Hg.
Qed.

(** Nothing changed for other groups than [gid], and no mapping but the one
    under the key [k]. *)
Record beside (gid : Z) (k : string) (s0 s : Store) : Prop := {
  be_path : st_path s = st_path s0;
  be_groups k' : k' ≠ k → st_groups s !! k' = st_groups s0 !! k';
  be_records g i : g ≠ gid → st_records s !! uk g i = st_records s0 !! uk g i;
  be_absences g i : g ≠ gid → st_absences s !! uk g i = st_absences s0 !! uk g i
}.

Lemma beside_trans gid k s0 s1 s2 : beside gid k s0 s1 → beside gid k s1 s2 → beside gid k s0 s2.
Proof.
  intros [A1 A2 A3 A4] [B1 B2 B3 B4]. split; [congruence|..]; intros; [by rewrite B2, A2|by rewrite B3, A3|by rewrite B4, A4].
Qed.

Lemma beside_put gid m s s' wr : op_effect (OPut m) s = Some (s', wr) → beside gid (mappingKey m) s s'.
Proof. cbn. intros [= <- _]. split; try done. intros k' Hk. cbn. by rewrite lookup_insert_ne. Qed.

Lemma beside_user gid k uid o s s' wr : user_op gid uid o → op_effect o s = Some (s', wr) → beside gid k s s'.
Proof.
  intros Ho He. assert (∀ g i, g ≠ gid → uk gid uid ≠ uk g i) as Hne by (intros g i Hg Heq%uk_group_inj; by subst).
  split; [by eapply op_effect_path|..]; [intros k' _|intros g i Hg; specialize (Hne g i Hg); unfold uk in *..];
    destruct Ho as [->|[->|[->| ->]]]; cbn in He; repeat case_match; injection He as <- <-; cbn;
    rewrite ?lookup_insert_ne, ?lookup_delete_ne by done; done.
Qed.
End ledger.
