(* ===== verification/GitLabSync.v ===== *)
(** * The phases of [SyncGroup] *)

From S2P Require Import Prelude GoStrings Sha256 GoTime Json World State StateSpec StateFacts Model Credential Config Paths GitLab GitLabSpec.

Section sync.
Context {S : Type} `{Env S} (c : Client) (req : SyncRequest).
Implicit Types (w : GL S).
Notation trace w := (sys_trace (gl_sys w)).

Lemma triple_lift {A} result (m : M (GL S) err A) P Q (X : Result * err → GL S → Prop) :
  triple P m Q (λ e, X (result, e)) → triple P (lift result m) Q X.
Proof. apply triple_wrap_err. Qed.

Lemma triple_liftWith {A} result ctx (m : M (GL S) err A) P Q (X : Result * err → GL S → Prop) :
  triple P m Q (λ e, X (result, EWrap ctx e)) → triple P (liftWith result ctx m) Q X.
Proof. apply triple_wrap_err. Qed.

(** Some exchanges, all of one kind. *)
Definition sends (F : Exchange → Prop) w0 w : Prop :=
  ∃ l, trace w = trace w0 ++ l ∧ Forall F l.

Lemma sends_refl F w : sends F w w.
Proof. exists []. split; [by rewrite (right_id_L [] (++))|constructor]. Qed.

Lemma sends_trans F w0 w1 w2 : sends F w0 w1 → sends F w1 w2 → sends F w0 w2.
Proof.
  intros (l1 & H1 & F1) (l2 & H2 & F2). exists (l1 ++ l2).
  split; [by rewrite H2, H1, (assoc_L (++))|by apply Forall_app].
Qed.

Lemma sends_weaken (F G : Exchange → Prop) w0 w : (∀ ex, F ex → G ex) → sends F w0 w → sends G w0 w.
Proof. intros HFG (l & Hl & Fl). exists l. split; [done|]. by eapply Forall_impl. Qed.

Lemma sends_after F w0 l w : after w0 l w → Forall F l → sends F w0 w.
Proof. intros [Ht _ _ _] Hl. by exists l. Qed.

Lemma sends_same F w0 w : trace w = trace w0 → sends F w0 w.
Proof. intros Ht. exists []. split; [by rewrite Ht, (right_id_L [] (++))|constructor]. Qed.

(** ** Binding the target *)
Definition stateKeyOf : string :=
  if String.eqb (sr_StateKey req) "" then g_ID (sr_SourceGroup req) else sr_StateKey req.

Definition bindKind (ex : Exchange) : Prop :=
  isGet ex ∨ (sr_CreateGroup req = true ∧ isGroupPost c ex).

(** The mapping that is recorded before anything else happens to the group. *)
Record boundTo (s0 : Store) (l : list Exchange) (target : group) (m : GroupMapping) : Prop := {
  bt_key : mappingKey m = groupKey (c_ownershipKey c) (sr_RuleName req) stateKeyOf ∨
           ∃ prev, st_groups s0 !! groupKey (c_ownershipKey c) (sr_RuleName req) stateKeyOf = Some prev ∧
             mappingKey m = mappingKey prev;
  bt_target : gm_TargetGroupID m = itoa (gg_ID target) ∧ gm_TargetGroupPath m = gg_FullPath target;
  bt_source : gm_SourceNativeID m = g_ID (sr_SourceGroup req) ∧ gm_SourceGroupPath m = g_Path (sr_SourceGroup req);
  bt_owned : sr_Prune req = "authoritative" → gm_Owned m = true;
  bt_stable prev : st_groups s0 !! groupKey (c_ownershipKey c) (sr_RuleName req) stateKeyOf = Some prev →
    gm_TargetGroupID prev = itoa (gg_ID target) ∧ gm_TargetGroupPath prev = gg_FullPath target;
  bt_located : located c (trimSlash (sr_TargetPath req)) target l
}.

Lemma triple_bindTarget result w0 : gl_path_ok w0 →
  triple (λ w, w = w0) (bindTarget c req result)
    (λ r w, ∃ l, (trace w = trace w0 ++ l ∧ Forall bindKind l) ∧
            (∃ m wr, op_effect (OPut m) (gl_store w0) = Some (gl_store w, wr) ∧ boundTo (gl_store w0) l r.1 m) ∧
            (∃ b, r.2 = set_created b result) ∧ gl_path_ok w)
    (λ _ w, sends bindKind w0 w ∧ gl_store w = gl_store w0).
Proof.
  intros Hp. unfold bindTarget. eapply triple_bind.
  { apply triple_lift. eapply triple_conseq; [apply (triple_ensureGroup _ _ _ _ w0)|done|intros a w Hw; exact Hw|].
    intros e w (l & Hl & Fl). split; [by eapply sends_after|by destruct Hl]. }
  intros [target created]. apply triple_at. intros w1 (l & H1 & F1 & Hcr & Hloc). cbn [fst snd] in Hcr, Hloc.
  assert (sends bindKind w0 w1) as Hs1 by (by eapply sends_after).
  pose proof (af_store _ _ _ H1) as Hst.
  assert (gl_path_ok w1) as Hp1 by (unfold gl_path_ok; by rewrite Hst).
  set (result' := set_created created result).
  eapply triple_bind with (R := λ prev w, w = w1 ∧
    prev = st_groups (gl_store w0) !! groupKey (c_ownershipKey c) (sr_RuleName req) stateKeyOf).
  { apply triple_lift, triple_zoom. intros w -> v ->. cbn. rewrite <-Hst. by destruct w1. }
  intros prev. eapply triple_bind with (R := λ m w, w = w1 ∧
    (mappingKey m = groupKey (c_ownershipKey c) (sr_RuleName req) stateKeyOf ∨
       ∃ prev, st_groups (gl_store w0) !! groupKey (c_ownershipKey c) (sr_RuleName req) stateKeyOf = Some prev ∧
         mappingKey m = mappingKey prev) ∧
    (gm_TargetGroupID m = itoa (gg_ID target) ∧ gm_TargetGroupPath m = gg_FullPath target) ∧
    ∀ prev, st_groups (gl_store w0) !! groupKey (c_ownershipKey c) (sr_RuleName req) stateKeyOf = Some prev →
      gm_TargetGroupID prev = itoa (gg_ID target) ∧ gm_TargetGroupPath prev = gg_FullPath target).
  { destruct prev as [m|].
    - case_decide as Hd; [|apply triple_throw; intros w [-> _]; by split].
      apply triple_ret. intros w [-> Hm]. split; [done|].
      assert (∀ x, x = set_owned true m ∨ x = m → mappingKey x = mappingKey m ∧
        gm_TargetGroupID x = gm_TargetGroupID m ∧ gm_TargetGroupPath x = gm_TargetGroupPath m) as Hx.
      { by intros x [-> | ->]. }
      destruct (Hx (if sr_AdoptExistingGroup req && negb (gm_Owned m) then set_owned true m else m)) as (Hk & -> & ->).
      { destruct (_ && _); auto. }
      split; [right; by exists m|]. split; [done|]. intros p Hpm. congruence.
    - apply triple_ret. intros w [-> Hm]. split; [done|]. split; [by left|]. split; [done|]. congruence. }
  intros m. apply triple_at. intros w2 (-> & Hk & Ht & Hstable).
  set (m' := set_source _ _ _ m).
  destruct (String.eqb (sr_Prune req) "authoritative" && negb (gm_Owned m')) eqn:Hpr.
  { apply triple_throw. intros w ->. by split. }
  eapply triple_bind with (R := λ _ w, ledger_step (OPut m') w1 w).
  { apply triple_liftWith.
    eapply triple_conseq; [apply (triple_ledger_unit (OPut m') _ w1)|..]; try done.
    intros e w Hw. split; [|by destruct Hw as [_ -> _ _]]. eapply sends_trans; [exact Hs1|].
    by eapply sends_after; [exact Hw|constructor]. }
  intros _. apply triple_ret. intros w Hw. cbn [fst snd]. exists l. split.
  { split; [|exact F1]. destruct Hw as [_ -> _]. by destruct H1. }
  split; [|split; [by exists created|by eapply ledger_step_path]].
  destruct (ls_effect _ _ _ Hw) as [wr He]. exists m', wr. rewrite Hst in He. split; [done|].
  split; try done; try by destruct m.
  intros Hauth. rewrite Hauth in Hpr. change (String.eqb "authoritative" "authoritative") with true in Hpr.
  cbn [andb] in Hpr. by apply negb_false_iff in Hpr.
Qed.

(** ** Resolving the members *)

(** A source member and the active GitLab user it was matched with exactly. *)
Definition resolvedAs (source : User) (u : user) (l : list Exchange) : Prop :=
  gu_State u = "active" ∧ ∃ f ex, f ∈ sr_IdentityMatch req ∧ ex ∈ l ∧ exact_match c source f u ex.

Record resolved (done_ : list User) (result0 : Result) (l : list Exchange) (desired : gmap Z user)
    (result : Result) : Prop := {
  rs_desired i u : desired !! i = Some u → gu_ID u = i ∧ ∃ source, source ∈ done_ ∧ resolvedAs source u l;
  rs_count : r_Unresolved result0 ≤ r_Unresolved result;
  rs_all : r_Unresolved result = r_Unresolved result0 →
    ∀ source, source ∈ done_ → ∃ u, resolvedAs source u l ∧ is_Some (desired !! gu_ID u);
  rs_others : r_Removed result = r_Removed result0 ∧ r_Converged result = r_Converged result0
}.

Lemma resolvedAs_more source u l l' : resolvedAs source u l → resolvedAs source u (l ++ l').
Proof.
  intros [Ha (f & ex & Hf & Hin & Hm)]. split; [done|]. exists f, ex. split; [done|].
  split; [apply elem_of_app; by left|done].
Qed.

Lemma resolved_add done_ result0 l l' desired result source u :
  resolved done_ result0 l desired result → resolvedAs source u (l ++ l') →
  resolved (done_ ++ [source]) result0 (l ++ l') (<[gu_ID u := u]> desired) result.
Proof.
  intros [H1 H2 H3 H4] Hu. split; [|done| |done].
  - intros i v [[<- <-]|[_ Hv]]%lookup_insert_Some.
    + split; [done|]. exists source. split; [apply elem_of_app; right; by left|done].
    + destruct (H1 _ _ Hv) as [Hi (s & Hs & Hr)]. split; [done|]. exists s.
      split; [apply elem_of_app; by left|by apply resolvedAs_more].
  - intros Heq s [Hs| ->%list_elem_of_singleton]%elem_of_app.
    + destruct (H3 Heq s Hs) as (v & Hv & Hd). exists v. split; [by apply resolvedAs_more|].
      destruct (decide (gu_ID u = gu_ID v)) as [->|]; [rewrite lookup_insert_eq; by eexists|].
      by rewrite lookup_insert_ne.
    + exists u. split; [done|]. rewrite lookup_insert_eq. by eexists.
Qed.

Lemma resolved_skip done_ result0 l l' desired result source :
  resolved done_ result0 l desired result →
  resolved (done_ ++ [source]) result0 (l ++ l') desired (add_unresolved result).
Proof.
  intros [H1 H2 H3 H4]. split; [| | |done].
  - intros i v Hv. destruct (H1 _ _ Hv) as [Hi (s & Hs & Hr)]. split; [done|]. exists s.
    split; [apply elem_of_app; by left|by apply resolvedAs_more].
  - cbn. lia.
  - cbn. lia.
Qed.

Lemma triple_resolveMembers result w0 :
  triple (λ w, w = w0) (resolveMembers c req result)
    (λ r w, ∃ l, after w0 l w ∧ Forall isGet l ∧ resolved (g_Members (sr_SourceGroup req)) result l r.1 r.2)
    (λ _ w, read_only w0 w).
Proof.
  unfold resolveMembers.
  eapply triple_conseq; [eapply (triple_mfold _ (λ done_ r w, ∃ l, after w0 l w ∧ Forall isGet l ∧
    resolved done_ result l r.1 r.2) (λ _ w, read_only w0 w))| | |].
  2: { intros w ->. exists []. split; [apply after_refl|]. split; [constructor|].
       split; cbn [fst snd]; [intros i u Hi; by rewrite lookup_empty in Hi|lia
         |intros _ s Hs; by apply elem_of_nil in Hs|done]. }
  2, 3: done.
  intros done_ source rest [desired res] _. apply triple_at. intros w1 (l & H1 & F1 & Hr).
  eapply triple_bind.
  { apply triple_liftWith. eapply triple_conseq; [apply (triple_findUser _ _ _ w1)|done|intros a w Hw; exact Hw|].
    intros e w Hw. eapply read_only_trans; [by exists l|exact Hw]. }
  intros found. apply triple_at. intros w2 (l' & H2 & F2 & Hu).
  assert (after w0 (l ++ l') w2 ∧ Forall isGet (l ++ l')) as [H3 F3].
  { split; [by eapply after_trans|by apply Forall_app]. }
  destruct found as [u|].
  - destruct (String.eqb_spec (gu_State u) "active") as [Ha|Ha]; apply triple_ret; intros w ->;
      (exists (l ++ l'); split; [done|]; split; [done|]).
    + apply resolved_add; [done|]. split; [done|]. destruct (Hu u eq_refl) as (f & ex & ? & ? & ?).
      exists f, ex. split; [done|]. split; [apply elem_of_app; by right|done].
    + by apply resolved_skip.
  - apply triple_ret. intros w ->. exists (l ++ l'). split; [done|]. split; [done|]. by apply resolved_skip.
Qed.

(** ** Adding and updating the desired users *)
Lemma accessLevels_range name : 0 ≤ accessLevels name ≤ 40.
Proof. unfold accessLevels. repeat case_match; lia. Qed.

Section apply.
Context (target : group) (existing : gmap Z member) (desired : gmap Z user).
Notation gid := (gg_ID target).
Notation level := (accessLevels (sr_AccessLevel req)).

(** A change of the membership of a desired user, relative to the ledger [s]. *)
Definition grantOf (s : Store) (id : Z) (ex : Exchange) : Prop :=
  is_Some (desired !! id) ∧
  ((existing !! id = None ∧ sent_by c (addCall gid id level) ex) ∨
   (∃ m, existing !! id = Some m ∧ m_MemberRoleID m = None ∧ m_AccessLevel m < ownerLevel ∧
      m_AccessLevel m ≠ level ∧ (level < m_AccessLevel m → sr_EnforceAccessLevel req = true) ∧
      (sr_Prune req = "managed-only" → is_Some (st_records s !! uk c gid id)) ∧
      sent_by c (updateCall gid id level) ex)).

Definition applyKind (s : Store) (id : Z) (ex : Exchange) : Prop := isGet ex ∨ grantOf s id ex.

(** The user is a member at the requested level or above. *)
Definition secured (id : Z) (l : list Exchange) : Prop :=
  (∃ m, existing !! id = Some m ∧ level ≤ m_AccessLevel m) ∨
  ∃ ex st h v, ex ∈ l ∧ answered c (MkCall "GET" (memberPath gid id) [] BNone) noMember (Some decMember) (st, h, v) ex ∧
    st ≠ 404 ∧ level ≤ m_AccessLevel v.

(** The code changes the level of this member: it is below the level of the
    rule, or the rule enforces its level and the member is no owner. *)
Definition mustMove (m : member) : bool :=
  bool_decide (m_MemberRoleID m = None) &&
  ((m_AccessLevel m <? level) ||
   (sr_EnforceAccessLevel req && negb (m_AccessLevel m =? level) && (m_AccessLevel m <? ownerLevel))).

(** What a desired user's turn sent when it ended well. *)
Inductive applied (id : Z) : list Exchange → Prop :=
| ap_kept m : existing !! id = Some m → mustMove m = false → level ≤ m_AccessLevel m → applied id []
| ap_added ex ex' v : existing !! id = None → sent_by c (addCall gid id level) ex →
    member_answer c gid id (Some v) ex' → level ≤ m_AccessLevel v → applied id [ex; ex']
| ap_moved m ex ex' v : existing !! id = Some m → mustMove m = true → sent_by c (updateCall gid id level) ex →
    member_answer c gid id (Some v) ex' → m_AccessLevel v = level → applied id [ex; ex'].

Lemma applied_secured id l : applied id l → secured id l.
Proof.
  assert (∀ ex ex' v, member_answer c gid id (Some v) ex' → level ≤ m_AccessLevel v → secured id [ex; ex']) as Hs.
  { intros ex ex' v (st & h & m & Ha & Hv) Hle. right. destruct (Z.eqb_spec st 404); [done|].
    destruct Hv as [_ [= ->]]. exists ex', st, h, m. split; [right; by left|done]. }
  intros [m He _ Hle|ex ex' v _ _ Hv Hle|m ex ex' v _ _ _ Hv Hle]; [left; by exists m|by eapply Hs|].
  eapply Hs; [exact Hv|lia].
Qed.

Definition sameCounts (r r' : Result) : Prop :=
  r_Removed r' = r_Removed r ∧ r_Unresolved r' = r_Unresolved r ∧ r_Converged r' = r_Converged r.

Lemma sends_step F w0 w o : ledger_step o w0 w → sends F w0 w.
Proof. intros [_ Ht _]. by apply sends_same. Qed.

(** A membership change followed by its verification. *)
Lemma triple_verified {B} result ctx1 ctx2 (m : M (GL S) err unit) (x : call) (id : Z) s
    (k : option member → M (GL S) (Result * err) B) w0 Q :
  (∀ w, triple (λ w', w' = w) m (λ _ w', ∃ ex, after w [ex] w' ∧ sent_by c x ex)
      (λ _ w', ∃ l, after w l w' ∧ Forall (sent_by c x) l)) →
  (∀ ex, sent_by c x ex → grantOf s id ex) →
  (∀ v l w1, after w0 l w1 → Forall (applyKind s id) l →
     (∀ mb, v = Some mb → ∃ ex ex', l = [ex; ex'] ∧ sent_by c x ex ∧ member_answer c gid id (Some mb) ex') →
     triple (λ w, w = w1) (k v) Q (λ _ w, sends (applyKind s id) w0 w)) →
  triple (λ w, w = w0) (liftWith result ctx1 m;; (v ← liftWith result ctx2 (getMember c gid id); k v))
    Q (λ _ w, sends (applyKind s id) w0 w).
Proof.
  intros Hm Hg Hk. assert (∀ l, Forall (sent_by c x) l → Forall (applyKind s id) l) as Hkind.
  { intros l Fl. eapply Forall_impl; [exact Fl|]. intros ex Hs. right. by apply Hg. }
  eapply triple_bind.
  { apply triple_liftWith. eapply triple_conseq; [apply (Hm w0)|done|intros a w Hw; exact Hw|].
    intros e w (l & Hl & Fl). eapply sends_after; [exact Hl|by apply Hkind]. }
  intros []. apply triple_at. intros w1 (ex & H1 & Hs).
  assert (Forall (applyKind s id) [ex]) as F1 by (apply Hkind; by constructor).
  eapply triple_bind.
  { apply triple_liftWith. eapply triple_conseq; [apply (triple_getMember _ _ _ w1)|done|intros a w Hw; exact Hw|].
    intros e w (l & Hl & Fl). eapply sends_trans; [by eapply sends_after|].
    eapply sends_after; [exact Hl|]. eapply Forall_impl; [exact Fl|by left]. }
  intros v. apply triple_at. intros w2 (ex' & H2 & Hans). pose proof (member_answer_get _ _ _ _ _ Hans) as Hget.
  apply (Hk v ([ex] ++ [ex'])).
  - by eapply after_trans.
  - apply Forall_app. split; [done|]. constructor; [by left|done].
  - intros mb ->. by exists ex, ex'.
Qed.

(** How a desired user's turn ends when it ends well. *)
Definition turnDone (id : Z) (result : Result) w0 (r : Result) w : Prop :=
  gl_path_ok w ∧ untouched c gid (λ i, i = id) (gl_store w0) (gl_store w) ∧ sameCounts result r ∧
  ∃ l, trace w = trace w0 ++ l ∧ Forall (applyKind (gl_store w0) id) l ∧ applied id l.

(** The turn once the absence observation is reset: from [w0] to [w1]. *)
Section turn.
Context (id : Z) (result : Result) (w0 w1 : GL S).
Context (Hd : is_Some (desired !! id)) (Hp1 : gl_path_ok w1).
Context (Hstep : ledger_step (OReset (c_ownershipKey c) (itoa gid) (itoa id)) w0 w1).
Notation kind := (applyKind (gl_store w0) id).

Lemma turn_untouched : untouched c gid (λ i, i = id) (gl_store w0) (gl_store w1).
Proof. eapply untouched_user; [|done|exact Hstep]. by right; right; right. Qed.

Lemma turn_records : st_records (gl_store w1) = st_records (gl_store w0).
Proof. destruct (ls_effect _ _ _ Hstep) as [wr He]. cbn in He. by destruct (st_absences _ !! _); injection He as <- _. Qed.

Lemma turn_done r l w : gl_store w = gl_store w1 → sameCounts result r → trace w = trace w1 ++ l → Forall kind l → applied id l →
  turnDone id result w0 r w.
Proof.
  intros Hst Hc Ht F Ha. unfold turnDone, gl_path_ok. rewrite Hst. split; [done|]. split; [apply turn_untouched|]. split; [done|].
  exists l. by rewrite Ht, (ls_trace _ _ _ Hstep).
Qed.

Lemma turn_kept m : existing !! id = Some m → mustMove m = false → level ≤ m_AccessLevel m → turnDone id result w0 result w1.
Proof. intros. apply (turn_done _ []); try done; [by rewrite (right_id_L [] (++))|by eapply ap_kept]. Qed.

(** A member is moved to the level of the rule, and the change verified. *)
Lemma triple_moveUser m : existing !! id = Some m → mustMove m = true →
  (sr_Prune req = "managed-only" → is_Some (st_records (gl_store w0) !! uk c gid id)) →
  triple (λ w, w = w1)
    (liftWith result "update GitLab member" (updateMember c gid id level);;
     verified ← liftWith result "verify GitLab member after update" (getMember c gid id);
     if match verified with None => true | Some v => negb (m_AccessLevel v =? level) end
     then failWith result "verify GitLab member after update: requested level is not active"
     else mret (add_updated result))
    (turnDone id result w0) (λ _ w, sends kind w1 w).
Proof.
  intros Hex Hmove Hman. pose proof Hmove as [Hrole%bool_decide_eq_true Hcond]%andb_true_iff.
  apply (triple_verified _ _ _ _ (updateCall gid id level)).
  - intros w. apply triple_updateMember.
  - intros ex Hs. split; [done|]. right. exists m. pose proof (accessLevels_range (sr_AccessLevel req)).
    apply orb_true_iff in Hcond as [Hlt%Z.ltb_lt|Hc].
    + unfold ownerLevel. split_and!; try done; try lia; by apply Hman.
    + apply andb_true_iff in Hc as [[He Hne]%andb_true_iff Ho%Z.ltb_lt].
      apply negb_true_iff, Z.eqb_neq in Hne. by split_and!; try apply Hman.
  - intros v l w2 H2 F2 Hsec. pose proof (af_store _ _ _ H2) as Hst2.
    destruct v as [mb|]; [|apply triple_throw; intros w ->; by eapply sends_after].
    destruct (Z.eqb_spec (m_AccessLevel mb) level) as [Heq|]; cbn [negb];
      [|apply triple_throw; intros w ->; by eapply sends_after].
    apply triple_ret. intros w ->. apply (turn_done _ l); [done|done|by destruct H2|done|].
    destruct (Hsec mb eq_refl) as (ex & ex' & -> & Hs & Hv). by eapply ap_moved.
Qed.

(** A new member is added, the change verified and the ledger told. *)
Lemma triple_joinUser : existing !! id = None →
  triple (λ w, w = w1)
    (liftWith result "add GitLab member" (addMember c gid id level);;
     verified ← liftWith result "verify GitLab member after add" (getMember c gid id);
     if match verified with None => true | Some v => m_AccessLevel v <? level end
     then failWith result "verify GitLab member after add: membership is not active at the requested level"
     else
       liftWith result "record managed GitLab membership" (ledger (MarkManaged (c_ownershipKey c) (itoa gid) (itoa id)));;
       mret (add_added result))
    (turnDone id result w0) (λ _ w, sends kind w1 w).
Proof.
  intros Hex. apply (triple_verified _ _ _ _ (addCall gid id level)).
  - intros w. apply triple_addMember.
  - intros ex Hs. split; [done|]. by left.
  - intros v l w2 H2 F2 Hsec. pose proof (af_store _ _ _ H2) as Hst2.
    destruct v as [mb|]; [|apply triple_throw; intros w ->; by eapply sends_after].
    destruct (Z.ltb_spec (m_AccessLevel mb) level) as [|Hge];
      [apply triple_throw; intros w ->; by eapply sends_after|].
    assert (gl_path_ok w2) as Hp2 by (unfold gl_path_ok; by rewrite Hst2).
    eapply triple_bind with (R := λ _ w, ledger_step (OMark (c_ownershipKey c) (itoa gid) (itoa id)) w2 w).
    { apply triple_liftWith. eapply triple_conseq; [apply (triple_ledger_unit (OMark (c_ownershipKey c) (itoa gid) (itoa id)) _ w2)|..]; try done.
      intros e w Hw. eapply sends_trans; [by eapply sends_after|]. by eapply sends_after; [exact Hw|constructor]. }
    intros []. apply triple_ret. intros w Hw. split; [by eapply ledger_step_path|]. split.
    { eapply untouched_trans; [exact turn_untouched|]. rewrite <-Hst2. eapply untouched_user; [|done|exact Hw]. by left. }
    split; [done|]. exists l. split; [by rewrite (ls_trace _ _ _ Hw), (af_trace _ _ _ H2), (ls_trace _ _ _ Hstep)|].
    split; [done|]. destruct (Hsec mb eq_refl) as (ex & ex' & -> & Hs & Hv). by eapply ap_added.
Qed.
End turn.

Lemma triple_applyUser result id u w0 :
  gl_path_ok w0 → desired !! id = Some u →
  triple (λ w, w = w0) (applyUser c req target existing level result (id, u))
    (turnDone id result w0) (λ _ w, sends (applyKind (gl_store w0) id) w0 w).
Proof.
  intros Hp Hd. unfold applyUser. cbn [fst].
  eapply triple_bind with (R := λ _ w, ledger_step (OReset (c_ownershipKey c) (itoa gid) (itoa id)) w0 w).
  { apply triple_liftWith. eapply triple_conseq; [apply (triple_ledger_unit (OReset (c_ownershipKey c) (itoa gid) (itoa id)) _ w0)|..]; try done.
    intros e w Hw. by eapply sends_after; [exact Hw|constructor]. }
  intros []. apply triple_at. intros w1 H1. pose proof (ledger_step_path _ _ _ H1 Hp) as Hp1.
  eapply triple_conseq with (P := λ w, w = w1) (X := λ _ w, sends (applyKind (gl_store w0) id) w1 w);
    [|done|intros r w Hw; exact Hw|by intros e w Hw; eapply sends_trans; [by eapply sends_step|]].
  assert (is_Some (desired !! id)) as Hds by (by rewrite Hd).
  destruct (existing !! id) as [m|] eqn:Hex; [|by apply (triple_joinUser id result w0 w1 Hds Hp1 H1)].
  destruct (m_MemberRoleID m) as [role|] eqn:Hrole.
  { destruct (Z.ltb_spec (m_AccessLevel m) level); cbn [orb]; [apply triple_throw; intros w ->; apply sends_refl|].
    destruct (_ && _); [apply triple_throw; intros w ->; apply sends_refl|].
    apply triple_ret. intros w ->. eapply turn_kept; [done..| |done]. unfold mustMove. by rewrite Hrole. }
  assert (mustMove m = ((m_AccessLevel m <? level) || (sr_EnforceAccessLevel req &&
    negb (m_AccessLevel m =? level) && (m_AccessLevel m <? ownerLevel)))) as Hmove.
  { unfold mustMove. by rewrite Hrole, bool_decide_eq_true_2. }
  destruct ((m_AccessLevel m <? level) || _) eqn:Hcond.
  2: { pose proof Hcond as [Hlt%Z.ltb_ge _]%orb_false_iff. apply triple_ret. intros w ->. by eapply turn_kept. }
  eapply triple_bind with (R := λ b w, w = w1 ∧
    (b = true → sr_Prune req = "managed-only" → is_Some (st_records (gl_store w0) !! uk c gid id))).
  { destruct (String.eqb_spec (sr_Prune req) "managed-only") as [Hmo|Hmo].
    - apply triple_lift, triple_zoom. intros w -> v ->. cbn. split; [by destruct w1|].
      rewrite (turn_records _ _ _ H1). intros Hb _. by apply bool_decide_eq_true in Hb.
    - apply triple_ret. by intros w ->. }
  intros b. apply triple_at. intros w1' [-> Hman]. destruct b; cbn [negb]; [|apply triple_throw; intros w ->; apply sends_refl].
  apply (triple_moveUser id result w0 w1 Hds Hp1 H1 m Hex Hmove). by apply Hman.
Qed.

(** All desired users, in any order. *)
Definition grantKind (s : Store) (ex : Exchange) : Prop := isGet ex ∨ ∃ id, grantOf s id ex.

Lemma applyKind_before s0 s id ex (P : Z → Prop) :
  untouched c gid P s0 s → ¬ P id → applyKind s id ex → grantKind s0 ex.
Proof.
  intros [_ Hr _] HP [Hg|[Hd Hg]]; [by left|]. right. exists id. split; [done|].
  destruct Hg as [Hg|(m & He & H1 & H2 & H3 & H4 & H5 & H6)]; [by left|]. right. exists m.
  split_and!; try done. intros Hmo. rewrite <-(Hr id HP). by apply H5.
Qed.

Lemma secured_more id l1 l l2 : secured id l → secured id (l1 ++ l ++ l2).
Proof.
  intros [Hm|(ex & st & h & v & Hin & Hex)]; [by left|]. right. exists ex, st, h, v.
  split; [|done]. apply elem_of_app. right. apply elem_of_app. by left.
Qed.

Lemma applied_all_secured ids ls id : Forall2 applied ids ls → id ∈ ids → secured id (concat ls).
Proof.
  intros Hl Hid. induction Hl as [|i l ids ls Hi _ IH]; [by apply elem_of_nil in Hid|].
  cbn [concat]. apply elem_of_cons in Hid as [->|Hid].
  - apply (secured_more i []), applied_secured, Hi.
  - rewrite <-(right_id_L [] (++) (concat ls)). by apply secured_more, IH.
Qed.

Lemma triple_applyAll result order w0 :
  gl_path_ok w0 → NoDup order.*1 → (∀ id u, (id, u) ∈ order → desired !! id = Some u) →
  triple (λ w, w = w0) (mfold (applyUser c req target existing level) result order)
    (λ r w, gl_path_ok w ∧ untouched c gid (λ i, i ∈ order.*1) (gl_store w0) (gl_store w) ∧ sameCounts result r ∧
       ∃ ls, trace w = trace w0 ++ concat ls ∧ Forall (grantKind (gl_store w0)) (concat ls) ∧
         Forall2 applied order.*1 ls)
    (λ _ w, sends (grantKind (gl_store w0)) w0 w).
Proof.
  intros Hp Hnd Hdes.
  eapply triple_conseq; [eapply (triple_mfold _ (λ d r w, gl_path_ok w ∧
      untouched c gid (λ i, i ∈ d.*1) (gl_store w0) (gl_store w) ∧ sameCounts result r ∧
      ∃ ls, trace w = trace w0 ++ concat ls ∧ Forall (grantKind (gl_store w0)) (concat ls) ∧ Forall2 applied d.*1 ls)
    (λ _ w, sends (grantKind (gl_store w0)) w0 w))| | |].
  2: { intros w ->. split; [done|]. split; [done|]. split; [done|]. exists [].
       split; [cbn; by rewrite (right_id_L [] (++))|]. split; constructor. }
  2, 3: done.
  intros d [id u] rest r Hl. apply triple_at. intros w1 (Hp1 & U1 & Hc1 & ls & Ht1 & F1 & Hs1).
  assert (id ∉ d.*1) as Hid.
  { rewrite Hl, fmap_app in Hnd. apply NoDup_app in Hnd as (_ & Hn & _). intros Hin. apply (Hn _ Hin). by left. }
  assert (∀ l, Forall (applyKind (gl_store w1) id) l → Forall (grantKind (gl_store w0)) l) as Hk.
  { intros l Fl. eapply Forall_impl; [exact Fl|]. intros ex Hex. eapply applyKind_before; [exact U1|exact Hid|exact Hex]. }
  eapply triple_conseq; [apply (triple_applyUser _ id u w1)|done|..]; [done| | |].
  { apply Hdes. rewrite Hl. apply elem_of_app. right. by left. }
  - intros r' w2 (Hp2 & U2 & (Hc2 & Hc2' & Hc2'') & l2 & Ht2 & F2 & Hs2). split; [done|]. split; [|split].
    + eapply untouched_trans; [eapply untouched_weaken; [|exact U1]|eapply untouched_weaken; [|exact U2]];
        intros i Hi; cbn beta in *; rewrite fmap_app; apply elem_of_app; [by left|right].
      subst i. by apply list_elem_of_singleton.
    + destruct Hc1 as (? & ? & ?). split_and!; congruence.
    + exists (ls ++ [l2]). rewrite List.concat_app. cbn [concat]. rewrite (right_id_L [] (++) l2).
      split; [by rewrite Ht2, Ht1, (assoc_L (++))|]. split; [apply Forall_app; split; [done|by apply Hk]|].
      rewrite fmap_app. apply Forall2_app; [done|]. by constructor.
  - intros e w (l2 & Ht2 & F2). exists (concat ls ++ l2). split; [by rewrite Ht2, Ht1, (assoc_L (++))|].
    apply Forall_app. split; [done|by apply Hk].
Qed.
End apply.
End sync.
