(* ===== verification/GitLabRemove.v ===== *)
(** * The removals of [SyncGroup]

    Which listed members are candidates, which of them are removed, and what
    is known when the run reports that it converged. *)

From S2P Require Import Prelude GoStrings Sha256 GoTime Json World State StateSpec StateFacts Model Credential Config Paths GitLab GitLabSpec GitLabSync.

Section remove.
Context {S : Type} `{Env S} (c : Client) (req : SyncRequest) (target : group) (desired : gmap Z user).
Implicit Types (w : GL S).
Notation trace w := (sys_trace (gl_sys w)).
Notation gid := (gg_ID target).

(** A member that the safety rules allow to remove, relative to the ledger [s]. *)
Record candidate (self : Z) (s : Store) (m : member) : Prop := {
  cd_desired : desired !! m_ID m = None;
  cd_self : m_ID m ≠ self;
  cd_owner : m_AccessLevel m < ownerLevel;
  cd_role : m_MemberRoleID m = None;
  cd_protected : isProtected req m = false;
  cd_prune : sr_Prune req = "authoritative" ∨
             (sr_Prune req = "managed-only" ∧ is_Some (st_records s !! uk c gid (m_ID m)))
}.

(** Its absence was observed before, according to the ledger [s]. *)
Definition seenBefore (s : Store) (m : member) : Prop :=
  ∃ a, st_absences s !! uk c gid (m_ID m) = Some a ∧ 2 ≤ wrap64 (ab_Observations a + 1).

(** The listing names the member's account more than once. *)
Definition listedTwice (members : list member) (m : member) : Prop :=
  (2 ≤ length (List.filter (λ x, (m_ID x =? m_ID m)%Z) members))%nat.

Record considered (self : Z) (s0 : Store) (d rem : list member) (pend : bool) : Prop := {
  co_sub : rem `sublist_of` d;
  co_rem m : m ∈ rem → candidate self s0 m ∧
    (sr_ImmediateRemoval req = false → seenBefore s0 m ∨ listedTwice d m);
  co_all m : pend = false → m ∈ d → candidate self s0 m → m ∈ rem;
  co_pend : pend = true → sr_ImmediateRemoval req = false ∧
    ∃ m, m ∈ d ∧ candidate self s0 m ∧ (¬ seenBefore s0 m ∨ listedTwice d m)
}.

Lemma twice_more d x m : listedTwice d m → listedTwice (d ++ [x]) m.
Proof. unfold listedTwice. rewrite List.filter_app, length_app. lia. Qed.

(** A member that was listed before is listed twice now. *)
Lemma listed_again d m : m_ID m ∈ m_ID <$> d → listedTwice (d ++ [m]) m.
Proof.
  intros (x & Hx & Hin)%list_elem_of_fmap. unfold listedTwice. rewrite List.filter_app, length_app. cbn. rewrite Z.eqb_refl. cbn.
  assert (x ∈ List.filter (λ y, (m_ID y =? m_ID m)%Z) d) as Hf.
  { apply list_elem_of_In, filter_In. split; [by apply list_elem_of_In|by apply Z.eqb_eq]. }
  destruct (List.filter _ d); [by apply elem_of_nil in Hf|cbn; lia].
Qed.

Lemma listed_once members m : NoDup (m_ID <$> members) → ¬ listedTwice members m.
Proof.
  unfold listedTwice. induction members as [|x l IH]; cbn [fmap list_fmap List.filter length]; [lia|].
  intros [Hx Hl]%NoDup_cons. destruct (Z.eqb_spec (m_ID x) (m_ID m)) as [Heq|]; [|by apply IH].
  assert (List.filter (λ y, (m_ID y =? m_ID m)%Z) l = []) as ->; [|cbn; lia].
  destruct (List.filter _ l) as [|y l'] eqn:Hf; [done|]. exfalso. apply Hx. rewrite Heq.
  assert (y ∈ List.filter (λ y, (m_ID y =? m_ID m)%Z) l) as Hy by (rewrite Hf; by left).
  apply list_elem_of_In, filter_In in Hy as [Hy Hyd%Z.eqb_eq]. rewrite <-Hyd. apply list_elem_of_fmap_2. by apply list_elem_of_In.
Qed.

Lemma pend_more self s0 d rem pend m : considered self s0 d rem pend → pend = true →
  sr_ImmediateRemoval req = false ∧
  ∃ x, x ∈ d ++ [m] ∧ candidate self s0 x ∧ (¬ seenBefore s0 x ∨ listedTwice (d ++ [m]) x).
Proof.
  intros [_ _ _ Hp] Hpend. destruct (Hp Hpend) as [Hi (x & Hx & Hc & Hs)]. split; [done|].
  exists x. split; [apply elem_of_app; by left|]. split; [done|].
  destruct Hs as [?|?]; [by left|right; by apply twice_more].
Qed.

Lemma considered_skip self s0 d rem pend m :
  considered self s0 d rem pend → ¬ candidate self s0 m → considered self s0 (d ++ [m]) rem pend.
Proof.
  intros Hcons Hm. pose proof Hcons as [H1 H2 H3 _]. split.
  - by apply sublist_inserts_r.
  - intros x Hx. destruct (H2 x Hx) as [Hc Hs]. split; [done|].
    intros Hi. destruct (Hs Hi) as [?|?]; [by left|right; by apply twice_more].
  - intros x Hp [Hx| ->%list_elem_of_singleton]%elem_of_app Hc; [by apply H3|done].
  - by eapply pend_more.
Qed.

Lemma considered_pend self s0 d rem pend m :
  considered self s0 d rem pend → candidate self s0 m → sr_ImmediateRemoval req = false →
  (¬ seenBefore s0 m ∨ listedTwice (d ++ [m]) m) → considered self s0 (d ++ [m]) rem true.
Proof.
  intros [H1 H2 H3 _] Hm Hi Hs. split.
  - by apply sublist_inserts_r.
  - intros x Hx. destruct (H2 x Hx) as [Hc Hsx]. split; [done|].
    intros _. destruct (Hsx Hi) as [?|?]; [by left|right; by apply twice_more].
  - done.
  - intros _. split; [done|]. exists m. split; [apply elem_of_app; right; by left|done].
Qed.

Lemma considered_add self s0 d rem pend m :
  considered self s0 d rem pend → candidate self s0 m →
  (sr_ImmediateRemoval req = false → seenBefore s0 m ∨ listedTwice (d ++ [m]) m) →
  considered self s0 (d ++ [m]) (rem ++ [m]) pend.
Proof.
  intros Hcons Hm Hs. pose proof Hcons as [H1 H2 H3 _]. split.
  - by apply sublist_app.
  - intros x [Hx| ->%list_elem_of_singleton]%elem_of_app; [|done].
    destruct (H2 x Hx) as [Hc Hs']. split; [done|].
    intros Hi. destruct (Hs' Hi) as [?|?]; [by left|right; by apply twice_more].
  - intros x Hp [Hx| ->%list_elem_of_singleton]%elem_of_app Hc; apply elem_of_app; [left; by apply H3|right; by left].
  - by eapply pend_more.
Qed.

(** The state of the loop that looks for removals. *)
Record looked (self : Z) (res0 : Result) w0 (d : list member) (acc : list member * bool * Result) w : Prop := {
  lk_trace : trace w = trace w0;
  lk_id : gl_identityID w = gl_identityID w0;
  lk_path : gl_path_ok w;
  lk_records : st_records (gl_store w) = st_records (gl_store w0);
  lk_touched : untouched c gid (λ i, i ∈ m_ID <$> d) (gl_store w0) (gl_store w);
  lk_considered : considered self (gl_store w0) d acc.1.1 acc.1.2;
  lk_counts : sameCounts res0 acc.2
}.

(** A candidate whose absence has to be confirmed, and the answer. *)
Lemma triple_confirmed self res0 w0 d m rem pend res w1 : looked self res0 w0 d (rem, pend, res) w1 →
  candidate self (gl_store w0) m → sr_ImmediateRemoval req = false →
  triple (λ w, w = w1)
    (confirmed ← liftWith res "confirm absent GitLab membership"
                   (ledger (ConfirmAbsent (c_ownershipKey c) (itoa gid) (itoa (m_ID m))));
     if negb confirmed then mret (rem, true, add_skipped res) else mret (rem ++ [m], pend, res))
    (λ acc w, looked self res0 w0 (d ++ [m]) acc w)
    (λ _ w, trace w = trace w0 ∧ gl_identityID w = gl_identityID w0).
Proof.
  intros [Ht Hi Hp Hr U Hc Hn] Hcand Himm. cbn [fst snd] in *.
  eapply triple_bind.
  { apply triple_liftWith. eapply triple_conseq;
      [apply (triple_ledger_op (OConfirm (c_ownershipKey c) (itoa gid) (itoa (m_ID m))) w1 Hp)|done|intros a w Hw; exact Hw|].
    intros e w [Hw _ Hid _]. rewrite (right_id_L [] (++)) in Hw. by split; congruence. }
  intros confirmed. apply triple_at. intros w2 [Hst Hres].
  assert (∀ acc, considered self (gl_store w0) (d ++ [m]) acc.1.1 acc.1.2 → sameCounts res0 acc.2 →
    looked self res0 w0 (d ++ [m]) acc w2) as Hafter.
  { intros acc Hac Hcs. split; try done.
    - by rewrite (ls_trace _ _ _ Hst).
    - by rewrite (ls_id _ _ _ Hst).
    - by eapply ledger_step_path.
    - destruct (ls_effect _ _ _ Hst) as [wr He]. cbn in He. injection He as <- _. exact Hr.
    - eapply untouched_trans; [eapply untouched_weaken, U|eapply untouched_user; [|..|exact Hst]].
      + intros i Hin. cbn beta. rewrite fmap_app. apply elem_of_app. by left.
      + right; right; by left.
      + rewrite fmap_app. apply elem_of_app. right. by left. }
  assert (listedTwice (d ++ [m]) m ∨ (confirmed = true ↔ seenBefore (gl_store w0) m)) as Hseen.
  { destruct (decide (m_ID m ∈ m_ID <$> d)) as [Hin|Hnin]; [left; by apply listed_again|right].
    rewrite Hres. cbn. change (key _ _ _) with (uk c gid (m_ID m)).
    rewrite (ut_absences _ _ _ _ _ U _ Hnin). unfold seenBefore.
    destruct (st_absences (gl_store w0) !! uk c gid (m_ID m)) as [a|].
    - rewrite Z.leb_le. split; [by exists a|]. by intros (x & [= <-] & ?).
    - split; [intros Hf; by vm_compute in Hf|]. by intros (x & ? & _). }
  destruct confirmed; cbn [negb]; apply triple_ret; intros w ->; apply Hafter; cbn [fst snd]; try done.
  - apply considered_add; [done..|]. intros _. destruct Hseen as [?|Hs]; [by right|left; by apply Hs].
  - eapply considered_pend; [exact Hc|done..|]. destruct Hseen as [?|Hs]; [by right|left; by intros ?%Hs].
Qed.

Lemma triple_considerRemoval self res0 w0 d m acc w1 : looked self res0 w0 d acc w1 →
  triple (λ w, w = w1) (considerRemoval c req target desired self acc m)
    (λ acc w, looked self res0 w0 (d ++ [m]) acc w)
    (λ _ w, trace w = trace w0 ∧ gl_identityID w = gl_identityID w0).
Proof.
  intros L. pose proof L as [Ht Hi Hp Hr U Hc Hn]. destruct acc as [[rem pend] res]. cbn [fst snd] in *.
  assert (untouched c gid (λ i, i ∈ m_ID <$> d ++ [m]) (gl_store w0) (gl_store w1)) as U'.
  { eapply untouched_weaken; [|exact U]. intros i Hin. cbn beta. rewrite fmap_app. apply elem_of_app. by left. }
  assert (∀ res', sameCounts res0 res' → ¬ candidate self (gl_store w0) m →
    looked self res0 w0 (d ++ [m]) (rem, pend, res') w1) as Hskip.
  { intros res' Hs Hnc. split; try done. by apply considered_skip. }
  assert (sameCounts res0 (add_skipped res)) as Hn' by done.
  unfold considerRemoval. case_bool_decide as Hd.
  { apply triple_ret. intros w ->. apply Hskip; [done|]. intros []. rewrite cd_desired0 in Hd. by destruct Hd. }
  apply eq_None_not_Some in Hd.
  destruct ((m_ID m =? self) || _ || _) eqn:Hg.
  { apply triple_ret. intros w ->. apply Hskip; [done|]. intros [? ? ? Hro ? ?].
    rewrite Hro, !orb_true_iff in Hg. destruct Hg as [[Hg|Hg]|Hg]; [by apply Z.eqb_eq in Hg|apply Z.leb_le in Hg; lia|].
    rewrite bool_decide_eq_true in Hg. by destruct Hg. }
  rewrite !orb_false_iff in Hg. destruct Hg as [[Hself%Z.eqb_neq How%Z.leb_gt] Hro].
  assert (m_MemberRoleID m = None) as Hrole.
  { apply bool_decide_eq_false in Hro. by apply eq_None_not_Some. }
  destruct (isProtected req m) eqn:Hprot.
  { apply triple_ret. intros w ->. apply Hskip; [done|]. intros []. congruence. }
  eapply triple_bind with (R := λ b w, w = w1 ∧ b = bool_decide (is_Some (st_records (gl_store w0) !! uk c gid (m_ID m)))).
  { apply triple_lift, triple_zoom. intros w -> v ->. cbn. split; [by destruct w1|]. by rewrite Hr. }
  intros managed. apply triple_at. intros w1' [-> ->].
  destruct (_ || _) eqn:Hprune.
  2: { apply triple_ret. intros w ->. apply Hskip; [done|]. intros [? ? ? ? ? [Ha|[Ha Hs]]];
       apply orb_false_iff in Hprune as [Hp1 Hp2].
       - by rewrite Ha in Hp1.
       - rewrite Ha in Hp2. by rewrite bool_decide_eq_true_2 in Hp2. }
  assert (candidate self (gl_store w0) m) as Hcand.
  { split; try done. apply orb_true_iff in Hprune as [Ha%String.eqb_eq|Ha]; [by left|right].
    apply andb_true_iff in Ha as [Ha%String.eqb_eq Hb]. by apply bool_decide_eq_true in Hb. }
  destruct (sr_ImmediateRemoval req) eqn:Himm.
  { apply triple_ret. intros w ->. split; try done. cbn [fst snd]. apply considered_add; [done|done|congruence]. }
  by apply triple_confirmed.
Qed.

(** ** Sending the removals *)
Definition removed (m : member) (ex : Exchange) : Prop := sent_by c (removeCall gid (m_ID m)) ex.

(** ... and GitLab confirmed it. *)
Definition gone (m : member) (ex : Exchange) : Prop := goneAnswer c gid (m_ID m) ex.

Lemma gone_removed rem l : Forall2 gone rem l → Forall2 removed rem l.
Proof. intros Hl. eapply Forall2_impl; [exact Hl|]. by intros m ex (st & h & [Hs _] & _). Qed.

(** The exchanges [l] are the removals of a prefix of [rem]. *)
Definition removing w0 (rem : list member) (l : list Exchange) w : Prop :=
  trace w = trace w0 ++ l ∧ gl_identityID w = gl_identityID w0 ∧
  ∃ k, Forall2 removed (take k rem) l.

Lemma triple_applyRemoval w0 done_ m rest res : 
  triple (λ w, gl_path_ok w ∧ gl_identityID w = gl_identityID w0 ∧
            ∃ l, trace w = trace w0 ++ l ∧ Forall2 gone done_ l)
    (applyRemoval c target res m)
    (λ res' w, res' = add_removed res ∧ gl_path_ok w ∧ gl_identityID w = gl_identityID w0 ∧
       ∃ l, trace w = trace w0 ++ l ∧ Forall2 gone (done_ ++ [m]) l)
    (λ _ w, ∃ l, removing w0 (done_ ++ m :: rest) l w).
Proof.
  apply triple_at. intros w1 (Hp & Hid & l & Ht & Hgone). pose proof (gone_removed _ _ Hgone) as Hl.
  assert (∀ w, trace w = trace w1 → gl_identityID w = gl_identityID w1 →
    ∃ l, removing w0 (done_ ++ m :: rest) l w) as Hstop.
  { intros w Hw Hw'. exists l. split; [congruence|]. split; [congruence|]. exists (length done_).
    by rewrite take_app_length. }
  assert (∀ w ex, trace w = trace w1 ++ [ex] → gl_identityID w = gl_identityID w1 → removed m ex →
    ∃ l, removing w0 (done_ ++ m :: rest) l w) as Hstop'.
  { intros w ex Hw Hw' Hex. exists (l ++ [ex]). split; [by rewrite Hw, Ht, (assoc_L (++))|]. split; [congruence|].
    exists (Datatypes.S (length done_)). rewrite (cons_middle m), (assoc_L (++)).
    replace (Datatypes.S (length done_)) with (length (done_ ++ [m])) by (rewrite length_app; simpl; lia).
    rewrite take_app_length. apply Forall2_app; [done|]. by constructor. }
  unfold applyRemoval. eapply triple_bind.
  { apply triple_liftWith. eapply triple_conseq; [apply (triple_removeMember _ _ _ w1)|done|intros a w Hw; exact Hw|].
    intros e w [[Hw _ Hw' _]|(ex & [Hw _ Hw' _] & Hex)]; [|by eapply Hstop'].
    apply Hstop; [by rewrite Hw, (right_id_L [] (++))|done]. }
  intros []. apply triple_at. intros w2 (ex & [Ht2 Hst2 Hid2 _] & Hexg).
  assert (removed m ex) as Hex by (by destruct Hexg as (st & h & [Hs _] & _)).
  assert (gl_path_ok w2) as Hp2 by (unfold gl_path_ok; by rewrite Hst2).
  assert (∀ o w w', ledger_step o w w' → gl_path_ok w → trace w = trace w2 → gl_identityID w = gl_identityID w2 →
    gl_path_ok w' ∧ trace w' = trace w2 ∧ gl_identityID w' = gl_identityID w2) as Hledger.
  { intros o w w' Hw Hpw ? ?. split; [by eapply ledger_step_path|]. destruct Hw. split; congruence. }
  assert (∀ w w', after w [] w' → trace w = trace w2 → gl_identityID w = gl_identityID w2 →
    ∃ l, removing w0 (done_ ++ m :: rest) l w') as Hfail.
  { intros w w' [Hw _ Hw' _] ? ?. rewrite (right_id_L [] (++)) in Hw. eapply Hstop'; [|congruence|exact Hex]. congruence. }
  eapply triple_bind with (R := λ _ w, gl_path_ok w ∧ trace w = trace w2 ∧ gl_identityID w = gl_identityID w2).
  { apply triple_liftWith. eapply triple_conseq;
      [apply (triple_ledger_unit (OUnmark (c_ownershipKey c) (itoa gid) (itoa (m_ID m))) _ w2)|..]; try done.
    - intros a w Hw. by apply (Hledger _ _ _ Hw).
    - intros e w Hw. by apply (Hfail _ _ Hw). }
  intros []. apply triple_at. intros w3 (Hp3 & Ht3 & Hid3).
  eapply triple_bind with (R := λ _ w, gl_path_ok w ∧ trace w = trace w2 ∧ gl_identityID w = gl_identityID w2).
  { apply triple_liftWith. eapply triple_conseq;
      [apply (triple_ledger_unit (OReset (c_ownershipKey c) (itoa gid) (itoa (m_ID m))) _ w3)|..]; try done.
    - intros a w Hw. by apply (Hledger _ _ _ Hw).
    - intros e w Hw. by apply (Hfail _ _ Hw). }
  intros []. apply triple_ret. intros w (Hp4 & Ht4 & Hid4). split; [done|]. split; [done|]. split; [congruence|].
  exists (l ++ [ex]). split; [by rewrite Ht4, Ht2, Ht, (assoc_L (++))|].
  apply Forall2_app; [done|]. by constructor.
Qed.

Lemma triple_removeAll w0 rem res : gl_path_ok w0 →
  triple (λ w, w = w0) (mfold (applyRemoval c target) res rem)
    (λ res' w, (r_Removed res' = r_Removed res + Z.of_nat (length rem) ∧ r_Unresolved res' = r_Unresolved res) ∧
       ∃ l, trace w = trace w0 ++ l ∧ gl_identityID w = gl_identityID w0 ∧ Forall2 gone rem l)
    (λ _ w, ∃ l, removing w0 rem l w).
Proof.
  intros Hp. eapply triple_conseq; [eapply (triple_mfold _ (λ d res' w,
      (r_Removed res' = r_Removed res + Z.of_nat (length d) ∧ r_Unresolved res' = r_Unresolved res) ∧
      gl_path_ok w ∧ gl_identityID w = gl_identityID w0 ∧ ∃ l, trace w = trace w0 ++ l ∧ Forall2 gone d l)
    (λ _ w, ∃ l, removing w0 rem l w))| | |].
  - intros d m rest res' ->. apply triple_pure. intros [Hrm Hun].
    eapply triple_conseq; [apply (triple_applyRemoval w0 d m rest)|done| |done].
    intros res'' w (-> & Hp' & Hid & Hl). rewrite length_app. cbn. split; [lia|done].
  - intros w ->. cbn. split; [lia|]. split; [done|]. split; [done|]. exists [].
    split; [by rewrite (right_id_L [] (++))|constructor].
  - intros res' w (Hc & _ & Hid & l & Ht & Hl). split; [done|]. by exists l.
  - done.
Qed.

(** ** The whole phase *)

(** The removals [l] of a run that began with the ledger [s] and ran as [self]. *)
Definition safe_removals (members : list member) (s : Store) (self : Z) (l : list Exchange) : Prop :=
  ∃ rem, rem `sublist_of` members ∧ Forall2 removed rem l ∧
    Z.of_nat (length rem) ≤ Z.max 0 (sr_MaxRemovals req) ∧
    ∀ m, m ∈ rem → candidate self s m ∧
      (sr_ImmediateRemoval req = false → seenBefore s m ∨ listedTwice members m).

(** The removals [l] are those of all candidates, and GitLab confirmed them. *)
Definition pruned (members : list member) (s : Store) (self : Z) (l : list Exchange) : Prop :=
  ∃ rem, rem `sublist_of` members ∧ Forall2 gone rem l ∧ ∀ m, m ∈ members → candidate self s m ↔ m ∈ rem.

(** A removal waits for its second observation. *)
Definition pending (members : list member) (s : Store) (self : Z) : Prop :=
  sr_ImmediateRemoval req = false ∧
  ∃ m, m ∈ members ∧ candidate self s m ∧ (¬ seenBefore s m ∨ listedTwice members m).

Lemma pruned_sent members s self l m :
  pruned members s self l → m ∈ members → candidate self s m → ∃ ex, ex ∈ l ∧ removed m ex.
Proof.
  intros (rem & _ & Hl%gone_removed & Hall) Hm Hc. apply Hall in Hc; [|done].
  apply list_elem_of_lookup in Hc as [i Hi]. destruct (Forall2_lookup_l _ _ _ _ _ Hl Hi) as (ex & Hex & Hr).
  exists ex. split; [by eapply list_elem_of_lookup_2|done].
Qed.

Definition removal_outcome (members : list member) (res0 : Result) w0 w (l : list Exchange) : Prop :=
  ∃ lg, trace w = trace w0 ++ lg ++ l ∧ Forall isGet lg ∧
    (l ≠ [] → r_Unresolved res0 ≤ 0 ∧ gl_identityID w ≠ 0 ∧
       safe_removals members (gl_store w0) (gl_identityID w) l).

Lemma sublist_take {A} k (l1 l2 : list A) : l1 `sublist_of` l2 → take k l1 `sublist_of` l2.
Proof. intros Hs. etrans; [apply sublist_take|done]. Qed.

Lemma triple_removalPhase members res0 w0 : gl_path_ok w0 →
  triple (λ w, w = w0) (removalPhase c req target members desired res0)
    (λ res w, ∃ l, removal_outcome members res0 w0 w l ∧
       (r_Removed res = r_Removed res0 + Z.of_nat (length l) ∧ r_Unresolved res = r_Unresolved res0) ∧
       (r_Converged res = true → r_Converged res0 = true ∨
          (r_Unresolved res0 ≤ 0 ∧ gl_identityID w ≠ 0 ∧ pruned members (gl_store w0) (gl_identityID w) l)) ∧
       (r_Unresolved res0 ≤ 0 → r_Converged res = false → pending members (gl_store w0) (gl_identityID w)))
    (λ _ w, ∃ l, removal_outcome members res0 w0 w l).
Proof.
  intros Hp. unfold removalPhase. destruct (Z.ltb_spec 0 (r_Unresolved res0)) as [|Hun].
  { apply triple_ret. intros w ->. exists []. split; [|split; [cbn; lia|split; [by left|lia]]].
    exists []. split; [by rewrite !(right_id_L [] (++))|]. by split. }
  eapply triple_bind.
  { apply triple_lift. eapply triple_conseq; [apply (triple_currentIdentity _ w0)|done|intros a w Hw; exact Hw|].
    intros e w (lg & [Ht Hs Hg]). exists []. exists lg. split; [by rewrite (right_id_L [] (++))|by split]. }
  intros self. apply triple_at. intros w1 (lg & [Ht1 Hs1 Hg] & Hid1 & Hself).
  assert (gl_path_ok w1) as Hp1 by (unfold gl_path_ok; by rewrite Hs1).
  assert (∀ w l, trace w = trace w1 ++ l → gl_identityID w = gl_identityID w1 →
    (l ≠ [] → safe_removals members (gl_store w1) self l) → removal_outcome members res0 w0 w l) as Hout.
  { intros w l Ht Hid Hl. exists lg. split; [by rewrite Ht, Ht1, (assoc_L (++))|]. split; [done|].
    intros Hne. split; [done|]. rewrite Hid, Hid1. split; [done|]. rewrite <-Hs1. by apply Hl. }
  eapply triple_bind.
  { eapply triple_conseq; [eapply (triple_mfold _ (looked self res0 w1)
      (λ _ w, trace w = trace w1 ∧ gl_identityID w = gl_identityID w1))| |intros a w Hw; exact Hw|].
    - intros d m rest acc _. apply triple_at. intros w2. apply triple_considerRemoval.
    - intros w ->. split; try done. split; [apply sublist_nil_l| | |]; cbn.
      + intros m Hm. by apply elem_of_nil in Hm.
      + intros m _ Hm. by apply elem_of_nil in Hm.
      + done.
    - intros e w [Ht Hid]. exists []. apply Hout; [by rewrite (right_id_L [] (++))|done|done]. }
  intros [[rem pend] res]. apply triple_at. intros w2 [Ht2 Hid2 Hp2 Hr2 U2 [Hsub Hrem Hall Hpend'] (Hc & Hc' & Hc'')].
  cbn [fst snd] in *. destruct (Z.ltb_spec (sr_MaxRemovals req) (Z.of_nat (length rem))) as [|Hmax].
  { apply triple_throw. intros w ->. exists []. apply Hout; [by rewrite (right_id_L [] (++))|done|done]. }
  assert (∀ k l, Forall2 removed (take k rem) l → safe_removals members (gl_store w1) self l) as Hsafe.
  { intros k l Hl. exists (take k rem). split; [by apply sublist_take|]. split; [done|].
    split; [rewrite length_take; lia|]. intros m Hm. apply Hrem. by eapply elem_of_take in Hm as (? & ? & _);
      eapply list_elem_of_lookup_2. }
  eapply triple_bind.
  { eapply triple_conseq; [apply (triple_removeAll w2 rem res Hp2)|done|intros a w Hw; exact Hw|].
    intros e w (l & Ht & Hid & k & Hl). exists l. apply Hout; [congruence|congruence|]. intros _. by eapply Hsafe. }
  intros res'. apply triple_ret. intros w ((Hcnt & Hcnt') & l & Ht & Hid & Hl). exists l. split; [|split; [|split]].
  - apply Hout; [congruence|congruence|]. intros _. apply (Hsafe (length rem)). rewrite firstn_all. by apply gone_removed.
  - pose proof (Forall2_length _ _ _ Hl). cbn. lia.
  - cbn. intros Hpend%negb_true_iff. right. split; [done|]. rewrite Hid, Hid2, Hid1. split; [done|].
    exists rem. split; [done|]. split; [done|]. intros m Hm. rewrite <-Hs1. split; [by apply Hall|apply Hrem].
  - cbn. intros _ Hpend%negb_false_iff. rewrite Hid, Hid2, Hid1, <-Hs1. by apply Hpend'.
Qed.
End remove.
