(* ===== verification/GitLabRun.v ===== *)
(** * What a run of [SyncGroup] may do

    A run is taken apart into the exchanges of its phases ([parts]); the
    properties are read off the parts. *)

From S2P Require Import Prelude GoStrings Sha256 GoTime Json World State StateSpec StateFacts Model Credential Config Paths GitLab GitLabSpec GitLabSync GitLabRemove.

(** The members found, the users wanted, and the exchanges in order: the
    listing, the lookups, the changes, the look at the own account, the removals. *)
Record parts : Type := MkParts
  { pt_members : list member;
    pt_desired : gmap Z user;
    pt_listing : list Exchange;
    pt_lookups : list Exchange;
    pt_grants : list Exchange;
    pt_self : list Exchange;
    pt_removals : list Exchange }.

Definition exchanges (p : parts) : list Exchange :=
  pt_listing p ++ pt_lookups p ++ pt_grants p ++ pt_self p ++ pt_removals p.

Section facts.
Context {S : Type} `{Env S} (c : Client) (req : SyncRequest).
Implicit Types (w : GL S).
Notation trace w := (sys_trace (gl_sys w)).
Notation sources := (g_Members (sr_SourceGroup req)).

(** Every source member was matched exactly with an active user that is wanted. *)
Definition all_resolved (p : parts) : Prop :=
  ∀ source, source ∈ sources →
    ∃ u, resolvedAs c req source u (pt_lookups p) ∧ is_Some (pt_desired p !! gu_ID u).

Definition all_secured (target : group) (p : parts) : Prop :=
  ∀ id, is_Some (pt_desired p !! id) → secured c req target (indexMembers (pt_members p)) id (pt_grants p).

(** The parts of a run on [target] from the ledger [s], as the account [self]. *)
Record run (target : group) (s : Store) (self : Z) (p : parts) : Prop := {
  rn_listing : pages c (gg_ID target) 1 (pt_listing p) (pt_members p);
  rn_lookups : Forall isGet (pt_lookups p);
  rn_desired id u : pt_desired p !! id = Some u →
    gu_ID u = id ∧ ∃ source, source ∈ sources ∧ resolvedAs c req source u (pt_lookups p);
  rn_grants : Forall (grantKind c req target (indexMembers (pt_members p)) (pt_desired p) s) (pt_grants p);
  rn_self : Forall isGet (pt_self p);
  rn_removals : pt_removals p ≠ [] →
    all_resolved p ∧ all_secured target p ∧ self ≠ 0 ∧
    safe_removals c req target (pt_desired p) (pt_members p) s self (pt_removals p)
}.

(** What a converged result means. *)
Definition exact (target : group) (s : Store) (self : Z) (p : parts) : Prop :=
  all_resolved p ∧ all_secured target p ∧
  pruned c req target (pt_desired p) (pt_members p) s self (pt_removals p).

(** What a result that does not report convergence means when everyone was resolved. *)
Definition waits (target : group) (s : Store) (self : Z) (p : parts) (r : Result) : Prop :=
  r_Unresolved r ≤ 0 → r_Converged r = false →
  pending c req target (pt_desired p) (pt_members p) s self.

(** The changes are those of the wanted users, each user's turn in one piece. *)
Definition granted (target : group) (p : parts) : Prop :=
  ∃ ids ls, NoDup ids ∧ (∀ id, id ∈ ids ↔ is_Some (pt_desired p !! id)) ∧ pt_grants p = concat ls ∧
    Forall2 (applied c req target (indexMembers (pt_members p))) ids ls.

(** The wanted users are those that the lookups of the source members gave. *)
Definition from_sources (result : Result) (p : parts) : Prop :=
  ∃ v r v', resolveMembers c req result v = (Ok (pt_desired p, r), v').

Definition ran target w0 w (p : parts) : Prop :=
  trace w = trace w0 ++ exchanges p ∧ run target (gl_store w0) (gl_identityID w) p.

Lemma candidate_ledger target desired self s0 s m :
  untouched c (gg_ID target) (λ i, is_Some (desired !! i)) s0 s →
  candidate c req target desired self s m ↔ candidate c req target desired self s0 m.
Proof.
  intros [_ Hr _]. split; intros [H1 H2 H3 H4 H5 H6]; split; try done;
    (destruct H6 as [|[Hm Hs]]; [by left|right; split; [done|]]).
  - rewrite <-Hr; [done|]. rewrite H1. by intros [].
  - rewrite Hr; [done|]. rewrite H1. by intros [].
Qed.

Lemma safe_removals_ledger target desired members self s0 s l :
  untouched c (gg_ID target) (λ i, is_Some (desired !! i)) s0 s →
  safe_removals c req target desired members s self l → safe_removals c req target desired members s0 self l.
Proof.
  intros U (rem & Hsub & Hf & Hlen & Hrem). exists rem. split; [done|]. split; [done|]. split; [done|].
  intros m Hm. destruct (Hrem m Hm) as [Hc Hs]. split; [by apply (candidate_ledger _ _ _ _ _ _ U)|].
  intros Hi. destruct (Hs Hi) as [(a & Ha & Hle)|?]; [left|by right]. exists a. split; [|done].
  rewrite <-(ut_absences _ _ _ _ _ U); [done|]. destruct Hc as [-> _ _ _ _ _]. by intros [].
Qed.

Lemma pruned_ledger target desired members self s0 s l :
  untouched c (gg_ID target) (λ i, is_Some (desired !! i)) s0 s →
  pruned c req target desired members s self l → pruned c req target desired members s0 self l.
Proof.
  intros U (rem & Hsub & Hl & Hall). exists rem. split; [done|]. split; [done|]. intros m Hm.
  rewrite <-(Hall m Hm). symmetry. by apply (candidate_ledger _ _ _ _ _ _ U).
Qed.

Lemma seenBefore_ledger target (desired : gmap Z user) s0 s m :
  untouched c (gg_ID target) (λ i, is_Some (desired !! i)) s0 s → desired !! m_ID m = None →
  seenBefore c target s m ↔ seenBefore c target s0 m.
Proof.
  intros U Hd. unfold seenBefore. rewrite (ut_absences _ _ _ _ _ U); [done|]. rewrite Hd. by intros [].
Qed.

Lemma pending_ledger target desired members self s0 s :
  untouched c (gg_ID target) (λ i, is_Some (desired !! i)) s0 s →
  pending c req target desired members s self → pending c req target desired members s0 self.
Proof.
  intros U (Hi & m & Hm & Hc & Hs). split; [done|]. exists m. split; [done|].
  split; [by apply (candidate_ledger _ _ _ _ _ _ U)|]. destruct Hs as [Hs|?]; [left|by right]. intros Hseen. apply Hs.
  apply (seenBefore_ledger _ desired _ _ _ U); [by destruct Hc|done].
Qed.

(** The phases after the lookups, which found [desired] for the sources. *)
Section phases.
Context (target : group) (members : list member) (desired : gmap Z user) (ll lr : list Exchange) (w0 : GL S).
Context (Hpages : pages c (gg_ID target) 1 ll members) (Hgets : Forall isGet lr).
Context (Hdes : ∀ id u, desired !! id = Some u → gu_ID u = id ∧ ∃ source, source ∈ sources ∧ resolvedAs c req source u lr).
Notation made la lg lm := (MkParts members desired ll lr la lg lm).
Notation grant := (grantKind c req target (indexMembers members) desired (gl_store w0)).

Lemma ran_made la lg lm w : trace w = trace w0 ++ ll ++ lr ++ la ++ lg ++ lm → Forall grant la → Forall isGet lg →
  (lm ≠ [] → all_resolved (made la lg lm) ∧ all_secured target (made la lg lm) ∧ gl_identityID w ≠ 0 ∧
    safe_removals c req target desired members (gl_store w0) (gl_identityID w) lm) →
  ran target w0 w (made la lg lm).
Proof. intros Hw Fa Fg Hlm. split; [exact Hw|]. by split. Qed.

(** The state after the wanted users' turns, which went in the order [ids]. *)
Record given (ids : list Z) (las : list (list Exchange)) w : Prop := {
  gn_path : gl_path_ok w;
  gn_trace : trace w = trace w0 ++ ll ++ lr ++ concat las;
  gn_ledger : untouched c (gg_ID target) (λ i, i ∈ ids) (gl_store w0) (gl_store w);
  gn_grants : Forall grant (concat las);
  gn_ids : NoDup ids ∧ ∀ i, i ∈ ids ↔ is_Some (desired !! i);
  gn_applied : Forall2 (applied c req target (indexMembers members)) ids las
}.

Lemma triple_removals_ran ids las res w : given ids las w → r_Removed res = 0 → r_Converged res = false →
  (r_Unresolved res ≤ 0 → ∀ lg lm, all_resolved (made (concat las) lg lm)) →
  triple (λ w', w' = w) (removalPhase c req target members desired res)
    (λ r w', ∃ lg l, let p := made (concat las) lg l in
       ran target w0 w' p ∧ granted target p ∧ r_Removed r = Z.of_nat (length l) ∧
       (r_Converged r = true → exact target (gl_store w0) (gl_identityID w') p) ∧
       waits target (gl_store w0) (gl_identityID w') p r)
    (λ _ w', ∃ p, ran target w0 w' p).
Proof.
  intros [Hp Ht U Fa [Hnd Hdom] Hap] Hrm Hcv Hres.
  assert (untouched c (gg_ID target) (λ i, is_Some (desired !! i)) (gl_store w0) (gl_store w)) as U'.
  { eapply untouched_weaken; [|exact U]. intros i. apply Hdom. }
  assert (∀ lg lm, all_secured target (made (concat las) lg lm)) as Hsecured.
  { intros lg lm id Hid. eapply applied_all_secured; [exact Hap|by apply Hdom]. }
  assert (∀ w' l, removal_outcome c req target desired members res w w' l → ∃ lg, ran target w0 w' (made (concat las) lg l)) as Hend.
  { intros w' l (lg & Hw & Fg & Hl). exists lg. apply ran_made; [by rewrite Hw, Ht, <-!(assoc_L (++))|done|done|].
    intros Hne. destruct (Hl Hne) as (Hle & Hid & Hsafe). split; [by apply Hres|]. split; [done|]. split; [done|].
    by eapply safe_removals_ledger. }
  eapply triple_conseq; [apply (triple_removalPhase _ _ _ _ _ _ w Hp)|done|..].
  - intros r w' (l & Hout & [Hr Hu] & Hconv & Hwait). destruct (Hend w' l Hout) as [lg Hlg]. exists lg, l.
    split; [done|]. split; [by exists ids, las|]. split; [lia|]. split.
    + intros [?|(Hle & Hid & Hex)]%Hconv; [congruence|].
      split; [by apply Hres|]. split; [done|]. by eapply pruned_ledger.
    + intros Hle Hnc. eapply pending_ledger; [exact U'|]. apply Hwait; [cbn in Hle; lia|done].
  - intros e w' (l & Hout). destruct (Hend w' l Hout) as [lg Hlg]. by eexists.
Qed.

(** The wanted users' turns, in the order of a range over the map. *)
Lemma triple_given order res w : order ≡ₚ map_to_list desired → gl_path_ok w → gl_store w = gl_store w0 →
  trace w = trace w0 ++ ll ++ lr →
  triple (λ w', w' = w)
    (mfold (applyUser c req target (indexMembers members) (accessLevels (sr_AccessLevel req))) res order)
    (λ res' w', ∃ las, given (order.*1) las w' ∧ sameCounts res res') (λ _ w', ∃ p, ran target w0 w' p).
Proof.
  intros Ho Hp Hs Ht. assert (NoDup (order.*1) ∧ ∀ i, i ∈ order.*1 ↔ is_Some (desired !! i)) as [Hnd Hdom].
  { split; [rewrite Ho; apply NoDup_fst_map_to_list|]. intros i. rewrite Ho, list_elem_of_fmap. split.
    - intros ([j u] & -> & Hu%elem_of_map_to_list). by eexists.
    - intros [u Hu]. exists (i, u). split; [done|]. by apply elem_of_map_to_list. }
  eapply triple_conseq; [apply (triple_applyAll _ _ target (indexMembers members) desired res order w Hp)|done|..].
  - done.
  - intros id u Hin. rewrite Ho in Hin. by apply elem_of_map_to_list in Hin.
  - intros res' w' (Hp' & U & Hc & las & Ht' & Fa & Hap). rewrite Hs in U, Fa. exists las. split; [|done].
    split; try done. by rewrite Ht', Ht, <-!(assoc_L (++)).
  - intros e w' (la & Htw & Fa). rewrite Hs in Fa. exists (made la [] []).
    apply ran_made; [by rewrite Htw, Ht, !(right_id_L [] (++)), <-!(assoc_L (++))|done|constructor|done].
Qed.
End phases.

Lemma triple_syncMembers fuel target result w0 :
  gl_path_ok w0 → r_Unresolved result = 0 → r_Removed result = 0 → r_Converged result = false →
  triple (λ w, w = w0) (syncMembers c fuel req target result)
    (λ r w, ∃ p, ran target w0 w p ∧ from_sources result p ∧ granted target p ∧ r_Removed r = Z.of_nat (length (pt_removals p)) ∧
       (r_Converged r = true → exact target (gl_store w0) (gl_identityID w) p) ∧
       waits target (gl_store w0) (gl_identityID w) p r)
    (λ _ w, sends isGet w0 w ∨ ∃ p, ran target w0 w p).
Proof.
  intros Hp Hun Hrm Hcv. unfold syncMembers. eapply triple_bind.
  { apply triple_liftWith. eapply triple_conseq; [apply (triple_listMembers _ _ _ w0)|done|intros a w Hw; exact Hw|].
    intros e w (l & Hl & Fl). left. by eapply sends_after. }
  intros members. apply triple_at. intros w1 (ll & H1 & Hpages).
  eapply triple_bind.
  { eapply triple_conseq; [apply triple_ran, (triple_resolveMembers _ _ _ w1)|done|intros a w Hw; exact Hw|].
    intros e w (l & Hl & Fl). left. eapply sends_trans; [eapply sends_after; [exact H1|by eapply pages_get]|].
    by eapply sends_after. }
  intros [desired res]. apply triple_at. intros w2 [(lr & H2 & Fr & [Hdes Hcnt Hall [Hrm' Hcv']]) [wr Hrun]]. cbn [fst snd] in *.
  pose proof (after_trans _ _ _ _ _ H1 H2) as [Ht3 Hs3 _ _].
  eapply triple_bind with (R := λ order w, order ≡ₚ map_to_list desired ∧ trace w = trace w2 ∧ gl_store w = gl_store w2).
  { apply triple_zoom. intros w ->. apply triple_rangeOrder. by intros v v' order -> (Htr & _) Ho. }
  intros order. apply triple_at. intros w3 (Ho & Ht & Hs). rewrite Hs3 in Hs. rewrite Ht3 in Ht.
  eapply triple_bind.
  { eapply triple_conseq; [apply (triple_given target members desired ll lr w0 Hpages Fr Hdes order res w3 Ho)|done
      |intros a w Hw; exact Hw|intros e w Hw; by right]; [unfold gl_path_ok; by rewrite Hs|done|done]. }
  intros res2. apply triple_at. intros w4 (las & Hg & (Hc1 & Hc2 & Hc3)).
  eapply triple_conseq; [apply (triple_removals_ran target members desired ll lr w0 Hpages Fr Hdes _ las res2 w4 Hg)|done|..].
  - congruence.
  - congruence.
  - intros Hle lg lm. refine (Hall _). lia.
  - intros r w (lg & l & Hran & Hgr & Hr & Hconv & Hwait). exists (MkParts members desired ll lr (concat las) lg l).
    split; [done|]. split; [by exists wr, res, w2|]. done.
  - intros e w Hw. by right.
Qed.

(** ** The ledger after the binding: calls that concern users of the target *)
Section user_calls.
Context (J : Store → Prop) (target : group) (HJp : ∀ s, J s → path_ok (st_path s)).
Notation gid := (gg_ID target).
Context (HJ : ∀ uid o s s' wr, user_op c gid uid o → op_effect o s = Some (s', wr) → J s → J s').
Notation kept m := (keeps (λ w : GL S, J (gl_store w)) m).

Lemma keeps_store {A} (m : M (GL S) err A) :
  (∀ w0, triple (λ w, w = w0) m (λ _ w, gl_store w = gl_store w0) (λ _ w, gl_store w = gl_store w0)) → kept m.
Proof. apply (keeps_same gl_store). Qed.

Lemma keeps_user_op uid o : user_op c gid uid o → kept (ledger (run_op o)).
Proof.
  intros Ho. apply triple_at. intros w0 Hw.
  eapply triple_conseq; [apply (triple_ledger_op o w0 (HJp _ Hw))|done|..].
  - intros b w [[[wr He] _ _] _]. by eapply HJ.
  - intros e w [_ Hs _ _]. by rewrite Hs.
Qed.

Lemma keeps_user_unit uid o (m : M (Store * Sys S) err unit) : run_op o = (m;; mret false) → user_op c gid uid o → kept (ledger m).
Proof.
  intros Hr Ho w Hw. pose proof (keeps_user_op uid o Ho w Hw) as Ht. rewrite Hr in Ht.
  unfold ledger, zoom, mbind, M_bind, mret, M_ret in *. by destruct (m (view w)) as [[[]|e] v].
Qed.

Lemma keeps_IsManaged p g uid : kept (ledger (IsManaged p g uid)).
Proof. apply keeps_store. intros w0. apply triple_zoom. by intros w -> v ->. Qed.

Lemma same_of_after {A} (m : M (GL S) err A) w0 (Q : A → GL S → Prop) (X : err → GL S → Prop) :
  triple (λ w, w = w0) m Q X → (∀ a w, Q a w → gl_store w = gl_store w0) → (∀ e w, X e w → gl_store w = gl_store w0) →
  triple (λ w, w = w0) m (λ _ w, gl_store w = gl_store w0) (λ _ w, gl_store w = gl_store w0).
Proof. intros Hm HQ HX. by eapply triple_conseq; [exact Hm|..]. Qed.

Lemma keeps_reads fuel g uid level :
  kept (listMembers c fuel g) ∧ kept (getMember c g uid) ∧ kept (currentIdentity c) ∧
  kept (addMember c g uid level) ∧ kept (updateMember c g uid level) ∧ kept (removeMember c g uid).
Proof.
  split_and!; apply keeps_store; intros w0.
  - eapply same_of_after; [apply (triple_listMembers _ _ _ w0)|..].
    + by intros a w (l & [_ Hs _ _] & _).
    + by intros e w (l & [_ Hs _ _] & _).
  - eapply same_of_after; [apply (triple_getMember _ _ _ w0)|..].
    + by intros a w (l & [_ Hs _ _] & _).
    + by intros e w (l & [_ Hs _ _] & _).
  - eapply same_of_after; [apply (triple_currentIdentity _ w0)|..].
    + by intros a w (l & [_ Hs _] & _).
    + by intros e w (l & [_ Hs _]).
  - eapply same_of_after; [apply (triple_addMember _ _ _ _ w0)|..]; by intros a w (l & [_ Hs _ _] & _).
  - eapply same_of_after; [apply (triple_updateMember _ _ _ _ w0)|..]; by intros a w (l & [_ Hs _ _] & _).
  - eapply same_of_after; [apply (triple_removeMember _ _ _ w0)|..].
    + by intros a w (l & [_ Hs _ _] & _).
    + by intros e w [[_ Hs _ _]|(l & [_ Hs _ _] & _)].
Qed.

Ltac keeps_step :=
  lazymatch goal with
  | |- ∀ _, _ => intros
  | |- keeps _ (mret _) => apply keeps_ret
  | |- keeps _ (mthrow _) => apply keeps_throw
  | |- keeps _ (failWith _ _) => apply keeps_throw
  | |- keeps _ (_ ≫= _) => apply keeps_bind
  | |- keeps _ (mfold _ _ _) => apply keeps_mfold
  | |- keeps _ (lift _ _) => apply keeps_wrap_err
  | |- keeps _ (liftWith _ _ _) => apply keeps_wrap_err
  | |- keeps _ (ledger (IsManaged _ _ _)) => apply keeps_IsManaged
  | |- keeps _ (ledger (ConfirmAbsent ?p ?g ?u)) => eapply (keeps_user_op _ (OConfirm p g u))
  | |- keeps _ (ledger (MarkManaged ?p ?g ?u)) => eapply (keeps_user_unit _ (OMark p g u)); [reflexivity|]
  | |- keeps _ (ledger (Unmark ?p ?g ?u)) => eapply (keeps_user_unit _ (OUnmark p g u)); [reflexivity|]
  | |- keeps _ (ledger (ResetAbsent ?p ?g ?u)) => eapply (keeps_user_unit _ (OReset p g u)); [reflexivity|]
  | |- keeps _ (match ?x with _ => _ end) => destruct x
  | |- keeps _ ((match ?x with _ => _ end) _) => destruct x; cbn beta
  | |- keeps _ (listMembers _ ?f ?g) => apply (keeps_reads f g 0 0)
  | |- keeps _ (getMember _ ?g ?u) => apply (keeps_reads O g u 0)
  | |- keeps _ (currentIdentity _) => apply (keeps_reads O 0 0 0)
  | |- keeps _ (addMember _ ?g ?u ?l) => apply (keeps_reads O g u l)
  | |- keeps _ (updateMember _ ?g ?u ?l) => apply (keeps_reads O g u l)
  | |- keeps _ (removeMember _ ?g ?u) => apply (keeps_reads O g u 0)
  | |- user_op _ _ _ _ => unfold user_op; eauto
  end.

Lemma keeps_findUser source ms : kept (findUser c source ms).
Proof.
  apply keeps_store. intros w0. eapply same_of_after; [apply (triple_findUser _ _ _ w0)|..].
  - by intros a w (l & [_ Hs _ _] & _).
  - by intros e w (l & [_ Hs _ _] & _).
Qed.

Lemma keeps_syncMembers fuel result : kept (syncMembers c fuel req target result).
Proof.
  unfold syncMembers. repeat keeps_step.
  - unfold resolveMembers. repeat first [keeps_step | apply keeps_findUser].
  - apply (keeps_same gl_store). intros w0. apply triple_zoom. intros w ->. apply triple_rangeOrder. by intros v v' l ->.
  - unfold applyUser. repeat keeps_step.
  - unfold removalPhase, considerRemoval, applyRemoval. repeat keeps_step.
Qed.
End user_calls.

(** The mappings are left alone. *)
Definition groups_are (g : gmap string GroupMapping) (s : Store) : Prop := path_ok (st_path s) ∧ st_groups s = g.

Lemma keeps_groups g fuel target result : keeps (λ w : GL S, groups_are g (gl_store w)) (syncMembers c fuel req target result).
Proof.
  apply (keeps_syncMembers (groups_are g) target); [by intros s []|].
  intros uid o s s' wr Ho He [Hp Hg]. split; [by rewrite (op_effect_path _ _ _ _ He)|]. rewrite <-Hg.
  destruct Ho as [->|[->|[->| ->]]]; cbn in He; repeat case_match; by injection He as <- _.
Qed.

(** ** The whole run *)
Definition sync_early w0 w (l : list Exchange) : Prop :=
  trace w = trace w0 ++ l ∧ Forall (bindKind c req) l.

Definition sync_full w0 w target (m : GroupMapping) (lb : list Exchange) (p : parts) : Prop :=
  trace w = trace w0 ++ lb ++ exchanges p ∧ Forall (bindKind c req) lb ∧
  boundTo c req (gl_store w0) lb target m ∧
  st_groups (gl_store w) = <[mappingKey m := m]> (st_groups (gl_store w0)) ∧
  run target (gl_store w0) (gl_identityID w) p.

Definition sync_ok w0 w (res : Result) target m lb p : Prop :=
  sync_full w0 w target m lb p ∧ granted target p ∧ r_Removed res = Z.of_nat (length (pt_removals p)) ∧
  (r_Converged res = true → exact target (gl_store w0) (gl_identityID w) p) ∧
  waits target (gl_store w0) (gl_identityID w) p res.

Lemma triple_syncBody fuel result w0 :
  gl_path_ok w0 → r_Unresolved result = 0 → r_Removed result = 0 → r_Converged result = false →
  triple (λ w, w = w0) (syncBody c fuel req result)
    (λ r w, ∃ target m lb p, sync_ok w0 w r target m lb p)
    (λ _ w, (∃ l, sync_early w0 w l) ∨ ∃ target m lb p, sync_full w0 w target m lb p).
Proof.
  intros Hp Hun Hrm Hcv. unfold syncBody. eapply triple_bind.
  { eapply triple_conseq; [apply (triple_bindTarget _ _ _ w0 Hp)|done|intros a w Hw; exact Hw|].
    intros e w [(l & Hl & Fl) _]. left. by exists l. }
  intros [target res]. apply triple_at. intros w1 (lb & (Htb & Fb) & (m & wr & He & Hb) & (cr & Hres) & Hp1).
  cbn [fst snd] in *. subst res.
  assert (st_records (gl_store w1) = st_records (gl_store w0) ∧ st_absences (gl_store w1) = st_absences (gl_store w0))
    as [Hrec Habs] by (injection He as <- _; done).
  assert (untouched c (gg_ID target) (λ _, False) (gl_store w0) (gl_store w1)) as U.
  { split; [|by rewrite Hrec|by rewrite Habs]. by injection He as <- _. }
  assert (∀ w p, run target (gl_store w1) (gl_identityID w) p → run target (gl_store w0) (gl_identityID w) p) as Hrun.
  { intros w p [H1 H2 H3 H4 H5 H6]. split; try done.
    - eapply Forall_impl; [exact H4|]. unfold grantKind, grantOf. by rewrite Hrec.
    - intros Hne. destruct (H6 Hne) as (? & ? & ? & Hs). split_and!; try done.
      eapply safe_removals_ledger; [|exact Hs]. by eapply untouched_weaken; [|exact U]. }
  assert (st_groups (gl_store w1) = <[mappingKey m := m]> (st_groups (gl_store w0))) as Hg1.
  { by injection He as <- _. }
  assert (∀ w p, ran target w1 w p → groups_are (st_groups (gl_store w1)) (gl_store w) →
    sync_full w0 w target m lb p) as Hfull.
  { intros w p [Ht Hr] [_ Hg]. split; [by rewrite Ht, Htb, (assoc_L (++))|]. split; [done|]. split; [done|].
    split; [congruence|]. by apply Hrun. }
  eapply triple_conseq; [apply triple_and; [apply (triple_syncMembers fuel target _ w1 Hp1)|
    eapply triple_conseq; [apply (keeps_groups (st_groups (gl_store w1)))|by intros w ->|done|done]]|done|..]; try done.
  - intros r w [(p & Hran & _ & Hgr & Hr & Hex & Hwait) Hg]. exists target, m, lb, p. split; [by apply Hfull|].
    split; [done|]. split; [done|].
    split; [intros Hc; destruct (Hex Hc) as (? & ? & Hall); split; [done|]; split; [done|]; eapply pruned_ledger; [|exact Hall]
      |intros Hle Hnc; eapply pending_ledger; [|by apply Hwait]]; by eapply untouched_weaken; [|exact U].
  - intros e w [[(l & Ht & Fl)|(p & Hran)] Hg].
    + left. exists (lb ++ l). split; [by rewrite Ht, Htb, (assoc_L (++))|]. apply Forall_app. split; [done|].
      eapply Forall_impl; [exact Fl|by left].
    + right. exists target, m, lb, p. by apply Hfull.
Qed.

Lemma sync_outcome fuel w0 r w : gl_path_ok w0 → SyncGroup c fuel req w0 = (r, w) →
  (∃ e l, r = Err e ∧ sync_early w0 w l) ∨
  ∃ target m lb p, sync_full w0 w target m lb p ∧ ∀ res, r = Ok res → sync_ok w0 w res target m lb p.
Proof.
  intros Hp. revert r w.
  cut (triple (λ w, w = w0) (SyncGroup c fuel req)
    (λ res w, ∃ target m lb p, sync_ok w0 w res target m lb p)
    (λ _ w, (∃ l, sync_early w0 w l) ∨ ∃ target m lb p, sync_full w0 w target m lb p)).
  { intros Ht r w Hrun. specialize (Ht w0 eq_refl). rewrite Hrun in Ht. destruct r as [res|e].
    - right. destruct Ht as (target & m & lb & p & Hok). exists target, m, lb, p.
      split; [by destruct Hok|]. by intros res' [= <-].
    - destruct Ht as [(l & Hl)|(target & m & lb & p & Hf)]; [left; by exists e, l|].
      right. by exists target, m, lb, p. }
  unfold SyncGroup.
  assert (∀ w1, triple (λ w, w = w1) (zoom (W := GL S) (V := Sys S) timeNow)
    (λ _ w, trace w = trace w1 ∧ gl_store w = gl_store w1 ∧ gl_identityID w = gl_identityID w1)
    (λ (_ : Result * err) _, False)) as Hnow.
  { intros w1. apply triple_zoom. intros w ->. apply triple_timeNow. by intros v v' t -> (Ht & _). }
  eapply triple_bind; [eapply triple_conseq; [apply (Hnow w0)|done|intros a w Hw; exact Hw|done]|].
  intros started. apply triple_at. intros w1 (Ht1 & Hs1 & Hi1).
  assert (gl_path_ok w1) as Hp1 by (unfold gl_path_ok; by rewrite Hs1).
  eapply triple_bind; [apply triple_attempt_split, (triple_syncBody fuel _ w1 Hp1); done|].
  intros o. apply triple_at. intros w2 Ho.
  eapply triple_bind; [eapply triple_conseq; [apply (Hnow w2)|done|intros a w Hw; exact Hw|done]|].
  intros finished. apply triple_at. intros w3 (Ht3 & Hs3 & Hi3).
  assert (∀ target m lb p, sync_full w1 w2 target m lb p → sync_full w0 w3 target m lb p) as Hfull.
  { unfold sync_full. rewrite Ht3, Hi3, Hs3, Ht1, Hs1. done. }
  destruct o as [res|[res e]]; cbn in Ho.
  - apply triple_ret. intros w ->. destruct Ho as (target & m & lb & p & Hf & Hgr & Hc & Hex & Hwait).
    exists target, m, lb, p. split; [by apply Hfull|]. split; [done|]. split; [done|]. unfold waits. cbn. rewrite Hi3, <-Hs1.
    split; [exact Hex|exact Hwait].
  - apply triple_throw. intros w ->. destruct Ho as [(l & Hl & Fl)|(target & m & lb & p & Hf)].
    + left. exists l. split; [congruence|done].
    + right. exists target, m, lb, p. by apply Hfull.
Qed.
End facts.
