(* ===== verification/GitLabFacts.v ===== *)
(** * The properties of [SyncGroup] *)

From S2P Require Import Prelude GoStrings Sha256 GoTime Json World State StateSpec StateFacts Model Credential CredentialFacts Config Paths GitLab GitLabSpec GitLabSync GitLabRemove GitLabRun.

Definition isDelete (ex : Exchange) : bool := String.eqb (rq_method ex.1) "DELETE".

Section facts.
Context {S : Type} `{Env S} (c : Client) (req : SyncRequest).
Implicit Types (w : GL S).
Notation trace w := (sys_trace (gl_sys w)).
Notation sources := (g_Members (sr_SourceGroup req)).
Notation level := (accessLevels (sr_AccessLevel req)).

Lemma get_not_delete ex : isGet ex → isDelete ex = false.
Proof. unfold isGet, isDelete. by intros ->. Qed.

Lemma sent_method x ex : sent_by c x ex → rq_method ex.1 = cl_method x.
Proof. by intros [token ->]. Qed.

Lemma removed_delete target m ex : removed c target m ex → isDelete ex = true.
Proof. intros Hs%sent_method. unfold isDelete. by rewrite Hs. Qed.

Lemma bind_not_delete ex : bindKind c req ex → isDelete ex = false.
Proof.
  intros [Hg|[_ (seg & parent & Hs%sent_method)]]; [by apply get_not_delete|].
  unfold isDelete. by rewrite Hs.
Qed.

Lemma grant_not_delete target existing desired s ex :
  grantKind c req target existing desired s ex → isDelete ex = false.
Proof.
  intros [Hg|(id & _ & [[_ Hs%sent_method]|(m & _ & _ & _ & _ & _ & _ & Hs%sent_method)])];
    [by apply get_not_delete|..]; unfold isDelete; by rewrite Hs.
Qed.

(** The exchanges of a run up to its first removal. *)
Definition before (lb : list Exchange) (p : parts) : list Exchange :=
  lb ++ pt_listing p ++ pt_lookups p ++ pt_grants p ++ pt_self p.

Lemma nil_or_not {A} (l : list A) : l = [] ∨ l ≠ [].
Proof. destruct l; [by left|by right]. Qed.

Lemma full_split w0 w target m lb p : sync_full c req w0 w target m lb p →
  trace w = trace w0 ++ before lb p ++ pt_removals p ∧
  Forall (λ ex, isDelete ex = false) (before lb p) ∧ Forall (λ ex, isDelete ex = true) (pt_removals p).
Proof.
  intros (Ht & Fb & _ & _ & [Hl Hr _ Hg Hs Hm]). split.
  { rewrite Ht. unfold exchanges, before. by rewrite !(assoc_L (++)). }
  split.
  - unfold before. rewrite !Forall_app. split_and!.
    + eapply Forall_impl; [exact Fb|]. apply bind_not_delete.
    + eapply Forall_impl; [by eapply pages_get|]. apply get_not_delete.
    + eapply Forall_impl; [exact Hr|]. apply get_not_delete.
    + eapply Forall_impl; [exact Hg|]. intros ex. apply grant_not_delete.
    + eapply Forall_impl; [exact Hs|]. apply get_not_delete.
  - destruct (nil_or_not (pt_removals p)) as [->|He]; [constructor|].
    destruct (Hm He) as (_ & _ & _ & rem & _ & Hf & _).
    apply Forall_forall. intros ex Hex. apply list_elem_of_lookup in Hex as [i Hi].
    destruct (Forall2_lookup_r _ _ _ _ _ Hf Hi) as (x & _ & Hx). by eapply removed_delete.
Qed.

Lemma filter_all {A} (f : A → bool) l : Forall (λ x, f x = true) l → List.filter f l = l.
Proof. induction 1 as [|x l Hx _ IH]; [done|]. cbn. by rewrite Hx, IH. Qed.

Lemma filter_none {A} (f : A → bool) l : Forall (λ x, f x = false) l → List.filter f l = [].
Proof. induction 1 as [|x l Hx _ IH]; [done|]. cbn. by rewrite Hx. Qed.

Lemma resolvedAs_sub source u (l l' : list Exchange) :
  (∀ ex, ex ∈ l → ex ∈ l') → resolvedAs c req source u l → resolvedAs c req source u l'.
Proof.
  intros Hsub [Ha (f & ex & Hf & Hin & Hm)]. split; [done|]. exists f, ex. split; [done|].
  split; [by apply Hsub|done].
Qed.

Lemma secured_sub target existing id (l l' : list Exchange) :
  (∀ ex, ex ∈ l → ex ∈ l') → secured c req target existing id l → secured c req target existing id l'.
Proof.
  intros Hsub [Hm|(ex & st & h & v & Hin & Hex)]; [by left|right]. exists ex, st, h, v.
  split; [by apply Hsub|done].
Qed.

(** The members of the target as the run saw them. *)
Definition saw (target : group) (members : list member) (l : list Exchange) : Prop :=
  ∃ ll, (∀ ex, ex ∈ ll → ex ∈ l) ∧ pages c (gg_ID target) 1 ll members.

(** Every source member stands for an active user that [P] holds of. *)
Definition every_source (l : list Exchange) (P : Z → Prop) : Prop :=
  ∀ source, source ∈ sources → ∃ u, resolvedAs c req source u l ∧ P (gu_ID u).

Lemma every_source_of p l P : (∀ ex, ex ∈ pt_lookups p → ex ∈ l) → all_resolved c req p →
  (∀ id, is_Some (pt_desired p !! id) → P id) → every_source l P.
Proof.
  intros Hsub Hall HP source Hs. destruct (Hall source Hs) as (u & Hu & Hd). exists u.
  split; [by eapply resolvedAs_sub|by apply HP].
Qed.

(** What the exchanges of a run must show before it may remove a member, the
    token's account being [self] and the ledger [s] when the run started. *)
Definition removalAllowed (self : Z) (s : Store) (l : list Exchange) (ex : Exchange) : Prop :=
  ∃ target members desired m,
    saw target members l ∧ m ∈ members ∧ removed c target m ex ∧
    self ≠ 0 ∧ candidate c req target desired self s m ∧
    (sr_ImmediateRemoval req = false → seenBefore c target s m ∨ listedTwice members m) ∧
    every_source l (λ id, is_Some (desired !! id)).

(** What they must show before it may create a group or give a level. *)
Definition grantAllowed (s : Store) (l : list Exchange) (ex : Exchange) : Prop :=
  (sr_CreateGroup req = true ∧ isGroupPost c ex) ∨
  ∃ target members desired id u source,
    saw target members l ∧ desired !! id = Some u ∧ gu_ID u = id ∧
    source ∈ sources ∧ resolvedAs c req source u l ∧
    grantOf c req target (indexMembers members) desired s id ex.

Lemma sync_removals fuel w0 r w :
  gl_path_ok w0 → SyncGroup c fuel req w0 = (r, w) →
  ∃ l, trace w = trace w0 ++ l ∧
    Z.of_nat (length (List.filter isDelete l)) ≤ Z.max 0 (sr_MaxRemovals req) ∧
    ∀ ex, ex ∈ l → isDelete ex = true → removalAllowed (gl_identityID w) (gl_store w0) l ex.
Proof.
  intros Hp Hrun. destruct (sync_outcome c req fuel w0 r w Hp Hrun)
    as [(e & l & -> & Ht & Fl)|(target & m & lb & p & Hfull & _)].
  { exists l. split; [done|].
    assert (Forall (λ ex, isDelete ex = false) l) as Fd by (eapply Forall_impl; [exact Fl|apply bind_not_delete]).
    rewrite filter_none by done. split; [cbn; lia|]. intros ex Hex Hd.
    rewrite Forall_forall in Fd. by rewrite (Fd ex Hex) in Hd. }
  destruct (full_split _ _ _ _ _ _ Hfull) as (Ht & Fb & Fr). destruct Hfull as (_ & _ & _ & _ & [Hl _ _ _ _ Hm]).
  exists (before lb p ++ pt_removals p). split; [done|].
  rewrite List.filter_app, filter_none, filter_all by done. cbn [app].
  destruct (nil_or_not (pt_removals p)) as [He|He].
  { rewrite He. split; [cbn; lia|]. intros ex [Hex|Hex]%elem_of_app Hd; [|by apply elem_of_nil in Hex].
    rewrite Forall_forall in Fb. by rewrite (Fb ex Hex) in Hd. }
  destruct (Hm He) as (Hall & _ & Hself & rem & Hsub & Hf & Hlen & Hrem).
  split; [by rewrite <-(Forall2_length _ _ _ Hf)|]. intros ex [Hex|Hex]%elem_of_app Hd.
  { rewrite Forall_forall in Fb. by rewrite (Fb ex Hex) in Hd. }
  apply list_elem_of_lookup in Hex as [i Hi]. destruct (Forall2_lookup_r _ _ _ _ _ Hf Hi) as (x & Hx & Hr).
  apply list_elem_of_lookup_2 in Hx. exists target, (pt_members p), (pt_desired p), x.
  destruct (Hrem x Hx). split; [|split_and!; try done].
  - exists (pt_listing p). split; [|done]. intros y Hy. apply elem_of_app. left. unfold before. rewrite !elem_of_app. auto.
  - eapply elem_of_sublist; [exact Hx|exact Hsub].
  - eapply every_source_of; [|exact Hall|done]. intros y Hy. apply elem_of_app. left. unfold before.
    rewrite !elem_of_app. auto.
Qed.

(** [C2] Whatever GitLab answers and however the run ends, a member is removed
    from the target group only if it was listed, is not wanted by the source
    group, is not the token's own account, is below owner, has no custom role,
    is not protected, and either pruning is authoritative or GroupBridge
    recorded that it manages the membership; unless removal is immediate its
    absence was observed before, or the listing itself named the account twice,
    which the code takes for the second observation; every source member had been matched exactly
    with an active user; and no more than [MaxRemovals] removals are sent. *)
Theorem sync_removals_safe fuel w0 r w :
  gl_path_ok w0 → SyncGroup c fuel req w0 = (r, w) →
  ∃ l, trace w = trace w0 ++ l ∧
    Z.of_nat (length (List.filter isDelete l)) ≤ Z.max 0 (sr_MaxRemovals req) ∧
    ∀ ex, ex ∈ l → isDelete ex = true → removalAllowed (gl_identityID w) (gl_store w0) l ex.
Proof. apply sync_removals. Qed.

Lemma saw_parts target p l : pages c (gg_ID target) 1 (pt_listing p) (pt_members p) →
  (∀ ex, ex ∈ pt_listing p → ex ∈ l) → saw target (pt_members p) l.
Proof. intros Hp Hsub. by exists (pt_listing p). Qed.

Ltac in_before := intros ? ?; unfold before; rewrite ?elem_of_app; auto 8.

Lemma sync_grants fuel w0 r w :
  gl_path_ok w0 → SyncGroup c fuel req w0 = (r, w) →
  ∃ l, trace w = trace w0 ++ l ∧ 0 ≤ level ≤ 40 ∧
    ∀ ex, ex ∈ l → isDelete ex = false → ¬ isGet ex → grantAllowed (gl_store w0) l ex.
Proof.
  intros Hp Hrun. pose proof (accessLevels_range (sr_AccessLevel req)) as Hrange.
  destruct (sync_outcome c req fuel w0 r w Hp Hrun) as [(e & l & -> & Ht & Fl)|(target & m & lb & p & Hfull & _)].
  { exists l. split; [done|]. split; [done|]. intros ex Hex _ Hng. left.
    rewrite Forall_forall in Fl. destruct (Fl ex Hex) as [Hg|Hg]; [done|exact Hg]. }
  destruct (full_split _ _ _ _ _ _ Hfull) as (Ht & Fb & Fr).
  destruct Hfull as (_ & Fbind & _ & _ & [Hl Hlk Hdes Hg Hs _]). rewrite !Forall_forall in *.
  exists (before lb p ++ pt_removals p). split; [done|]. split; [done|].
  intros ex [Hex|Hex]%elem_of_app Hd Hng; [|by rewrite (Fr ex Hex) in Hd].
  unfold before in Hex. rewrite !elem_of_app in Hex. destruct Hex as [Hex|[Hex|[Hex|[Hex|Hex]]]].
  - left. destruct (Fbind ex Hex) as [?|Hb]; [done|exact Hb].
  - apply pages_get in Hl. rewrite Forall_forall in Hl. by destruct Hng; apply Hl.
  - by destruct Hng; apply Hlk.
  - right. destruct (Hg ex Hex) as [?|(id & Hid)]; [done|]. pose proof Hid as [[u Hu] _].
    destruct (Hdes id u Hu) as [Hgu (source & Hsrc & Hres)].
    exists target, (pt_members p), (pt_desired p), id, u, source. split_and!; try done.
    + apply saw_parts; [done|]. in_before.
    + eapply resolvedAs_sub; [|exact Hres]. in_before.
  - by destruct Hng; apply Hs.
Qed.

(** [C19] Every other change a run asks for is either the creation of a group,
    when the rule allows it, or gives exactly the level of the rule, never
    above maintainer, to an active user that a source member was matched with
    exactly: one who is not yet a direct member, or a member without custom
    role below owner at another level, lowered only under
    [enforceAccessLevel] and, when pruning is managed-only, changed only when
    the ledger records the membership. *)
Theorem sync_grants_safe fuel w0 r w :
  gl_path_ok w0 → SyncGroup c fuel req w0 = (r, w) →
  ∃ l, trace w = trace w0 ++ l ∧ 0 ≤ level ≤ 40 ∧
    ∀ ex, ex ∈ l → isDelete ex = false → ¬ isGet ex → grantAllowed (gl_store w0) l ex.
Proof. apply sync_grants. Qed.

(** [C22] No removal is sent before every source member has access: the
    removals are the last exchanges of a run, and before the first of them
    each source member was matched with a user that is a member at the level
    of the rule or above, as listed or as read back after the change. *)
Theorem sync_adds_before_removes fuel w0 r w :
  gl_path_ok w0 → SyncGroup c fuel req w0 = (r, w) →
  ∃ l1 l2, trace w = trace w0 ++ l1 ++ l2 ∧
    Forall (λ ex, isDelete ex = false) l1 ∧ Forall (λ ex, isDelete ex = true) l2 ∧
    (l2 ≠ [] → ∃ target members, saw target members l1 ∧
       every_source l1 (λ id, secured c req target (indexMembers members) id l1)).
Proof.
  intros Hp Hrun. destruct (sync_outcome c req fuel w0 r w Hp Hrun)
    as [(e & l & -> & Ht & Fl)|(target & m & lb & p & Hfull & _)].
  { exists l, []. split; [by rewrite (right_id_L [] (++))|]. split; [|by split].
    eapply Forall_impl; [exact Fl|apply bind_not_delete]. }
  destruct (full_split _ _ _ _ _ _ Hfull) as (Ht & Fb & Fr). destruct Hfull as (_ & _ & _ & _ & [Hl _ _ _ _ Hm]).
  exists (before lb p), (pt_removals p). split; [done|]. split; [done|]. split; [done|]. intros He.
  destruct (Hm He) as (Hall & Hsec & _). exists target, (pt_members p). split.
  - apply saw_parts; [done|]. in_before.
  - eapply (every_source_of p); [in_before|exact Hall|]. intros id Hid.
    eapply secured_sub; [|by apply Hsec]. in_before.
Qed.

(** A run that reports that it converged left nothing undone: every
    source member stands for an active user with at least the level of the
    rule, and every listed member that the safety rules allow to remove was
    sent its removal; the result counts the removals sent. *)
Theorem sync_converged_exact fuel w0 res w :
  gl_path_ok w0 → SyncGroup c fuel req w0 = (Ok res, w) → r_Converged res = true →
  ∃ l target members desired, trace w = trace w0 ++ l ∧ saw target members l ∧
    r_Removed res = Z.of_nat (length (List.filter isDelete l)) ∧
    every_source l (λ id, is_Some (desired !! id) ∧ secured c req target (indexMembers members) id l) ∧
    ∀ m, m ∈ members → candidate c req target desired (gl_identityID w) (gl_store w0) m →
      ∃ ex, ex ∈ l ∧ removed c target m ex.
Proof.
  intros Hp Hrun Hconv. destruct (sync_outcome c req fuel w0 _ w Hp Hrun)
    as [(e & l & Hr & _)|(target & m & lb & p & Hfull & Hok)]; [done|].
  destruct (full_split _ _ _ _ _ _ Hfull) as (Ht & Fb & Fr). destruct Hfull as (_ & _ & _ & _ & [Hl _ _ _ _ _]).
  destruct (Hok res eq_refl) as (_ & _ & Hcount & Hex & _). destruct (Hex Hconv) as (Hall & Hsec & Hrem).
  exists (before lb p ++ pt_removals p), target, (pt_members p), (pt_desired p). split; [done|]. split; [|split; [|split]].
  - apply saw_parts; [done|]. in_before.
  - by rewrite List.filter_app, filter_none, filter_all by done.
  - eapply (every_source_of p); [in_before|exact Hall|]. intros id Hid. split; [done|].
    eapply secured_sub; [|by apply Hsec]. in_before.
  - intros x Hx Hcx. destruct (pruned_sent _ _ _ _ _ _ _ _ _ Hrem Hx Hcx) as (ex & Hin & Hr).
    exists ex. split; [apply elem_of_app; by right|done].
Qed.

(** The ledger [s] binds the source group to [target], and did not bind it
    elsewhere before. *)
Definition binds (s0 s : Store) (target : group) : Prop :=
  ∃ m, st_groups s !! groupKey (c_ownershipKey c) (sr_RuleName req) (stateKeyOf req) = Some m ∧
    gm_TargetGroupID m = itoa (gg_ID target) ∧ gm_TargetGroupPath m = gg_FullPath target ∧
    ∀ prev, st_groups s0 !! groupKey (c_ownershipKey c) (sr_RuleName req) (stateKeyOf req) = Some prev →
      gm_TargetGroupID prev = itoa (gg_ID target) ∧ gm_TargetGroupPath prev = gg_FullPath target.

Lemma full_key w0 w target m lb p : (∀ k x, st_groups (gl_store w0) !! k = Some x → mappingKey x = k) →
  sync_full c req w0 w target m lb p →
  st_groups (gl_store w) !! groupKey (c_ownershipKey c) (sr_RuleName req) (stateKeyOf req) = Some m.
Proof.
  intros Hkeys (_ & _ & [Hk _ _ _ _ _] & -> & _).
  assert (mappingKey m = groupKey (c_ownershipKey c) (sr_RuleName req) (stateKeyOf req)) as <-; [|by rewrite lookup_insert_eq].
  destruct Hk as [Hk|(prev & Hprev & Hk)]; [done|]. by rewrite Hk, (Hkeys _ _ Hprev).
Qed.

Lemma full_binds w0 w target m lb p : (∀ k x, st_groups (gl_store w0) !! k = Some x → mappingKey x = k) →
  sync_full c req w0 w target m lb p → binds (gl_store w0) (gl_store w) target.
Proof.
  intros Hkeys Hfull. pose proof (full_key _ _ _ _ _ _ Hkeys Hfull) as Hm. destruct Hfull as (_ & _ & [_ [Ht1 Ht2] _ _ Hst _] & _).
  by exists m.
Qed.

(** [C27] Membership changes only ever go to the group the source group is
    bound to: by then the ledger maps the source group to that very group, a
    mapping made by an earlier run named the same group, and under
    authoritative pruning the mapping is recorded as owned. *)
Theorem sync_never_retargets fuel w0 r w :
  gl_path_ok w0 → (∀ k m, st_groups (gl_store w0) !! k = Some m → mappingKey m = k) →
  SyncGroup c fuel req w0 = (r, w) →
  let key := groupKey (c_ownershipKey c) (sr_RuleName req) (stateKeyOf req) in
  ∃ l, trace w = trace w0 ++ l ∧
    ∀ ex, ex ∈ l → ¬ isGet ex → ¬ isGroupPost c ex → ∃ target m,
      (∃ id, sent_by c (addCall (gg_ID target) id level) ex ∨ sent_by c (updateCall (gg_ID target) id level) ex ∨
         sent_by c (removeCall (gg_ID target) id) ex) ∧
      st_groups (gl_store w) !! key = Some m ∧
      gm_TargetGroupID m = itoa (gg_ID target) ∧ gm_TargetGroupPath m = gg_FullPath target ∧
      (∀ prev, st_groups (gl_store w0) !! key = Some prev →
         gm_TargetGroupID prev = gm_TargetGroupID m ∧ gm_TargetGroupPath prev = gm_TargetGroupPath m) ∧
      (sr_Prune req = "authoritative" → gm_Owned m = true).
Proof.
  intros Hp Hkeys Hrun. cbn zeta. destruct (sync_outcome c req fuel w0 r w Hp Hrun)
    as [(e & l & -> & Ht & Fl)|(target & m & lb & p & Hfull & _)].
  { exists l. split; [done|]. intros ex Hex Hng Hnp. rewrite Forall_forall in Fl.
    by destruct (Fl ex Hex) as [?|[_ ?]]. }
  pose proof (full_key _ _ _ _ _ _ Hkeys Hfull) as Hkey.
  destruct Hfull as (Ht & Fb & [_ [Ht1 Ht2] _ Hown Hst _] & _ & [Hl Hlk _ Hg Hs Hm]).
  exists (lb ++ exchanges p). split; [done|]. intros ex Hex Hng Hnp. exists target, m. split.
  - unfold exchanges in Hex. rewrite !elem_of_app in Hex. rewrite Forall_forall in Fb, Hlk, Hg, Hs.
    destruct Hex as [Hex|[Hex|[Hex|[Hex|[Hex|Hex]]]]].
    + by destruct (Fb ex Hex) as [?|[_ ?]].
    + apply pages_get in Hl. rewrite Forall_forall in Hl. by destruct Hng; apply Hl.
    + by destruct Hng; apply Hlk.
    + destruct (Hg ex Hex) as [?|(id & _ & [[_ Hid]|(x & _ & _ & _ & _ & _ & _ & Hid)])]; [done|..];
        exists id; auto.
    + by destruct Hng; apply Hs.
    + destruct (nil_or_not (pt_removals p)) as [He|He]; [rewrite He in Hex; by apply elem_of_nil in Hex|].
      destruct (Hm He) as (_ & _ & _ & rem & _ & Hf & _).
      apply list_elem_of_lookup in Hex as [i Hi]. destruct (Forall2_lookup_r _ _ _ _ _ Hf Hi) as (x & _ & Hx).
      exists (m_ID x). auto.
  - split; [done|]. split; [done|]. split; [done|]. split; [|done].
    intros prev Hprev. destruct (Hst prev Hprev). split; congruence.
Qed.
End facts.

(** ** Reading all pages of a member list *)
Section listing.
Context {S : Type} `{Env S} (c : Client) (gid : Z) (token : string) (Htoken : steadyToken (c_token c) token).
Context (n : nat) (batch : nat → list member).

(** The server has [n] pages and answers the request for each with that page,
    naming a next one exactly when there is one. *)
Definition serves : Prop := ∀ i s, (1 ≤ i ≤ n)%nat → ∃ h body s',
  env_http (requestOf c token (pageCall gid (Z.of_nat i))) s = (Ok (MkResp 200 h (Some body)), s') ∧
  decList decMember body = Some (batch i) ∧ (headerGet h "X-Next-Page" = "" ↔ i = n).

Lemma list_from k fuel all (w : GL S) : serves → (k < n)%nat → (n ≤ k + fuel)%nat →
  fst (listMembersFrom c fuel gid (Z.of_nat (Datatypes.S k)) all w) =
    Ok (all ++ mjoin (batch <$> seq (Datatypes.S k) (n - k))).
Proof.
  intros Hs. revert k all w. induction fuel as [|fuel IH]; intros k all w Hk Hf; [lia|].
  destruct (Htoken (gl_sys w)) as [s0 Hload]. destruct (Hs (Datatypes.S k) s0) as (h & body & s' & He & Hdec & Hnext); [lia|].
  cbn [listMembersFrom]. unfold mbind at 1, M_bind at 1.
  unfold request, mbind at 1, M_bind at 1, wrap_err, zoom. cbn [view lens_gl_sys]. rewrite Hload.
  cbn [map_err]. unfold requestWithToken, mbind at 1, M_bind at 1, zoom, httpDo. cbn [view update lens_gl_sys gl_sys sys_env set_env].
  change (MkCall _ _ _ _) with (pageCall gid (Z.of_nat (Datatypes.S k))). rewrite He.
  cbn [rs_status rs_body rs_header]. change (200 =? 204) with false. change (is2xx 200) with true.
  cbn [negb fst snd]. unfold mret, M_ret, option_bind. cbn [mbind option_bind]. rewrite Hdec. cbn [negb].
  replace (n - k)%nat with (Datatypes.S (n - Datatypes.S k)) by lia. cbn [seq fmap list_fmap mjoin list_join].
  rewrite (assoc_L (++)). destruct (String.eqb_spec (headerGet h "X-Next-Page") "") as [Hn|Hn].
  - apply Hnext in Hn. replace (n - Datatypes.S k)%nat with 0%nat by lia. cbn. by rewrite (right_id_L [] (++)).
  - replace (Z.of_nat (Datatypes.S k) + 1) with (Z.of_nat (Datatypes.S (Datatypes.S k))) by lia.
    apply IH; [|lia]. destruct (decide (Datatypes.S k = n)) as [Hkn|]; [|lia]. by apply Hnext in Hkn.
Qed.

(** Against a server that hands out [n > 0] pages, [listMembers] stops and
    returns the members of all pages in order; [n] is enough fuel. *)
Theorem list_members_complete fuel (w : GL S) : serves → (0 < n ≤ fuel)%nat →
  fst (listMembers c fuel gid w) = Ok (mjoin (batch <$> seq 1 n)).
Proof.
  intros Hs Hf. unfold listMembers. change 1 with (Z.of_nat 1).
  rewrite (list_from 0 fuel []) by (done || lia). by rewrite Nat.sub_0_r.
Qed.
End listing.

(** ** A small GitLab server, run on concrete inputs

    The state of the server is the list of members of group 7, [corp/team],
    with their levels; account 1 owns the token. *)
Definition memberJson (m : Z * Z) : json :=
  JObj [("id", JInt m.1); ("username", JStr ("user" +:+ itoa m.1)); ("access_level", JInt m.2)].

Definition bodyInt (k : string) (b : payload) : Z :=
  match b with
  | BJson (JObj fields) =>
      match list_find (λ kv, kv.1 = k) fields with Some (_, (_, JInt z)) => z | _ => 0 end
  | _ => 0
  end.

Definition demoServer (r : HttpReq) (ms : list (Z * Z)) : outcome err HttpResp * list (Z * Z) :=
  let reply status j := Ok (MkResp status [] (Some j)) in
  let asks method path := String.eqb (rq_method r) method && String.eqb (rq_url r) ("https://git.example" +:+ path) in
  let named := List.filter (λ m, String.eqb (rq_url r) ("https://git.example" +:+ memberPath 7 m.1)) ms in
  let others := List.filter (λ m, negb (String.eqb (rq_url r) ("https://git.example" +:+ memberPath 7 m.1))) ms in
  if asks "GET" "/api/v4/user" then (reply 200 (JObj [("id", JInt 1)]), ms)
  else if asks "GET" (groupPath "corp/team") then
    (reply 200 (JObj [("id", JInt 7); ("name", JStr "team"); ("path", JStr "team"); ("full_path", JStr "corp/team")]), ms)
  else if asks "GET" "/api/v4/users" then
    (reply 200 (JArr [JObj [("id", JInt 42); ("username", JStr "alice"); ("state", JStr "active");
      ("identities", JArr [JObj [("provider", JStr "oidc"); ("extern_uid", JStr "a1")]])]]), ms)
  else if asks "GET" (membersPath 7) then (reply 200 (JArr (map memberJson ms)), ms)
  else if asks "POST" (membersPath 7) then
    (reply 201 JNull, ms ++ [(bodyInt "user_id" (rq_body r), bodyInt "access_level" (rq_body r))])
  else match named with
       | [] => (reply 404 JNull, ms)
       | m :: _ =>
           if String.eqb (rq_method r) "GET" then (reply 200 (memberJson m), ms)
           else if String.eqb (rq_method r) "PUT" then
             (reply 200 JNull, others ++ [(m.1, bodyInt "access_level" (rq_body r))])
           else if String.eqb (rq_method r) "DELETE" then (Ok (MkResp 204 [] None), others)
           else (reply 405 JNull, ms)
       end.

Definition gitlabEnv : Env (list (Z * Z)) :=
  scriptEnv demoServer (λ _, None) (λ _, Err (EMsg "no file")) (λ s, (zeroTime, s)) (λ _ s, (false, s)).

Definition demoClient : Client :=
  NewWithCredentials "gitlab" "https://git.example/" (MkLoader "" "" (Some "glpat-1")) (MkLoader "" "" (Some "glpat-2")) "oidc".

(** Alice is to be a developer; user 43 is a member that GroupBridge manages
    and that was found absent once; user 44 is an owner. *)
Definition demoSync : SyncRequest :=
  MkSync "rule" "" (MkGroup "g1" "team" "/team" [MkUser "a1" "alice" "alice@example"]) "corp/team" "corp" false false
    "developer" "managed-only" [] 5 ["oidc"] false false.

Definition demoLedger : Store :=
  MkStore "/var/lib/gb/state.json"
    {[uk demoClient 7 43 := MkMembership (c_ownershipKey demoClient) "7" "43"]} ∅
    {[uk demoClient 7 43 := MkAbsence (c_ownershipKey demoClient) "7" "43" 1]} true.

Definition demoGL : GL (list (Z * Z)) := MkGL 0 "" demoLedger (MkSys [(43, 30); (44, 50)] [] ∅ ∅).

Definition demoResult : Result :=
  MkResult "gitlab" "/team" "corp/team" false 1 0 1 0 1 true 0.

Definition demoEnd : GL (list (Z * Z)) := snd (SyncGroup (H := gitlabEnv) demoClient 3 demoSync demoGL).

Lemma demo_sync_result : fst (SyncGroup (H := gitlabEnv) demoClient 3 demoSync demoGL) = Ok demoResult.
Proof. vm_compute. reflexivity. Qed.

Lemma demo_sync : SyncGroup (H := gitlabEnv) demoClient 3 demoSync demoGL = (Ok demoResult, demoEnd).
Proof. rewrite <-demo_sync_result. unfold demoEnd. apply surjective_pairing. Qed.

(** The server afterwards: Alice was added, user 43 removed, the owner kept. *)
Lemma demo_members : sys_env (gl_sys demoEnd) = [(44, 50); (42, 30)].
Proof. vm_compute. reflexivity. Qed.

Lemma demo_gl_path : gl_path_ok demoGL.
Proof. exact demo_path_ok. Qed.

Definition demoTrace : list Exchange := sys_trace (gl_sys demoEnd).

Lemma demo_delete_sent : existsb isDelete demoTrace = true.
Proof. vm_compute. reflexivity. Qed.

Lemma demo_add_sent : existsb (λ ex, String.eqb (rq_method ex.1) "POST") demoTrace = true.
Proof. vm_compute. reflexivity. Qed.

#[local] Opaque demoEnd demoTrace.

Lemma demo_delete : ∃ ex, ex ∈ demoTrace ∧ isDelete ex = true.
Proof. apply existsb_elem, demo_delete_sent. Qed.

Lemma demo_add : ∃ ex, ex ∈ demoTrace ∧ rq_method ex.1 = "POST".
Proof.
  destruct (proj1 (existsb_elem _ _) demo_add_sent) as (ex & Hex & Hm). exists ex.
  split; [exact Hex|]. by apply String.eqb_eq.
Qed.

Lemma demo_trace l : sys_trace (gl_sys demoEnd) = sys_trace (gl_sys demoGL) ++ l → demoTrace = l.
Proof. done. Qed.

Lemma sync_removals_safe_witness :
  ∃ target members desired m, m ∈ members ∧
    candidate demoClient demoSync target desired (gl_identityID demoEnd) demoLedger m ∧
    (seenBefore demoClient target demoLedger m ∨ listedTwice members m).
Proof.
  destruct (sync_removals_safe (H := gitlabEnv) demoClient demoSync 3 demoGL _ _ demo_gl_path demo_sync)
    as (l & Ht & _ & Hall).
  destruct demo_delete as (ex & Hex & Hd). rewrite (demo_trace _ Ht) in Hex.
  destruct (Hall ex Hex Hd) as (target & members & desired & m & _ & Hm & _ & _ & Hc & Hs & _).
  exists target, members, desired, m. split; [exact Hm|]. split; [exact Hc|]. exact (Hs eq_refl).
Defined.

Lemma sync_grants_safe_witness :
  ∃ target members desired id ex, grantOf demoClient demoSync target (indexMembers members) desired demoLedger id ex.
Proof.
  destruct (sync_grants_safe (H := gitlabEnv) demoClient demoSync 3 demoGL _ _ demo_gl_path demo_sync)
    as (l & Ht & _ & Hall).
  destruct demo_add as (ex & Hex & Hm). rewrite (demo_trace _ Ht) in Hex.
  destruct (Hall ex Hex) as [[Hf _]|(target & members & desired & id & u & source & _ & _ & _ & _ & _ & Hg)].
  - unfold isDelete. rewrite Hm. reflexivity.
  - unfold isGet. rewrite Hm. discriminate.
  - discriminate Hf.
  - exists target, members, desired, id, ex. exact Hg.
Defined.

Lemma sync_adds_before_removes_witness :
  ∃ l1 target members, every_source demoClient demoSync l1
    (λ id, secured demoClient demoSync target (indexMembers members) id l1).
Proof.
  destruct (sync_adds_before_removes (H := gitlabEnv) demoClient demoSync 3 demoGL _ _ demo_gl_path demo_sync)
    as (l1 & l2 & Ht & F1 & F2 & Hall).
  destruct (nil_or_not l2) as [Hnil|Hne].
  - exfalso. destruct demo_delete as (ex & Hex & Hd). rewrite (demo_trace _ Ht), Hnil, (right_id_L [] (++)) in Hex. rewrite Forall_forall in F1. by rewrite (F1 ex Hex) in Hd.
  - destruct (Hall Hne) as (target & members & _ & He). exists l1, target, members. exact He.
Defined.

Lemma sync_converged_exact_witness : r_Removed demoResult = 1 ∧
  ∃ l target members (desired : gmap Z user), saw demoClient target members l ∧
    every_source demoClient demoSync l (λ id, is_Some (desired !! id) ∧
      secured demoClient demoSync target (indexMembers members) id l).
Proof.
  split; [reflexivity|].
  destruct (sync_converged_exact (H := gitlabEnv) demoClient demoSync 3 demoGL _ _ demo_gl_path demo_sync eq_refl)
    as (l & target & members & desired & _ & Hsaw & _ & He & _).
  exists l, target, members, desired. split; [exact Hsaw|exact He].
Defined.

Lemma sync_never_retargets_witness :
  ∃ target m, st_groups (gl_store demoEnd) !! groupKey (c_ownershipKey demoClient) "rule" "g1" = Some m ∧
    gm_TargetGroupID m = itoa (gg_ID target).
Proof.
  destruct (sync_never_retargets (H := gitlabEnv) demoClient demoSync 3 demoGL (Ok demoResult) demoEnd demo_gl_path) as (l & Ht & Hall).
  - intros k m Hk. cbn in Hk. by rewrite lookup_empty in Hk.
  - exact demo_sync.
  - destruct demo_delete as (ex & Hex & Hd). rewrite (demo_trace _ Ht) in Hex.
    destruct (Hall ex Hex) as (target & m & _ & Hm & Hid & _).
    + intros Hg%get_not_delete. congruence.
    + intros (seg & parent & Hs%sent_method). unfold isDelete in Hd. by rewrite Hs in Hd.
    + exists target, m. split; [exact Hm|exact Hid].
Defined.

(** A server with two pages. *)
Definition pagedServer (r : HttpReq) (s : unit) : outcome err HttpResp * unit :=
  if decide (rq_query r = [("page", itoa 1); ("per_page", itoa apiPageSize)])
  then (Ok (MkResp 200 [("X-Next-Page", "2")] (Some (JArr [memberJson (43, 30)]))), s)
  else (Ok (MkResp 200 [("X-Next-Page", "")] (Some (JArr [memberJson (44, 50)]))), s).

Definition pagedEnv : Env unit :=
  scriptEnv pagedServer (λ _, None) (λ _, Err (EMsg "no file")) (λ s, (zeroTime, s)) (λ _ s, (false, s)).

Lemma list_members_complete_witness :
  fst (listMembers (H := pagedEnv) demoClient 2 7 (MkGL 0 "" demoStore (MkSys tt [] ∅ ∅))) =
    Ok [MkMember 43 "user43" 30 None; MkMember 44 "user44" 50 None].
Proof.
  refine (list_members_complete (H := pagedEnv) demoClient 7 "glpat-1" (steady_static (c_token demoClient) "glpat-1" _ eq_refl eq_refl) 2
    (λ i, if decide (i = 1%nat) then [MkMember 43 "user43" 30 None] else [MkMember 44 "user44" 50 None]) 2 _ _ _).
  - intros i s Hi. assert (i = 1%nat \/ i = 2%nat) as [-> | ->] by lia; eexists _, _, _;
      (split; [reflexivity|]); (split; [reflexivity|]); by vm_compute.
  - lia.
Defined.

(** ** Two runs the documentation does not expect *)

(** Nothing is recorded absent; the listing of the members has user 43 twice,
    as a listing read page by page can while members are being added. *)
Definition freshLedger : Store := set_absences ∅ demoLedger.

(** Alice, account 42, is a protected maintainer where the rule says developer. *)
Definition protectSync : SyncRequest :=
  MkSync "rule" "" (MkGroup "g1" "team" "/team" [MkUser "a1" "alice" "alice@example"]) "corp/team" "corp" false true
    "developer" "authoritative" ["user42"] 5 ["oidc"] true false.

Definition shortRun (req : SyncRequest) (store : Store) (ms : list (Z * Z)) : list (string * string) * list (Z * Z) :=
  let w := snd (SyncGroup (H := gitlabEnv) demoClient 3 req (MkGL 0 "" store (MkSys ms [] ∅ ∅))) in
  ((λ ex : Exchange, (rq_method ex.1, rq_url ex.1)) <$> List.filter (λ ex, negb (String.eqb (rq_method ex.1) "GET")) (sys_trace (gl_sys w)),
   sys_env (gl_sys w)).

(** One listing can confirm an absence twice: a member that GroupBridge
    manages, that no earlier run found absent and whose removal is not
    immediate is removed by the first run whose listing has it twice. *)
Theorem duplicate_entry_confirms_absence :
  sr_ImmediateRemoval demoSync = false ∧ st_absences freshLedger = ∅ ∧
  shortRun demoSync freshLedger [(43, 30); (43, 30); (42, 30); (44, 50)] =
    ([("DELETE", "https://git.example/api/v4/groups/7/members/43")], [(42, 30); (44, 50)]) ∧
  shortRun demoSync freshLedger [(43, 30); (42, 30); (44, 50)] = ([], [(43, 30); (42, 30); (44, 50)]).
Proof. split; [reflexivity|]. split; [reflexivity|]. split; vm_compute; reflexivity. Qed.

(** Protection does not cover the level: a protected user whom the source
    lists is lowered to the level of the rule under [enforceAccessLevel]. *)
Theorem protected_user_lowered :
  isProtected protectSync (MkMember 42 "user42" 40 None) = true ∧
  shortRun protectSync freshLedger [(42, 40); (44, 50)] =
    ([("PUT", "https://git.example/api/v4/groups/7/members/42")], [(44, 50); (42, 30)]).
Proof. split; vm_compute; reflexivity. Qed.
