(* ===== verification/History.v ===== *)
(** * The outside's own state along a run

    The trace says what was exchanged; [history] says in addition that each
    answer was given by the outside in the state it was in at that moment.
    What the outside does between two exchanges, when the process reads its
    clock, files or environment, is abstracted by a preorder [R].  The rules
    show that every computation of the ledger and of the GitLab client has a
    history. *)

From S2P Require Import Prelude GoStrings GoTime Json World State StateSpec Model Credential Config GitLab.

(** Everything but an HTTP exchange moves the outside along [R]. *)
Record quiet {S : Type} `{Env S} (R : S → S → Prop) : Prop := {
  qt_getenv n s : R s (env_getenv n s).2;
  qt_read n s : R s (env_read n s).2;
  qt_now s : R s (env_now s).2;
  qt_fault k s : R s (env_fault k s).2;
  qt_temp s : R s (env_temp s).2;
  qt_order A (l : list A) s : R s (env_order A l s).2
}.

(** What no operation of the outside breaks. *)
Record closed {S : Type} `{Env S} (J : Sys S → Prop) : Prop := {
  cl_http E r : keeps (E := E) J (httpDo r);
  cl_getenv E n : keeps (E := E) J (lookupEnv n);
  cl_read E n : keeps (E := E) J (readFile n);
  cl_now E : keeps (E := E) J timeNow;
  cl_fault E k : keeps (E := E) J (fsFails k);
  cl_temp E : keeps (E := E) J tempSuffix;
  cl_order E A (l : list A) : keeps (E := E) J (rangeOrder l)
}.

Section history.
Context {S : Type} `{Env S} (R : S → S → Prop) `{!PreOrder R}.

(** From [s] the outside went through the exchanges [l] to [s']. *)
Inductive history : S → list Exchange → S → Prop :=
| hi_quiet s s' : R s s' → history s [] s'
| hi_exchange s s1 r o s2 l s3 :
    R s s1 → env_http r s1 = (o, s2) → history s2 l s3 → history s ((r, o) :: l) s3.

Lemma history_before s s1 l s2 : R s s1 → history s1 l s2 → history s l s2.
Proof.
  intros HR Hh. revert HR. destruct Hh as [s1 s' HR'|]; intros HR; [constructor; by etrans|].
  econstructor; [by etrans|done..].
Qed.

Lemma history_app s l1 s1 l2 s2 : history s l1 s1 → history s1 l2 s2 → history s (l1 ++ l2) s2.
Proof.
  intros H1 H2. induction H1 as [s s' HR|s s1 r o s' l s3 HR He _ IH]; cbn [app]; [by eapply history_before|].
  econstructor; [done|done|]. by apply IH.
Qed.

Lemma history_split s l1 l2 s2 : history s (l1 ++ l2) s2 → ∃ s1, history s l1 s1 ∧ history s1 l2 s2.
Proof.
  revert s. induction l1 as [|ex l1 IH]; cbn [app]; intros s Hh.
  { exists s. split; [by constructor|done]. }
  inversion Hh as [|? s1 r o s3 ? ? HR He Hl]; subst. destruct (IH _ Hl) as (s4 & H4 & H5).
  exists s4. split; [by econstructor|done].
Qed.

Lemma history_one s ex s' : history s [ex] s' → ∃ s1 s2, R s s1 ∧ env_http ex.1 s1 = (ex.2, s2) ∧ R s2 s'.
Proof.
  intros Hh. inversion Hh as [|? s1 r o s2 ? ? HR He Hl]; subst. inversion Hl; subst. by exists s1, s2.
Qed.

(** What the outside did since it was in [s0] and the trace was [t0]. *)
Definition chronicle (s0 : S) (t0 : list Exchange) (w : Sys S) : Prop :=
  ∃ l, sys_trace w = t0 ++ l ∧ history s0 l (sys_env w).

Lemma chronicle_refl w : chronicle (sys_env w) (sys_trace w) w.
Proof. exists []. split; [by rewrite (right_id_L [] (++))|by constructor]. Qed.

(** Nothing was exchanged. *)
Lemma chronicle_silent s t w : chronicle s t w → sys_trace w = t → R s (sys_env w).
Proof.
  intros (l & Hl & Hh) Ht. rewrite Ht in Hl. rewrite <-(right_id_L [] (++) t) in Hl at 1. apply (inj (app t)) in Hl.
  subst l. by inversion Hh.
Qed.

Context (Hq : quiet R) (s0 : S) (t0 : list Exchange).
Notation J := (chronicle s0 t0).

Lemma chronicle_quiet w w' : sys_trace w' = sys_trace w → R (sys_env w) (sys_env w') → J w → J w'.
Proof.
  intros Ht HR (l & Hl & Hh). exists l. split; [congruence|].
  rewrite <-(right_id_L [] (++) l). eapply history_app; [exact Hh|by constructor].
Qed.

Lemma chronicle_http w r o s : env_http r (sys_env w) = (o, s) → J w →
  J (MkSys s (sys_trace w ++ [(r, o)]) (sys_fs w) (sys_locks w)).
Proof.
  intros He (l & Hl & Hh). exists (l ++ [(r, o)]). split; [cbn; by rewrite Hl, (assoc_L (++))|].
  eapply history_app; [exact Hh|]. econstructor; [done|exact He|]. by constructor.
Qed.

Lemma chronicle_closed : closed J.
Proof.
  assert (∀ E A (f : S → A * S), (∀ s, R s (f s).2) →
    keeps (E := E) J (λ w, let '(a, s) := f (sys_env w) in (Ok a, set_env s w))) as Hset.
  { intros E A f Hf w Hw. specialize (Hf (sys_env w)). destruct (f (sys_env w)) as [a s]. by apply (chronicle_quiet w). }
  split; intros; try (apply Hset; intros; apply Hq).
  intros w Hw. unfold httpDo. destruct (env_http _ _) as [o s] eqn:He. by apply (chronicle_http _ _ _ _ He).
Qed.

Lemma chronicle_fs f w : J w → J (set_fs f w).
Proof. done. Qed.
End history.

Section clients.
Context {S : Type} `{Env S} (J : Sys S → Prop) (Hc : closed J) (Hfs : ∀ f w, J w → J (set_fs f w)).
Notation JS := (λ w : Store * Sys S, J (snd w)).
Notation JG := (λ w : GL S, J (gl_sys w)).

Lemma closed_Load l : keeps J (Load (S := S) l).
Proof.
  unfold Load, readCredentialFile. repeat keeping;
    first [apply (cl_getenv _ Hc)|apply (cl_read _ Hc)|apply (cl_fault _ Hc)].
Qed.

(** ** The ledger *)
Lemma closed_snd {E A} (m : M (Sys S) E A) : keeps J m → keeps JS (zoom m).
Proof. exact (keeps_zoom (W := Store * Sys S) J m). Qed.

Lemma closed_fsTry k msg : keeps JS (fsTry (S := S) k msg).
Proof. unfold fsTry. repeat keeping. apply closed_snd, (cl_fault _ Hc). Qed.

Lemma closed_modifyFs f : keeps JS (modifyFs (S := S) f).
Proof. apply keeps_modify. intros w Hw. by apply Hfs. Qed.

Lemma closed_save : keeps JS (saveLocked (S := S)).
Proof.
  unfold saveLocked, snapshot, replaceFile, removeTemp.
  repeat first [keeping | apply closed_fsTry | apply closed_modifyFs
    | apply closed_snd; first [apply (cl_order _ Hc) | apply (cl_temp _ Hc) | apply (cl_fault _ Hc)]].
Qed.

Lemma closed_saveOr u : keeps JS (saveOr (S := S) u).
Proof. unfold saveOr. repeat first [keeping | apply closed_save | by apply keeps_modify]. Qed.

Lemma closed_modifyStore f : keeps JS (modifyStore (S := S) f).
Proof. by apply keeps_modify. Qed.

Ltac ledger_op := repeat first [keeping | apply closed_saveOr | apply closed_modifyStore].

Lemma closed_managed p g u : keeps JS (IsManaged (S := S) p g u).
Proof. by apply keeps_gets. Qed.
Lemma closed_mark p g u : keeps JS (MarkManaged (S := S) p g u).
Proof. unfold MarkManaged. ledger_op. Qed.
Lemma closed_unmark p g u : keeps JS (Unmark (S := S) p g u).
Proof. unfold Unmark. ledger_op. Qed.
Lemma closed_group p r k : keeps JS (State.Group (S := S) p r k).
Proof. by apply keeps_gets. Qed.
Lemma closed_put m : keeps JS (PutGroup (S := S) m).
Proof. unfold PutGroup. ledger_op. Qed.
Lemma closed_confirm p g u : keeps JS (ConfirmAbsent (S := S) p g u).
Proof. unfold ConfirmAbsent. ledger_op. Qed.
Lemma closed_reset p g u : keeps JS (ResetAbsent (S := S) p g u).
Proof. unfold ResetAbsent. ledger_op. Qed.

Lemma closed_run_op o : keeps JS (run_op (S := S) o).
Proof.
  destruct o; cbn [run_op]; unfold DeleteGroup, MoveGroup;
    repeat lazymatch goal with
      | |- keeps _ (MarkManaged _ _ _) => apply closed_mark
      | |- keeps _ (Unmark _ _ _) => apply closed_unmark
      | |- keeps _ (PutGroup _) => apply closed_put
      | |- keeps _ (ConfirmAbsent _ _ _) => apply closed_confirm
      | |- keeps _ (ResetAbsent _ _ _) => apply closed_reset
      | |- keeps _ (saveOr _) => apply closed_saveOr
      | |- keeps _ (modifyStore _) => apply closed_modifyStore
      | |- _ => keeping
      end.
Qed.

Lemma closed_ledger {A} (m : M (Store * Sys S) err A) : keeps JS m → keeps JG (ledger m).
Proof. exact (keeps_zoom (W := GL S) (V := Store * Sys S) JS m). Qed.

(** ** The GitLab client *)
Context (c : Client).

Lemma closed_sys {E A} (m : M (Sys S) E A) : keeps J m → keeps JG (zoom m).
Proof. exact (keeps_zoom (W := GL S) (V := Sys S) J m). Qed.

Lemma closed_requestWithToken {A} token x (init : A) dst : keeps JG (requestWithToken c token x init dst).
Proof. unfold requestWithToken. repeat first [keeping | apply closed_sys, (cl_http _ Hc)]. Qed.

Lemma closed_request {A} x (init : A) dst : keeps JG (request c x init dst).
Proof. unfold request. repeat first [keeping | apply closed_sys, closed_Load | apply closed_requestWithToken]. Qed.

Ltac gl_step :=
  lazymatch goal with
  | |- keeps _ (zoom (Load _)) => apply closed_sys, closed_Load
  | |- keeps _ (zoom timeNow) => apply closed_sys, (cl_now _ Hc)
  | |- keeps _ (zoom (rangeOrder _)) => apply closed_sys, (cl_order _ Hc)
  | |- keeps _ (requestWithToken _ _ _ _ _) => apply closed_requestWithToken
  | |- keeps _ (request _ _ _ _) => apply closed_request
  | |- keeps _ (ledger (IsManaged _ _ _)) => apply closed_ledger, closed_managed
  | |- keeps _ (ledger (MarkManaged _ _ _)) => apply closed_ledger, closed_mark
  | |- keeps _ (ledger (Unmark _ _ _)) => apply closed_ledger, closed_unmark
  | |- keeps _ (ledger (State.Group _ _ _)) => apply closed_ledger, closed_group
  | |- keeps _ (ledger (PutGroup _)) => apply closed_ledger, closed_put
  | |- keeps _ (ledger (ConfirmAbsent _ _ _)) => apply closed_ledger, closed_confirm
  | |- keeps _ (ledger (ResetAbsent _ _ _)) => apply closed_ledger, closed_reset
  | |- _ => keeping
  end.
Ltac gl_op := repeat gl_step.

Lemma closed_listMembersFrom fuel gid page all : keeps JG (listMembersFrom c fuel gid page all).
Proof. revert page all. induction fuel as [|fuel IH]; intros; cbn [listMembersFrom]; gl_op. apply IH. Qed.

Lemma closed_findUser source ms : keeps JG (findUser c source ms).
Proof.
  unfold findUser. keeping; [keeping|]. induction ms as [|f ms IH]; cbn [findUserLoop]; gl_op; exact IH.
Qed.

Lemma closed_ensureSegments d rest cur any : keeps JG (ensureSegments c d rest cur any).
Proof.
  revert d cur any. induction rest as [|seg rest IH]; intros; cbn [ensureSegments]; [keeping|].
  unfold getGroup, createGroup. gl_op; apply IH.
Qed.

Lemma closed_ensureGroup path parent create : keeps JG (ensureGroup c path parent create).
Proof.
  unfold ensureGroup, getGroup. repeat first [gl_step | apply closed_ensureSegments].
Qed.

Lemma closed_currentIdentity : keeps JG (currentIdentity c).
Proof. unfold currentIdentity, setIdentity. repeat first [gl_step | by apply keeps_modify]. Qed.

Lemma closed_member_calls gid uid level :
  keeps JG (addMember c gid uid level) ∧ keeps JG (updateMember c gid uid level) ∧
  keeps JG (getMember c gid uid) ∧ keeps JG (removeMember c gid uid).
Proof. unfold addMember, updateMember, getMember, removeMember. split_and!; gl_op. Qed.

Lemma closed_bindTarget req res : keeps JG (bindTarget c req res).
Proof. unfold bindTarget, failWith, lift, liftWith. repeat first [gl_step | apply closed_ensureGroup]. Qed.

Lemma closed_applyUser req target existing level res e : keeps JG (applyUser c req target existing level res e).
Proof.
  unfold applyUser, failWith, lift, liftWith.
  repeat first [gl_step | apply (closed_member_calls _ _ 0) | apply closed_member_calls].
Qed.

Lemma closed_removalPhase req target members desired res : keeps JG (removalPhase c req target members desired res).
Proof.
  unfold removalPhase, considerRemoval, applyRemoval, failWith, lift, liftWith.
  repeat first [gl_step | apply closed_currentIdentity | apply (closed_member_calls _ _ 0)].
Qed.

Lemma closed_syncMembers fuel req target res : keeps JG (syncMembers c fuel req target res).
Proof.
  unfold syncMembers, listMembers, resolveMembers, lift, liftWith.
  repeat first [gl_step | apply closed_listMembersFrom | apply closed_findUser
    | apply closed_applyUser | apply closed_removalPhase].
Qed.

Lemma closed_SyncGroup fuel req : keeps JG (SyncGroup c fuel req).
Proof. unfold SyncGroup, syncBody. repeat first [gl_step | apply closed_bindTarget | apply closed_syncMembers]. Qed.

End clients.

(** Every run has a history. *)
Lemma sync_history {S} `{Env S} (R : S → S → Prop) `{!PreOrder R} c fuel req (w0 : GL S) r w :
  quiet R → SyncGroup c fuel req w0 = (r, w) →
  ∃ l, sys_trace (gl_sys w) = sys_trace (gl_sys w0) ++ l ∧ history R (sys_env (gl_sys w0)) l (sys_env (gl_sys w)).
Proof.
  intros Hq Hrun.
  pose proof (closed_SyncGroup _ (chronicle_closed R Hq (sys_env (gl_sys w0)) (sys_trace (gl_sys w0)))
    (chronicle_fs R _ _) c fuel req w0) as Hk.
  cbn beta in Hk. rewrite Hrun in Hk. destruct r; apply Hk, chronicle_refl; exact _.
Qed.
