(* ===== verification/GitLabServer.v ===== *)
(** * [SyncGroup] against a GitLab that keeps its promises

    [honest] states what the members API documents, over the list of direct
    members that the outside keeps for each group: reads change nothing and
    show what is there, a change concerns the member it names, and nobody else
    changes memberships meanwhile.  The theorem relates the members before and
    after a run by [settled], the specification of what a rule asks for. *)

From S2P Require Import Prelude GoStrings GoTime Json World State StateSpec StateFacts Model Credential Config GitLab GitLabSpec GitLabSync GitLabRemove GitLabRun GitLabFacts History.

(** The same direct members in every group. *)
Definition sameMembers {S : Type} (roster : S → Z → list member) (s s' : S) : Prop :=
  ∀ gid, roster s' gid = roster s gid.

#[export] Instance sameMembers_preorder {S} (roster : S → Z → list member) : PreOrder (sameMembers roster).
Proof. split; [done|]. intros s1 s2 s3 H1 H2 gid. by rewrite H2. Qed.

(** The record of a user in a group. *)
Definition memberAt {S : Type} (roster : S → Z → list member) (s : S) (gid uid : Z) : option member :=
  indexMembers (roster s gid) !! uid.

Record honest {S : Type} `{Env S} (c : Client) (roster : S → Z → list member) : Prop := {
  hn_quiet : quiet (sameMembers roster);
  hn_unique s gid : NoDup (m_ID <$> roster s gid);
  hn_get r s : rq_method r = "GET" → sameMembers roster s (env_http r s).2;
  (** a change concerns the member it names *)
  hn_touch gid uid level token x s : x = addCall gid uid level ∨ x = updateCall gid uid level ∨ x = removeCall gid uid →
    ∀ g u, (g, u) ≠ (gid, uid) →
      memberAt roster (env_http (requestOf c token x) s).2 g u = memberAt roster s g u;
  (** a new group concerns no group that has members *)
  hn_post seg parent token s g : roster s g ≠ [] →
    roster (env_http (requestOf c token (groupPost seg parent)) s).2 g = roster s g;
  (** a removal that is confirmed has happened *)
  hn_removed gid uid token s resp s' : env_http (requestOf c token (removeCall gid uid)) s = (Ok resp, s') →
    rs_status resp = 404 ∨ is2xx (rs_status resp) = true → memberAt roster s' gid uid = None;
  (** a member that is shown is there as shown *)
  hn_member gid uid token s resp s' m :
    env_http (requestOf c token (MkCall "GET" (memberPath gid uid) [] BNone)) s = (Ok resp, s') →
    is2xx (rs_status resp) = true → decoded resp noMember (Some decMember) = Some m → memberAt roster s gid uid = Some m;
  (** pages are slices of the list, and the last one names no next page *)
  hn_page gid page token s resp s' batch : 1 ≤ page →
    env_http (requestOf c token (pageCall gid page)) s = (Ok resp, s') →
    is2xx (rs_status resp) = true → decoded resp [] (Some (decList decMember)) = Some batch →
    batch = take (Z.to_nat apiPageSize) (drop (Z.to_nat ((page - 1) * apiPageSize)) (roster s gid)) ∧
    (headerGet (rs_header resp) "X-Next-Page" = "" → Z.of_nat (length (roster s gid)) ≤ page * apiPageSize)
}.

Lemma indexMembers_snoc l m : indexMembers (l ++ [m]) = <[m_ID m := m]> (indexMembers l).
Proof. unfold indexMembers. by rewrite foldl_app. Qed.

Lemma indexMembers_Some l i m : NoDup (m_ID <$> l) → indexMembers l !! i = Some m ↔ m ∈ l ∧ m_ID m = i.
Proof.
  induction l as [|x l IH] using rev_ind.
  { intros _. change (indexMembers []) with (∅ : gmap Z member). rewrite lookup_empty. split; [done|].
    by intros [?%elem_of_nil _]. }
  rewrite fmap_app. cbn [fmap list_fmap]. rewrite NoDup_snoc. intros [Hx Hl]. specialize (IH Hl).
  rewrite indexMembers_snoc, lookup_insert_Some, IH, elem_of_app, list_elem_of_singleton. split.
  - intros [[Hi <-]|(Hi & Hm & Hid)]; [split; [by right|done]|split; [by left|done]].
  - intros [[Hm| ->] Hid]; [right|by left]. split; [|done]. intros Hxi. apply Hx. rewrite Hxi, <-Hid.
    by apply list_elem_of_fmap_2.
Qed.

Section server.
Context {S : Type} `{Env S} (c : Client) (roster : S → Z → list member) (Hon : honest c roster).
Notation same := (sameMembers roster).
Notation at_ := (memberAt roster).
Notation past := (history same).

Lemma same_at s s' gid uid : same s s' → at_ s' gid uid = at_ s gid uid.
Proof. unfold memberAt. by intros ->. Qed.

Lemma past_split s l1 l2 s2 : past s (l1 ++ l2) s2 → ∃ s1, past s l1 s1 ∧ past s1 l2 s2.
Proof. apply history_split; exact _. Qed.

(** ** Reads *)
Lemma past_gets s l s' : past s l s' → Forall isGet l → same s s'.
Proof.
  induction 1 as [s s' HR|s s1 r o s2 l s3 HR He _ IH]; [done|].
  intros [Hg Hl]%Forall_cons. etrans; [exact HR|]. etrans; [|by apply IH].
  pose proof (hn_get _ _ Hon r s1 Hg) as Hget. by rewrite He in Hget.
Qed.

Lemma past_pages gid page s l s' ms :
  past s l s' → pages c gid page l ms → 1 ≤ page →
  ms = drop (Z.to_nat ((page - 1) * apiPageSize)) (roster s gid).
Proof.
  intros Hh Hp. revert s Hh. induction Hp as [page ex st h batch Ha H2 Hnext|page ex st h batch l rest Ha H2 Hnext Hp IH];
    intros s Hh H1; destruct Ha as [[token Htok] (resp & Hresp & Hst & Hh2 & Hdec)]; cbn [fst snd] in *; subst st h.
  - apply history_one in Hh as (s1 & s2 & HR & He & _). rewrite Htok, Hresp in He.
    destruct (hn_page _ _ Hon _ _ _ _ _ _ _ H1 He H2 Hdec) as [-> Hlast]. specialize (Hlast Hnext). rewrite HR in *.
    rewrite take_ge; [done|]. rewrite length_drop. unfold apiPageSize in *. lia.
  - change (ex :: l) with ([ex] ++ l) in Hh. apply past_split in Hh as (s3 & H3 & Hl).
    pose proof (past_gets _ _ _ H3) as Hsame.
    apply history_one in H3 as (s1 & s2 & HR & He & HR2). rewrite Htok, Hresp in He.
    destruct (hn_page _ _ Hon _ _ _ _ _ _ _ H1 He H2 Hdec) as [-> _]. rewrite (IH s3 Hl) by lia.
    rewrite Hsame, HR; [|constructor; [unfold isGet; by rewrite Htok|done]].
    replace (Z.to_nat ((page + 1 - 1) * apiPageSize))
      with (Z.to_nat ((page - 1) * apiPageSize) + Z.to_nat apiPageSize)%nat by (unfold apiPageSize; lia).
    by rewrite <-drop_drop, take_drop.
Qed.

(** A complete listing shows the members the group has. *)
Lemma past_listing gid s l s' ms : past s l s' → pages c gid 1 l ms → ms = roster s gid.
Proof. intros Hh Hp. by apply (past_pages _ _ _ _ _ _ Hh Hp). Qed.

(** ** Changes *)
Lemma past_touch gid uid level token x o s s' : past s [(requestOf c token x, o)] s' →
  x = addCall gid uid level ∨ x = updateCall gid uid level ∨ x = removeCall gid uid →
  ∀ g u, (g, u) ≠ (gid, uid) → at_ s' g u = at_ s g u.
Proof.
  intros (s1 & s2 & HR & He & HR2)%history_one Hx g u Hne. cbn [fst snd] in He.
  rewrite (same_at _ _ _ _ HR2), <-(same_at _ _ _ _ HR).
  pose proof (hn_touch _ _ Hon gid uid level token x s1 Hx g u Hne) as Ht. by rewrite He in Ht.
Qed.

Lemma past_member gid uid m ex s s' :
  past s [ex] s' → member_answer c gid uid (Some m) ex → at_ s' gid uid = Some m.
Proof.
  intros Hh Ha. pose proof (past_gets _ _ _ Hh) as Hsame.
  apply history_one in Hh as (s1 & s2 & HR & He & _).
  destruct Ha as (st & h & v & [[token Htok] (resp & Hresp & Hst & _ & Hdec)] & Hv). cbn [fst snd] in *. subst st.
  rewrite (same_at s s'); [|apply Hsame; constructor; [unfold isGet; by rewrite Htok|done]].
  rewrite <-(same_at _ _ _ _ HR). rewrite Htok, Hresp in He.
  destruct (Z.eqb_spec (rs_status resp) 404); [done|]. destruct Hv as [H2 [= ->]].
  by eapply (hn_member _ _ Hon).
Qed.

Section target.
Context (req : SyncRequest) (target : group) (wants : Z → Prop) (leaves : member → Prop).
Notation gid := (gg_ID target).
Notation level := (accessLevels (sr_AccessLevel req)).

(** What the rule asks for: the record of one user of the target before and
    after, when [wants] are the users to be in and [leaves] the members to go.
    Wanted users have the level of the rule: those who join have it at least,
    those below it, or off it when the rule enforces it, are moved to it, the
    others stay.  Members leave exactly when they are to; everybody else stays
    as they are. *)
Inductive settled (uid : Z) : option member → option member → Prop :=
| se_joins v : wants uid → level ≤ m_AccessLevel v → settled uid None (Some v)
| se_moves m v : wants uid → mustMove req m = true → m_AccessLevel v = level → settled uid (Some m) (Some v)
| se_stays m : wants uid → mustMove req m = false → level ≤ m_AccessLevel m → settled uid (Some m) (Some m)
| se_leaves m : leaves m → settled uid (Some m) None
| se_other o : ¬ wants uid → (∀ m, o = Some m → ¬ leaves m) → settled uid o o.

(** The documentation lowers neither protected users nor the user of the token;
    the code does when the rule enforces its level.  This user is not a case of
    that, in a run with the token of [self]. *)
Definition spared (self uid : Z) (o : option member) : Prop :=
  ∀ m, o = Some m → isProtected req m = true ∨ uid = self → mustMove req m = true → m_AccessLevel m < level.

(** A wanted user's turn settles that user and nobody else. *)
Lemma past_applied s0 id s l s' :
  past s l s' → applied c req target (indexMembers (roster s0 gid)) id l → wants id →
  at_ s gid id = at_ s0 gid id →
  settled id (at_ s0 gid id) (at_ s' gid id) ∧ ∀ g u, (g, u) ≠ (gid, id) → at_ s' g u = at_ s g u.
Proof.
  intros Hh Ha Hd Hat. unfold memberAt at 3.
  assert (∀ x ex ex' v, past s [ex; ex'] s' → sent_by c x ex → x = addCall gid id level ∨ x = updateCall gid id level →
    member_answer c gid id (Some v) ex' →
    at_ s' gid id = Some v ∧ ∀ g u, (g, u) ≠ (gid, id) → at_ s' g u = at_ s g u) as Hchange.
  { intros x [r o] ex' v Hp [token Htok] Hx Hv. cbn [fst] in Htok. subst r.
    apply (past_split _ [_] [ex']) in Hp as (s1 & H1 & H2).
    split; [by eapply past_member|]. intros g u Hne. 
    assert (x = addCall gid id level ∨ x = updateCall gid id level ∨ x = removeCall gid id) as Hx' by tauto.
    rewrite <-(past_touch _ _ _ _ _ _ _ _ H1 Hx' g u Hne). apply same_at. eapply past_gets; [exact H2|]. constructor; [by eapply member_answer_get|done]. }
  destruct Ha as [m He Hm Hle|ex ex' v He Hs Hv Hle|m ex ex' v He Hm Hs Hv Hle]; unfold memberAt at 1; rewrite He.
  - assert (same s s') as Hsame by (by apply (past_gets _ _ _ Hh)).
    split; [|intros; by apply same_at]. rewrite (same_at _ _ _ _ Hsame), Hat. unfold memberAt. rewrite He. by apply se_stays.
  - destruct (Hchange _ _ _ _ Hh Hs ltac:(auto) Hv) as [-> Ho]. split; [by apply se_joins|exact Ho].
  - destruct (Hchange _ _ _ _ Hh Hs ltac:(auto) Hv) as [-> Ho]. split; [by apply (se_moves id m)|exact Ho].
Qed.

(** All wanted users, one after the other. *)
Lemma past_granted s0 ids ls s s' :
  past s (concat ls) s' → Forall2 (applied c req target (indexMembers (roster s0 gid))) ids ls → NoDup ids →
  (∀ id, id ∈ ids → wants id ∧ at_ s gid id = at_ s0 gid id) →
  (∀ id, id ∈ ids → settled id (at_ s0 gid id) (at_ s' gid id)) ∧
  ∀ g u, g ≠ gid ∨ u ∉ ids → at_ s' g u = at_ s g u.
Proof.
  intros Hh Hl. revert s Hh. induction Hl as [|id l ids ls Ha _ IH]; intros s Hh Hnd Hids; cbn [concat] in Hh.
  { split; [by intros id ?%elem_of_nil|]. intros g u _. apply same_at. by apply (past_gets _ _ _ Hh). }
  apply NoDup_cons in Hnd as [Hid Hnd]. apply past_split in Hh as (s1 & H1 & H2).
  destruct (Hids id) as [Hd Hat]; [by left|].
  destruct (past_applied s0 id s l s1 H1 Ha Hd Hat) as [Hset Hrest].
  destruct (IH s1 H2 Hnd) as [Hsets Hrests].
  { intros i Hi. destruct (Hids i) as [Hdi Hati]; [by right|]. split; [done|]. rewrite Hrest; [done|]. congruence. }
  split.
  - intros i [->|Hi]%elem_of_cons; [|by apply Hsets]. rewrite (Hrests gid id); [done|by right].
  - intros g u Hgu. rewrite elem_of_cons in Hgu. rewrite Hrests, Hrest; [done| |tauto]. intros [= -> ->]. tauto.
Qed.

End target.

(** The binding leaves the groups that have members as they are. *)
Lemma past_bound req s l s' g : past s l s' → Forall (bindKind c req) l → roster s g ≠ [] → roster s' g = roster s g.
Proof.
  induction 1 as [s s' HR|s s1 r o s2 l s3 HR He _ IH]; [intros _ _; apply HR|].
  intros [Hk Hl]%Forall_cons Hg. rewrite <-HR in Hg |- *.
  assert (roster s2 g = roster s1 g) as Hstep.
  { replace s2 with (env_http r s1).2 by (by rewrite He).
    destruct Hk as [Hget|[_ (seg & parent & token & Hr)]]; [by apply (hn_get _ _ Hon)|]. cbn [fst] in Hr. subst r.
    by apply (hn_post _ _ Hon). }
  rewrite IH; congruence.
Qed.

(** The confirmed removals. *)
Lemma past_removed target rem l s s' :
  past s l s' → Forall2 (gone c target) rem l →
  (∀ m, m ∈ rem → at_ s' (gg_ID target) (m_ID m) = None) ∧
  ∀ g u, g ≠ (gg_ID target) ∨ u ∉ m_ID <$> rem → at_ s' g u = at_ s g u.
Proof.
  intros Hh Hl. revert s Hh. induction Hl as [|m ex rem l Hg _ IH]; intros s Hh.
  { split; [by intros m ?%elem_of_nil|]. intros g u _. apply same_at. by apply (past_gets _ _ _ Hh). }
  apply (past_split _ [ex]) in Hh as (s1 & H1 & H2). destruct (IH s1 H2) as [Hgone Hrest].
  destruct Hg as (st & h & [[token Htok] (resp & Hresp & Hst & _ & _)] & Hok). cbn [fst snd] in *. subst st.
  destruct ex as [r o]. cbn [fst snd] in *. subst r o.
  pose proof (past_touch (gg_ID target) (m_ID m) 0 _ _ _ _ _ H1 ltac:(auto)) as Ht.
  assert (at_ s1 (gg_ID target) (m_ID m) = None) as Hnone.
  { apply history_one in H1 as (s2 & s3 & _ & He & HR). rewrite (same_at _ _ _ _ HR).
    by eapply (hn_removed _ _ Hon). }
  split.
  - intros x [->|Hx]%elem_of_cons; [|by apply Hgone].
    destruct (decide (m_ID m ∈ m_ID <$> rem)) as [(y & Hy & Hyr)%list_elem_of_fmap|Hn].
    + rewrite Hy. by apply Hgone.
    + rewrite (Hrest (gg_ID target) (m_ID m)); [done|by right].
  - intros g u Hgu. cbn [fmap list_fmap] in Hgu. rewrite elem_of_cons in Hgu. rewrite Hrest, Ht; [done| |tauto].
    intros [= -> ->]. tauto.
Qed.

Notation trace w := (sys_trace (gl_sys w)).
Notation env w := (sys_env (gl_sys w)).

(** The phases of a run that converged, applied to the members at the listing. *)
Lemma past_parts req target s0 self p s s' :
  past s (exchanges p) s' → run c req target s0 self p → granted c req target p → exact c req target s0 self p →
  (∀ g u, g ≠ gg_ID target → at_ s' g u = at_ s g u) ∧
  ∀ u, settled req (λ id, is_Some (pt_desired p !! id)) (candidate c req target (pt_desired p) self s0) u (at_ s (gg_ID target) u) (at_ s' (gg_ID target) u).
Proof.
  intros Hh [Hl Hlk _ _ Hself _] (ids & ls & Hnd & Hids & Hgr & Hap) (_ & _ & rem & Hsub & Hgone & Hrem).
  unfold exchanges in Hh. rewrite Hgr in Hh.
  apply past_split in Hh as (s1 & H1 & Hh). apply past_split in Hh as (s2 & H2 & Hh).
  apply past_split in Hh as (s3 & H3 & Hh). apply past_split in Hh as (s4 & H4 & H5).
  pose proof (past_listing _ _ _ _ _ H1 Hl) as Hms.
  assert (same s s2) as Hs2. { etrans; [by eapply past_gets, pages_get|by eapply past_gets]. }
  pose proof (past_gets _ _ _ H4 Hself) as Hs4. rewrite Hms in Hap, Hsub, Hrem.
  destruct (past_granted req target (λ id, is_Some (pt_desired p !! id)) (candidate c req target (pt_desired p) self s0) s ids ls s2 s3 H3 Hap Hnd) as [Hset Hrest].
  { intros id Hid. split; [by apply Hids|]. by apply same_at. }
  destruct (past_removed target rem _ s4 s' H5 Hgone) as [Hout Hothers].
  assert (∀ m, m ∈ rem → candidate c req target (pt_desired p) self s0 m) as Hcand.
  { intros m Hm. apply Hrem; [|done]. by eapply elem_of_sublist. }
  split.
  - intros g u Hg. rewrite (Hothers g u), (same_at _ _ _ _ Hs4), (Hrest g u), (same_at _ _ _ _ Hs2); auto.
  - intros u. destruct (pt_desired p !! u) as [v|] eqn:Hd.
    + assert (u ∉ m_ID <$> rem) as Hnr.
      { intros (m & -> & Hm)%list_elem_of_fmap. destruct (Hcand m Hm) as [Hdm _ _ _ _ _]. congruence. }
      rewrite (Hothers _ u), (same_at _ _ _ _ Hs4) by auto. apply Hset, Hids. by rewrite Hd.
    + assert (u ∉ ids) as Hni by (intros [? ?]%Hids; congruence).
      assert (at_ s4 (gg_ID target) u = at_ s (gg_ID target) u) as Hsame.
      { rewrite (same_at _ _ _ _ Hs4), (Hrest _ u), (same_at _ _ _ _ Hs2); auto. }
      destruct (decide (u ∈ m_ID <$> rem)) as [(m & -> & Hm)%list_elem_of_fmap|Hn].
      * rewrite (Hout m Hm).
        replace (at_ s (gg_ID target) (m_ID m)) with (Some m); [by apply se_leaves, Hcand|]. symmetry.
        apply indexMembers_Some; [apply (hn_unique _ _ Hon)|]. split; [by eapply elem_of_sublist|done].
      * rewrite (Hothers _ u), Hsame by auto. apply se_other; [rewrite Hd; by intros []|]. intros m Hm Hc.
        apply indexMembers_Some in Hm as [Hm Hid]; [|apply (hn_unique _ _ Hon)].
        apply Hn. rewrite <-Hid. apply list_elem_of_fmap_2. by apply Hrem.
Qed.

(** [C8] Against a GitLab that keeps its promises, a run that reports that it
    converged has settled one group: the group that GitLab named for the target
    path (or made for it, when there was none), to which the ledger now binds
    the source group and from which no earlier binding differed.  It has taken
    that group from the members it had after the binding, which are those it
    had before the run if it had any or no group was created, exactly to what
    the rule asks for: the wanted users, one for every source member, are in at
    the level of the rule, the users whom the safety rules allow to remove are
    out, everybody else is as before, and so is every other group.  Left open
    is a wanted user who is protected or the user of the token and stands above
    a level that the rule enforces: the documentation forbids to lower them. *)
Theorem sync_reaches_spec req fuel w0 res w :
  gl_path_ok w0 → (∀ k m, st_groups (gl_store w0) !! k = Some m → mappingKey m = k) →
  SyncGroup c fuel req w0 = (Ok res, w) → r_Converged res = true →
  ∃ l target desired s1, trace w = trace w0 ++ l ∧
    located c (trimSlash (sr_TargetPath req)) target l ∧
    binds c req (gl_store w0) (gl_store w) target ∧
    (∀ g, roster (env w0) g ≠ [] ∨ (∀ ex, ex ∈ l → ¬ isGroupPost c ex) → roster s1 g = roster (env w0) g) ∧
    every_source c req l (λ id, is_Some (desired !! id)) ∧
    (∀ id u, desired !! id = Some u →
       gu_ID u = id ∧ ∃ source, source ∈ g_Members (sr_SourceGroup req) ∧ resolvedAs c req source u l) ∧
    (∀ g u, g ≠ gg_ID target → at_ (env w) g u = at_ s1 g u) ∧
    ∀ u, spared req (gl_identityID w) u (at_ s1 (gg_ID target) u) →
      settled req (λ id, is_Some (desired !! id)) (candidate c req target desired (gl_identityID w) (gl_store w0)) u
        (at_ s1 (gg_ID target) u) (at_ (env w) (gg_ID target) u).
Proof.
  intros Hp Hkeys Hrun Hconv.
  destruct (sync_outcome c req fuel w0 _ w Hp Hrun) as [(e & l & Hr & _)|(target & m & lb & p & Hfull & Hok)]; [done|].
  destruct (Hok res eq_refl) as (_ & Hgr & _ & Hex & _). specialize (Hex Hconv).
  pose proof (full_binds _ _ _ _ _ _ _ _ Hkeys Hfull) as Hbinds.
  destruct Hfull as (Ht & Fb & Hbound & _ & Hrun').
  destruct (sync_history same c fuel req w0 _ w (hn_quiet _ _ Hon) Hrun) as (l & Hl & Hh).
  rewrite Ht in Hl. apply (inj (app _)) in Hl. subst l.
  apply past_split in Hh as (s1 & Hb & Hh).
  destruct (past_parts req target _ _ p s1 _ Hh Hrun' Hgr Hex) as [Hothers Hsettled].
  exists (lb ++ exchanges p), target, (pt_desired p), s1. split; [done|].
  assert (∀ ex, ex ∈ pt_lookups p → ex ∈ lb ++ exchanges p) as Hsub.
  { intros ex Hin. unfold exchanges. rewrite !elem_of_app. auto. }
  split; [eapply located_sub, (bt_located _ _ _ _ _ _ Hbound); intros ex; rewrite elem_of_app; auto|].
  split; [done|]. split; [|split; [|split; [|split; [done|by intros u _]]]].
  - intros g [Hg|Hno]; [by eapply past_bound|]. apply (past_gets _ _ _ Hb). rewrite Forall_forall in Fb |- *. intros ex Hin.
    destruct (Fb ex Hin) as [Hg|[_ Hg]]; [done|]. destruct (Hno ex); [apply elem_of_app; by left|done].
  - destruct Hex as (Hall & _ & _). by eapply every_source_of.
  - intros id u Hd. destruct (rn_desired _ _ _ _ _ _ Hrun' id u Hd) as [Hid (source & Hs & Hres)].
    split; [done|]. exists source. split; [done|]. by eapply resolvedAs_sub.
Qed.
End server.
