(* ===== verification/GitLabLive.v ===== *)
(** * A run of [SyncGroup] against a GitLab that answers

    [responsive] adds to [honest] that the API answers the calls of one
    request, and [fits] that the request can be carried out at all: every
    source member is found, no custom role is in the way, the removals stay
    below the limit.  On a disk that works such a run ends well. *)

From S2P Require Import Prelude GoStrings Sha256 GoTime Json World State StateSpec StateFacts StateLive Model Credential CredentialFacts Config Paths GitLab GitLabSpec GitLabSync GitLabRemove GitLabRun GitLabFacts History GitLabServer.

(** A loop whose turns all end well. *)
Lemma triple_of_runs {W E A} (P : W → Prop) (m : M W E A) (Q : A → W → Prop) :
  (∀ w, P w → ∃ a w', m w = (Ok a, w') ∧ Q a w') ↔ triple P m Q (λ _ _, False).
Proof.
  split.
  - intros Hm w Hw. by destruct (Hm w Hw) as (a & w' & -> & HQ).
  - intros Hm w Hw. specialize (Hm w Hw). destruct (m w) as [[a|e] w']; [by exists a, w'|done].
Qed.

Lemma mfold_runs {W E A B} (f : B → A → M W E B) (Inv : list A → B → W → Prop) (l : list A) b w :
  (∀ d x rest b w, l = d ++ x :: rest → Inv d b w → ∃ b' w', f b x w = (Ok b', w') ∧ Inv (d ++ [x]) b' w') →
  Inv [] b w → ∃ b' w', mfold f b l w = (Ok b', w') ∧ Inv l b' w'.
Proof.
  intros Hf Hw. apply (triple_of_runs (Inv [] b)); [|done]. apply triple_mfold.
  intros d x rest b' Hl. apply triple_of_runs. intros w' HI. by eapply Hf.
Qed.

(** A description of an answer: headers and decoded body. *)
Definition answers {S : Type} `{Env S} (c : Client) {A} (token : string) (x : call) (init : A)
    (dst : option (json → option A)) (s : S) (Q : list (string * string) → A → S → Prop) : Prop :=
  ∃ resp s' a, env_http (requestOf c token x) s = (Ok resp, s') ∧ is2xx (rs_status resp) = true ∧
    decoded resp init dst = Some a ∧ Q (rs_header resp) a s'.

(** The GitLab user a source member is found as: some strategy finds exactly
    that user and the strategies before it find nobody. *)
Definition foundAs (c : Client) (directory : list (string * string) → list user) (ms : list string)
    (source : User) (u : user) : Prop :=
  ∃ before f after q, ms = before ++ f :: after ∧
    (∀ g q', g ∈ before → identityQuery c source g = Some q' → List.filter (identityMatches c source g) (directory q') = []) ∧
    identityQuery c source f = Some q ∧ List.filter (identityMatches c source f) (directory q) = [u].

(** The account the token belongs to. *)
Record accountOf {S : Type} `{Env S} (c : Client) (token : string) (self : Z) : Prop := {
  ac_self : self ≠ 0;
  ac_answer s : answers c token (MkCall "GET" "/api/v4/user" [] BNone) noUser (Some decUser) s (λ _ u _, gu_ID u = self)
}.

(** What the API answers to the calls of the request [req] on [target]. *)
Record responsive {S : Type} `{Env S} (c : Client) (roster : S → Z → list member) (token rtoken : string)
    (req : SyncRequest) (target : group) (directory : list (string * string) → list user) (wanted : list Z) : Prop := {
  re_group s : answers c token (MkCall "GET" (groupPath (trimSlash (sr_TargetPath req))) [] BNone)
    noGroup (Some decGroup) s (λ _ g _, g = target);
  re_page s page : 1 ≤ page → answers c token (pageCall (gg_ID target) page) [] (Some (decList decMember)) s
    (λ h _ _, Z.of_nat (length (roster s (gg_ID target))) ≤ page * apiPageSize → headerGet h "X-Next-Page" = "");
  re_users s q : answers c rtoken (MkCall "GET" "/api/v4/users" (q ++ [("per_page", itoa apiPageSize)]) BNone)
    [] (Some (decList decUser)) s (λ _ us _, us = directory q);
  re_add s id : id ∈ wanted → memberAt roster s (gg_ID target) id = None →
    answers c token (addCall (gg_ID target) id (accessLevels (sr_AccessLevel req))) tt None s
      (λ _ _ s', ∃ v, memberAt roster s' (gg_ID target) id = Some v ∧ m_AccessLevel v = accessLevels (sr_AccessLevel req));
  re_update s id m : id ∈ wanted → memberAt roster s (gg_ID target) id = Some m → mustMove req m = true →
    answers c token (updateCall (gg_ID target) id (accessLevels (sr_AccessLevel req))) tt None s
      (λ _ _ s', ∃ v, memberAt roster s' (gg_ID target) id = Some v ∧ m_AccessLevel v = accessLevels (sr_AccessLevel req));
  re_member s id m : id ∈ wanted → memberAt roster s (gg_ID target) id = Some m →
    answers c token (MkCall "GET" (memberPath (gg_ID target) id) [] BNone) noMember (Some decMember) s (λ _ v _, v = m);
  re_remove s id : ∃ resp s', env_http (requestOf c token (removeCall (gg_ID target) id)) s = (Ok resp, s') ∧
    (rs_status resp = 404 ∨ is2xx (rs_status resp) = true)
}.

Section live.
Context {S : Type} `{Env S} (c : Client) (roster : S → Z → list member) (Hon : honest c roster) (Hdisk : disk_works).
Context (token rtoken : string) (Htoken : steadyToken (c_token c) token) (Hrtoken : steadyToken (c_resolverToken c) rtoken).
Context (req : SyncRequest) (target : group) (directory : list (string * string) → list user) (wanted : list Z) (self : Z).
Context (Hacc : accountOf c token self) (Hre : responsive c roster token rtoken req target directory wanted).
Implicit Types (w : GL S).
Notation trace w := (sys_trace (gl_sys w)).
Notation env w := (sys_env (gl_sys w)).
Notation same := (sameMembers roster).
Notation at_ := (memberAt roster).
Notation gid := (gg_ID target).
Notation level := (accessLevels (sr_AccessLevel req)).
Notation live w := (tidy (gl_store w, gl_sys w)).

(** The world after an exchange. *)
Definition sent w (r : HttpReq) (o : outcome err HttpResp) (s : S) : GL S :=
  MkGL (gl_identityID w) (gl_identityTokenHash w) (gl_store w)
    (MkSys s (trace w ++ [(r, o)]) (sys_fs (gl_sys w)) (sys_locks (gl_sys w))).

(** The account that the client has looked up. *)
Definition identity w : Z * string := (gl_identityID w, gl_identityTokenHash w).

(** ** Requests *)

(** A GET whose answer ends well, or the load of a credential: the ledger, the
    disk and the members stay. *)
Definition calm w w' : Prop := gl_store w' = gl_store w ∧ sys_fs (gl_sys w') = sys_fs (gl_sys w) ∧
  same (env w) (env w') ∧ identity w' = identity w.

#[local] Instance calm_preorder : PreOrder calm.
Proof.
  split; [by split|]. intros w1 w2 w3 (A1 & A2 & A3 & A4) (B1 & B2 & B3 & B4).
  split; [congruence|]. split; [congruence|]. split; [by etrans|congruence].
Qed.

Lemma calm_live w w' : calm w w' → live w → live w'.
Proof. unfold tidy. intros (-> & Hf & _ & _) [Hp Hn]. split; [done|]. intros n. cbn in *. rewrite Hf. apply Hn. Qed.

Lemma run_load l t w : steadyToken l t → ∃ w', zoom (W := GL S) (V := Sys S) (Load l) w = (Ok t, w') ∧ calm w w'.
Proof.
  intros Hl. destruct (Hl (gl_sys w)) as [s Hs].
  pose proof (closed_Load _ (chronicle_closed same (hn_quiet _ _ Hon) (env w) (trace w)) l (gl_sys w)) as Hk.
  rewrite Hs in Hk. exists (MkGL (gl_identityID w) (gl_identityTokenHash w) (gl_store w) (set_env s (gl_sys w))).
  split; [unfold zoom; cbn [view lens_gl_sys]; by rewrite Hs|]. split; [done|]. split; [done|]. split; [|done].
  apply (chronicle_silent same _ (trace w) (set_env s (gl_sys w))); [|done]. exact (Hk (chronicle_refl same _)).
Qed.

Lemma run_with_token {A} t x (init : A) dst w Q :
  answers c t x init dst (env w) Q →
  ∃ resp s' a, requestWithToken c t x init dst w =
      (Ok (rs_status resp, rs_header resp, a), sent w (requestOf c t x) (Ok resp) s') ∧
    env_http (requestOf c t x) (env w) = (Ok resp, s') ∧ is2xx (rs_status resp) = true ∧ Q (rs_header resp) a s'.
Proof.
  intros (resp & s' & a & He & H2 & Hdec & HQ). exists resp, s', a. split; [|done].
  unfold requestWithToken. rewrite (bind_run _ _ w (Ok resp) (sent w (requestOf c t x) (Ok resp) s'));
    [|unfold zoom, httpDo; cbn [view lens_gl_sys]; by rewrite He].
  unfold decoded in Hdec. rewrite H2 in Hdec |- *. cbn [negb] in Hdec |- *.
  destruct dst as [dec|]; [|by injection Hdec as <-].
  destruct (rs_status resp =? 204); [by injection Hdec as <-|]. by rewrite Hdec.
Qed.

Lemma run_request {A} x (init : A) dst w Q :
  (∀ s, same (env w) s → answers c token x init dst s Q) →
  ∃ w1 resp s' a, request c x init dst w =
      (Ok (rs_status resp, rs_header resp, a), sent w1 (requestOf c token x) (Ok resp) s') ∧ calm w w1 ∧
    env_http (requestOf c token x) (env w1) = (Ok resp, s') ∧ is2xx (rs_status resp) = true ∧ Q (rs_header resp) a s'.
Proof.
  intros Ha. destruct (run_load _ _ w Htoken) as (w1 & Hl & Hc).
  destruct (run_with_token token x init dst w1 Q) as (resp & s' & a & Hrun & Hrest); [by apply Ha, Hc|].
  exists w1, resp, s', a. split; [|done]. unfold request.
  rewrite (bind_run _ _ w token w1); [done|]. by apply wrap_run.
Qed.

Lemma sent_live w r o s : live w → live (sent w r o s).
Proof. done. Qed.

Lemma sent_same w r o s : rq_method r = "GET" → env_http r (env w) = (o, s) → same (env w) (env (sent w r o s)).
Proof. intros Hm He. pose proof (hn_get _ _ Hon r (env w) Hm) as Hs. by rewrite He in Hs. Qed.

Lemma ok_not_404 st : is2xx st = true → (st =? 404) = false.
Proof. unfold is2xx. intros [H1 H2]%andb_true_iff. apply Z.eqb_neq. lia. Qed.

Lemma calm_sent w r o s : env_http r (env w) = (o, s) → rq_method r = "GET" → calm w (sent w r o s).
Proof. intros He Hm. split; [done|]. split; [done|]. split; [by apply sent_same|done]. Qed.

Lemma run_getGroup w : ∃ w', getGroup c (trimSlash (sr_TargetPath req)) w = (Ok (Some target), w') ∧ calm w w'.
Proof.
  destruct (run_request _ _ _ w _ (λ s _, re_group _ _ _ _ _ _ _ _ Hre s)) as (w1 & resp & s' & a & Hrun & Hc & He & H2 & Ha).
  cbn beta in Ha. subst a. eexists. split; [|etrans; [exact Hc|exact (calm_sent _ _ _ _ He eq_refl)]].
  unfold getGroup. rewrite (bind_run _ _ _ _ _ Hrun). cbn beta iota. rewrite (ok_not_404 _ H2), H2. done.
Qed.

(** ** Listing the members *)
Lemma run_listMembersFrom fuel page all w : 1 ≤ page → (0 < fuel)%nat →
  Z.of_nat (length (roster (env w) gid)) ≤ (page + Z.of_nat fuel - 1) * apiPageSize →
  ∃ r w', listMembersFrom c fuel gid page all w = (Ok r, w') ∧ calm w w'.
Proof.
  revert page all w. induction fuel as [|fuel IH]; intros page all w Hp Hf Hlen; [lia|]. cbn [listMembersFrom].
  destruct (run_request (pageCall gid page) [] (Some (decList decMember)) w (λ h _ _, Z.of_nat (length (roster (env w) gid)) ≤ page * apiPageSize → headerGet h "X-Next-Page" = ""))
    as (w1 & resp & s' & a & Hrun & Hc1 & He & H2 & Hlast).
  { intros s Hs. destruct (re_page _ _ _ _ _ _ _ _ Hre s page Hp) as (resp & s' & a & H1 & H2 & H3 & H4).
    exists resp, s', a. split_and!; [done..|]. by rewrite Hs in H4. }
  unfold pageCall in Hrun. rewrite (bind_run _ _ _ _ _ Hrun). cbn beta iota. rewrite H2. cbn [negb].
  pose proof (transitivity Hc1 (calm_sent w1 _ _ _ He eq_refl)) as Hc.
  destruct (String.eqb_spec (headerGet (rs_header resp) "X-Next-Page") "") as [Hn|Hn]; [by eexists _, _|].
  assert (page * apiPageSize < Z.of_nat (length (roster (env w) gid))) as Hmore.
  { destruct (Z.le_gt_cases (Z.of_nat (length (roster (env w) gid))) (page * apiPageSize)); [by destruct Hn; apply Hlast|lia]. }
  edestruct (IH (page + 1) (all ++ a) (sent w1 (requestOf c token (pageCall gid page)) (Ok resp) s')) as (r & w' & Hr & Hc').
  - lia.
  - unfold apiPageSize in *. destruct fuel; [lia|lia].
  - destruct Hc as (_ & _ & Hs & _). rewrite Hs. lia.
  - exists r, w'. split; [exact Hr|]. by etrans.
Qed.

(** ** Finding the users *)
Lemma run_findUserLoop source ms u w : foundAs c directory ms source u →
  ∃ w', findUserLoop c source ms w = (Ok (Some u), w') ∧ calm w w'.
Proof.
  intros (before & f & after & q & -> & Hbefore & Hq & Hu). revert w Hbefore.
  assert (∀ q w, ∃ w' st h, (∀ A (k : _ → M (GL S) err A),
      (token ← wrap_err (EWrap "load GitLab resolver credential") (zoom (W := GL S) (V := Sys S) (Load (c_resolverToken c)));
       requestWithToken c token (MkCall "GET" "/api/v4/users" (q ++ [("per_page", itoa apiPageSize)]) BNone)
         [] (Some (decList decUser)) ≫= k) w = k (st, h, directory q) w') ∧ is2xx st = true ∧ calm w w') as Hask.
  { intros q' w. destruct (run_load _ _ w Hrtoken) as (w1 & Hl & Hc1).
    destruct (run_with_token _ _ _ _ w1 _ (re_users _ _ _ _ _ _ _ _ Hre (env w1) q'))
      as (resp & s' & a & Hrun & He & H2 & Ha). cbn beta in Ha. subst a.
    eexists _, (rs_status resp), (rs_header resp). split; [|split; [done|etrans; [exact Hc1|exact (calm_sent _ _ _ _ He eq_refl)]]].
    intros A k. rewrite (bind_run _ _ w rtoken w1) by (by apply wrap_run). by rewrite (bind_run _ _ _ _ _ Hrun). }
  induction before as [|g before IH]; intros w Hbefore; cbn [app findUserLoop].
  - rewrite Hq. destruct (Hask q w) as (w' & st & h & Hk & H2 & Hc). exists w'. split; [|done].
    rewrite Hk, H2. cbn [negb]. by rewrite Hu.
  - assert (∀ h q', h ∈ before → identityQuery c source h = Some q' → List.filter (identityMatches c source h) (directory q') = [])
      as Hb by (intros h q' Hh; apply Hbefore; by right).
    destruct (identityQuery c source g) as [q'|] eqn:Hg; [|by apply IH].
    destruct (Hask q' w) as (w1 & st & h & Hk & H2 & Hc). rewrite Hk, H2. cbn [negb].
    rewrite (Hbefore g q') by (done || by left). destruct (IH w1 Hb) as (w' & Hrun & Hc').
    exists w'. split; [exact Hrun|]. by etrans.
Qed.

Context (who : User → user).
Notation sources := (g_Members (sr_SourceGroup req)).
Context (Hwho : ∀ source, source ∈ sources → foundAs c directory (sr_IdentityMatch req) source (who source) ∧ gu_State (who source) = "active").
Context (Hwanted : ∀ id, id ∈ wanted ↔ ∃ source, source ∈ sources ∧ gu_ID (who source) = id).
Context (Hstrategies : bool_decide (1 < length (sr_IdentityMatch req))%nat && inList "oidc-username" (sr_IdentityMatch req) = false).

Lemma run_resolveMembers res w :
  ∃ desired w', resolveMembers c req res w = (Ok (desired, res), w') ∧ calm w w' ∧ ∀ id, is_Some (desired !! id) ↔ id ∈ wanted.
Proof.
  cut (∃ (b : gmap Z user * Result) w', resolveMembers c req res w = (Ok b, w') ∧ b.2 = res ∧ calm w w' ∧
    ∀ id, is_Some (b.1 !! id) ↔ ∃ source, source ∈ sources ∧ gu_ID (who source) = id).
  { intros ([desired res'] & w' & Hrun & Heq & Hc & Hd). cbn [fst snd] in *. subst res'. exists desired, w'.
    split; [exact Hrun|]. split; [done|]. intros id. by rewrite Hd, Hwanted. }
  unfold resolveMembers. apply (mfold_runs _ (λ d (b : gmap Z user * Result) w1, b.2 = res ∧ calm w w1 ∧
    ∀ id, is_Some (b.1 !! id) ↔ ∃ source, source ∈ d ∧ gu_ID (who source) = id)).
  - intros d x rest [desired r] w1 Hl (Hr & Hc & Hd). cbn [fst snd] in *. subst r.
    destruct (Hwho x) as [Hf Ha]; [rewrite Hl; set_solver|].
    destruct (run_findUserLoop x (sr_IdentityMatch req) (who x) w1 Hf) as (w2 & Hrun & Hc2).
    exists (<[gu_ID (who x) := who x]> desired, res), w2. split.
    { rewrite (bind_run _ _ w1 (Some (who x)) w2); [by rewrite Ha|]. apply wrap_run. unfold findUser. by rewrite Hstrategies. }
    cbn [fst snd]. split; [done|]. split; [by etrans|]. intros id. rewrite lookup_insert_is_Some, Hd. split.
    + intros [<-|[_ (s & Hs & Hid)]]; [exists x; set_solver|exists s; set_solver].
    + intros (s & [Hs| ->%list_elem_of_singleton]%elem_of_app & Hid); [|by left].
      destruct (decide (gu_ID (who x) = id)) as [|Hne]; [by left|right]. split; [done|by exists s].
  - split; [done|]. split; [done|]. cbn [fst]. intros id. rewrite lookup_empty. split; [by intros []|].
    by intros (s & ?%elem_of_nil & _).
Qed.

(** ** The ledger *)
Lemma ledger_lives o w : live w → op_effect o (gl_store w) ≠ None →
  ∃ b w', ledger (run_op o) w = (Ok b, w') ∧ b = op_result o (gl_store w) ∧ ledger_step o w w' ∧ live w' ∧
    same (env w) (env w') ∧ identity w' = identity w.
Proof.
  intros Hw Ho. destruct (run_op_lives Hdisk o (gl_store w, gl_sys w) Hw Ho) as (b & v & Hrun & Hb & _ & Hlive).
  assert (ledger (run_op o) w = (Ok b, update (Lens := lens_gl_store S) v w)) as Heq.
  { unfold ledger, zoom. cbn [view lens_gl_store]. by rewrite Hrun. }
  exists b, (update (Lens := lens_gl_store S) v w). split; [done|]. split; [exact Hb|].
  destruct Hw as [Hp _]. pose proof (triple_ledger_op o w Hp w eq_refl) as Hstep. rewrite Heq in Hstep.
  split; [by destruct Hstep|]. split; [by destruct v|]. split; [|done].
  apply (chronicle_silent _ _ (trace w)); [|by destruct Hstep as [[_ Ht _] _]].
  pose proof (closed_ledger _ _ (closed_run_op _ (chronicle_closed same (hn_quiet _ _ Hon) (env w) (trace w))
    (chronicle_fs same _ _) o) w (chronicle_refl same _)) as Hk.
  by rewrite Heq in Hk.
Qed.

Lemma ledger_lives_unit o (m : M (Store * Sys S) err unit) w : run_op o = (m;; mret false) → live w → op_effect o (gl_store w) ≠ None →
  ∃ w', ledger m w = (Ok (), w') ∧ ledger_step o w w' ∧ live w' ∧ same (env w) (env w') ∧ identity w' = identity w.
Proof.
  intros Ho Hw He. destruct (ledger_lives o w Hw He) as (b & w' & Hrun & _ & Hrest). exists w'. split; [|exact Hrest].
  unfold ledger, zoom in *. rewrite Ho in Hrun. unfold mbind, M_bind, mret, M_ret in Hrun.
  destruct (m (view w)) as [[[]|e] v]; [|done]. by injection Hrun as _ <-.
Qed.

(** ** One wanted user *)

(** Nothing keeps the level of the rule from this member. *)
Record mayHold (s0 : Store) (id : Z) (m : member) : Prop := {
  mh_role : is_Some (m_MemberRoleID m) → level ≤ m_AccessLevel m ∧ (sr_EnforceAccessLevel req = true → m_AccessLevel m = level);
  mh_managed : mustMove req m = true → sr_Prune req = "managed-only" → is_Some (st_records s0 !! uk c gid id)
}.

(** What becomes of a wanted user's record. *)
Inductive placed : option member → option member → Prop :=
| pl_joined v : m_AccessLevel v = level → placed None (Some v)
| pl_moved m v : mustMove req m = true → m_AccessLevel v = level → placed (Some m) (Some v)
| pl_stayed m : mustMove req m = false → level ≤ m_AccessLevel m → placed (Some m) (Some m).

(** A change is made and read back. *)
Lemma run_change id x w : id ∈ wanted → x = addCall gid id level ∨ x = updateCall gid id level →
  (∀ s, same (env w) s → answers c token x tt None s (λ _ _ s', ∃ v, at_ s' gid id = Some v ∧ m_AccessLevel v = level)) →
  ∃ st h w1 v w2, request c x tt None w = (Ok (st, h, tt), w1) ∧ is2xx st = true ∧
    getMember c gid id w1 = (Ok (Some v), w2) ∧ m_AccessLevel v = level ∧ gl_store w2 = gl_store w ∧
    sys_fs (gl_sys w2) = sys_fs (gl_sys w) ∧ identity w2 = identity w ∧
    at_ (env w2) gid id = Some v ∧ ∀ g u, (g, u) ≠ (gid, id) → at_ (env w2) g u = at_ (env w) g u.
Proof.
  intros Hid Hx Ha. destruct (run_request _ _ _ w _ Ha) as (w0 & resp & s' & [] & Hrun & (Hst0 & Hfs0 & Hs0 & Hi0) & He & H2 & v & Hv & HP).
  set (w1 := sent w0 (requestOf c token x) (Ok resp) s') in *.
  destruct (run_request (MkCall "GET" (memberPath gid id) [] BNone) noMember (Some decMember) w1 (λ _ v' _, v' = v))
    as (w2 & resp' & s2 & v' & Hget & Hc2 & He2 & H2' & ->).
  { intros s Hs. apply (re_member _ _ _ _ _ _ _ _ Hre s id v Hid). by rewrite (same_at roster _ _ _ _ Hs). }
  pose proof (transitivity Hc2 (calm_sent w2 _ _ _ He2 eq_refl)) as (Hst2 & Hfs2 & Hs2 & Hi2).
  eexists _, _, _, v, _. split; [exact Hrun|]. split; [exact H2|]. split.
  { unfold getMember. rewrite (bind_run _ _ _ _ _ Hget). cbn beta iota. rewrite (ok_not_404 _ H2'), H2'. reflexivity. }
  split; [done|]. rewrite Hst2, Hfs2, Hi2. split_and!; [done..| |].
  - by rewrite (same_at roster _ _ _ _ Hs2).
  - intros g u Hne. rewrite (same_at roster _ _ _ _ Hs2), <-(same_at roster _ _ _ _ Hs0). 
    pose proof (hn_touch _ _ Hon gid id level token x (env w0) ltac:(tauto) g u Hne) as Ht. by rewrite He in Ht.
Qed.

(** The turn of a wanted user. *)
Record turn (id : Z) w w' : Prop := {
  tn_live : live w';
  tn_id : identity w' = identity w;
  tn_placed : placed (at_ (env w) gid id) (at_ (env w') gid id);
  tn_others g u : (g, u) ≠ (gid, id) → at_ (env w') g u = at_ (env w) g u
}.

(** A member is moved to the level of the rule. *)
Lemma run_moveUser res id m w : live w → id ∈ wanted → at_ (env w) gid id = Some m → mustMove req m = true →
  ∃ w', (liftWith res "update GitLab member" (updateMember c gid id level);;
         verified ← liftWith res "verify GitLab member after update" (getMember c gid id);
         if match verified with None => true | Some v => negb (m_AccessLevel v =? level) end
         then failWith res "verify GitLab member after update: requested level is not active"
         else mret (add_updated res)) w = (Ok (add_updated res), w') ∧ turn id w w'.
Proof.
  intros Hw Hid Hm Hmust. destruct (run_change id (updateCall gid id level) w Hid (or_intror eq_refl))
    as (st & h & w1 & v & w2 & Hput & H2 & Hget & Hv & Hst & Hfs & Hi & Hat & Hothers).
  { intros s Hs. apply (re_update _ _ _ _ _ _ _ _ Hre s id m Hid); [by rewrite (same_at roster _ _ _ _ Hs)|done]. }
  unfold liftWith. rewrite (bind_run _ _ w () w1).
  2: { apply wrap_run. unfold updateMember. fold (updateCall gid id level). rewrite (bind_run _ _ _ _ _ Hput). cbn beta iota. by rewrite H2. }
  rewrite (bind_run _ _ _ _ _ (wrap_run _ _ _ _ _ Hget)). rewrite Hv, Z.eqb_refl. cbn [negb].
  eexists. split; [reflexivity|]. split; [|done| |done].
  - unfold tidy in *. cbn [fst snd] in *. by rewrite Hst, Hfs.
  - rewrite Hm, Hat. by apply pl_moved.
Qed.

(** A new member is added and recorded. *)
Lemma run_joinUser res id w : live w → id ∈ wanted → at_ (env w) gid id = None →
  ∃ w', (liftWith res "add GitLab member" (addMember c gid id level);;
         verified ← liftWith res "verify GitLab member after add" (getMember c gid id);
         if match verified with None => true | Some v => m_AccessLevel v <? level end
         then failWith res "verify GitLab member after add: membership is not active at the requested level"
         else
           liftWith res "record managed GitLab membership" (ledger (MarkManaged (c_ownershipKey c) (itoa gid) (itoa id)));;
           mret (add_added res)) w = (Ok (add_added res), w') ∧ turn id w w'.
Proof.
  intros Hw Hid Hnone. destruct (run_change id (addCall gid id level) w Hid (or_introl eq_refl))
    as (st & h & w1 & v & w2 & Hpost & H2 & Hget & Hv & Hst & Hfs & Hi & Hat & Hothers).
  { intros s Hs. apply (re_add _ _ _ _ _ _ _ _ Hre s id Hid). by rewrite (same_at roster _ _ _ _ Hs). }
  unfold liftWith. rewrite (bind_run _ _ w () w1).
  2: { apply wrap_run. unfold addMember. fold (addCall gid id level). rewrite (bind_run _ _ _ _ _ Hpost). cbn beta iota. by rewrite H2. }
  rewrite (bind_run _ _ _ _ _ (wrap_run _ _ _ _ _ Hget)).
  assert ((m_AccessLevel v <? level) = false) as -> by (apply Z.ltb_ge; lia).
  assert (live w2) as Hl2 by (unfold tidy in *; cbn [fst snd] in *; by rewrite Hst, Hfs).
  destruct (ledger_lives_unit (OMark (c_ownershipKey c) (itoa gid) (itoa id)) _ w2 eq_refl Hl2) as (w3 & Hr3 & _ & Hl3 & Hs3 & Hi3); [done|].
  rewrite (bind_run _ _ _ _ _ (wrap_run _ _ _ _ _ Hr3)). eexists. split; [reflexivity|]. split; [done|congruence| |].
  - rewrite Hnone, (same_at roster _ _ _ _ Hs3), Hat. by apply pl_joined.
  - intros g x Hne. rewrite (same_at roster _ _ _ _ Hs3). by apply Hothers.
Qed.

Lemma turn_calm id w w1 w' : same (env w) (env w1) → identity w1 = identity w → turn id w1 w' → turn id w w'.
Proof.
  intros Hs Hi [T1 T2 T3 T4]. split; [done|congruence| |].
  - by rewrite <-(same_at roster _ _ _ _ Hs).
  - intros g u Hne. rewrite T4 by done. by apply same_at.
Qed.

Lemma run_applyUser existing res id u w :
  live w → id ∈ wanted → existing !! id = at_ (env w) gid id →
  (∀ m, existing !! id = Some m → mayHold (gl_store w) id m) →
  ∃ res' w', applyUser c req target existing level res (id, u) w = (Ok res', w') ∧ turn id w w'.
Proof.
  intros Hw Hid Hex Hmay. unfold applyUser. cbn [fst].
  destruct (ledger_lives_unit (OReset (c_ownershipKey c) (itoa gid) (itoa id)) _ w eq_refl Hw)
    as (w1 & Hr1 & Hs1 & Hl1 & Hsame1 & Hi1); [cbn; by case_match|].
  rewrite (bind_run _ _ w () w1) by (by apply wrap_run). rewrite <-(same_at roster _ _ _ _ Hsame1) in Hex.
  assert (st_records (gl_store w1) = st_records (gl_store w)) as Hrec.
  { destruct (ls_effect _ _ _ Hs1) as [wr He]. cbn in He. by destruct (st_absences _ !! _); injection He as <- _. }
  match goal with |- ∃ res' w', ?m w1 = _ ∧ _ => cut (∃ res' w', m w1 = (Ok res', w') ∧ turn id w1 w') end.
  { intros (res' & w' & Hrun & T). exists res', w'. split; [exact Hrun|by eapply turn_calm]. }
  symmetry in Hex. destruct (existing !! id) as [m|]; [|destruct (run_joinUser res id w1 Hl1 Hid Hex) as (w' & Hrun & T); by eexists _, w'].
  destruct (Hmay m eq_refl) as [Hrole Hman].
  assert (mustMove req m = false → level ≤ m_AccessLevel m → turn id w1 w1) as Hstay.
  { intros Hmv Hle. split; [done|done| |done]. rewrite Hex. by apply pl_stayed. }
  destruct (m_MemberRoleID m) as [role|] eqn:Hr.
  { destruct Hrole as [Hle Heq]; [by eexists|].
    assert ((m_AccessLevel m <? level) = false) as -> by (apply Z.ltb_ge; lia). cbn [orb].
    assert (sr_EnforceAccessLevel req && negb (m_AccessLevel m =? level) = false) as ->.
    { destruct (sr_EnforceAccessLevel req); [|done]. cbn. rewrite Heq by done. by rewrite Z.eqb_refl. }
    exists res, w1. split; [done|]. apply Hstay; [|done]. unfold mustMove. by rewrite Hr. }
  assert (mustMove req m = ((m_AccessLevel m <? level) || (sr_EnforceAccessLevel req &&
    negb (m_AccessLevel m =? level) && (m_AccessLevel m <? ownerLevel)))) as Hmove.
  { unfold mustMove. by rewrite Hr, bool_decide_eq_true_2. }
  rewrite <-Hmove. destruct (mustMove req m) eqn:Hmust.
  2: { exists res, w1. split; [done|]. apply Hstay; [done|]. symmetry in Hmove. by apply orb_false_iff in Hmove as [?%Z.ltb_ge _]. }
  rewrite (bind_run _ _ w1 true w1).
  2: { destruct (String.eqb_spec (sr_Prune req) "managed-only") as [Hmo|]; [|done].
       apply wrap_run. unfold ledger, zoom, IsManaged, gets. cbn. rewrite Hrec.
       rewrite bool_decide_eq_true_2 by (by apply Hman). by destruct w1. }
  cbn [negb]. destruct (run_moveUser res id m w1 Hl1 Hid Hex Hmust) as (w' & Hrun & T). by eexists _, w'.
Qed.

(** ** All wanted users *)

(** What the turns of the users [d] have done since [w1]. *)
Record turned w1 (d : list (Z * user)) (res0 res : Result) w : Prop := {
  tu_live : live w;
  tu_id : identity w = identity w1;
  tu_store : untouched c gid (λ i, i ∈ d.*1) (gl_store w1) (gl_store w);
  tu_counts : sameCounts res0 res;
  tu_placed id : id ∈ d.*1 → placed (at_ (env w1) gid id) (at_ (env w) gid id);
  tu_others g u : g ≠ gid ∨ u ∉ d.*1 → at_ (env w) g u = at_ (env w1) g u
}.

Section members.
Context (desired : gmap Z user) (Hdesired : ∀ id, is_Some (desired !! id) ↔ id ∈ wanted).

Lemma run_applyAll res order w1 :
  live w1 → NoDup order.*1 → (∀ id u, (id, u) ∈ order → desired !! id = Some u) →
  (∀ id m, id ∈ wanted → at_ (env w1) gid id = Some m → mayHold (gl_store w1) id m) →
  ∃ res' w', mfold (applyUser c req target (indexMembers (roster (env w1) gid)) level) res order w1 = (Ok res', w') ∧
    turned w1 order res res' w'.
Proof.
  intros Hw1 Hnd Hdes Hmay.
  apply (mfold_runs _ (λ d r w, turned w1 d res r w)).
  2: { split; try done. by intros id ?%elem_of_nil. }
  intros d [id u] rest r w Hl [Hw Hi Hst Hc Hpl Hothers].
  assert (desired !! id = Some u) as Hd by (apply Hdes; rewrite Hl; set_solver).
  assert (id ∈ wanted) as Hid by (apply Hdesired; by rewrite Hd).
  rewrite Hl, fmap_app in Hnd. apply NoDup_app in Hnd as (_ & Hn & _). assert (id ∉ d.*1) as Hnew by (intros Hin; apply (Hn _ Hin); by left).
  destruct (run_applyUser (indexMembers (roster (env w1) gid)) r id u w Hw Hid) as (r' & w' & Hrun & [Hw' Hi' Hpl' Hothers']).
  - rewrite Hothers by auto. done.
  - intros m Hm. destruct (Hmay id m Hid Hm) as [Hrole Hman]. split; [done|]. intros Hmust Hmo.
    rewrite (ut_records _ _ _ _ _ Hst id Hnew). by apply Hman.
  - exists r', w'. split; [done|]. destruct Hw as [Hp Hn'].
    destruct (triple_ok _ _ _ _ _ _ _ (triple_applyUser c req target _ desired r id u w Hp Hd) eq_refl Hrun)
      as (_ & Hst' & (Hc1 & Hc2 & Hc3) & _).
    split; [done|congruence| | | |].
    + eapply untouched_trans; [eapply untouched_weaken; [|exact Hst]|eapply untouched_weaken; [|exact Hst']];
        intros j Hj; cbn beta in *; rewrite fmap_app; set_solver.
    + destruct Hc as (? & ? & ?). split_and!; congruence.
    + intros i Hin. destruct (decide (i = id)) as [->|Hne]; [by rewrite Hothers in Hpl' by auto|].
      rewrite Hothers' by congruence. apply Hpl. rewrite fmap_app in Hin. set_solver.
    + intros g x Hgx. rewrite fmap_app in Hgx. rewrite Hothers', Hothers; [done| |]; set_solver.
Qed.

(** ** The removals *)

(** The account that the client remembers is the one the token belongs to. *)
Definition knows w : Prop := gl_identityTokenHash w = sha256 token → gl_identityID w = 0 ∨ gl_identityID w = self.

Lemma run_currentIdentity w : live w → knows w →
  ∃ w', currentIdentity c w = (Ok self, w') ∧ live w' ∧ gl_store w' = gl_store w ∧ same (env w) (env w') ∧ gl_identityID w' = self.
Proof.
  intros Hw0 Hk. unfold currentIdentity. rename w into w0. destruct (run_load _ _ w0 Htoken) as (w & Hl & Hc).
  pose proof (calm_live _ _ Hc Hw0) as Hw. destruct Hc as (Hst & _ & Hsame & Hid). unfold identity in Hid. injection Hid as Hi Hh.
  rewrite (bind_run _ _ w0 token w) by (by apply wrap_run). cbn zeta.
  rewrite (bind_run _ _ w (gl_identityID w, gl_identityTokenHash w) w) by done. cbn [fst snd].
  destruct (negb _ && _) eqn:Hcached.
  { apply andb_true_iff in Hcached as [Hz%negb_true_iff%Z.eqb_neq Hx%String.eqb_eq].
    rewrite Hi in Hz |- *. rewrite Hh in Hx. destruct (Hk Hx) as [?| ->]; [done|]. exists w. split_and!; try done.
    rewrite Hi. by destruct (Hk Hx). }
  destruct (run_with_token _ _ _ _ w _ (ac_answer _ _ _ Hacc (env w))) as (resp & s' & a & Hrun & He & H2 & Ha).
  cbn beta in Ha. rewrite (bind_run _ _ _ _ _ Hrun). cbn beta iota. rewrite H2, Ha. cbn [negb orb].
  destruct (Z.eqb_spec self 0); [by destruct (ac_self _ _ _ Hacc)|]. eexists. split; [reflexivity|].
  split; [done|]. split; [done|]. split; [|done]. etrans; [exact Hsame|]. eapply sent_same; [done|exact He].
Qed.

(** The members that a run may come to remove, relative to the ledger [s]: not
    wanted, below owner, without custom role, not protected, and as the prune
    mode allows. *)
Definition removable (s : Store) (m : member) : bool :=
  negb (bool_decide (m_ID m ∈ wanted)) && (m_AccessLevel m <? ownerLevel) && bool_decide (m_MemberRoleID m = None) &&
  negb (isProtected req m) &&
  (String.eqb (sr_Prune req) "authoritative" ||
   String.eqb (sr_Prune req) "managed-only" && bool_decide (is_Some (st_records s !! uk c gid (m_ID m)))).

(** Those that are to leave, and when: at once, or when their absence was
    observed before. *)
Definition leaves (s : Store) (m : member) : Prop := m_ID m ≠ self ∧ removable s m = true.
Definition due (s : Store) (m : member) : Prop := sr_ImmediateRemoval req = true ∨ seenBefore c target s m.

Definition seenTimes (s : Store) (m : member) : Z :=
  match st_absences s !! uk c gid (m_ID m) with Some a => ab_Observations a | None => 0 end.

(** One more observation of the absence is recorded. *)
Definition noted (s0 s : Store) (m : member) : Prop :=
  ∃ a, st_absences s !! uk c gid (m_ID m) = Some a ∧ ab_Observations a = wrap64 (seenTimes s0 m + 1).

Lemma removable_spec s m : removable s m = true ↔
  m_ID m ∉ wanted ∧ m_AccessLevel m < ownerLevel ∧ m_MemberRoleID m = None ∧ isProtected req m = false ∧
  (sr_Prune req = "authoritative" ∨ sr_Prune req = "managed-only" ∧ is_Some (st_records s !! uk c gid (m_ID m))).
Proof.
  unfold removable. rewrite !andb_true_iff, orb_true_iff, andb_true_iff, !negb_true_iff, !String.eqb_eq, bool_decide_eq_false,
    !bool_decide_eq_true, Z.ltb_lt. tauto.
Qed.

Lemma candidate_leaves s m : candidate c req target desired self s m ↔ leaves s m.
Proof.
  unfold leaves. rewrite removable_spec, <-Hdesired, <-eq_None_not_Some. split; [intros []; tauto|].
  intros (? & ? & ? & ? & ? & ?). by split.
Qed.

Lemma removable_records s0 s m :
  (m_ID m ∉ wanted → st_records s !! uk c gid (m_ID m) = st_records s0 !! uk c gid (m_ID m)) → removable s m = removable s0 m.
Proof.
  intros U. unfold removable. destruct (decide (m_ID m ∈ wanted)) as [Hw|Hw].
  - by rewrite bool_decide_eq_true_2.
  - by rewrite (U Hw).
Qed.

Lemma removable_ledger s0 s m : untouched c gid (λ i, i ∈ wanted) s0 s → removable s m = removable s0 m.
Proof. intros U. apply removable_records, (ut_records _ _ _ _ _ U). Qed.

Lemma due_ledger P s0 s m : untouched c gid P s0 s → ¬ P (m_ID m) →
  (due s m ↔ due s0 m) ∧ seenTimes s m = seenTimes s0 m.
Proof. intros U Hm. unfold due, seenTimes, seenBefore. by rewrite (ut_absences _ _ _ _ _ U _ Hm). Qed.

Lemma sublist_removable s rem members :
  rem `sublist_of` members → (∀ m, m ∈ rem → removable s m = true) → (length rem ≤ length (List.filter (removable s) members))%nat.
Proof.
  induction 1 as [|m l1 l2 Hs IH|m l1 l2 Hs IH]; intros Hm; [done|..]; cbn [List.filter].
  - rewrite (Hm m) by (by left). cbn. apply le_n_S, IH. intros x Hx. apply Hm. by right.
  - specialize (IH Hm). destruct (removable s m); cbn; lia.
Qed.

(** The turn of one listed member. *)
Record considers (m : member) (acc : list member * bool * Result) w (acc' : list member * bool * Result) w' : Prop := {
  cs_live : live w';
  cs_same : same (env w) (env w');
  cs_id : identity w' = identity w;
  cs_store : untouched c gid (λ i, i = m_ID m) (gl_store w) (gl_store w');
  cs_more x : x ∈ acc.1.1 → x ∈ acc'.1.1;
  cs_noted : leaves (gl_store w) m → m ∈ acc'.1.1 ∨ ¬ due (gl_store w) m ∧ noted (gl_store w) (gl_store w') m
}.

Lemma run_considerRemoval acc m w : live w →
  ∃ acc' w', considerRemoval c req target desired self acc m w = (Ok acc', w') ∧ considers m acc w acc' w'.
Proof.
  intros Hw. destruct acc as [[rem pend] res]. unfold considerRemoval, liftWith, lift.
  assert (∀ p r, ¬ leaves (gl_store w) m →
    ∃ acc' w', (Ok (E := Result * err) (rem, p, r), w) = (Ok acc', w') ∧ considers m (rem, pend, res) w acc' w') as Hskip.
  { intros p r Hn. eexists _, w. split; [reflexivity|]. split; try done. }
  unfold leaves in Hskip at 1. setoid_rewrite removable_spec in Hskip.
  destruct (bool_decide (is_Some (desired !! m_ID m))) eqn:Hd.
  { apply Hskip. rewrite bool_decide_eq_true, Hdesired in Hd. tauto. }
  rewrite bool_decide_eq_false, Hdesired in Hd.
  destruct ((m_ID m =? self) || (ownerLevel <=? m_AccessLevel m) || bool_decide (is_Some (m_MemberRoleID m))) eqn:Hg.
  { apply Hskip. rewrite !orb_true_iff, Z.eqb_eq, Z.leb_le, bool_decide_eq_true in Hg.
    intros (? & _ & ? & Hr & _). rewrite Hr in Hg. destruct Hg as [[|]|[]]; [done|lia|done]. }
  rewrite !orb_false_iff, Z.eqb_neq, Z.leb_gt, bool_decide_eq_false, <-eq_None_not_Some in Hg. destruct Hg as [[Hself Hown] Hrole].
  destruct (isProtected req m) eqn:Hprot; [apply Hskip; intros (_ & _ & _ & _ & ? & _); congruence|].
  rewrite (bind_run _ _ w (bool_decide (is_Some (st_records (gl_store w) !! uk c gid (m_ID m)))) w).
  2: { apply wrap_run. unfold ledger, zoom, IsManaged, gets. cbn. by destruct w. }
  match goal with |- context [if ?b then _ else mret _] => destruct b eqn:Hprune end.
  2: { apply Hskip. apply orb_false_iff in Hprune as [H1%String.eqb_neq H2]. intros (_ & _ & _ & _ & _ & [?|[H3 H4]]); [done|].
       by rewrite H3, (bool_decide_eq_true_2 _ H4) in H2. }
  assert (∀ w', live w' → same (env w) (env w') → identity w' = identity w →
    untouched c gid (λ i, i = m_ID m) (gl_store w) (gl_store w') →
    ∃ acc' w'', (Ok (E := Result * err) (rem ++ [m], pend, res), w') = (Ok acc', w'') ∧ considers m (rem, pend, res) w acc' w'') as Hadd.
  { intros w' H1 H2 H3 H4. eexists _, w'. split; [reflexivity|]. split; try done; cbn [fst]; [intros x Hx; apply elem_of_app; by left|].
    intros _. left. apply elem_of_app. right. by left. }
  destruct (sr_ImmediateRemoval req) eqn:Himm; [by apply Hadd|].
  destruct (ledger_lives (OConfirm (c_ownershipKey c) (itoa gid) (itoa (m_ID m))) w Hw) as (b & w' & Hrun & Hb & Hstep & Hw' & Hs' & Hi'); [done|].
  assert (untouched c gid (λ i, i = m_ID m) (gl_store w) (gl_store w')) as U.
  { eapply untouched_user; [|done|exact Hstep]. right; right; by left. }
  rewrite (bind_run _ _ _ _ _ (wrap_run _ _ _ _ _ Hrun)). destruct b; cbn [negb]; [by apply Hadd|].
  eexists _, w'. split; [reflexivity|]. split; try done. intros _. right. split.
  - intros [?|(a & Ha & Hle)]; [congruence|]. cbn in Hb. change (key _ _ _) with (uk c gid (m_ID m)) in Hb.
    rewrite Ha in Hb. symmetry in Hb. apply Z.leb_gt in Hb. lia.
  - destruct (ls_effect _ _ _ Hstep) as [wr He]. cbn in He. injection He as He _. unfold noted, seenTimes. rewrite <-He. cbn.
    change (key _ _ _) with (uk c gid (m_ID m)). rewrite lookup_insert_eq. by eexists.
Qed.

(** What the loop has found out about the members [d]. *)
Record chosen w1 (d : list member) (res : Result) (acc : list member * bool * Result) w : Prop := {
  ch_live : live w;
  ch_looked : looked c req target desired self res w1 d acc w;
  ch_same : same (env w1) (env w);
  ch_id : identity w = identity w1;
  ch_noted m : NoDup (m_ID <$> d) → m ∈ d → leaves (gl_store w1) m →
    m ∈ acc.1.1 ∨ ¬ due (gl_store w1) m ∧ noted (gl_store w1) (gl_store w) m
}.

Lemma run_chosen w1 members res : live w1 →
  ∃ acc w, mfold (considerRemoval c req target desired self) ([], false, res) members w1 = (Ok acc, w) ∧ chosen w1 members res acc w.
Proof.
  intros Hw1. apply (mfold_runs _ (λ d acc w, chosen w1 d res acc w)).
  - intros d m rest acc w _ [Hl Hlk Hs Hi Hn].
    destruct (run_considerRemoval acc m w Hl) as (acc' & w2 & Hrun & [Hl2 Hs2 Hi2 U2 Hsub Hm]).
    exists acc', w2. split; [done|]. split; [done| |by etrans|congruence|].
    + exact (triple_ok _ _ _ _ _ _ _ (triple_considerRemoval c req target desired self res w1 d m acc w Hlk) eq_refl Hrun).
    + intros x Hnd Hx Hx'. pose proof Hnd as Hnd'. rewrite fmap_app in Hnd'. apply NoDup_app in Hnd' as (Hnd' & Hdis & _).
      assert (m_ID m ∉ m_ID <$> d) as Hnew by (intros Hin; apply (Hdis _ Hin); by left).
      apply elem_of_app in Hx as [Hx| ->%list_elem_of_singleton].
      * destruct (Hn x Hnd' Hx Hx') as [?|[Hdue (a & Ha & Ho)]]; [left; by apply Hsub|right]. split; [done|].
        exists a. split; [|done]. rewrite (ut_absences _ _ _ _ _ U2); [done|]. intros He. apply Hnew. rewrite <-He. by apply list_elem_of_fmap_2.
      * destruct (due_ledger _ _ _ m (lk_touched _ _ _ _ _ _ _ _ _ _ Hlk) Hnew) as [Hdue Hseen]. unfold noted in *. rewrite Hdue, Hseen in Hm.
        apply Hm. split; [by destruct Hx'|]. rewrite (removable_records (gl_store w1)); [by destruct Hx'|].
        intros _. apply (ut_records _ _ _ _ _ (lk_touched _ _ _ _ _ _ _ _ _ _ Hlk) _ Hnew).
  - split; [done| |done|done|by intros m _ ?%elem_of_nil].
    split; try done; [by destruct Hw1|]. split; [apply sublist_nil_l| | |]; cbn; [by intros m ?%elem_of_nil|by intros m _ ?%elem_of_nil|done].
Qed.

(** ** Sending the removals *)
Lemma run_removeMember id w : live w →
  ∃ w', removeMember c gid id w = (Ok (), w') ∧ live w' ∧ identity w' = identity w ∧ gl_store w' = gl_store w ∧
    at_ (env w') gid id = None ∧ ∀ g u, (g, u) ≠ (gid, id) → at_ (env w') g u = at_ (env w) g u.
Proof.
  intros Hw. destruct (run_load _ _ w Htoken) as (w0 & Hl & Hc). pose proof (calm_live _ _ Hc Hw) as Hw0.
  destruct (re_remove _ _ _ _ _ _ _ _ Hre (env w0) id) as (resp & s' & He & Hst).
  set (r := requestOf c token (removeCall gid id)) in *. exists (sent w0 r (Ok resp) s'). destruct Hc as (Hst0 & _ & Hs0 & Hi0).
  split; [|split_and!; try done].
  - unfold removeMember, request. fold (removeCall gid id).
    rewrite (bind_run _ _ w (rs_status resp, rs_header resp, ()) (sent w0 r (Ok resp) s')).
    + cbn beta iota. destruct Hst as [-> | ->]; [done|]. by destruct (negb _).
    + rewrite (bind_run _ _ w token w0) by (by apply wrap_run). unfold requestWithToken. fold r.
      rewrite (bind_run _ _ w0 (Ok resp) (sent w0 r (Ok resp) s')); [|unfold zoom, httpDo; cbn [view lens_gl_sys]; by rewrite He].
      by destruct (negb _).
  - by eapply (hn_removed _ _ Hon).
  - intros g u Hne. rewrite <-(same_at roster _ _ _ _ Hs0). cbn [sent sys_env gl_sys].
    pose proof (hn_touch _ _ Hon gid id 0 token (removeCall gid id) (env w0) ltac:(auto) g u Hne) as Ht. fold r in Ht. by rewrite He in Ht.
Qed.

(** What the removals of [rem] do. *)
Record removes (rem : list member) w w' : Prop := {
  rv_live : live w';
  rv_id : identity w' = identity w;
  rv_out m : m ∈ rem → at_ (env w') gid (m_ID m) = None;
  rv_others g u : g ≠ gid ∨ u ∉ m_ID <$> rem → at_ (env w') g u = at_ (env w) g u;
  rv_store : untouched c gid (λ i, i ∈ m_ID <$> rem) (gl_store w) (gl_store w')
}.

Lemma run_applyRemoval res m w : live w → ∃ w', applyRemoval c target res m w = (Ok (add_removed res), w') ∧ removes [m] w w'.
Proof.
  intros Hw. unfold applyRemoval, liftWith.
  destruct (run_removeMember (m_ID m) w Hw) as (w1 & Hr1 & Hw1 & Hi1 & Hst1 & Hout & Hothers).
  rewrite (bind_run _ _ _ _ _ (wrap_run _ _ _ _ _ Hr1)).
  destruct (ledger_lives_unit (OUnmark (c_ownershipKey c) (itoa gid) (itoa (m_ID m))) _ w1 eq_refl Hw1) as (w2 & Hr2 & Hst2 & Hw2 & Hs2 & Hi2); [done|].
  rewrite (bind_run _ _ _ _ _ (wrap_run _ _ _ _ _ Hr2)).
  destruct (ledger_lives_unit (OReset (c_ownershipKey c) (itoa gid) (itoa (m_ID m))) _ w2 eq_refl Hw2) as (w3 & Hr3 & Hst3 & Hw3 & Hs3 & Hi3); [cbn; by case_match|].
  rewrite (bind_run _ _ _ _ _ (wrap_run _ _ _ _ _ Hr3)). exists w3. split; [reflexivity|].
  assert (same (env w1) (env w3)) as Hs by (by etrans).
  split; [done|congruence| | |].
  - intros x ->%list_elem_of_singleton. by rewrite (same_at roster _ _ _ _ Hs).
  - intros g u Hgu. rewrite (same_at roster _ _ _ _ Hs), Hothers; [done|]. intros [= -> ->]. cbn in Hgu. set_solver.
  - rewrite <-Hst1. eapply untouched_trans; (eapply untouched_user; [|by left|]); [|exact Hst2| |exact Hst3]; [right; by left|right; right; by right].
Qed.

Lemma run_removeAll rem res w : live w →
  ∃ res' w', mfold (applyRemoval c target) res rem w = (Ok res', w') ∧ r_Unresolved res' = r_Unresolved res ∧ removes rem w w'.
Proof.
  intros Hw. apply (mfold_runs _ (λ d r w', r_Unresolved r = r_Unresolved res ∧ removes d w w')).
  - intros d m rest r w1 _ [Hr [H1 H2 H3 H4 H5]]. destruct (run_applyRemoval r m w1 H1) as (w2 & Hrun & [G1 G2 G3 G4 G5]).
    exists (add_removed r), w2. split; [done|]. split; [done|]. split; [done|congruence| | |].
    + intros x Hx. destruct (decide (m_ID x = m_ID m)) as [Heq|Hne]; [rewrite Heq; apply G3; by left|].
      apply elem_of_app in Hx as [Hx| ->%list_elem_of_singleton]; [|done]. rewrite G4; [by apply H3|]. right. cbn. set_solver.
    + intros g u Hgu. rewrite fmap_app in Hgu. rewrite G4, H4; [done| |]; set_solver.
    + eapply untouched_trans; [eapply untouched_weaken; [|exact H5]|eapply untouched_weaken; [|exact G5]];
        intros i Hi; cbn beta in *; rewrite fmap_app; set_solver.
  - split; [done|]. split; try done. by intros m ?%elem_of_nil.
Qed.

(** The whole phase: exactly the members that are to leave and are due are
    removed, the absence of the others that are to leave is noted. *)
Record pruning (members : list member) w (res' : Result) w' : Prop := {
  pn_id : gl_identityID w' = self;
  pn_unresolved : r_Unresolved res' = 0;
  pn_converged : r_Converged res' = true ↔ ∀ m, m ∈ members → leaves (gl_store w) m → due (gl_store w) m;
  pn_live : live w';
  pn_noted m : m ∈ members → leaves (gl_store w) m → ¬ due (gl_store w) m → noted (gl_store w) (gl_store w') m;
  pn_rem : ∃ rem : list member, (∀ m, m ∈ rem ↔ m ∈ members ∧ leaves (gl_store w) m ∧ due (gl_store w) m) ∧
    (∀ m, m ∈ rem → at_ (env w') gid (m_ID m) = None) ∧
    (∀ g u, g ≠ gid ∨ u ∉ m_ID <$> rem → at_ (env w') g u = at_ (env w) g u) ∧
    ∀ u, u ∉ m_ID <$> rem → st_records (gl_store w') !! uk c gid u = st_records (gl_store w) !! uk c gid u
}.

Lemma chosen_removals w1 members res acc w : NoDup (m_ID <$> members) → chosen w1 members res acc w →
  (∀ m, m ∈ acc.1.1 ↔ m ∈ members ∧ leaves (gl_store w1) m ∧ due (gl_store w1) m) ∧
  (acc.1.2 = false ↔ ∀ m, m ∈ members → leaves (gl_store w1) m → due (gl_store w1) m).
Proof.
  intros Hnd [_ [_ _ _ _ _ [Hsub Hrem Hall Hpend] _] _ _ Hn].
  assert (∀ m, m ∈ acc.1.1 ↔ m ∈ members ∧ leaves (gl_store w1) m ∧ due (gl_store w1) m) as Hiff.
  { intros m. split.
    - intros Hm. destruct (Hrem m Hm) as [Hc Hs]. split; [by eapply elem_of_sublist|]. split; [by apply candidate_leaves|].
      unfold due. destruct (sr_ImmediateRemoval req); [by left|right]. destruct (Hs eq_refl) as [?|?%listed_once]; done.
    - intros (Hm & Hl & Hd). by destruct (Hn m Hnd Hm Hl) as [|[]]. }
  split; [done|]. split.
  - intros Hp m Hm Hl. apply Hiff. apply Hall; [done|done|by apply candidate_leaves].
  - intros Hdue. destruct acc.1.2; [|done]. destruct (Hpend eq_refl) as (Himm & m & Hm & Hc & Hs).
    destruct (Hdue m Hm) as [?|?]; [by apply candidate_leaves|congruence|]. destruct Hs as [?|?%listed_once]; done.
Qed.

Lemma run_removalPhase members res w : live w → knows w → r_Unresolved res = 0 → NoDup (m_ID <$> members) →
  Z.of_nat (length (List.filter (removable (gl_store w)) members)) ≤ sr_MaxRemovals req →
  ∃ res' w', removalPhase c req target members desired res w = (Ok res', w') ∧ pruning members w res' w'.
Proof.
  intros Hw Hk Hun Hnd Hmax. unfold removalPhase, lift. rewrite Hun. cbn [Z.ltb Z.compare].
  destruct (run_currentIdentity w Hw Hk) as (w1 & Hr1 & Hw1 & Hst1 & Hs1 & Hi1).
  rewrite (bind_run _ _ _ _ _ (wrap_run _ _ _ _ _ Hr1)).
  destruct (run_chosen w1 members res Hw1) as ([[rem pend] res2] & w2 & Hr2 & Hch). rewrite (bind_run _ _ _ _ _ Hr2). cbn beta iota.
  destruct (chosen_removals _ _ _ _ _ Hnd Hch) as [Hiff Hpend]. rewrite Hst1 in *. cbn [fst snd] in *.
  destruct Hch as [Hw2 [_ _ _ Hrec U2 [Hsub _ _ _] (_ & Hun2 & _)] Hs2 Hi2 Hn]. rewrite Hst1 in *. cbn [fst snd] in *.
  assert ((sr_MaxRemovals req <? Z.of_nat (length rem)) = false) as ->.
  { apply Z.ltb_ge. etrans; [|exact Hmax]. apply Nat2Z.inj_le, sublist_removable; [done|]. intros m Hm. by apply Hiff in Hm as (_ & [_ ?] & _). }
  destruct (run_removeAll rem res2 w2 Hw2) as (res3 & w3 & Hr3 & Hun3 & [Hw3 Hi3 Hout Hothers U3]).
  rewrite (bind_run _ _ _ _ _ Hr3). eexists _, _. split; [reflexivity|].
  assert (same (env w) (env w2)) as Hs by (by etrans).
  split.
  - assert (identity w3 = identity w1) as Hi by congruence. injection Hi as -> _. done.
  - cbn. congruence.
  - cbn. by rewrite negb_true_iff.
  - done.
  - intros m Hm Hl Hd. destruct (Hn m Hnd Hm Hl) as [Hr|[_ (a & Ha & Ho)]]; [by apply Hiff in Hr as (_ & _ & ?)|].
    exists a. split; [|done]. rewrite (ut_absences _ _ _ _ _ U3); [done|]. cbn beta. intros (x & Hx & Hxr)%list_elem_of_fmap.
    apply Hiff in Hxr as (Hxm & _ & Hxd). assert (x = m) as ->; [|done]. symmetry in Hx.
    assert (indexMembers members !! m_ID m = Some x) as E1 by (by apply indexMembers_Some).
    assert (indexMembers members !! m_ID m = Some m) as E2 by (by apply indexMembers_Some). congruence.
  - exists rem. split; [exact Hiff|]. split; [exact Hout|]. split.
    + intros g u Hgu. rewrite (Hothers g u Hgu). by apply same_at.
    + intros u Hu. rewrite (ut_records _ _ _ _ _ U3 u Hu). by rewrite Hrec.
Qed.
End members.

(** ** Binding *)
Notation k := (groupKey (c_ownershipKey c) (sr_RuleName req) (stateKeyOf req)).

(** The mapping carries the names that the request is recorded under. *)
Definition named (m : GroupMapping) : Prop :=
  gm_Provider m = c_ownershipKey c ∧ gm_Rule m = sr_RuleName req ∧ gm_SourceGroupID m = stateKeyOf req.

Lemma named_key m : named m → mappingKey m = k.
Proof. intros (H1 & H2 & H3). unfold mappingKey. by rewrite H1, H2, H3. Qed.

(** The binding is on record, with the path the source group has now. *)
Definition recorded (s : Store) : Prop := ∃ m, st_groups s !! k = Some m ∧ gm_SourceGroupPath m = g_Path (sr_SourceGroup req).

(** The request can be carried out: the target lies where the rule says, an
    earlier binding is to the same group and recorded under its key, and
    pruning is authorised. *)
Record bindable (s : Store) : Prop := {
  bi_path : trimSlash (sr_TargetPath req) ≠ "";
  bi_parent : trimSlash (sr_TargetParent req) = "" ∨ trimSlash (sr_TargetPath req) = trimSlash (sr_TargetParent req) ∨
    hasPrefix (trimSlash (sr_TargetPath req)) (trimSlash (sr_TargetParent req) +:+ "/") = true;
  bi_prev prev : st_groups s !! k = Some prev →
    named prev ∧ gm_TargetGroupID prev = itoa gid ∧ gm_TargetGroupPath prev = gg_FullPath target;
  bi_owned : sr_Prune req = "authoritative" → sr_AdoptExistingGroup req = true ∨
    ∃ prev, st_groups s !! k = Some prev ∧ gm_Owned prev = true
}.

Lemma bindable_groups s s' : st_groups s' !! k = st_groups s !! k → bindable s → bindable s'.
Proof. intros Hk [H1 H2 H3 H4]. split; rewrite ?Hk; done. Qed.

Lemma run_ensureGroup create w : bindable (gl_store w) →
  ∃ w', ensureGroup c (sr_TargetPath req) (sr_TargetParent req) create w = (Ok (target, false), w') ∧ calm w w'.
Proof.
  intros [Hp Hpar _ _]. destruct (run_getGroup w) as (w' & Hrun & Hc). exists w'. split; [|done]. unfold ensureGroup. cbn zeta.
  destruct (String.eqb_spec (trimSlash (sr_TargetPath req)) ""); [done|].
  match goal with |- context [if ?b then mthrow _ else _] => assert (b = false) as -> end.
  { destruct Hpar as [-> |[<- | ->]]; [done| |by rewrite andb_false_r]. rewrite String.eqb_refl. by destruct (negb _). }
  by rewrite (bind_run _ _ _ _ _ Hrun).
Qed.

(** What the binding leaves behind. *)
Record bound w w' : Prop := {
  bd_live : live w';
  bd_same : same (env w) (env w');
  bd_id : identity w' = identity w;
  bd_bindable : bindable (gl_store w');
  bd_recorded : recorded (gl_store w');
  bd_beside : beside c gid k (gl_store w) (gl_store w');
  bd_records : st_records (gl_store w') = st_records (gl_store w);
  bd_absences : st_absences (gl_store w') = st_absences (gl_store w)
}.

Lemma run_bindTarget res w : live w → bindable (gl_store w) →
  ∃ w', bindTarget c req res w = (Ok (target, set_created false res), w') ∧ bound w w'.
Proof.
  intros Hw Hb. destruct (run_ensureGroup (sr_CreateGroup req) w Hb) as (w1 & Hr1 & Hc). pose proof (calm_live _ _ Hc Hw) as Hw1.
  destruct Hc as (Hst & _ & Hsame & Hid). destruct Hb as [Hp Hpar Hprev Hown]. unfold bindTarget, lift, liftWith, failWith.
  rewrite (bind_run _ _ _ _ _ (wrap_run _ _ _ _ _ Hr1)). cbn beta iota zeta.
  change (if String.eqb (sr_StateKey req) "" then g_ID (sr_SourceGroup req) else sr_StateKey req) with (stateKeyOf req).
  rewrite (bind_run _ _ w1 (st_groups (gl_store w) !! k) w1).
  2: { apply wrap_run. unfold ledger, zoom, State.Group, gets. cbn. rewrite <-Hst. by destruct w1. }
  assert (∃ m, (match st_groups (gl_store w) !! k with
      | Some m => if decide (gm_TargetGroupID m = itoa gid ∧ gm_TargetGroupPath m = gg_FullPath target)
                  then mret (if sr_AdoptExistingGroup req && negb (gm_Owned m) then set_owned true m else m)
                  else mthrow (set_created false res, EMsg "source group was previously bound to another GitLab group; refusing retarget")
      | None => mret (MkGroupMapping (c_ownershipKey c) (sr_RuleName req) (stateKeyOf req) (g_ID (sr_SourceGroup req))
                        (g_Path (sr_SourceGroup req)) (itoa gid) (gg_FullPath target) (false || sr_AdoptExistingGroup req))
      end : M (GL S) (Result * err) GroupMapping) w1 = (Ok m, w1) ∧ (sr_Prune req = "authoritative" → gm_Owned m = true) ∧
      named m ∧ gm_TargetGroupID m = itoa gid ∧ gm_TargetGroupPath m = gg_FullPath target) as (m & Hm & Hmo & Hmk & Hmt).
  { destruct (st_groups (gl_store w) !! k) as [m|].
    - destruct (Hprev m eq_refl) as (Hk & H1 & H2). rewrite decide_True by done. eexists. split; [reflexivity|]. split.
      + intros Ha. destruct (Hown Ha) as [-> |(p & [= <-] & Ho)]; [by destruct (gm_Owned m) eqn:Hom|].
        rewrite Ho, andb_false_r. done.
      + destruct (sr_AdoptExistingGroup req && _); exact (conj Hk (conj H1 H2)).
    - eexists. split; [reflexivity|]. split; [|done]. intros Ha. cbn. by destruct (Hown Ha) as [? |(p & ? & _)]. }
  rewrite (bind_run _ _ _ _ _ Hm). cbn zeta. set (m' := set_source _ _ _ m).
  assert (String.eqb (sr_Prune req) "authoritative" && negb (gm_Owned m') = false) as ->.
  { destruct (String.eqb_spec (sr_Prune req) "authoritative") as [Ha|]; [|done]. cbn. by rewrite (Hmo Ha). }
  destruct (ledger_lives_unit (OPut m') _ w1 eq_refl Hw1) as (w2 & Hr2 & Hstep & Hw2 & Hsame2 & Hid2); [done|].
  rewrite (bind_run _ _ _ _ _ (wrap_run _ _ _ _ _ Hr2)). exists w2. split; [reflexivity|].
  destruct (ls_effect _ _ _ Hstep) as [wr He]. pose proof (beside_put c gid m' _ _ _ He) as Hbe.
  assert (mappingKey m' = k) as Hk' by (by apply named_key). rewrite Hk', Hst in Hbe.
  cbn in He. injection He as He _. fold (mappingKey m') in He.
  assert (st_groups (gl_store w2) !! k = Some m') as Hin by (by rewrite <-He; cbn; rewrite Hk', lookup_insert_eq).
  split; [done|by etrans|congruence| |by exists m'|done|by rewrite <-He; cbn; rewrite Hst..].
  split; [done|done| |]; rewrite Hin.
  - by intros prev [= <-].
  - intros Ha. right. exists m'. split; [done|]. by apply Hmo.
Qed.

(** ** The whole run *)

(** What becomes of the record of somebody who is not wanted. *)
Inductive sorted (s : Store) : option member → option member → Prop :=
| so_left m : leaves s m → due s m → sorted s (Some m) None
| so_kept o : (∀ m, o = Some m → leaves s m → ¬ due s m) → sorted s o o.

Lemma sorted_cases s a b : sorted s a b →
  (∃ m, a = Some m ∧ b = None ∧ leaves s m) ∨ (b = a ∧ ∀ m, a = Some m → leaves s m → ¬ due s m).
Proof. intros [m Hl _|o Ho]; [left; by exists m|by right]. Qed.

Lemma sorted_None s b : sorted s None b → b = None.
Proof. by inversion 1. Qed.

(** What a run on the members of the group at [w] does. *)
Record delivered w (res : Result) w' : Prop := {
  dl_live : live w';
  dl_id : gl_identityID w' = self;
  dl_unresolved : r_Unresolved res = 0;
  dl_converged : r_Converged res = true ↔
    ∀ m, m ∈ roster (env w) gid → leaves (gl_store w) m → due (gl_store w) m;
  dl_others g u : g ≠ gid → at_ (env w') g u = at_ (env w) g u;
  dl_placed u : u ∈ wanted → placed (at_ (env w) gid u) (at_ (env w') gid u);
  dl_pruned u : u ∉ wanted → sorted (gl_store w) (at_ (env w) gid u) (at_ (env w') gid u);
  dl_noted m : m ∈ roster (env w) gid → leaves (gl_store w) m → ¬ due (gl_store w) m → noted (gl_store w) (gl_store w') m;
  dl_records u : u ∉ wanted → is_Some (at_ (env w') gid u) →
    st_records (gl_store w') !! uk c gid u = st_records (gl_store w) !! uk c gid u
}.

Lemma at_roster s u m : at_ s gid u = Some m ↔ m ∈ roster s gid ∧ m_ID m = u.
Proof. unfold memberAt. apply indexMembers_Some, (hn_unique _ _ Hon). Qed.

Lemma run_members fuel w : Z.of_nat (length (roster (env w) gid)) ≤ Z.of_nat fuel * apiPageSize → (0 < fuel)%nat →
  ∃ w', listMembers c fuel gid w = (Ok (roster (env w) gid), w') ∧ calm w w'.
Proof.
  intros Hfuel Hpos. destruct (run_listMembersFrom fuel 1 [] w) as (members & w1 & Hr1 & Hc1); [lia|done|lia|].
  assert (members = roster (env w) gid) as ->; [|by exists w1].
  destruct (triple_ok _ _ _ _ _ _ _ (triple_listMembers c fuel gid w) eq_refl Hr1) as (l & [Ht _ _ _] & Hpages).
  pose proof (closed_listMembersFrom _ (chronicle_closed same (hn_quiet _ _ Hon) (env w) (trace w)) c fuel gid 1 [] w) as Hk.
  rewrite Hr1 in Hk. destruct Hk as (l' & Hl & Hh); [apply chronicle_refl; exact _|].
  rewrite Ht in Hl. apply (inj (app _)) in Hl. subst l'. by eapply past_listing.
Qed.

Lemma run_order {A} (l : list A) w : ∃ l' w', zoom (W := GL S) (V := Sys S) (rangeOrder (E := Result * err) l) w = (Ok l', w') ∧
  l' ≡ₚ l ∧ calm w w'.
Proof.
  unfold zoom, rangeOrder. cbn [view lens_gl_sys]. pose proof (env_order_perm _ l (env w)) as Hp.
  pose proof (qt_order _ (hn_quiet _ _ Hon) _ l (env w)) as Hq. destruct (env_order _ _ _) as [l' s]. by eexists l', _.
Qed.

Lemma run_now {E} w : ∃ t w', zoom (W := GL S) (V := Sys S) (timeNow (E := E)) w = (Ok t, w') ∧ calm w w'.
Proof.
  unfold zoom, timeNow. cbn [view lens_gl_sys]. pose proof (qt_now _ (hn_quiet _ _ Hon) (env w)) as Hq.
  destruct (env_now _) as [t s]. by eexists t, _.
Qed.

(** The wanted users, one after the other, and then the removals. *)
Lemma delivered_parts w w4 w5 res5 :
  (∀ u, u ∈ wanted → placed (at_ (env w) gid u) (at_ (env w4) gid u)) →
  (∀ g u, g ≠ gid ∨ u ∉ wanted → at_ (env w4) g u = at_ (env w) g u) →
  untouched c gid (.∈ wanted) (gl_store w) (gl_store w4) →
  pruning (roster (env w) gid) w4 res5 w5 → delivered w res5 w5.
Proof.
  intros Hset Hrest U [Hid Hun Hconv Hlive Hnoted (rem & Hrem & Hout & Hothers & Hrec)].
  assert (∀ m, leaves (gl_store w4) m ↔ leaves (gl_store w) m) as HL.
  { intros m. unfold leaves. by rewrite (removable_ledger _ _ m U). }
  assert (∀ m, leaves (gl_store w) m → m_ID m ∉ wanted) as Hunw by (intros m [_ Hr]; by apply removable_spec in Hr as [? _]).
  assert (∀ m, leaves (gl_store w) m → (due (gl_store w4) m ↔ due (gl_store w) m) ∧ seenTimes (gl_store w4) m = seenTimes (gl_store w) m) as HD.
  { intros m Hl. by apply (due_ledger _ _ _ m U), Hunw. }
  assert (∀ m, m ∈ rem ↔ m ∈ roster (env w) gid ∧ leaves (gl_store w) m ∧ due (gl_store w) m) as Hrem'.
  { intros m. rewrite Hrem, HL. split; intros (? & Hl & ?); (split; [done|]); (split; [done|]); by apply (HD m Hl). }
  assert (∀ u, u ∈ wanted → u ∉ m_ID <$> rem) as Hnr.
  { intros u Hu (m & -> & Hm)%list_elem_of_fmap. apply Hrem' in Hm as (_ & Hl & _). by apply (Hunw m Hl). }
  split; try done.
  - rewrite Hconv. split; intros Hall m Hm Hl; apply HL in Hl as Hl'.
    + apply (HD m Hl), Hall; [done|by apply HL].
    + apply (HD m Hl'), Hall; done.
  - intros g u Hg. rewrite Hothers, Hrest; auto.
  - intros u Hu. rewrite Hothers by (right; by apply Hnr). by apply Hset.
  - intros u Hu. destruct (decide (u ∈ m_ID <$> rem)) as [(m & -> & Hm)%list_elem_of_fmap|Hn].
    + rewrite (Hout m Hm). apply Hrem' in Hm as (Hm & Hl & Hd). rewrite (proj2 (at_roster (env w) (m_ID m) m)) by done. by apply so_left.
    + rewrite Hothers, Hrest by auto. apply so_kept. intros m [Hm <-]%at_roster Hl Hd. apply Hn, list_elem_of_fmap_2, Hrem'. done.
  - intros m Hm Hl Hd. destruct (HD m Hl) as [HDm HS]. unfold noted in *. rewrite <-HS. apply Hnoted; [done|by apply HL|by rewrite HDm].
  - intros u Hu [m Hm]. destruct (decide (u ∈ m_ID <$> rem)) as [(x & -> & Hx)%list_elem_of_fmap|Hn]; [by rewrite Hout in Hm|].
    rewrite (Hrec u Hn). by apply (ut_records _ _ _ _ _ U).
Qed.

Lemma run_syncMembers fuel res w :
  live w → knows w → Z.of_nat (length (roster (env w) gid)) ≤ Z.of_nat fuel * apiPageSize → (0 < fuel)%nat →
  (∀ id m, id ∈ wanted → at_ (env w) gid id = Some m → mayHold (gl_store w) id m) →
  Z.of_nat (length (List.filter (removable (gl_store w)) (roster (env w) gid))) ≤ sr_MaxRemovals req → r_Unresolved res = 0 →
  ∃ res' w', syncMembers c fuel req target res w = (Ok res', w') ∧ delivered w res' w'.
Proof.
  intros Hw Hk Hfuel Hpos Hmay Hmax Hun. unfold syncMembers, liftWith.
  destruct (run_members fuel w Hfuel Hpos) as (w1 & Hr1 & Hc1). rewrite (bind_run _ _ _ _ _ (wrap_run _ _ _ _ _ Hr1)).
  destruct (run_resolveMembers res w1) as (desired & w2 & Hr2 & Hc2 & Hdes). rewrite (bind_run _ _ _ _ _ Hr2). cbn beta iota.
  destruct (run_order (map_to_list desired) w2) as (order & w3 & Hr3 & Ho & Hc3). rewrite (bind_run _ _ _ _ _ Hr3).
  assert (calm w w3) as Hc by (etrans; [exact Hc1|]; by etrans). pose proof (calm_live _ _ Hc Hw) as Hw3.
  destruct Hc as (Hst & _ & Hsame & Hid3).
  assert (roster (env w) gid = roster (env w3) gid) as Hros by (by rewrite Hsame).
  assert (NoDup order.*1) as Hnd by (rewrite Ho; apply NoDup_fst_map_to_list).
  assert (∀ id, id ∈ order.*1 ↔ id ∈ wanted) as Hids.
  { intros id. rewrite <-Hdes, Ho, list_elem_of_fmap. split; [|intros [u Hu]].
    - intros ([i u] & -> & Hu%elem_of_map_to_list). by eexists.
    - exists (id, u). split; [done|]. by apply elem_of_map_to_list. }
  destruct (run_applyAll desired Hdes res order w3 Hw3 Hnd) as (res4 & w4 & Hr4 & [Hw4 Hi4 U4 (_ & Hun4 & _) Hpl4 Hothers4]).
  { intros id u Hin. rewrite Ho in Hin. by apply elem_of_map_to_list in Hin. }
  { intros id m Hid Hm. rewrite Hst. apply Hmay; [done|]. unfold memberAt in *. by rewrite Hros. }
  rewrite <-Hros in Hr4. rewrite (bind_run _ _ _ _ _ Hr4).
  assert (untouched c gid (.∈ wanted) (gl_store w) (gl_store w4)) as U.
  { rewrite <-Hst. eapply untouched_weaken; [|exact U4]. intros i. by rewrite Hids. }
  rewrite (filter_ext _ _ (λ m, eq_sym (removable_ledger _ _ m U))) in Hmax.
  destruct (run_removalPhase desired Hdes (roster (env w) gid) res4 w4 Hw4) as (res5 & w5 & Hr5 & Hpn); [|lia|apply (hn_unique _ _ Hon)|exact Hmax|].
  { assert (identity w4 = identity w) as Hi by congruence. unfold knows. injection Hi as -> ->. done. }
  exists res5, w5. split; [exact Hr5|].
  eapply delivered_parts; [| |exact U|exact Hpn].
  - intros u Hu. rewrite <-(same_at roster _ _ _ _ Hsame). by apply Hpl4, Hids.
  - intros g u Hgu. rewrite (Hothers4 g u); [by apply same_at|]. by rewrite Hids.
Qed.

Lemma settled_placed L u a b : u ∈ wanted → placed a b → settled req (.∈ wanted) L u a b.
Proof. intros Hu [v Hv|m v Hm Hv|m Hm Hle]; [apply se_joins; [done|lia]|by apply se_moves|by apply se_stays]. Qed.

Lemma settled_delivered w res w' u : delivered w res w' →
  settled req (.∈ wanted) (λ m, leaves (gl_store w) m ∧ due (gl_store w) m) u (at_ (env w) gid u) (at_ (env w') gid u).
Proof.
  intros Hd. destruct (decide (u ∈ wanted)) as [Hu|Hu]; [by apply settled_placed; [|apply (dl_placed _ _ _ Hd)]|].
  destruct (dl_pruned _ _ _ Hd u Hu) as [m Hl Hdue|o Ho]; [by apply se_leaves|]. apply se_other; [done|].
  intros m Hm [Hl Hdue]. by apply (Ho m Hm Hl).
Qed.

(** What must hold before the run for it to end well. *)
Record fits fuel w : Prop := {
  ft_live : live w;
  ft_knows : knows w;
  ft_bindable : bindable (gl_store w);
  ft_fuel : Z.of_nat (length (roster (env w) gid)) ≤ Z.of_nat fuel * apiPageSize ∧ (0 < fuel)%nat;
  ft_hold id m : id ∈ wanted → at_ (env w) gid id = Some m → mayHold (gl_store w) id m;
  ft_removals : Z.of_nat (length (List.filter (removable (gl_store w)) (roster (env w) gid))) ≤ sr_MaxRemovals req
}.

(** The run is about what is on record of the group and who is in it. *)
Lemma delivered_from w0 w res w' : same (env w0) (env w) → st_records (gl_store w) = st_records (gl_store w0) →
  st_absences (gl_store w) = st_absences (gl_store w0) → delivered w res w' → delivered w0 res w'.
Proof.
  intros Hs Hr Ha [H1 H2 H3 H4 H5 H6 H6' H7 H8].
  assert (∀ m, leaves (gl_store w) m ↔ leaves (gl_store w0) m) as HL.
  { intros m. unfold leaves. rewrite (removable_records (gl_store w0) (gl_store w)); [done|]. by rewrite Hr. }
  assert (∀ m, due (gl_store w) m ↔ due (gl_store w0) m) as HD by (intros m; unfold due, seenBefore; by rewrite Ha).
  split; try done.
  - rewrite H4. rewrite Hs. by setoid_rewrite HL; setoid_rewrite HD.
  - intros g u Hg. rewrite H5 by done. by apply same_at.
  - intros u Hu. rewrite <-(same_at roster _ _ _ _ Hs). by apply H6.
  - intros u Hu. rewrite <-(same_at roster _ _ _ _ Hs). destruct (H6' u Hu) as [m Hl Hd|o Ho].
    + apply so_left; [by apply HL|by apply HD].
    + apply so_kept. intros m Hm. rewrite <-HL, <-HD. by apply Ho.
  - intros m Hm. rewrite <-HL, <-HD. rewrite <-Hs in Hm. intros Hl Hd. destruct (H7 m Hm Hl Hd) as (a & Haa & Ho). exists a. split; [done|].
    rewrite Ho. unfold seenTimes. by rewrite Ha.
  - intros u Hu Hin. rewrite H8 by done. by rewrite Hr.
Qed.

Lemma delivered_to w res w1 d w' : delivered w res w1 → calm w1 w' → delivered w (set_duration d res) w'.
Proof.
  intros [H1 H2 H3 H4 H5 H6 H6' H7 H8] Hc. pose proof (calm_live _ _ Hc H1) as Hlive. destruct Hc as (Hst & _ & Hs & Hi).
  injection Hi as Hi _. split; try done.
  - congruence.
  - intros g u Hg. rewrite (same_at roster _ _ _ _ Hs). by apply H5.
  - intros u. rewrite (same_at roster _ _ _ _ Hs). by apply H6.
  - intros u. rewrite (same_at roster _ _ _ _ Hs). by apply H6'.
  - by rewrite Hst.
  - intros u Hu. rewrite Hst, (same_at roster _ _ _ _ Hs). by apply H8.
Qed.

(** A run that fits ends well, and concerns its group only. *)
Lemma sync_runs fuel w : fits fuel w →
  ∃ res w', SyncGroup c fuel req w = (Ok res, w') ∧ delivered w res w' ∧ bindable (gl_store w') ∧ recorded (gl_store w') ∧
    beside c gid k (gl_store w) (gl_store w').
Proof.
  intros [Hw Hk Hb [Hf Hpos] Hmay Hmax]. unfold SyncGroup.
  destruct (run_now (E := Result * err) w) as (t & w1 & Hr1 & Hc1). rewrite (bind_run _ _ _ _ _ Hr1). cbn zeta.
  set (res0 := MkResult _ _ _ _ _ _ _ _ _ _ _). pose proof (calm_live _ _ Hc1 Hw) as Hw1. destruct Hc1 as (Hst1 & _ & Hs1 & Hi1).
  rewrite <-Hst1 in Hb. destruct (run_bindTarget res0 w1 Hw1 Hb) as (w2 & Hr2 & [Hw2 Hs2 Hi2 Hb2 Hre2 Hbe2 Hrec2 Habs2]).
  rewrite Hst1 in Hbe2, Hrec2, Habs2. assert (same (env w) (env w2)) as Hs by (by etrans).
  assert (∀ m, removable (gl_store w2) m = removable (gl_store w) m) as Hrem.
  { intros m. apply removable_records. by rewrite Hrec2. }
  destruct (run_syncMembers fuel (set_created false res0) w2 Hw2) as (res3 & w3 & Hr3 & Hd); try done.
  { assert (identity w2 = identity w) as Hi by congruence. unfold knows. injection Hi as -> ->. done. }
  { by rewrite Hs. }
  { intros id m Hid Hm. rewrite (same_at roster _ _ _ _ Hs) in Hm. destruct (Hmay id m Hid Hm) as [Hro Hman].
    split; [done|]. by rewrite Hrec2. }
  { rewrite Hs, (filter_ext _ _ (λ m, Hrem m)). exact Hmax. }
  rewrite (bind_run _ _ w1 (Ok res3) w3).
  2: { unfold attempt, syncBody. by rewrite (bind_run _ _ _ _ _ Hr2), Hr3. }
  destruct (run_now (E := Result * err) w3) as (t' & w4 & Hr4 & Hc4). rewrite (bind_run _ _ _ _ _ Hr4).
  eexists _, w4. split; [reflexivity|]. destruct Hw2 as [Hp2 _].
  split; [by eapply delivered_to, Hc4; eapply delivered_from|]. destruct Hc4 as (-> & _).
  pose proof (keeps_groups c req (st_groups (gl_store w2)) fuel target (set_created false res0) w2 (conj Hp2 eq_refl)) as Hg.
  rewrite Hr3 in Hg. destruct Hg as [_ Hg]. split; [eapply bindable_groups, Hb2; by rewrite Hg|].
  split; [unfold recorded; by rewrite Hg|].
  pose proof (keeps_syncMembers c req (λ s, path_ok (st_path s) ∧ beside c gid k (gl_store w) s) target) as Hbe.
  specialize (Hbe (λ s Hs, proj1 Hs)). specialize (λ H1, Hbe H1 fuel (set_created false res0) w2 (conj Hp2 Hbe2)). rewrite Hr3 in Hbe.
  apply Hbe. intros uid o s s' wr Ho He [Hps Hbs]. split; [by rewrite (op_effect_path _ _ _ _ He)|].
  eapply beside_trans; [exact Hbs|]. by eapply beside_user.
Qed.

(** ** Requests on other groups *)

(** What the request depends on is as it was. *)
Record aside w w' : Prop := {
  as_members u : at_ (env w') gid u = at_ (env w) gid u;
  as_group : st_groups (gl_store w') !! k = st_groups (gl_store w) !! k;
  as_records i : st_records (gl_store w') !! uk c gid i = st_records (gl_store w) !! uk c gid i;
  as_absences i : st_absences (gl_store w') !! uk c gid i = st_absences (gl_store w) !! uk c gid i
}.

Lemma removable_aside w w' m : aside w w' → removable (gl_store w') m = removable (gl_store w) m.
Proof. intros A. apply removable_records. intros _. by rewrite (as_records _ _ A). Qed.

Lemma leaves_aside w w' m : aside w w' → leaves (gl_store w') m ↔ leaves (gl_store w) m.
Proof. intros A. unfold leaves. by rewrite (removable_aside _ _ m A). Qed.

Lemma due_aside w w' m : aside w w' → due (gl_store w') m ↔ due (gl_store w) m.
Proof. intros A. unfold due, seenBefore. by rewrite (as_absences _ _ A). Qed.

Lemma roster_aside w w' : aside w w' → roster (env w') gid ≡ₚ roster (env w) gid.
Proof.
  intros A. apply NoDup_Permutation; [eapply NoDup_fmap_1, (hn_unique _ _ Hon)..|]. intros m.
  pose proof (at_roster (env w') (m_ID m) m) as H1. pose proof (at_roster (env w) (m_ID m) m) as H2.
  rewrite (as_members _ _ A) in H1. tauto.
Qed.

Lemma fits_aside fuel w w' : fits fuel w → live w' → knows w' → aside w w' → fits fuel w'.
Proof.
  intros [_ _ Hb Hf Hmay Hmax] Hw' Hk' A. pose proof (roster_aside _ _ A) as Hp. split; [done|done|..].
  - eapply bindable_groups, Hb. apply (as_group _ _ A).
  - by rewrite Hp.
  - intros id m Hid Hm. rewrite (as_members _ _ A) in Hm. destruct (Hmay id m Hid Hm) as [Hrole Hman].
    split; [done|]. by rewrite (as_records _ _ A).
  - assert (∀ f g (l1 l2 : list member), l1 ≡ₚ l2 → (∀ m, f m = g m) → length (List.filter f l1) = length (List.filter g l2)) as Hlen.
    { intros f g l1 l2 HP Hfg. rewrite (filter_ext _ _ Hfg). clear Hfg.
      induction HP as [|x l l' _ IH|x y l|]; cbn [List.filter]; [done|destruct (g x); cbn; congruence|by destruct (g x), (g y)|congruence]. }
    rewrite (Hlen _ (removable (gl_store w)) _ _ Hp); [done|]. intros m. by apply removable_aside.
Qed.

(** ** The run after it *)

(** The observations on record of the group are counts. *)
Definition counted (s : Store) : Prop :=
  ∀ u a, st_absences s !! uk c gid u = Some a → 0 ≤ ab_Observations a < int64_max.

(** Observed once, the absence counts at the next run. *)
Lemma noted_due s0 s m : counted s0 → ¬ due s0 m → noted s0 s m → due s m.
Proof.
  intros Hc Hd (a & Ha & Ho). right. exists a. split; [done|]. rewrite Ho. unfold seenTimes.
  destruct (st_absences s0 !! uk c gid (m_ID m)) as [a0|] eqn:E; [|by vm_compute].
  pose proof (Hc _ _ E) as Hb. assert (¬ 2 ≤ wrap64 (ab_Observations a0 + 1)) as Hn by (intros Hle; apply Hd; right; by exists a0).
  rewrite wrap64_id in Hn by (unfold in_int64, int64_min, int64_max in *; lia).
  assert (ab_Observations a0 = 0) as -> by lia. by vm_compute.
Qed.

Lemma delivered_stays w res w' m : delivered w res w' → m ∈ roster (env w') gid → m_ID m ∉ wanted →
  m ∈ roster (env w) gid ∧ (leaves (gl_store w) m → ¬ due (gl_store w) m) ∧ removable (gl_store w') m = removable (gl_store w) m.
Proof.
  intros Hd Hm Hu. assert (at_ (env w') gid (m_ID m) = Some m) as Hat by (by apply at_roster).
  pose proof (dl_pruned _ _ _ Hd _ Hu) as Hso. rewrite Hat in Hso.
  assert (∃ o, at_ (env w) gid (m_ID m) = o ∧ o = Some m ∧ (leaves (gl_store w) m → ¬ due (gl_store w) m)) as (o & Ho & -> & Hl).
  { inversion Hso as [|o Hn Ho]; subst. eexists. split; [reflexivity|]. split; [done|]. by apply Hn. }
  apply at_roster in Ho as [Ho _]. split; [done|]. split; [done|]. apply removable_records. intros _.
  apply (dl_records _ _ _ Hd); [done|]. by rewrite Hat.
Qed.

Lemma ids_length (l1 l2 : list member) (extra : list Z) : NoDup (m_ID <$> l1) →
  (∀ m, m ∈ l1 → m_ID m ∈ m_ID <$> l2 ∨ m_ID m ∈ extra) → (length l1 ≤ length l2 + length extra)%nat.
Proof.
  intros Hnd Hsub. rewrite <-(length_fmap m_ID l1), <-(length_fmap m_ID l2), <-length_app.
  apply submseteq_length, NoDup_submseteq; [done|]. intros i (m & -> & Hm)%list_elem_of_fmap. apply elem_of_app. by apply Hsub.
Qed.

Lemma NoDup_filter_ids f (l : list member) : NoDup (m_ID <$> l) → NoDup (m_ID <$> List.filter f l).
Proof.
  induction l as [|m l IH]; [done|]. cbn [fmap list_fmap List.filter]. intros [Hm Hl]%NoDup_cons.
  destruct (f m); [|by apply IH]. cbn [fmap list_fmap]. apply NoDup_cons. split; [|by apply IH].
  intros (x & Hx & Hin)%list_elem_of_fmap. apply Hm. rewrite Hx. apply list_elem_of_fmap_2.
  apply list_elem_of_In, filter_In in Hin as [Hin _]. by apply list_elem_of_In.
Qed.

(** A run leaves a state that the next run fits, and in which no removal has
    to wait any more. *)
Lemma fits_again fuel w res w' : fits fuel w → delivered w res w' → bindable (gl_store w') →
  Z.of_nat (length (roster (env w) gid) + length wanted) ≤ Z.of_nat fuel * apiPageSize → counted (gl_store w) →
  fits fuel w' ∧ ∀ m, m ∈ roster (env w') gid → leaves (gl_store w') m → due (gl_store w') m.
Proof.
  intros [Hw Hk Hb [Hf Hpos] Hmay Hmax] Hd Hb' Hslack Hcnt.
  assert (∀ m, m ∈ roster (env w') gid → m_ID m ∈ m_ID <$> roster (env w) gid ∨ m_ID m ∈ wanted) as Hids.
  { intros m Hm. destruct (decide (m_ID m ∈ wanted)) as [|Hu]; [by right|left]. apply list_elem_of_fmap_2.
    by destruct (delivered_stays _ _ _ _ Hd Hm Hu). }
  split.
  - split; [by destruct Hd| |done| | |].
    + intros _. right. by destruct Hd.
    + split; [|done]. pose proof (ids_length _ _ _ (hn_unique _ _ Hon _ _) Hids). lia.
    + intros id m Hid Hm. pose proof (dl_placed _ _ _ Hd id Hid) as Hp. rewrite Hm in Hp.
      assert (m_AccessLevel m = level ∨ at_ (env w) gid id = Some m ∧ mustMove req m = false) as Hcase.
      { inversion Hp as [v Hv|? v _ Hv|? Hmv _ Ho]; subst; auto. }
      destruct Hcase as [Hl|[Ho Hmv]].
      * split; [intros _; split; [lia|done]|]. unfold mustMove. rewrite Hl, Z.ltb_irrefl, Z.eqb_refl. cbn.
        by rewrite andb_false_r, andb_false_r.
      * destruct (Hmay id m Hid Ho) as [Hrole _]. split; [done|congruence].
    + etrans; [|exact Hmax]. apply Nat2Z.inj_le. rewrite <-(Nat.add_0_r (length (List.filter (removable (gl_store w)) _))).
      apply (ids_length _ _ []); [by apply NoDup_filter_ids, (hn_unique _ _ Hon)|]. intros m Hm. left. apply list_elem_of_fmap_2.
      apply list_elem_of_In, filter_In in Hm as [Hm Hr]. apply list_elem_of_In in Hm.
      assert (m_ID m ∉ wanted) as Hu by (by apply removable_spec in Hr as [? _]).
      destruct (delivered_stays _ _ _ _ Hd Hm Hu) as (Hin & _ & Hrr). apply list_elem_of_In, filter_In.
      split; [by apply list_elem_of_In|congruence].
  - intros m Hm [Hself Hr]. assert (m_ID m ∉ wanted) as Hu by (by apply removable_spec in Hr as [? _]).
    destruct (delivered_stays _ _ _ _ Hd Hm Hu) as (Hin & Hnd & Hrr). assert (leaves (gl_store w) m) as Hl by (split; congruence).
    eapply noted_due; [exact Hcnt|by apply Hnd|]. apply (dl_noted _ _ _ Hd m Hin Hl). by apply Hnd.
Qed.

(** Two settlements in a row are one that waits for nothing, when the second
    finds the same members to go and has to wait for none of them. *)
Lemma settled_then (L D L' D' : member → Prop) u a b d :
  settled req (.∈ wanted) (λ m, L m ∧ D m) u a b → settled req (.∈ wanted) (λ m, L' m ∧ D' m) u b d →
  (∀ m, a = Some m → L m → u ∉ wanted) → (∀ m, b = Some m → L' m → u ∉ wanted) →
  (∀ m, b = Some m → u ∉ wanted → (L' m ↔ L m) ∧ (L' m → D' m)) → settled req (.∈ wanted) L u a d.
Proof.
  intros H1 H2 Ha Hb Hiff. inversion H1 as [v Hu Hv|m v Hu Hm Hv|m Hu Hm Hv|m [Hl _]|o Hu Ho]; subst.
  1-3: inversion H2; subst; first [congruence|apply se_joins; [done|lia]|by apply se_moves|by apply se_stays|done|
    match goal with Hl : _ ∧ _ |- _ => by destruct (Hb _ eq_refl (proj1 Hl)) end].
  - inversion H2; subst; [by destruct (Ha m eq_refl Hl)|by apply se_leaves].
  - inversion H2 as [|m' v' Hu'|m' Hu'|m' [Hl' _]|o' Hu' Ho']; subst; try done.
    + apply se_leaves. by apply (Hiff m').
    + apply se_other; [done|]. intros m Hm Hl. destruct (Hiff m Hm Hu) as [Hi Hd]. apply Hi in Hl. apply (Ho' m Hm). by split; [|apply Hd].
Qed.

(** The members of the group after a run are to go if they were before. *)
Lemma leaves_after w res w' m : delivered w res w' → m ∈ roster (env w') gid → m_ID m ∉ wanted →
  leaves (gl_store w') m ↔ leaves (gl_store w) m.
Proof. intros Hd Hm Hu. destruct (delivered_stays _ _ _ _ Hd Hm Hu) as (_ & _ & Hr). unfold leaves. by rewrite Hr. Qed.

Lemma leaves_unwanted s m : leaves s m → m_ID m ∉ wanted.
Proof. intros [_ Hr]. by apply removable_spec in Hr as [? _]. Qed.

Lemma settled_twice w res w' res' w2 u : delivered w res w' → delivered w' res' w2 →
  (∀ m, m ∈ roster (env w') gid → leaves (gl_store w') m → due (gl_store w') m) →
  settled req (.∈ wanted) (leaves (gl_store w)) u (at_ (env w) gid u) (at_ (env w2) gid u).
Proof.
  intros Hd Hd' Hdue. eapply settled_then; [by eapply settled_delivered|by eapply settled_delivered|..].
  - intros m [_ <-]%at_roster. apply leaves_unwanted.
  - intros m [_ <-]%at_roster. apply leaves_unwanted.
  - intros m [Hm <-]%at_roster Hu. split; [by eapply leaves_after|by apply Hdue].
Qed.

(** [C7] Against a GitLab that keeps its promises and answers, on a disk that
    works, a run for a request that fits ends with success.  It resolves
    everyone, leaves every other group alone, in GitLab and in the ledger, and
    takes the members of the target to what the rule asks for: the wanted
    users, for whom the source members stand, are in at its level, the members
    that are to leave are out if their absence was observed before or removal
    is immediate, everybody else is as before.  For the others that are to
    leave the ledger counts one more observation.  It reports convergence
    exactly when no removal has to wait.  Left open is a wanted user who is
    protected or the user of the token and stands above a level that the rule
    enforces: the documentation forbids to lower them. *)
Theorem sync_delivers fuel w : fits fuel w →
  ∃ res w', SyncGroup c fuel req w = (Ok res, w') ∧ r_Unresolved res = 0 ∧
    (∀ g u, g ≠ gid → at_ (env w') g u = at_ (env w) g u) ∧
    beside c gid k (gl_store w) (gl_store w') ∧
    (∀ u, spared req self u (at_ (env w) gid u) →
       settled req (.∈ wanted) (λ m, leaves (gl_store w) m ∧ due (gl_store w) m) u
         (at_ (env w) gid u) (at_ (env w') gid u)) ∧
    (∀ m, m ∈ roster (env w) gid → leaves (gl_store w) m → ¬ due (gl_store w) m →
       noted (gl_store w) (gl_store w') m) ∧
    (r_Converged res = true ↔ ∀ m, m ∈ roster (env w) gid → leaves (gl_store w) m → due (gl_store w) m).
Proof.
  intros Hfits. destruct (sync_runs fuel w Hfits) as (res & w' & Hrun & Hdel & _ & _ & Hbe). exists res, w'.
  split; [done|]. split; [by destruct Hdel|]. split; [by destruct Hdel|]. split; [done|].
  split; [intros u _; by eapply settled_delivered|]. by destruct Hdel.
Qed.

(** [C6] Two runs are enough, whatever the members are and whatever was
    observed before: against a GitLab that keeps its promises and answers, on a
    disk that works, the run after a run that fits converges, and together they
    have taken the members of the target exactly to what the rule asks for.
    Every other group is as it was, and so is what the ledger holds of other
    groups and other bindings.  A wanted user who is protected or the user of
    the token and stands above a level that the rule enforces is left open:
    the documentation forbids to lower them. *)
Theorem two_runs_converge fuel w : fits fuel w →
  Z.of_nat (length (roster (env w) gid) + length wanted) ≤ Z.of_nat fuel * apiPageSize → counted (gl_store w) →
  ∃ res w' res' w2, SyncGroup c fuel req w = (Ok res, w') ∧ SyncGroup c fuel req w' = (Ok res', w2) ∧
    r_Converged res' = true ∧
    (∀ g u, g ≠ gid → at_ (env w2) g u = at_ (env w) g u) ∧
    beside c gid k (gl_store w) (gl_store w2) ∧
    ∀ u, spared req self u (at_ (env w) gid u) →
      settled req (.∈ wanted) (leaves (gl_store w)) u (at_ (env w) gid u) (at_ (env w2) gid u).
Proof.
  intros Hfits Hslack Hcnt. destruct (sync_runs fuel w Hfits) as (res & w' & Hrun & Hd & Hb & _ & Hbe).
  destruct (fits_again fuel w res w' Hfits Hd Hb Hslack Hcnt) as [Hfits' Hdue].
  destruct (sync_runs fuel w' Hfits') as (res' & w2 & Hrun' & Hd' & _ & _ & Hbe').
  exists res, w', res', w2. split; [done|]. split; [done|]. split; [by apply (dl_converged _ _ _ Hd')|]. split; [|split].
  - intros g u Hg. by rewrite (dl_others _ _ _ Hd'), (dl_others _ _ _ Hd).
  - by eapply beside_trans.
  - intros u _. by eapply settled_twice.
Qed.
End live.
