(* ===== verification/GitLabTown.v ===== *)
(** * A small GitLab that keeps its promises and answers

    The theorems of [GitLabServer] and [GitLabLive] applied to a concrete
    server, a concrete ledger and a concrete request. *)

From S2P Require Import Prelude GoStrings Sha256 GoTime Json World State StateSpec StateFacts StateLive Model Credential CredentialFacts Config GitLab GitLabSpec GitLabSync GitLabRemove GitLabRun GitLabFacts History GitLabServer GitLabLive.

(** ** A concrete server that keeps its promises

    It knows three users; its state is the level each of them has in group 7,
    [corp/team].  Account 1 owns the token; Alice is user 42. *)
Definition townsfolk : list Z := [42; 43; 44].

Definition townRecord (u l : Z) : member := MkMember u ("user" +:+ itoa u) (wrap64 l) None.

Definition townRoster (ms : gmap Z Z) (gid : Z) : list member :=
  if gid =? 7 then omap (λ u, townRecord u <$> ms !! u) townsfolk else [].

Definition recordJson (m : member) : json :=
  JObj [("id", JInt (m_ID m)); ("username", JStr (m_Username m)); ("access_level", JInt (m_AccessLevel m))].

Definition townUser (r : HttpReq) : option Z :=
  List.find (λ u, String.eqb (rq_url r) ("https://git.example" +:+ memberPath 7 u)) townsfolk.

Definition townRead (r : HttpReq) (ms : gmap Z Z) : HttpResp :=
  let reply status j := MkResp status [] (Some j) in
  let asks path := String.eqb (rq_url r) ("https://git.example" +:+ path) in
  if asks "/api/v4/user" then reply 200 (JObj [("id", JInt 1)])
  else if asks (groupPath "corp/team") then
    reply 200 (JObj [("id", JInt 7); ("name", JStr "team"); ("path", JStr "team"); ("full_path", JStr "corp/team")])
  else if asks "/api/v4/users" then
    reply 200 (JArr [JObj [("id", JInt 42); ("username", JStr "alice"); ("state", JStr "active");
      ("identities", JArr [JObj [("provider", JStr "oidc"); ("extern_uid", JStr "a1")]])]])
  else if asks (membersPath 7) then
    reply 200 (JArr (if decide (rq_query r = cl_query (pageCall 7 1)) then recordJson <$> townRoster ms 7 else []))
  else match townUser r ≫= λ u, townRecord u <$> ms !! u with
       | Some m => reply 200 (recordJson m)
       | None => reply 404 JNull
       end.

Definition townWrite (r : HttpReq) (ms : gmap Z Z) : Z * gmap Z Z :=
  let level := bodyInt "access_level" (rq_body r) in
  if String.eqb (rq_method r) "POST" then
    let u := bodyInt "user_id" (rq_body r) in
    if decide (rq_url r = "https://git.example" +:+ membersPath 7 ∧ u ∈ townsfolk) then (201, <[u := level]> ms) else (404, ms)
  else match townUser r with
       | None => (404, ms)
       | Some u =>
           if decide (ms !! u = None) then (404, ms)
           else if String.eqb (rq_method r) "PUT" then (200, <[u := level]> ms)
           else if String.eqb (rq_method r) "DELETE" then (204, delete u ms)
           else (405, ms)
       end.

Definition townServer (r : HttpReq) (ms : gmap Z Z) : outcome err HttpResp * gmap Z Z :=
  if String.eqb (rq_method r) "GET" then (Ok (townRead r ms), ms)
  else let '(status, ms') := townWrite r ms in (Ok (MkResp status [] None), ms').

Definition townEnv : Env (gmap Z Z) :=
  scriptEnv townServer (λ _, None) (λ _, Err (EMsg "no file")) (λ s, (zeroTime, s)) (λ _ s, (false, s)).

Lemma town_unique ms g : NoDup (m_ID <$> townRoster ms g).
Proof.
  unfold townRoster, townsfolk. destruct (g =? 7); [|constructor].
  cbn. destruct (ms !! 42), (ms !! 43), (ms !! 44); cbn; repeat (constructor; [set_solver|]); constructor.
Qed.

Lemma town_at ms g u :
  memberAt townRoster ms g u = if decide (g = 7 ∧ u ∈ townsfolk) then townRecord u <$> ms !! u else None.
Proof.
  assert (∀ m, memberAt townRoster ms g u = Some m ↔ (g = 7 ∧ u ∈ townsfolk) ∧ townRecord u <$> ms !! u = Some m) as Hat.
  { intros m. unfold memberAt. rewrite indexMembers_Some by apply town_unique. unfold townRoster.
    destruct (Z.eqb_spec g 7) as [->|Hg]; [|rewrite elem_of_nil; naive_solver].
    rewrite list_elem_of_omap. split.
    - intros [(x & Hx & Hm) Hid]. destruct (ms !! x) as [l|] eqn:Hl; [|done]. injection Hm as <-.
      cbn in Hid. subst x. by rewrite Hl.
    - intros [[_ Hu] Hm]. split; [by exists u|]. destruct (ms !! u); [|done]. by injection Hm as <-. }
  apply option_eq. intros m. rewrite Hat. case_decide; naive_solver.
Qed.

Lemma membersPath_inj g g' : membersPath g = membersPath g' → g = g'.
Proof.
  unfold membersPath. intros [Hg _]%append_inj%cut_inj; try apply itoa_no_slash.
  by apply (inj pretty) in Hg.
Qed.

Lemma memberPath_inj g u g' u' : memberPath g u = memberPath g' u' → g = g' ∧ u = u'.
Proof.
  unfold memberPath, membersPath. rewrite !app_assoc. intros [Hg Hu]%append_inj%cut_inj; try apply itoa_no_slash.
  cbn in Hu. injection Hu as Hu. apply append_inj in Hu.
  split; [by apply (inj pretty) in Hg|by apply (inj pretty) in Hu].
Qed.

Lemma memberJson_record m : m_MemberRoleID m = None → ∀ x, decMember (recordJson m) = Some x → x = m.
Proof.
  destruct m as [i u a r]. cbn [m_MemberRoleID]. intros -> x.
  assert (field "username" "id" = false ∧ field "access_level" "id" = false ∧ field "access_level" "username" = false)
    as (F1 & F2 & F3) by done.
  assert (field "id" "id" = true ∧ field "username" "username" = true ∧ field "access_level" "access_level" = true)
    as (T1 & T2 & T3) by done.
  unfold decMember, recordJson, decStruct. cbn [foldl mbind option_bind fst snd noMember m_ID m_Username m_AccessLevel].
  rewrite T1. cbn [decInt]. destruct (decide (in_int64 i)); cbn [mbind option_bind]; [|done].
  rewrite F1, T2. cbn [decString mbind option_bind]. rewrite F2, F3, T3. cbn [decInt].
  destruct (decide (in_int64 a)); cbn [mbind option_bind]; [|done]. by intros [= <-].
Qed.

Lemma records_json ms batch :
  Forall (λ m, m_MemberRoleID m = None) ms → decList decMember (JArr (recordJson <$> ms)) = Some batch → batch = ms.
Proof.
  intros Hr. cbn [decList]. revert batch. induction Hr as [|m ms Hm _ IH]; intros batch; cbn [fmap list_fmap mapM].
  { by intros [= <-]. }
  destruct (decMember (recordJson m)) as [x|] eqn:Hx; cbn [mbind option_bind]; [|done].
  destruct (mapM decMember (recordJson <$> ms)) as [xs|]; cbn [mbind option_bind]; [|done].
  intros [= <-]. by rewrite (memberJson_record m Hm x Hx), (IH xs).
Qed.

Lemma townUser_spec r u : townUser r = Some u → rq_url r = "https://git.example" +:+ memberPath 7 u ∧ u ∈ townsfolk.
Proof. intros [Hu Heq%String.eqb_eq]%find_some. by rewrite list_elem_of_In. Qed.

(** Nothing but a call that names a member of group 7 changes the state. *)
Lemma town_touch gid uid level token x ms : x = addCall gid uid level ∨ x = updateCall gid uid level ∨ x = removeCall gid uid →
  ∀ u, (gid, uid) ≠ (7, u) → (townServer (requestOf demoClient token x) ms).2 !! u = ms !! u.
Proof.
  assert (∀ r v, townUser r = Some v → rq_url r = "https://git.example" +:+ memberPath gid uid → gid = 7 ∧ uid = v) as Hfound.
  { intros r v [Hr _]%townUser_spec Hu. rewrite Hu in Hr. by apply append_inj, memberPath_inj in Hr. }
  intros [->|[->| ->]] u Hne; unfold townServer, townWrite; cbn [requestOf rq_method rq_body cl_method addCall updateCall removeCall];
    cbn [String.eqb Ascii.eqb Bool.eqb].
  - case_decide as Hd; [|done]. destruct Hd as [Hg%append_inj%membersPath_inj _]. apply lookup_insert_ne. intros Hu.
    apply Hne. rewrite Hg, <-Hu. reflexivity.
  - destruct (townUser _) as [v|] eqn:Hv; [|done]. case_decide; [done|]. 
    destruct (Hfound _ _ Hv) as [-> ->]; [done|]. apply lookup_insert_ne. congruence.
  - destruct (townUser _) as [v|] eqn:Hv; [|done]. case_decide; [done|]. 
    destruct (Hfound _ _ Hv) as [-> ->]; [done|]. apply lookup_delete_ne. congruence.
Qed.

Lemma townUser_member r u :
  rq_url r = "https://git.example" +:+ memberPath 7 u → u ∈ townsfolk → townUser r = Some u.
Proof.
  intros Hr Hu. destruct (townUser r) as [v|] eqn:Hv.
  - apply townUser_spec in Hv as [Hv _]. rewrite Hr in Hv. by apply append_inj, memberPath_inj in Hv as [_ ->].
  - apply list_elem_of_In in Hu. pose proof (find_none _ _ Hv _ Hu) as Hn. by rewrite Hr, String.eqb_refl in Hn.
Qed.

(** What the paths of the members API are not. *)
Lemma slash_inside s t : has_no "/" (s +:+ String "/" t) = false.
Proof. unfold has_no. rewrite string_all_app. cbn. by rewrite andb_false_r. Qed.

Lemma members_not_group gid t p : "/api/v4/groups/" +:+ itoa gid +:+ String "/" t ≠ groupPath p.
Proof.
  unfold groupPath. intros Heq%append_inj. pose proof (pathEscape_no_slash p) as Hp. rewrite <-Heq in Hp.
  by rewrite slash_inside in Hp.
Qed.

Lemma townRead_member gid uid r ms :
  rq_url r = "https://git.example" +:+ memberPath gid uid →
  townRead r ms = match townUser r ≫= λ u, townRecord u <$> ms !! u with
                  | Some m => MkResp 200 [] (Some (recordJson m))
                  | None => MkResp 404 [] (Some JNull)
                  end.
Proof.
  intros Hr. unfold townRead. cbv zeta. rewrite Hr.
  assert (memberPath gid uid = "/api/v4/groups/" +:+ itoa gid +:+ String "/" ("members/" +:+ itoa uid)) as Hp.
  { unfold memberPath, membersPath. by rewrite !app_assoc. }
  repeat match goal with |- context [String.eqb ?a ?b] => destruct (String.eqb_spec a b) as [He|_]; [apply append_inj in He; exfalso|] end.
  - by rewrite Hp in He.
  - rewrite Hp in He. by apply members_not_group in He.
  - by rewrite Hp in He.
  - rewrite Hp in He. unfold membersPath in He. apply append_inj, cut_inj in He as [_ He]; try apply itoa_no_slash. done.
  - done.
Qed.

Lemma townRead_page gid page token ms :
  townRead (requestOf demoClient token (pageCall gid page)) ms =
    if decide (gid = 7) then
      MkResp 200 [] (Some (JArr (if decide (page = 1) then recordJson <$> townRoster ms 7 else [])))
    else MkResp 404 [] (Some JNull).
Proof.
  unfold townRead. cbv zeta.
  assert (rq_url (requestOf demoClient token (pageCall gid page)) = "https://git.example" +:+ membersPath gid) as Hr by done.
  assert (membersPath gid = "/api/v4/groups/" +:+ itoa gid +:+ String "/" "members") as Hp by done.
  rewrite Hr.
  destruct (String.eqb_spec ("https://git.example" +:+ membersPath gid) ("https://git.example" +:+ "/api/v4/user")) as [He|_]; [done|].
  destruct (String.eqb_spec ("https://git.example" +:+ membersPath gid) ("https://git.example" +:+ groupPath "corp/team")) as [He|_].
  { apply append_inj in He. rewrite Hp in He. by apply members_not_group in He. }
  destruct (String.eqb_spec ("https://git.example" +:+ membersPath gid) ("https://git.example" +:+ "/api/v4/users")) as [He|_]; [done|].
  destruct (String.eqb_spec ("https://git.example" +:+ membersPath gid) ("https://git.example" +:+ membersPath 7)) as [He|He].
  - apply append_inj, membersPath_inj in He as ->. destruct (decide (7 = 7)); [|done]. do 3 f_equal.
    destruct (decide (page = 1)) as [->|Hne]; [done|]. rewrite decide_False; [done|].
    intros Hq. assert (itoa page = itoa 1) as Hi by (by injection Hq). by apply (inj pretty) in Hi.
  - destruct (decide (gid = 7)); [congruence|]. destruct (townUser _) as [u|] eqn:Hu; [|done].
    apply townUser_spec in Hu as [Hu _]. rewrite Hr in Hu. apply append_inj in Hu.
    unfold memberPath, membersPath in Hu. rewrite !app_assoc in Hu. apply append_inj, cut_inj in Hu as [_ Hu]; try apply itoa_no_slash. done.
Qed.

Lemma decoded_ok {A} j (init : A) dec : decoded (MkResp 200 [] (Some j)) init (Some dec) = dec j.
Proof. done. Qed.

Lemma town_honest : honest (H := townEnv) demoClient townRoster.
Proof.
  split.
  - split; done.
  - intros ms g. apply town_unique.
  - intros r ms Hm g. cbn [env_http townEnv scriptEnv]. unfold townServer. by rewrite Hm.
  - intros gid uid level token x ms Hx g u Hne. cbn [env_http townEnv scriptEnv]. rewrite !town_at.
    case_decide as Hd; [|done]. destruct Hd as [-> Hu]. by rewrite (town_touch gid uid level token x ms Hx u).
  - intros seg parent token ms g _. reflexivity.
  - intros gid uid token ms resp ms' Hrun Hst. rewrite town_at. case_decide as Hd; [|done]. destruct Hd as [-> Hu].
    cbn [env_http townEnv scriptEnv] in Hrun. unfold townServer, townWrite in Hrun.
    cbn [requestOf rq_method rq_body cl_method removeCall String.eqb Ascii.eqb Bool.eqb] in Hrun.
    rewrite (townUser_member _ uid) in Hrun by done.
    case_decide as Hn; injection Hrun as <- <-; [by rewrite Hn|by rewrite lookup_delete_eq].
  - intros gid uid token ms resp ms' m Hrun Hst Hdec. cbn [env_http townEnv scriptEnv] in Hrun.
    unfold townServer in Hrun. cbn [requestOf rq_method cl_method String.eqb Ascii.eqb Bool.eqb] in Hrun.
    injection Hrun as Hrun _. rewrite (townRead_member gid uid) in Hrun by done.
    destruct (townUser _) as [v|] eqn:Hv; cbn [mbind option_bind] in Hrun; [|subst resp; done].
    apply townUser_spec in Hv as [Hv Hin]. cbn [requestOf rq_url cl_path] in Hv.
    apply append_inj, memberPath_inj in Hv as [-> ->]. rewrite town_at, decide_True by done.
    destruct (ms !! v) as [l|]; cbn [fmap option_fmap option_map] in *; subst resp; [|done].
    rewrite decoded_ok in Hdec. apply memberJson_record in Hdec as ->; done.
  - intros gid page token ms resp ms' batch Hp Hrun Hst Hdec. cbn [env_http townEnv scriptEnv] in Hrun.
    unfold townServer in Hrun. cbn [requestOf rq_method pageCall cl_method String.eqb Ascii.eqb Bool.eqb] in Hrun.
    injection Hrun as Hrun _. change (MkReq _ _ _ _ _) with (requestOf demoClient token (pageCall gid page)) in Hrun.
    rewrite townRead_page in Hrun. case_decide as Hg; subst resp; [subst gid|done].
    assert (length (townRoster ms 7) ≤ 3)%nat as Hlen.
    { cbn. destruct (ms !! 42), (ms !! 43), (ms !! 44); cbn; lia. }
    split; [|intros _; unfold apiPageSize; lia].
    rewrite decoded_ok in Hdec. case_decide as H1.
    + subst page. apply records_json in Hdec as ->.
      * change (Z.to_nat ((1 - 1) * apiPageSize)) with 0%nat. rewrite drop_0, take_ge; [done|]. unfold apiPageSize. lia.
      * apply Forall_forall. intros m (u & _ & Hm)%list_elem_of_omap. destruct (ms !! u); [|done]. by injection Hm as <-.
    + injection Hdec as <-. rewrite drop_ge; [done|]. unfold apiPageSize. lia.
Qed.

(** User 43 is managed and was found absent once, user 44 is an owner, Alice
    is to become a developer. *)
Definition townGL : GL (gmap Z Z) := MkGL 0 "" demoLedger (MkSys {[43 := 30; 44 := 50]} [] ∅ ∅).
Definition townEnd : GL (gmap Z Z) := snd (SyncGroup (H := townEnv) demoClient 3 demoSync townGL).

Lemma town_sync_result : fst (SyncGroup (H := townEnv) demoClient 3 demoSync townGL) = Ok demoResult.
Proof. vm_compute. reflexivity. Qed.

Lemma town_sync : SyncGroup (H := townEnv) demoClient 3 demoSync townGL = (Ok demoResult, townEnd).
Proof. rewrite <-town_sync_result. unfold townEnd. apply surjective_pairing. Qed.

Lemma town_members : townRoster (sys_env (gl_sys townEnd)) 7 = [townRecord 42 30; townRecord 44 50].
Proof. vm_compute. reflexivity. Qed.

#[local] Opaque townEnd.

Lemma sync_reaches_spec_witness :
  townRoster (sys_env (gl_sys townEnd)) 7 = [townRecord 42 30; townRecord 44 50] /\
  ∃ target desired s1, binds demoClient demoSync demoLedger (gl_store townEnd) target ∧
    ∀ u, spared demoSync (gl_identityID townEnd) u (memberAt townRoster s1 (gg_ID target) u) →
      settled demoSync (λ id, is_Some (desired !! id))
        (candidate demoClient demoSync target desired (gl_identityID townEnd) demoLedger) u
        (memberAt townRoster s1 (gg_ID target) u) (memberAt townRoster (sys_env (gl_sys townEnd)) (gg_ID target) u).
Proof.
  split; [exact town_members|].
  destruct (sync_reaches_spec (H := townEnv) demoClient townRoster town_honest demoSync 3 townGL demoResult townEnd demo_gl_path)
    as (l & target & desired & s1 & _ & _ & Hb & _ & _ & _ & _ & Hall); [|exact town_sync|reflexivity|].
  - intros k m Hk. cbn in Hk. by rewrite lookup_empty in Hk.
  - exists target, desired, s1. split; [exact Hb|exact Hall].
Defined.

(** ** The concrete server answers *)

(** The request for group 7, with the key under which the ledger binds it and
    Alice's address; [demoSync] is one of them. *)
Definition townSync (key email : string) : SyncRequest :=
  MkSync "rule" key (MkGroup "g1" "team" "/team" [MkUser "a1" "alice" email]) "corp/team" "corp" false false
    "developer" "managed-only" [] 5 ["oidc"] false false.

Definition townTeam : group := MkGLGroup 7 "team" "team" "corp/team".
Definition townAlice : user := MkGLUser 42 "alice" "" "active" [MkIdentity "oidc" "a1"].

Lemma record_decodes m : m_MemberRoleID m = None → in_int64 (m_ID m) → in_int64 (m_AccessLevel m) → decMember (recordJson m) = Some m.
Proof.
  destruct m as [i u a r]. cbn [m_MemberRoleID m_ID m_AccessLevel]. intros -> Hi Ha.
  assert (field "username" "id" = false ∧ field "access_level" "id" = false ∧ field "access_level" "username" = false)
    as (F1 & F2 & F3) by done.
  assert (field "id" "id" = true ∧ field "username" "username" = true ∧ field "access_level" "access_level" = true)
    as (T1 & T2 & T3) by done.
  unfold decMember, recordJson, decStruct. cbn [foldl mbind option_bind fst snd noMember m_ID m_Username m_AccessLevel].
  rewrite T1. rewrite decInt_JInt by done. cbn [mbind option_bind].
  rewrite F1, T2. cbn [decString mbind option_bind]. rewrite F2, F3, T3, decInt_JInt by done. done.
Qed.

Lemma town_records_decode ms : decList decMember (JArr (recordJson <$> townRoster ms 7)) = Some (townRoster ms 7).
Proof.
  assert (Forall (λ m, m_MemberRoleID m = None ∧ in_int64 (m_ID m) ∧ in_int64 (m_AccessLevel m)) (townRoster ms 7)) as Hall.
  { apply Forall_forall. intros m (u & Hu & Hm)%list_elem_of_omap. destruct (ms !! u) as [l|]; [|done]. injection Hm as <-.
    split; [done|]. split; [|apply wrap64_range]. cbn. unfold in_int64, int64_min, int64_max, townsfolk in *. set_solver by lia. }
  cbn [decList]. induction Hall as [|m l (Hr & Hi & Ha) _ IH]; [done|]. cbn [fmap list_fmap mapM].
  rewrite record_decodes by done. cbn [mbind option_bind]. by rewrite IH.
Qed.

Lemma town_reads token x ms :
  cl_method x = "GET" → env_http (Env := townEnv) (requestOf demoClient token x) ms = (Ok (townRead (requestOf demoClient token x) ms), ms).
Proof. intros Hx. cbn [env_http townEnv scriptEnv]. unfold townServer. cbn [requestOf rq_method]. by rewrite Hx. Qed.

Lemma town_adds ms : env_http (Env := townEnv) (requestOf demoClient "glpat-1" (addCall 7 42 30)) ms =
  (Ok (MkResp 201 [] None), <[42 := 30]> ms).
Proof. reflexivity. Qed.

Lemma town_updates ms l : ms !! 42 = Some l →
  env_http (Env := townEnv) (requestOf demoClient "glpat-1" (updateCall 7 42 30)) ms = (Ok (MkResp 200 [] None), <[42 := 30]> ms).
Proof.
  intros Hl. cbn [env_http townEnv scriptEnv]. unfold townServer, townWrite. cbn [requestOf rq_method updateCall cl_method].
  change (String.eqb "PUT" "GET") with false. change (String.eqb "PUT" "POST") with false. change (String.eqb "PUT" "PUT") with true. cbn iota.
  rewrite (townUser_member _ 42) by (done || by vm_compute; left). rewrite decide_False by congruence. reflexivity.
Qed.

Lemma town_account : accountOf (H := townEnv) demoClient "glpat-1" 1.
Proof.
  split; [done|]. intros ms. eexists _, ms, _. split; [by apply town_reads|]. split; [by vm_compute|]. split; [by vm_compute|]. by vm_compute.
Qed.

Lemma town_responsive key email :
  responsive (H := townEnv) demoClient townRoster "glpat-1" "glpat-2" (townSync key email) townTeam (λ _, [townAlice]) [42].
Proof.
  assert (∀ ms u m, u ∈ [42] → memberAt townRoster ms 7 u = Some m → u = 42 ∧ ∃ l, ms !! 42 = Some l ∧ m = townRecord 42 l) as Hat.
  { intros ms u m ->%list_elem_of_singleton Hm. rewrite town_at, decide_True in Hm by (split; [done|by vm_compute; left]).
    split; [done|]. destruct (ms !! 42) as [l|]; [|done]. exists l. by injection Hm as <-. }
  split.
  - intros ms. eexists _, ms, townTeam. split; [by apply town_reads|]. by vm_compute.
  - intros ms page Hp. eexists _, ms, (if decide (page = 1) then townRoster ms 7 else []). split; [by apply town_reads|].
    rewrite townRead_page. cbn [gg_ID townTeam]. destruct (decide (7 = 7)); [|done]. split; [done|]. rewrite decoded_ok.
    split; [destruct (decide (page = 1)); [apply town_records_decode|reflexivity]|done].
  - intros ms q. eexists _, ms, [townAlice]. split; [by apply town_reads|]. by vm_compute.
  - intros ms id ->%list_elem_of_singleton _. eexists _, _, tt. split; [exact (town_adds ms)|]. split; [done|]. split; [done|].
    exists (townRecord 42 30). rewrite town_at, decide_True by (split; [done|by vm_compute; left]). by rewrite lookup_insert_eq.
  - intros ms id m Hid Hm _. destruct (Hat ms id m Hid Hm) as (-> & l & Hl & _). eexists _, _, tt. split; [exact (town_updates ms l Hl)|].
    split; [done|]. split; [done|]. exists (townRecord 42 30).
    rewrite town_at, decide_True by (split; [done|by vm_compute; left]). by rewrite lookup_insert_eq.
  - intros ms id m Hid Hm. destruct (Hat ms id m Hid Hm) as (-> & l & Hl & ->).
    eexists _, ms, (townRecord 42 l). split; [by apply town_reads|]. rewrite (townRead_member 7 42) by done.
    rewrite (townUser_member _ 42) by (done || by vm_compute; left). cbn [mbind option_bind]. rewrite Hl. cbn [fmap option_fmap option_map].
    split; [done|]. split; [|done]. rewrite decoded_ok. apply record_decodes; [done| |apply wrap64_range]. by vm_compute.
  - intros ms id. cbn [env_http townEnv scriptEnv]. unfold townServer. cbn [requestOf rq_method removeCall cl_method].
    change (String.eqb "DELETE" "GET") with false. cbn iota. unfold townWrite. cbn [requestOf rq_method removeCall cl_method].
    change (String.eqb "DELETE" "POST") with false. change (String.eqb "DELETE" "PUT") with false. change (String.eqb "DELETE" "DELETE") with true.
    cbn iota. destruct (townUser _) as [u|]; [|by eexists _, _; split; [reflexivity|left]].
    case_decide; eexists _, _; (split; [reflexivity|]); [by left|by right].
Qed.

Lemma town_roster0 : townRoster (sys_env (gl_sys townGL)) 7 = [townRecord 43 30; townRecord 44 50].
Proof. vm_compute. reflexivity. Qed.

(** The same group before anybody looked: no absence on record. *)
Definition freshGL : GL (gmap Z Z) := MkGL 0 "" freshLedger (gl_sys townGL).

Lemma town_fits key email ledger : ledger = demoLedger ∨ ledger = freshLedger →
  fits demoClient townRoster "glpat-1" (townSync key email) townTeam [42] 1 3 (MkGL 0 "" ledger (gl_sys townGL)).
Proof.
  intros Hledger. split.
  - split; [destruct Hledger as [-> | ->]; exact demo_path_ok|]. intros n. apply lookup_empty.
  - intros _. by left.
  - split; [done|by right; right| |done]. intros prev Hp. destruct Hledger as [-> | ->]; cbn in Hp; by rewrite lookup_empty in Hp.
  - cbn [gg_ID townTeam gl_sys]. rewrite town_roster0. split; [cbn; unfold apiPageSize; lia|lia].
  - intros id m ->%list_elem_of_singleton Hm. exfalso. unfold memberAt in Hm. cbn [gg_ID townTeam gl_sys] in Hm.
    rewrite town_roster0 in Hm. by vm_compute in Hm.
  - cbn [gg_ID townTeam gl_sys gl_store]. rewrite town_roster0. destruct Hledger as [-> | ->]; by vm_compute.
Qed.

Lemma town_wanted key email : ∀ id, id ∈ [42] ↔ ∃ source, source ∈ g_Members (sr_SourceGroup (townSync key email)) ∧ gu_ID townAlice = id.
Proof.
  intros id. rewrite list_elem_of_singleton. split; [intros ->; by eexists; split; [left|]|by intros (s & _ & <-)].
Qed.

Lemma town_found_alice key email source : source ∈ g_Members (sr_SourceGroup (townSync key email)) →
  foundAs demoClient (λ _, [townAlice]) (sr_IdentityMatch (townSync key email)) source townAlice ∧ gu_State townAlice = "active".
Proof.
  intros ->%list_elem_of_singleton. split; [|done].
  exists [], "oidc", [], [("extern_uid", "a1"); ("provider", "oidc")]. split; [done|]. split; [by intros g q' ?%elem_of_nil|].
  split; by vm_compute.
Qed.

Lemma town_due m : m ∈ townRoster (sys_env (gl_sys townGL)) 7 →
  leaves demoClient demoSync townTeam [42] 1 demoLedger m → due demoClient demoSync townTeam demoLedger m.
Proof.
  rewrite town_roster0. intros Hm Hl. right.
  apply elem_of_cons in Hm as [->|[->|?%elem_of_nil]%elem_of_cons]; [|exfalso; destruct Hl as [_ Hl]; by vm_compute in Hl|done].
  exists (MkAbsence (c_ownershipKey demoClient) "7" "43" 1). split; [by vm_compute|by vm_compute].
Qed.

(** Nobody is protected, and nobody's level is enforced. *)
Lemma town_spared u : spared demoSync 1 u (memberAt townRoster (sys_env (gl_sys townGL)) 7 u).
Proof.
  intros m _ _ Hm. unfold mustMove in Hm. cbn [sr_EnforceAccessLevel demoSync] in Hm. rewrite !andb_false_l, orb_false_r in Hm.
  apply andb_true_iff in Hm as [_ Hm]. by apply Z.ltb_lt.
Qed.

(** User 43 was found absent before: one run is enough. *)
Lemma sync_delivers_witness :
  ∃ res w', SyncGroup (H := townEnv) demoClient 3 demoSync townGL = (Ok res, w') ∧ r_Converged res = true ∧
    ∀ u, settled demoSync (.∈ [42]) (λ m, leaves demoClient demoSync townTeam [42] 1 demoLedger m ∧ due demoClient demoSync townTeam demoLedger m) u
      (memberAt townRoster (sys_env (gl_sys townGL)) 7 u) (memberAt townRoster (sys_env (gl_sys w')) 7 u).
Proof.
  destruct (sync_delivers (H := townEnv) demoClient townRoster town_honest (λ _ _, eq_refl) "glpat-1" "glpat-2"
    (steady_static (c_token demoClient) "glpat-1" _ eq_refl eq_refl)
    (steady_static (c_resolverToken demoClient) "glpat-2" _ eq_refl eq_refl) demoSync townTeam
    (λ _, [townAlice]) [42] 1 town_account (town_responsive "" "alice@example") (λ _, townAlice)
    (town_found_alice "" "alice@example") (town_wanted "" "alice@example") eq_refl 3 townGL (town_fits "" "alice@example" _ (or_introl eq_refl)))
    as (res & w' & Hrun & _ & _ & _ & Hset & _ & Hconv).
  exists res, w'. split; [exact Hrun|]. split; [apply Hconv; exact town_due|].
  intros u. apply Hset. exact (town_spared u).
Defined.

(** Without the observation the first run only notes it. *)
Lemma town_waits : fst (SyncGroup (H := townEnv) demoClient 3 demoSync freshGL) =
  Ok (MkResult "gitlab" "/team" "corp/team" false 1 0 0 0 2 false 0).
Proof. vm_compute. reflexivity. Qed.

Lemma two_runs_converge_witness :
  ∃ res w' res' w2, SyncGroup (H := townEnv) demoClient 3 demoSync freshGL = (Ok res, w') ∧
    SyncGroup (H := townEnv) demoClient 3 demoSync w' = (Ok res', w2) ∧ r_Converged res' = true ∧
    ∀ u, settled demoSync (.∈ [42]) (leaves demoClient demoSync townTeam [42] 1 freshLedger) u
      (memberAt townRoster (sys_env (gl_sys freshGL)) 7 u) (memberAt townRoster (sys_env (gl_sys w2)) 7 u).
Proof.
  destruct (two_runs_converge (H := townEnv) demoClient townRoster town_honest (λ _ _, eq_refl) "glpat-1" "glpat-2"
    (steady_static (c_token demoClient) "glpat-1" _ eq_refl eq_refl)
    (steady_static (c_resolverToken demoClient) "glpat-2" _ eq_refl eq_refl) demoSync townTeam
    (λ _, [townAlice]) [42] 1 town_account (town_responsive "" "alice@example") (λ _, townAlice)
    (town_found_alice "" "alice@example") (town_wanted "" "alice@example") eq_refl 3 freshGL (town_fits "" "alice@example" _ (or_intror eq_refl)))
    as (res & w' & res' & w2 & H1 & H2 & Hc & _ & _ & Hset).
  - cbn [gg_ID townTeam gl_sys freshGL]. rewrite town_roster0. vm_compute. discriminate.
  - intros u a Ha. cbn in Ha. by rewrite lookup_empty in Ha.
  - exists res, w', res', w2. split; [exact H1|]. split; [exact H2|]. split; [exact Hc|]. intros u. apply Hset. exact (town_spared u).
Defined.
