(* ===== verification/Keycloak.v ===== *)
(** * The Keycloak source ([internal/source/keycloak/client.go])

    Methods run over [KC]: the cached access token and the outside.  A loop
    over pages takes the number of pages it may read, the descent into child
    groups the depth it may reach; [KeycloakFacts] shows when they suffice. *)

From S2P Require Import Prelude GoStrings GoTime Json World State Model Credential Config.

Module Keycloak.
Definition pageSize : Z := 100.

Record Client : Type := MkClient
  { kc_baseURL : string; kc_realm : string; kc_clientID : string; kc_clientSecret : Loader }.

Definition NewWithCredential (baseURL realm clientID : string) (clientSecret : Loader) : Client :=
  MkClient (trimRight isSlash baseURL) realm clientID clientSecret.

Inductive groupRepresentation : Type := MkGroupRep
  { gr_ID : string;
    gr_Name : string;
    gr_Path : string;
    gr_SubGroupCount : Z;
    gr_SubGroups : list groupRepresentation }.

Record userRepresentation : Type := MkUserRep
  { ur_ID : string; ur_Username : string; ur_Email : string; ur_Enabled : bool }.

Fixpoint decGroupRep (j : json) : option groupRepresentation :=
  decStruct (λ '(MkGroupRep i n p c s) k v,
    if field k "id" then x ← decString i v; Some (MkGroupRep x n p c s)
    else if field k "name" then x ← decString n v; Some (MkGroupRep i x p c s)
    else if field k "path" then x ← decString p v; Some (MkGroupRep i n x c s)
    else if field k "subGroupCount" then x ← decInt c v; Some (MkGroupRep i n p x s)
    else if field k "subGroups" then x ← decList decGroupRep v; Some (MkGroupRep i n p c x)
    else Some (MkGroupRep i n p c s)) (MkGroupRep "" "" "" 0 []) j.

Definition decUserRep : json → option userRepresentation :=
  decStruct (λ '(MkUserRep i u e b) k v,
    if field k "id" then x ← decString i v; Some (MkUserRep x u e b)
    else if field k "username" then x ← decString u v; Some (MkUserRep i x e b)
    else if field k "email" then x ← decString e v; Some (MkUserRep i u x b)
    else if field k "enabled" then x ← decBool b v; Some (MkUserRep i u e x)
    else Some (MkUserRep i u e b)) (MkUserRep "" "" "" false).

Record tokenPayload : Type := MkToken { tp_AccessToken : string; tp_ExpiresIn : Z }.

Definition decToken : json → option tokenPayload :=
  decStruct (λ '(MkToken a e) k v,
    if field k "access_token" then x ← decString a v; Some (MkToken x e)
    else if field k "expires_in" then x ← decInt e v; Some (MkToken a x)
    else Some (MkToken a e)) (MkToken "" 0).

(** ** The world of the client *)
Record KC (S : Type) : Type := MkKC { kw_accessToken : string; kw_tokenExpiry : Time; kw_sys : Sys S }.
Arguments MkKC {S} _ _ _.
Arguments kw_accessToken {S} _.
Arguments kw_tokenExpiry {S} _.
Arguments kw_sys {S} _.

#[export] Program Instance lens_kw_sys S : Lens (KC S) (Sys S) :=
  {| view := kw_sys; update s w := MkKC (kw_accessToken w) (kw_tokenExpiry w) s |}.
Next Obligation. done. Qed.
Next Obligation. by intros S []. Qed.
Next Obligation. done. Qed.

Section client.
Context {S : Type} `{Env S} (c : Client).
Notation MK := (M (KC S) err).

Definition setToken (token : string) (expiry : Time) : MK unit := modify (λ w, MkKC token expiry (kw_sys w)).

Definition now : MK Time := zoom (W := KC S) (V := Sys S) timeNow.

Definition tokenRequest (clientSecret : string) : HttpReq :=
  MkReq "POST" (kc_baseURL c +:+ "/realms/" +:+ pathEscape (kc_realm c) +:+ "/protocol/openid-connect/token") []
    [("Content-Type", "application/x-www-form-urlencoded"); ("Accept", "application/json")]
    (BForm [("client_id", kc_clientID c); ("client_secret", clientSecret); ("grant_type", "client_credentials")]).

Definition token : MK string :=
  cached ← gets (λ w, (kw_accessToken w, kw_tokenExpiry w));
  fresh ← (if String.eqb cached.1 "" then mret false
           else t ← now; mret (before (add t (30 * Second)) cached.2));
  if fresh : bool then mret cached.1
  else
    clientSecret ← wrap_err (EWrap "load Keycloak client credential")
                     (zoom (W := KC S) (V := Sys S) (Load (kc_clientSecret c)));
    o ← zoom (W := KC S) (V := Sys S) (httpDo (tokenRequest clientSecret));
    match o with
    | Err e => mthrow (httpErr "build Keycloak token request" "request Keycloak token" e)
    | Ok resp =>
        if negb (is2xx (rs_status resp)) then mthrow (EMsg "Keycloak token endpoint returned an error")
        else match rs_body resp ≫= decToken with
             | None => mthrow (EMsg "decode Keycloak token")
             | Some payload =>
                 if String.eqb (tp_AccessToken payload) "" then mthrow (EMsg "Keycloak returned an empty access token")
                 else
                   t ← now;
                   setToken (tp_AccessToken payload) (add t (wrap64 (tp_ExpiresIn payload * Second)));;
                   mret (tp_AccessToken payload)
             end
    end.

Definition invalidateToken : MK unit := setToken "" zeroTime.

Definition getRequest (accessToken path : string) (query : list (string * string)) : HttpReq :=
  MkReq "GET" (kc_baseURL c +:+ path) query
    [("Authorization", "Bearer " +:+ accessToken); ("Accept", "application/json"); ("User-Agent", "GroupBridge/1")]
    BNone.

(** The loop of [getOptional], from [attempt] on, with so many attempts remaining. *)
Fixpoint getAttempts {A} (remaining attempt : nat) (path : string) (query : list (string * string))
    (dec : json → option A) : MK (option A) :=
  match remaining with
  | O => mthrow (EMsg "Keycloak authentication failed")
  | Datatypes.S remaining =>
      accessToken ← token;
      o ← zoom (W := KC S) (V := Sys S) (httpDo (getRequest accessToken path query));
      match o with
      | Err e => mthrow (httpErr "build Keycloak request" "call Keycloak" e)
      | Ok resp =>
          if (rs_status resp =? 401) && bool_decide (attempt = O)
          then invalidateToken;; getAttempts remaining (Datatypes.S attempt) path query dec
          else if rs_status resp =? 404 then mret None
          else if negb (is2xx (rs_status resp)) then mthrow (EMsg "Keycloak API returned an error")
          else match rs_body resp ≫= dec with
               | None => mthrow (EMsg "decode Keycloak response")
               | Some a => mret (Some a)
               end
      end
  end.

Definition getOptional {A} (path : string) (query : list (string * string)) (dec : json → option A) : MK (option A) :=
  getAttempts 2 0 path query dec.

Definition get {A} (path : string) (query : list (string * string)) (dec : json → option A) : MK A :=
  found ← getOptional path query dec;
  match found with
  | None => mthrow (EMsg "Keycloak API returned 404 Not Found")
  | Some a => mret a
  end.

Definition groupsPath : string := "/admin/realms/" +:+ pathEscape (kc_realm c) +:+ "/groups".
Definition groupPath (groupID : string) : string := groupsPath +:+ "/" +:+ pathEscape groupID.
Definition childrenPath (groupID : string) : string := groupPath groupID +:+ "/children".
Definition membersPath (groupID : string) : string := groupPath groupID +:+ "/members".

Definition brief : list (string * string) := [("briefRepresentation", "true")].
Definition pageQuery (first : Z) : list (string * string) :=
  brief ++ [("first", itoa first); ("max", itoa pageSize)].

(** [None]: an identifier is already in [seen]. *)
Fixpoint markSeen (ids : list string) (seen : gset string) : option (gset string) :=
  match ids with
  | [] => Some seen
  | id :: ids => if decide (id ∈ seen) then None else markSeen ids ({[id]} ∪ seen)
  end.

Fixpoint groupsFrom (fuel : nat) (path : string) (first : Z) (all : list groupRepresentation) (seen : gset string)
    : MK (list groupRepresentation) :=
  match fuel with
  | O => mthrow EFuel
  | Datatypes.S fuel =>
      page ← get path (pageQuery first) (decList decGroupRep);
      match page with
      | [] => mret all
      | _ =>
          match markSeen (gr_ID <$> page) seen with
          | None => mthrow (EMsg "Keycloak group pagination returned a duplicate id")
          | Some seen => groupsFrom fuel path (first + Z.of_nat (length page)) (all ++ page) seen
          end
      end
  end.

Definition listGroupsPage (fuel : nat) (path : string) : MK (list groupRepresentation) :=
  groupsFrom fuel path 0 [] ∅.

Definition toUser (u : userRepresentation) : User := MkUser (ur_ID u) (ur_Username u) (ur_Email u).

(** The users of a page that are enabled. *)
Definition enabledUsers (page : list userRepresentation) : list User :=
  toUser <$> List.filter ur_Enabled page.

Fixpoint membersFrom (fuel : nat) (groupID : string) (first : Z) (result : list User) (seen : gset string)
    : MK (list User) :=
  match fuel with
  | O => mthrow EFuel
  | Datatypes.S fuel =>
      page ← get (membersPath groupID) (pageQuery first) (decList decUserRep);
      match page with
      | [] => mret result
      | _ =>
          match markSeen (ur_ID <$> page) seen with
          | None => mthrow (EMsg "Keycloak member pagination returned a duplicate id")
          | Some seen =>
              membersFrom fuel groupID (first + Z.of_nat (length page)) (result ++ enabledUsers page) seen
          end
      end
  end.

Definition listMembers (fuel : nat) (groupID : string) : MK (list User) := membersFrom fuel groupID 0 [] ∅.

(** What [collectGroup] adds to: the groups seen and the groups found. *)
Notation collected := (gset string * list Group)%type.

(** The path of a group: its own, or below its parent's. *)
Definition pathOf (parentPath : string) (group : groupRepresentation) : string :=
  if String.eqb (gr_Path group) "" then trimRight isSlash parentPath +:+ "/" +:+ gr_Name group else gr_Path group.

Fixpoint collectGroup (depth fuel : nat) (group : groupRepresentation) (parentPath : string) (acc : collected)
    : MK collected :=
  match depth with
  | O => mthrow EFuel
  | Datatypes.S depth =>
      if String.eqb (gr_ID group) "" || String.eqb (gr_Name group) "" then
        mthrow (EMsg "keycloak returned a group without an id or name")
      else if decide (gr_ID group ∈ acc.1) then mret acc
      else
        let path := pathOf parentPath group in
        members ← wrap_err (EWrap "list members for group") (listMembers fuel (gr_ID group));
        children ← wrap_err (EWrap "list child groups") (listGroupsPage fuel (childrenPath (gr_ID group)));
        mfold (λ acc child, collectGroup depth fuel child path acc)
          ({[gr_ID group]} ∪ acc.1, acc.2 ++ [MkGroup (gr_ID group) (gr_Name group) path members]) children
  end.

Definition ListGroups (depth fuel : nat) : MK (list Group) :=
  roots ← wrap_err (EWrap "list root groups") (listGroupsPage fuel groupsPath);
  '(_, groups) ← mfold (λ acc root, collectGroup depth fuel root "" acc) (∅, []) roots;
  mret groups.

Definition ReadGroup (fuel : nat) (groupID : string) : MK (option Group) :=
  if String.eqb groupID "" then mthrow (EMsg "Keycloak group id is empty")
  else
    found ← wrap_err (EWrap "read group") (getOptional (groupPath groupID) brief decGroupRep);
    match found with
    | None => mret None
    | Some g =>
        if String.eqb (gr_ID g) "" || String.eqb (gr_Name g) "" || String.eqb (gr_Path g) "" then
          mthrow (EMsg "Keycloak returned an incomplete group")
        else if negb (String.eqb (gr_ID g) groupID) then mthrow (EMsg "Keycloak returned a different group id")
        else
          members ← wrap_err (EWrap "list members for group") (listMembers fuel (gr_ID g));
          mret (Some (MkGroup (gr_ID g) (gr_Name g) (gr_Path g) members))
    end.
End client.
End Keycloak.
