(* ===== verification/KeycloakFacts.v ===== *)
(** * What the Keycloak source reads

    For any server: a snapshot is made of complete listings only.  For a
    server that lists a finite tree of groups: the snapshot is that tree. *)

From S2P Require Import Prelude GoStrings GoTime Json World State Model Credential CredentialFacts Config Keycloak.
Import Keycloak.

Section any_server.
Context {S : Type} `{Env S} (c : Client).
Implicit Types (w : KC S).
Notation trace w := (sys_trace (kw_sys w)).

(** A GET of the Admin API or a token request. *)
Definition sourceRead (ex : Exchange) : Prop :=
  (∃ tok path query, ex.1 = getRequest c tok path query) ∨ ∃ secret, ex.1 = tokenRequest c secret.

Definition reads w0 (l : list Exchange) w : Prop := trace w = trace w0 ++ l ∧ Forall sourceRead l.

Lemma reads_refl w0 w : trace w = trace w0 → reads w0 [] w.
Proof. intros Ht. split; [by rewrite (right_id_L [] (++))|constructor]. Qed.

Lemma reads_trans w0 l1 w1 l2 w2 : reads w0 l1 w1 → reads w1 l2 w2 → reads w0 (l1 ++ l2) w2.
Proof. intros [H1 F1] [H2 F2]. split; [by rewrite H2, H1, (assoc_L (++))|by apply Forall_app]. Qed.

(** [ex] is the answer [a] to a GET. *)
Definition answered {A} (path : string) (query : list (string * string)) (dec : json → option A) (a : A)
    (ex : Exchange) : Prop :=
  ∃ tok resp, ex = (getRequest c tok path query, Ok resp) ∧ is2xx (rs_status resp) = true ∧
    rs_body resp ≫= dec = Some a.

Lemma triple_http r w0 :
  triple (E:=err) (λ w, w = w0) (zoom (W := KC S) (V := Sys S) (httpDo r))
    (λ o w, trace w = trace w0 ++ [(r, o)]) (λ _ _, False).
Proof. apply triple_zoom. intros w ->. apply triple_httpDo. by intros v v' o -> Ht _ _. Qed.

Lemma triple_now w0 :
  triple (λ w, w = w0) now (λ _ w, trace w = trace w0) (λ _ _, False).
Proof. apply triple_zoom. intros w ->. apply triple_timeNow. by intros v v' o -> [Ht _]. Qed.

Lemma triple_token w0 :
  triple (λ w, w = w0) (token c) (λ _ w, ∃ l, reads w0 l w) (λ _ w, ∃ l, reads w0 l w).
Proof.
  unfold token. eapply triple_bind with (R := λ _ w, w = w0); [by apply triple_gets|].
  intros cached. eapply triple_bind with (R := λ _ w, trace w = trace w0).
  { destruct (String.eqb _ _); [apply triple_ret; by intros w ->|].
    eapply triple_bind; [eapply triple_conseq; [apply (triple_now w0)|done|intros a w Hw; exact Hw|done]|].
    intros t. by apply triple_ret. }
  intros fresh. apply triple_at. intros w1 H1. destruct fresh.
  { apply triple_ret. intros w ->. exists []. by apply reads_refl. }
  eapply triple_bind with (R := λ _ w, trace w = trace w0).
  { apply triple_wrap_err, triple_zoom. intros w ->. apply triple_Load; intros v v' x -> (Ht & _); intros.
    - cbn. rewrite <-Ht. exact H1.
    - exists []. apply reads_refl. cbn. rewrite <-Ht. exact H1. }
  intros secret. apply triple_at. intros w2 H2.
  eapply triple_bind; [eapply triple_conseq; [apply (triple_http _ w2)|done|intros a w Hw; exact Hw|done]|].
  intros o. apply triple_at. intros w3 H3.
  assert (∀ w, trace w = trace w3 → ∃ l, reads w0 l w) as Hend.
  { intros w Hw. exists [(tokenRequest c secret, o)]. split; [by rewrite Hw, H3, H2|].
    constructor; [right; by exists secret|done]. }
  destruct o as [resp|e]; [|apply triple_throw; intros w ->; by apply Hend].
  destruct (negb _); [apply triple_throw; intros w ->; by apply Hend|].
  destruct (rs_body resp ≫= decToken) as [p|]; [|apply triple_throw; intros w ->; by apply Hend].
  destruct (String.eqb _ _); [apply triple_throw; intros w ->; by apply Hend|].
  eapply triple_bind; [eapply triple_conseq; [apply (triple_now w3)|done|intros a w Hw; exact Hw|done]|].
  intros t. eapply triple_bind with (R := λ _ w, trace w = trace w3); [apply triple_modify; done|].
  intros _. apply triple_ret. intros w Hw. by apply Hend.
Qed.

(** What an optional read reports: an answer, or a 404. *)
Definition reported {A} (path : string) (query : list (string * string)) (dec : json → option A)
    (r : option A) (l : list Exchange) : Prop :=
  match r with
  | Some a => ∃ ex, ex ∈ l ∧ answered path query dec a ex
  | None => ∃ tok resp, (getRequest c tok path query, Ok resp) ∈ l ∧ rs_status resp = 404
  end.

Lemma reported_after {A} path query (dec : json → option A) r l1 l2 :
  reported path query dec r l2 → reported path query dec r (l1 ++ l2).
Proof.
  destruct r as [a|]; cbn.
  - intros (ex & Hin & Ha). exists ex. split; [apply elem_of_app; by right|done].
  - intros (tok & resp & Hin & Hs). exists tok, resp. split; [apply elem_of_app; by right|done].
Qed.

Lemma triple_getAttempts {A} n k path query (dec : json → option A) w0 :
  triple (λ w, w = w0) (getAttempts c n k path query dec)
    (λ r w, ∃ l, reads w0 l w ∧ reported path query dec r l)
    (λ _ w, ∃ l, reads w0 l w).
Proof.
  revert k w0. induction n as [|n IH]; intros k w0; cbn [getAttempts].
  { apply triple_throw. intros w ->. exists []. by apply reads_refl. }
  eapply triple_bind; [apply (triple_token w0)|]. intros tok. apply triple_at. intros w1 (l1 & H1).
  eapply triple_bind; [eapply triple_conseq; [apply (triple_http _ w1)|done|intros a w Hw; exact Hw|done]|].
  intros o. apply triple_at. intros w2 H2.
  set (ex := (getRequest c tok path query, o)).
  assert (∀ w, trace w = trace w2 → reads w0 (l1 ++ [ex]) w) as Hend.
  { intros w Hw. apply (reads_trans _ _ w1); [done|]. split; [by rewrite Hw, H2|].
    constructor; [left; by exists tok, path, query|done]. }
  assert (∀ (e : err), triple (λ w, w = w2) (mthrow e)
    (λ (r : option A) w, ∃ l, reads w0 l w ∧ reported path query dec r l)
    (λ _ w, ∃ l, reads w0 l w)) as Hthrow.
  { intros e. apply triple_throw. intros w ->. eexists. by apply Hend. }
  destruct o as [resp|e]; [|apply Hthrow]. destruct (_ && _).
  { eapply triple_bind with (R := λ _ w, trace w = trace w2); [apply triple_modify; by intros w ->|].
    intros _. apply triple_at. intros w3 H3.
    eapply triple_conseq; [apply (IH _ w3)|done|..].
    - intros r w (l & Hl & Ha). exists ((l1 ++ [ex]) ++ l). split; [by eapply reads_trans; [apply Hend|]|].
      by apply reported_after.
    - intros e w (l & Hl). exists ((l1 ++ [ex]) ++ l). by eapply reads_trans; [apply Hend|]. }
  destruct (Z.eqb_spec (rs_status resp) 404) as [H4|_].
  { apply triple_ret. intros w ->. exists (l1 ++ [ex]). split; [by apply Hend|]. exists tok, resp.
    split; [apply elem_of_app; right; by left|done]. }
  destruct (is2xx (rs_status resp)) eqn:H2x; cbn [negb]; [|apply Hthrow].
  destruct (rs_body resp ≫= dec) as [a|] eqn:Hd; [|apply Hthrow].
  apply triple_ret. intros w ->. exists (l1 ++ [ex]). split; [by apply Hend|].
  exists ex. split; [apply elem_of_app; right; by left|]. by exists tok, resp.
Qed.

Lemma triple_get {A} path query (dec : json → option A) w0 :
  triple (λ w, w = w0) (get c path query dec)
    (λ a w, ∃ l, reads w0 l w ∧ ∃ ex, ex ∈ l ∧ answered path query dec a ex)
    (λ _ w, ∃ l, reads w0 l w).
Proof.
  unfold get. eapply triple_bind; [apply (triple_getAttempts _ _ _ _ _ w0)|].
  intros [a|]; [apply triple_ret|apply triple_throw]; intros w (l & Hl & Ha).
  - by exists l.
  - by exists l.
Qed.

(** ** Complete listings *)

(** The exchanges [l] contain a listing of [path], from [first] to its end. *)
Inductive paged {A} (dec : json → option (list A)) (path : string) (l : list Exchange) : Z → list A → Prop :=
| paged_end first ex : ex ∈ l → answered path (pageQuery first) dec [] ex → paged dec path l first []
| paged_more first ex page rest : ex ∈ l → answered path (pageQuery first) dec page ex → page ≠ [] →
    paged dec path l (first + Z.of_nat (length page)) rest → paged dec path l first (page ++ rest).

Lemma paged_mono {A} (dec : json → option (list A)) path l l' first xs :
  (∀ ex, ex ∈ l → ex ∈ l') → paged dec path l first xs → paged dec path l' first xs.
Proof. intros Hsub. induction 1; [by eapply paged_end; eauto|by eapply paged_more; eauto]. Qed.

Lemma markSeen_some ids seen seen' : markSeen ids seen = Some seen' →
  NoDup ids ∧ (∀ id, id ∈ ids → id ∉ seen) ∧ seen' = list_to_set ids ∪ seen.
Proof.
  revert seen. induction ids as [|id ids IH]; intros seen; cbn [markSeen].
  { intros [= <-]. split; [constructor|]. split; [intros id Hid; by apply elem_of_nil in Hid|set_solver]. }
  case_decide as Hd; [done|]. intros (Hnd & Hne & ->)%IH. split; [|split].
  - constructor; [|done]. intros Hin. by apply (Hne id Hin), elem_of_union_l, elem_of_singleton.
  - intros x [->|Hx]%elem_of_cons; [done|]. intros Hs. apply (Hne x Hx), elem_of_union. by right.
  - set_solver.
Qed.

Lemma markSeen_fresh ids seen : NoDup ids → (∀ id, id ∈ ids → id ∉ seen) →
  markSeen ids seen = Some (list_to_set ids ∪ seen).
Proof.
  intros Hnd. revert seen. induction Hnd as [|id ids Hid Hnd IH]; intros seen Hne; cbn [markSeen].
  { f_equal. set_solver. }
  rewrite decide_False by (apply Hne; by left). rewrite IH; [f_equal; set_solver|].
  intros x Hx [->%elem_of_singleton|Hs]%elem_of_union; [done|]. apply (Hne x); [by right|done].
Qed.

(** What a listing that ends well has read: [ids] are those seen before. *)
Definition listed {A} (id : A → string) (dec : json → option (list A)) (path : string) (first : Z)
    (seen : gset string) (l : list Exchange) (xs : list A) : Prop :=
  paged dec path l first xs ∧ NoDup (id <$> xs) ∧ ∀ x, x ∈ xs → id x ∉ seen.

Lemma listed_more {A} (id : A → string) dec path first seen seen' l l' ex (page rest : list A) :
  answered path (pageQuery first) dec page ex → ex ∈ l → page ≠ [] → markSeen (id <$> page) seen = Some seen' →
  listed id dec path (first + Z.of_nat (length page)) seen' l' rest →
  listed id dec path first seen (l ++ l') (page ++ rest).
Proof.
  intros Ha Hin Hne (Hnd & Hfr & ->)%markSeen_some (Hp & Hnd' & Hfr'). split; [|split].
  - eapply paged_more; [|exact Ha|done|]; [apply elem_of_app; by left|].
    eapply paged_mono; [|exact Hp]. intros e He. apply elem_of_app. by right.
  - rewrite fmap_app. apply NoDup_app. split; [done|]. split; [|done].
    intros i Hi (x & -> & Hx)%list_elem_of_fmap. apply (Hfr' x Hx), elem_of_union. left.
    by apply elem_of_list_to_set.
  - intros x [Hx|Hx]%elem_of_app.
    + apply Hfr. by apply list_elem_of_fmap_2.
    + intros Hs. apply (Hfr' x Hx), elem_of_union. by right.
Qed.

Lemma triple_groupsFrom fuel path first all seen w0 :
  triple (λ w, w = w0) (groupsFrom c fuel path first all seen)
    (λ r w, ∃ l xs, reads w0 l w ∧ r = all ++ xs ∧ listed gr_ID (decList decGroupRep) path first seen l xs)
    (λ _ w, ∃ l, reads w0 l w).
Proof.
  revert first all seen w0. induction fuel as [|fuel IH]; intros first all seen w0; cbn [groupsFrom].
  { apply triple_throw. intros w ->. exists []. by apply reads_refl. }
  eapply triple_bind; [apply (triple_get _ _ _ w0)|]. intros page. apply triple_at. intros w1 (l1 & H1 & ex & Hin & Ha).
  destruct page as [|x page].
  { apply triple_ret. intros w ->. exists l1, []. split; [done|]. split; [by rewrite (right_id_L [] (++))|].
    split; [by eapply paged_end|]. split; [constructor|]. intros x Hx. by apply elem_of_nil in Hx. }
  destruct (markSeen _ seen) as [seen'|] eqn:Hm; [|apply triple_throw; intros w ->; by exists l1].
  eapply triple_conseq; [apply (IH _ _ _ w1)|done|..].
  - intros r w (l2 & xs & H2 & -> & Hl). exists (l1 ++ l2), ((x :: page) ++ xs). split; [by eapply reads_trans|].
    split; [by rewrite (assoc_L (++))|]. by eapply listed_more.
  - intros e w (l2 & H2). exists (l1 ++ l2). by eapply reads_trans.
Qed.

Lemma triple_membersFrom fuel gid first result seen w0 :
  triple (λ w, w = w0) (membersFrom c fuel gid first result seen)
    (λ r w, ∃ l xs, reads w0 l w ∧ r = result ++ enabledUsers xs ∧
       listed ur_ID (decList decUserRep) (membersPath c gid) first seen l xs)
    (λ _ w, ∃ l, reads w0 l w).
Proof.
  revert first result seen w0. induction fuel as [|fuel IH]; intros first result seen w0; cbn [membersFrom].
  { apply triple_throw. intros w ->. exists []. by apply reads_refl. }
  eapply triple_bind; [apply (triple_get _ _ _ w0)|]. intros page. apply triple_at. intros w1 (l1 & H1 & ex & Hin & Ha).
  destruct page as [|x page].
  { apply triple_ret. intros w ->. exists l1, []. split; [done|]. split; [symmetry; apply (right_id_L [] (++))|].
    split; [by eapply paged_end|]. split; [constructor|]. intros x Hx. by apply elem_of_nil in Hx. }
  destruct (markSeen _ seen) as [seen'|] eqn:Hm; [|apply triple_throw; intros w ->; by exists l1].
  eapply triple_conseq; [apply (IH _ _ _ w1)|done|..].
  - intros r w (l2 & xs & H2 & -> & Hl). exists (l1 ++ l2), ((x :: page) ++ xs). split; [by eapply reads_trans|].
    split; [|by eapply listed_more]. unfold enabledUsers.
    rewrite List.filter_app, fmap_app. by rewrite (assoc_L (++)).
  - intros e w (l2 & H2). exists (l1 ++ l2). by eapply reads_trans.
Qed.

(** ** The snapshot *)

(** [g] is the group of a representation, with all the enabled members of a
    complete listing in [l]; the groups of a complete listing of its children
    are among [ids]. *)
Definition complete_group (l : list Exchange) (ids : gset string) (g : Group) : Prop :=
  ∃ rep parentPath xs children,
    g = MkGroup (gr_ID rep) (gr_Name rep) (pathOf parentPath rep) (enabledUsers xs) ∧
    gr_ID rep ≠ "" ∧ gr_Name rep ≠ "" ∧
    listed ur_ID (decList decUserRep) (membersPath c (g_ID g)) 0 ∅ l xs ∧
    listed gr_ID (decList decGroupRep) (childrenPath c (g_ID g)) 0 ∅ l children ∧
    ∀ child, child ∈ children → gr_ID child ∈ ids.

Lemma listed_mono {A} (id : A → string) dec path first seen l l' xs :
  (∀ ex, ex ∈ l → ex ∈ l') → listed id dec path first seen l xs → listed id dec path first seen l' xs.
Proof. intros Hsub (Hp & H'). split; [by eapply paged_mono|done]. Qed.

Lemma complete_group_mono l l' ids ids' g :
  (∀ ex, ex ∈ l → ex ∈ l') → ids ⊆ ids' → complete_group l ids g → complete_group l' ids' g.
Proof.
  intros Hl Hi (rep & pp & xs & ch & -> & H1 & H2 & H3 & H4 & H5). exists rep, pp, xs, ch.
  split; [done|]. split; [done|]. split; [done|]. split; [by eapply listed_mono|]. split; [by eapply listed_mono|].
  intros child Hc. by apply Hi, H5.
Qed.

Notation collected := (gset string * list Group)%type.

Definition acc_ok (acc : collected) : Prop :=
  acc.1 = list_to_set (g_ID <$> acc.2) ∧ NoDup (g_ID <$> acc.2).

(** From [acc0] to [acc] by the exchanges [l]. *)
Record collects (l : list Exchange) (acc0 acc : collected) : Prop := {
  cl_ok : acc_ok acc;
  cl_sub : acc0.1 ⊆ acc.1;
  cl_new : ∃ new, acc.2 = acc0.2 ++ new ∧ ∀ g, g ∈ new → complete_group l acc.1 g
}.

Lemma collects_refl acc : acc_ok acc → collects [] acc acc.
Proof.
  intros Hok. split; [done|done|]. exists []. split; [by rewrite (right_id_L [] (++))|].
  intros g Hg. by apply elem_of_nil in Hg.
Qed.

Lemma collects_trans l1 l2 acc0 acc1 acc2 :
  collects l1 acc0 acc1 → collects l2 acc1 acc2 → collects (l1 ++ l2) acc0 acc2.
Proof.
  intros [_ Hs1 (n1 & E1 & C1)] [Hok Hs2 (n2 & E2 & C2)]. split; [done|by etrans|].
  exists (n1 ++ n2). split; [by rewrite E2, E1, (assoc_L (++))|]. intros g [Hg|Hg]%elem_of_app.
  - eapply complete_group_mono; [|exact Hs2|by apply C1]. intros ex Hex. apply elem_of_app. by left.
  - eapply complete_group_mono; [|reflexivity|by apply C2]. intros ex Hex. apply elem_of_app. by right.
Qed.

Lemma triple_collectAll (f : collected → groupRepresentation → M (KC S) err collected) reps acc0 w0 :
  (∀ rep acc w, acc_ok acc → triple (λ w', w' = w) (f acc rep)
     (λ acc' w', ∃ l, reads w l w' ∧ collects l acc acc' ∧ gr_ID rep ∈ acc'.1) (λ _ w', ∃ l, reads w l w')) →
  acc_ok acc0 →
  triple (λ w, w = w0) (mfold f acc0 reps)
    (λ acc w, ∃ l, reads w0 l w ∧ collects l acc0 acc ∧ ∀ rep, rep ∈ reps → gr_ID rep ∈ acc.1)
    (λ _ w, ∃ l, reads w0 l w).
Proof.
  intros Hf Hok. eapply triple_conseq; [eapply (triple_mfold _ (λ d acc w, ∃ l, reads w0 l w ∧ collects l acc0 acc ∧
    ∀ rep, rep ∈ d → gr_ID rep ∈ acc.1) (λ _ w, ∃ l, reads w0 l w))| |done|done].
  - intros d rep rest acc _. apply triple_at. intros w1 (l1 & H1 & C1 & Hd).
    eapply triple_conseq; [apply (Hf rep acc w1)|done|..]; [by destruct C1| |].
    + intros acc' w (l2 & H2 & C2 & Hr). exists (l1 ++ l2). split; [by eapply reads_trans|].
      split; [by eapply collects_trans|]. intros r [Hr'| ->%list_elem_of_singleton]%elem_of_app; [|done].
      destruct C2 as [_ Hs _]. by apply Hs, Hd.
    + intros e w (l2 & H2). exists (l1 ++ l2). by eapply reads_trans.
  - intros w ->. exists []. split; [by apply reads_refl|]. split; [by apply collects_refl|].
    intros rep Hr. by apply elem_of_nil in Hr.
Qed.

Lemma triple_collectGroup depth fuel rep parentPath acc w0 : acc_ok acc →
  triple (λ w, w = w0) (collectGroup c depth fuel rep parentPath acc)
    (λ acc' w, ∃ l, reads w0 l w ∧ collects l acc acc' ∧ gr_ID rep ∈ acc'.1) (λ _ w, ∃ l, reads w0 l w).
Proof.
  revert rep parentPath acc w0. induction depth as [|depth IH]; intros rep pp acc w0 Hok; cbn [collectGroup].
  { apply triple_throw. intros w ->. exists []. by apply reads_refl. }
  destruct (String.eqb (gr_ID rep) "" || String.eqb (gr_Name rep) "") eqn:Hempty.
  { apply triple_throw. intros w ->. exists []. by apply reads_refl. }
  apply orb_false_iff in Hempty as [Hid%String.eqb_neq Hname%String.eqb_neq].
  case_decide as Hseen.
  { apply triple_ret. intros w ->. exists []. split; [by apply reads_refl|]. split; [by apply collects_refl|done]. }
  eapply triple_bind.
  { apply triple_wrap_err, (triple_membersFrom _ _ _ _ _ w0). }
  intros ms. apply triple_at. intros w1 (l1 & xs & H1 & -> & Hxs). cbn [app] in *.
  eapply triple_bind.
  { apply triple_wrap_err. eapply triple_conseq; [apply (triple_groupsFrom _ _ _ _ _ w1)|done|intros a w Hw; exact Hw|].
    intros e w (l2 & H2). exists (l1 ++ l2). by eapply reads_trans. }
  intros children. apply triple_at. intros w2 (l2 & ch & H2 & -> & Hch). cbn [app] in *.
  set (g := MkGroup (gr_ID rep) (gr_Name rep) (pathOf pp rep) (enabledUsers xs)).
  assert (acc_ok ({[gr_ID rep]} ∪ acc.1, acc.2 ++ [g])) as Hok'.
  { destruct Hok as [Hs Hnd]. split; cbn [fst snd]; rewrite fmap_app.
    - rewrite list_to_set_app_L, <-Hs. cbn. set_solver.
    - apply NoDup_snoc. split; [|done]. cbn. by rewrite <-(elem_of_list_to_set (C:=gset string)), <-Hs. }
  eapply triple_conseq; [apply (triple_collectAll _ ch _ w2 (λ r a w, IH r (pathOf pp rep) a w) Hok')|done|..].
  - intros acc' w (l3 & H3 & [Hok3 Hsub (new & E & C)] & Hall). exists ((l1 ++ l2) ++ l3). cbn [fst snd] in *.
    split; [eapply reads_trans; [by eapply reads_trans|done]|].
    assert (gr_ID rep ∈ acc'.1) as Hin by (apply Hsub; set_solver). split; [|done].
    split; [done|set_solver|]. exists ([g] ++ new). split; [by rewrite E, (assoc_L (++))|].
    intros g' [->%list_elem_of_singleton|Hg]%elem_of_app.
    + exists rep, pp, xs, ch. split; [done|]. split; [done|]. split; [done|].
      split; [|split; [|exact Hall]]; (eapply listed_mono; [|eassumption]); intros ex Hex; rewrite !elem_of_app; auto.
    + eapply complete_group_mono; [|reflexivity|by apply C]. intros ex Hex. rewrite !elem_of_app. auto.
  - intros e w (l3 & H3). exists ((l1 ++ l2) ++ l3). eapply reads_trans; [by eapply reads_trans|done].
Qed.

(** [C26] A snapshot is complete: whatever the server answers, when [ListGroups]
    succeeds every group it returns carries exactly the enabled members of a
    listing that was read to its last page, every group of such a listing of
    the roots, or of the children of a returned group, is itself returned, and
    no identifier occurs twice; nothing but reads and token requests was sent. *)
Theorem snapshot_complete depth fuel w0 groups w :
  ListGroups c depth fuel w0 = (Ok groups, w) →
  ∃ l roots, trace w = trace w0 ++ l ∧ Forall sourceRead l ∧ NoDup (g_ID <$> groups) ∧
    listed gr_ID (decList decGroupRep) (groupsPath c) 0 ∅ l roots ∧
    (∀ root, root ∈ roots → gr_ID root ∈ g_ID <$> groups) ∧
    ∀ g, g ∈ groups → complete_group l (list_to_set (g_ID <$> groups)) g.
Proof.
  intros Hrun. eapply (triple_ok (ListGroups c depth fuel) (λ w, w = w0) (λ groups w,
    ∃ l roots, trace w = trace w0 ++ l ∧ Forall sourceRead l ∧ NoDup (g_ID <$> groups) ∧
      listed gr_ID (decList decGroupRep) (groupsPath c) 0 ∅ l roots ∧
      (∀ root, root ∈ roots → gr_ID root ∈ g_ID <$> groups) ∧
      ∀ g, g ∈ groups → complete_group l (list_to_set (g_ID <$> groups)) g) (λ _ _, True)); [|done|exact Hrun].
  unfold ListGroups. eapply triple_bind.
  { apply triple_wrap_err. eapply triple_conseq; [apply (triple_groupsFrom _ _ _ _ _ w0)|done|intros a w' Hw; exact Hw|done]. }
  intros ?. apply triple_at. intros w1 (l1 & roots & H1 & -> & Hroots). cbn [app].
  assert (acc_ok (∅, [])) as Hok by (split; [done|constructor]).
  eapply triple_bind.
  { eapply triple_conseq; [apply (triple_collectAll _ roots _ w1 (λ r a w, triple_collectGroup _ _ r _ a w) Hok)
      |done|intros a w' Hw; exact Hw|done]. }
  intros [seen gs]. apply triple_ret. intros w' (l2 & [H2 F2] & [[Hs Hnd] _ (new & E & C)] & Hall). cbn [fst snd app] in *.
  subst new seen. destruct H1 as [H1 F1]. exists (l1 ++ l2), roots. split; [by rewrite H2, H1, (assoc_L (++))|].
  split; [by apply Forall_app|]. split; [done|]. split; [|split].
  - eapply listed_mono; [|exact Hroots]. intros ex Hex. apply elem_of_app. by left.
  - intros root Hr. specialize (Hall root Hr). by rewrite elem_of_list_to_set in Hall.
  - intros g Hg. eapply complete_group_mono; [|reflexivity|by apply C]. intros ex Hex. apply elem_of_app. by right.
Qed.

(** A targeted read returns the group that was asked for or nothing:
    its identifier is the one requested, its name and path are not empty, its
    members are the enabled ones of a complete listing; only an answer of 404
    reports a missing group; nothing but reads and token requests was sent. *)
Theorem read_group_exact fuel groupID w0 r w :
  ReadGroup c fuel groupID w0 = (Ok r, w) →
  ∃ l, trace w = trace w0 ++ l ∧ Forall sourceRead l ∧
    match r with
    | Some g => g_ID g = groupID ∧ groupID ≠ "" ∧ g_Name g ≠ "" ∧ g_Path g ≠ "" ∧
        ∃ xs, listed ur_ID (decList decUserRep) (membersPath c groupID) 0 ∅ l xs ∧ g_Members g = enabledUsers xs
    | None => groupID ≠ "" ∧ ∃ tok resp,
        (getRequest c tok (groupPath c groupID) brief, Ok resp) ∈ l ∧ rs_status resp = 404
    end.
Proof.
  intros Hrun. eapply (triple_ok (ReadGroup c fuel groupID) (λ w, w = w0) (λ r w,
    ∃ l, trace w = trace w0 ++ l ∧ Forall sourceRead l ∧
    match r with
    | Some g => g_ID g = groupID ∧ groupID ≠ "" ∧ g_Name g ≠ "" ∧ g_Path g ≠ "" ∧
        ∃ xs, listed ur_ID (decList decUserRep) (membersPath c groupID) 0 ∅ l xs ∧ g_Members g = enabledUsers xs
    | None => groupID ≠ "" ∧ ∃ tok resp,
        (getRequest c tok (groupPath c groupID) brief, Ok resp) ∈ l ∧ rs_status resp = 404
    end) (λ _ _, True)); [|done|exact Hrun].
  unfold ReadGroup. destruct (String.eqb_spec groupID "") as [|Hid]; [by apply triple_throw|].
  eapply triple_bind.
  { apply triple_wrap_err. eapply triple_conseq; [apply (triple_getAttempts _ _ _ _ _ w0)|done|intros a w' Hw; exact Hw|done]. }
  intros found. apply triple_at. intros w1 (l1 & [H1 F1] & Hrep).
  destruct found as [rep|]; [|apply triple_ret; intros w' ->; by exists l1].
  destruct (_ || _) eqn:He; [by apply triple_throw|]. apply orb_false_iff in He as [He Hpath%String.eqb_neq].
  apply orb_false_iff in He as [_ Hname%String.eqb_neq].
  destruct (String.eqb_spec (gr_ID rep) groupID) as [Heq|]; cbn [negb]; [|by apply triple_throw].
  eapply triple_bind.
  { apply triple_wrap_err. eapply triple_conseq; [apply (triple_membersFrom _ _ _ _ _ w1)|done|intros a w' Hw; exact Hw|done]. }
  intros ms. apply triple_ret. intros w' (l2 & xs & [H2 F2] & -> & Hxs). exists (l1 ++ l2).
  split; [by rewrite H2, H1, (assoc_L (++))|]. split; [by apply Forall_app|]. cbn. rewrite Heq in *.
  split_and!; try done. exists xs. split; [|done]. eapply listed_mono; [|exact Hxs].
  intros ex Hex. apply elem_of_app. by right.
Qed.
End any_server.

(** ** What the reads of the source keep *)
Section source_keeps.
Context {S : Type} `{Env S} (c : Client) (J : Sys S → Prop).
Context (Hnow : keeps (E := err) J timeNow) (Hload : keeps J (Load (kc_clientSecret c))).
Context (Hget : ∀ tok path query, keeps (E := err) J (httpDo (getRequest c tok path query))).
Context (Htok : ∀ secret, keeps (E := err) J (httpDo (tokenRequest c secret))).
Notation JK := (λ w : KC S, J (kw_sys w)).

Lemma keeps_sys {A} (m : M (Sys S) err A) : keeps J m → keeps JK (zoom m).
Proof. exact (keeps_zoom (W := KC S) J m). Qed.

Lemma keeps_token : keeps JK (token c).
Proof.
  unfold token, now, setToken.
  repeat first [keeping | by apply keeps_modify | apply keeps_sys; first [exact Hnow | exact Hload | apply Htok]].
Qed.

Lemma keeps_attempts {A} n k path query (dec : json → option A) : keeps JK (getAttempts c n k path query dec).
Proof.
  revert k. induction n as [|n IH]; intros k; cbn [getAttempts]; [keeping|]. unfold invalidateToken, setToken.
  repeat first [apply IH | apply keeps_token | by apply keeps_modify | apply keeps_sys, Hget | keeping].
Qed.

Lemma keeps_get {A} path query (dec : json → option A) : keeps JK (get c path query dec).
Proof. unfold get, getOptional. repeat first [apply keeps_attempts | keeping]. Qed.

Lemma keeps_groupsFrom fuel path first all seen : keeps JK (groupsFrom c fuel path first all seen).
Proof. revert first all seen. induction fuel as [|fuel IH]; intros; cbn [groupsFrom]; repeat first [apply IH | keeping | apply keeps_get]. Qed.

Lemma keeps_membersFrom fuel gid first all seen : keeps JK (membersFrom c fuel gid first all seen).
Proof. revert first all seen. induction fuel as [|fuel IH]; intros; cbn [membersFrom]; repeat first [apply IH | keeping | apply keeps_get]. Qed.

Lemma keeps_collectGroup depth fuel rep pp acc : keeps JK (collectGroup c depth fuel rep pp acc).
Proof.
  revert rep pp acc. induction depth as [|depth IH]; intros; cbn [collectGroup]; unfold listMembers, listGroupsPage;
    repeat first [apply IH | keeping | apply keeps_membersFrom | apply keeps_groupsFrom].
Qed.

Lemma keeps_ListGroups depth fuel : keeps JK (ListGroups c depth fuel).
Proof. unfold ListGroups, listGroupsPage. repeat first [apply keeps_collectGroup | keeping | apply keeps_groupsFrom]. Qed.
Lemma keeps_ReadGroup fuel id : keeps JK (ReadGroup c fuel id).
Proof. unfold ReadGroup, getOptional, listMembers. repeat first [apply keeps_attempts | keeping | apply keeps_membersFrom]. Qed.
End source_keeps.

(** ** A server that lists a finite tree of groups *)
Section honest_server.
Context {S : Type} `{Env S} (c : Client).
Context (secret : string) (Hsecret : steadyToken (kc_clientSecret c) secret).

(** The token endpoint always hands out a token. *)
Definition grants_tokens : Prop := ∀ s, ∃ h body s' p,
  env_http (tokenRequest c secret) s = (Ok (MkResp 200 h (Some body)), s') ∧
  decToken body = Some p ∧ tp_AccessToken p ≠ "".

(** At [path] the server lists [all]: a page is a prefix of what is left, and
    is empty only at the end. *)
Definition serves {A} (dec : json → option (list A)) (path : string) (all : list A) : Prop := ∀ tok k s, ∃ h body s' page,
  env_http (getRequest c tok path (pageQuery (Z.of_nat k))) s = (Ok (MkResp 200 h (Some body)), s') ∧
  dec body = Some page ∧ page `prefix_of` drop k all ∧ ((k < length all)%nat → page ≠ []).

Lemma now_run (w : KC S) : ∃ t w', now w = (Ok t, w').
Proof. unfold now, zoom, timeNow. destruct (env_now _) as [t s]. by eexists _, _. Qed.

Lemma token_run (w : KC S) : grants_tokens → ∃ tok w', token c w = (Ok tok, w').
Proof.
  intros Hg. unfold token. erewrite bind_run by reflexivity.
  assert (∃ b w1, (if String.eqb (kw_accessToken w) "" then mret false
     else t ← now; mret (before (add t (30 * Second)) (kw_tokenExpiry w))) w = (Ok b, w1)) as (b & w1 & Hb).
  { destruct (String.eqb _ _); [by eexists _, _|]. destruct (now_run w) as (t & w' & Ht).
    erewrite bind_run by exact Ht. by eexists _, _. }
  cbn [fst snd]. erewrite bind_run by exact Hb. destruct b; [by eexists _, _|].
  destruct (Hsecret (kw_sys w1)) as [s0 Hload].
  erewrite bind_run; [|apply wrap_run; unfold zoom; cbn [view lens_kw_sys]; by rewrite Hload].
  set (w2 := update _ _). destruct (Hg (sys_env (kw_sys w2))) as (h & body & s' & p & He & Hd & Hne).
  erewrite bind_run; [|unfold zoom, httpDo; cbn [view lens_kw_sys]; rewrite He; reflexivity].
  set (w3 := update _ _). cbn [rs_status rs_body]. change (is2xx 200) with true. cbn [negb mbind option_bind].
  rewrite Hd. apply String.eqb_neq in Hne. rewrite Hne. destruct (now_run w3) as (t & w4 & Ht).
  erewrite bind_run by exact Ht. erewrite bind_run by reflexivity. by eexists _, _.
Qed.

(** A request that is answered. *)
Lemma ask_run {A} (dec : json → option A) path query (Q : A → Prop) (w : KC S) : grants_tokens →
  (∀ tok s, ∃ h body s' a, env_http (getRequest c tok path query) s = (Ok (MkResp 200 h (Some body)), s') ∧ dec body = Some a ∧ Q a) →
  ∃ a w', getOptional c path query dec w = (Ok (Some a), w') ∧ Q a.
Proof.
  intros Hg Hs. destruct (token_run w Hg) as (tok & w1 & Ht).
  destruct (Hs tok (sys_env (kw_sys w1))) as (h & body & s' & a & He & Hd & Hq).
  eexists a, _. split; [|done]. unfold getOptional. cbn [getAttempts]. erewrite bind_run by exact Ht.
  erewrite bind_run; [|unfold zoom, httpDo; cbn [view lens_kw_sys]; rewrite He; reflexivity].
  cbn [rs_status rs_body]. change (200 =? 401) with false. change (200 =? 404) with false. change (is2xx 200) with true.
  cbn [negb andb mbind option_bind]. rewrite Hd. reflexivity.
Qed.

Lemma get_run {A} (dec : json → option (list A)) path all k (w : KC S) :
  grants_tokens → serves dec path all → ∃ page w', get c path (pageQuery (Z.of_nat k)) dec w = (Ok page, w') ∧
    page `prefix_of` drop k all ∧ ((k < length all)%nat → page ≠ []).
Proof.
  intros Hg Hs. destruct (ask_run dec path (pageQuery (Z.of_nat k)) (λ page, page `prefix_of` drop k all ∧ ((k < length all)%nat → page ≠ [])) w Hg)
    as (page & w' & Hrun & Hp); [intros tok s; apply Hs|].
  exists page, w'. split; [|exact Hp]. unfold get. by erewrite bind_run by exact Hrun.
Qed.

(** The next page: what was read, and what is left. *)
Lemma page_split {A} (page all : list A) k : page `prefix_of` drop k all →
  drop k all = page ++ drop (k + length page) all ∧ take (k + length page) all = take k all ++ page.
Proof.
  intros [rest Hr]. rewrite <-drop_drop, Hr, drop_app_length. split; [done|].
  rewrite <-(take_drop k all) at 1. destruct (decide (k ≤ length all)%nat) as [Hk|Hk].
  - assert (length (take k all) = k) as Hl by (rewrite length_take; lia).
    rewrite <-Hl at 1. rewrite take_app_add, Hr, take_app_length. done.
  - rewrite drop_ge in * by lia. destruct page; [|done]. rewrite !(right_id_L [] (++)), (take_ge all) by lia.
    by rewrite take_ge by lia.
Qed.

Lemma markSeen_page {A} (id : A → string) page all k : NoDup (id <$> all) → page `prefix_of` drop k all →
  markSeen (id <$> page) (list_to_set (id <$> take k all)) = Some (list_to_set (id <$> take (k + length page) all)).
Proof.
  intros Hnd Hp. destruct (page_split page all k Hp) as [Hd Ht].
  assert (NoDup ((id <$> take k all) ++ (id <$> page))) as Hnd'.
  { rewrite <-fmap_app, <-Ht. rewrite <-(take_drop (k + length page) all), fmap_app in Hnd.
    by apply NoDup_app in Hnd as [? _]. }
  apply NoDup_app in Hnd' as (_ & Hdis & Hpage). rewrite markSeen_fresh; [|done|].
  - f_equal. rewrite Ht, fmap_app, list_to_set_app_L. set_solver.
  - intros i Hi Hs. rewrite elem_of_list_to_set in Hs. by apply (Hdis i).
Qed.

Lemma groupsFrom_run path all fuel k acc (w : KC S) :
  grants_tokens → serves (decList decGroupRep) path all → NoDup (gr_ID <$> all) → (length all - k < fuel)%nat →
  ∃ w', groupsFrom c fuel path (Z.of_nat k) acc (list_to_set (gr_ID <$> take k all)) w = (Ok (acc ++ drop k all), w').
Proof.
  intros Hg Hs Hnd. revert k acc w. induction fuel as [|fuel IH]; intros k acc w Hf; [lia|].
  destruct (get_run _ path all k w Hg Hs) as (page & w1 & Hget & Hp & Hne). cbn [groupsFrom].
  erewrite bind_run by exact Hget. destruct page as [|x page].
  { exists w1. assert (¬ (k < length all)%nat) as Hk by (intros Hk; by apply Hne).
    rewrite drop_ge by lia. by rewrite (right_id_L [] (++)). }
  rewrite (markSeen_page _ _ _ _ Hnd Hp). destruct (page_split _ _ _ Hp) as [Hd _].
  rewrite <-Nat2Z.inj_add. destruct (IH (k + length (x :: page))%nat (acc ++ (x :: page)) w1) as (w' & Hw').
  { destruct (decide (k < length all)%nat) as [Hk|Hk]; [simpl; lia|]. rewrite drop_ge in Hp by lia.
    by apply prefix_nil_not in Hp. }
  exists w'. rewrite Hw', <-(assoc_L (++)). by rewrite Hd.
Qed.

Lemma membersFrom_run gid all fuel k acc (w : KC S) :
  grants_tokens → serves (decList decUserRep) (membersPath c gid) all → NoDup (ur_ID <$> all) → (length all - k < fuel)%nat →
  ∃ w', membersFrom c fuel gid (Z.of_nat k) acc (list_to_set (ur_ID <$> take k all)) w =
    (Ok (acc ++ enabledUsers (drop k all)), w').
Proof.
  intros Hg Hs Hnd. revert k acc w. induction fuel as [|fuel IH]; intros k acc w Hf; [lia|].
  destruct (get_run _ _ all k w Hg Hs) as (page & w1 & Hget & Hp & Hne). cbn [membersFrom].
  erewrite bind_run by exact Hget. destruct page as [|x page].
  { exists w1. assert (¬ (k < length all)%nat) as Hk by (intros Hk; by apply Hne).
    rewrite drop_ge by lia. cbn. by rewrite (right_id_L [] (++)). }
  rewrite (markSeen_page _ _ _ _ Hnd Hp). destruct (page_split _ _ _ Hp) as [Hd _].
  rewrite <-Nat2Z.inj_add. destruct (IH (k + length (x :: page))%nat (acc ++ enabledUsers (x :: page)) w1) as (w' & Hw').
  { destruct (decide (k < length all)%nat) as [Hk|Hk]; [simpl; lia|]. rewrite drop_ge in Hp by lia.
    by apply prefix_nil_not in Hp. }
  exists w'. rewrite Hw', <-(assoc_L (++)). f_equal. f_equal. f_equal. rewrite Hd. unfold enabledUsers.
  by rewrite List.filter_app, fmap_app.
Qed.

(** The server shows one group, complete, and lists its members. *)
Record shown (rep : groupRepresentation) (all : list userRepresentation) (fuel : nat) : Prop := {
  sh_tokens : grants_tokens;
  sh_group tok s : ∃ h body s', env_http (getRequest c tok (groupPath c (gr_ID rep)) brief) s = (Ok (MkResp 200 h (Some body)), s') ∧
    decGroupRep body = Some rep;
  sh_complete : gr_ID rep ≠ "" ∧ gr_Name rep ≠ "" ∧ gr_Path rep ≠ "";
  sh_members : serves (decList decUserRep) (membersPath c (gr_ID rep)) all;
  sh_nodup : NoDup (ur_ID <$> all) ∧ (length all < fuel)%nat
}.

(** The targeted read returns the group as it is, with its enabled members. *)
Lemma ReadGroup_run rep all fuel w : shown rep all fuel →
  ∃ w', ReadGroup c fuel (gr_ID rep) w = (Ok (Some (MkGroup (gr_ID rep) (gr_Name rep) (gr_Path rep) (enabledUsers all))), w').
Proof.
  intros [Ht Hg (Hi & Hn & Hp) Hm [Hnd Hl]]. unfold ReadGroup.
  apply String.eqb_neq in Hi, Hn, Hp. rewrite Hi.
  destruct (ask_run decGroupRep (groupPath c (gr_ID rep)) brief (λ g, g = rep) w Ht) as (g & w1 & Hrun & ->).
  { intros tok s. destruct (Hg tok s) as (h & body & s' & He & Hd). by exists h, body, s', rep. }
  erewrite bind_run by (apply wrap_run; exact Hrun). cbn beta iota. rewrite Hi, Hn, Hp, String.eqb_refl. cbn [orb negb].
  destruct (membersFrom_run (gr_ID rep) all fuel 0 [] w1 Ht Hm Hnd) as (w2 & Hrun2); [lia|].
  erewrite bind_run by (apply wrap_run; exact Hrun2). by eexists.
Qed.

(** The tree: the root groups, the children and the members of each group. *)
Context (roots : list groupRepresentation) (kids : string → list groupRepresentation)
  (mems : string → list userRepresentation).

Inductive reach : groupRepresentation → Prop :=
| reach_root r : r ∈ roots → reach r
| reach_kid r k : reach r → k ∈ kids (gr_ID r) → reach k.

(** Everything the server lists is one of finitely many groups with an
    identifier and a name, no listing names anything twice or has [fuel] entries. *)
Record tree (ids : gset string) (fuel : nat) : Prop := {
  tr_tokens : grants_tokens;
  tr_roots : serves (decList decGroupRep) (groupsPath c) roots;
  tr_kids r : reach r → serves (decList decGroupRep) (childrenPath c (gr_ID r)) (kids (gr_ID r));
  tr_mems r : reach r → serves (decList decUserRep) (membersPath c (gr_ID r)) (mems (gr_ID r));
  tr_ids r : reach r → gr_ID r ∈ ids ∧ gr_ID r ≠ "" ∧ gr_Name r ≠ "";
  tr_roots_nodup : NoDup (gr_ID <$> roots) ∧ (length roots < fuel)%nat;
  tr_nodup r : reach r → NoDup (gr_ID <$> kids (gr_ID r)) ∧ NoDup (ur_ID <$> mems (gr_ID r)) ∧
    (length (kids (gr_ID r)) < fuel)%nat ∧ (length (mems (gr_ID r)) < fuel)%nat
}.

(** [g] is a reachable group with its members, its children among [seen]. *)
Definition exact_group (seen : gset string) (g : Group) : Prop :=
  ∃ r, reach r ∧ g_ID g = gr_ID r ∧ g_Name g = gr_Name r ∧ g_Members g = enabledUsers (mems (gr_ID r)) ∧
    (gr_Path r ≠ "" → g_Path g = gr_Path r) ∧ ∀ k, k ∈ kids (gr_ID r) → gr_ID k ∈ seen.

Lemma exact_group_mono seen seen' g : seen ⊆ seen' → exact_group seen g → exact_group seen' g.
Proof. intros Hsub (r & H1 & H2 & H3 & H4 & H5 & H6). exists r. split_and!; try done. intros k Hk. by apply Hsub, H6. Qed.

Notation collected := (gset string * list Group)%type.

Record gathers (acc0 acc : collected) : Prop := {
  ga_ok : acc_ok acc;
  ga_sub : acc0.1 ⊆ acc.1;
  ga_new : ∃ new, acc.2 = acc0.2 ++ new ∧ ∀ g, g ∈ new → exact_group acc.1 g
}.

Lemma gathers_refl acc : acc_ok acc → gathers acc acc.
Proof.
  intros Hok. split; [done|done|]. exists []. split; [by rewrite (right_id_L [] (++))|].
  intros g Hg. by apply elem_of_nil in Hg.
Qed.

Lemma gathers_trans acc0 acc1 acc2 : gathers acc0 acc1 → gathers acc1 acc2 → gathers acc0 acc2.
Proof.
  intros [_ Hs1 (n1 & E1 & C1)] [Hok Hs2 (n2 & E2 & C2)]. split; [done|by etrans|].
  exists (n1 ++ n2). split; [by rewrite E2, E1, (assoc_L (++))|]. intros g [Hg|Hg]%elem_of_app; [|by apply C2].
  eapply exact_group_mono; [exact Hs2|by apply C1].
Qed.

Lemma collectAll_run (f : collected → groupRepresentation → M (KC S) err collected) reps acc0 w :
  acc_ok acc0 →
  (∀ rep acc w, rep ∈ reps → acc_ok acc → acc0.1 ⊆ acc.1 →
     ∃ acc' w', f acc rep w = (Ok acc', w') ∧ gathers acc acc' ∧ gr_ID rep ∈ acc'.1) →
  ∃ acc w', mfold f acc0 reps w = (Ok acc, w') ∧ gathers acc0 acc ∧ ∀ rep, rep ∈ reps → gr_ID rep ∈ acc.1.
Proof.
  revert acc0 w. induction reps as [|rep reps IH]; intros acc0 w Hok Hf; cbn [mfold].
  { exists acc0, w. split; [done|]. split; [by apply gathers_refl|]. intros rep Hr. by apply elem_of_nil in Hr. }
  destruct (Hf rep acc0 w) as (acc1 & w1 & Hrun & G1 & Hin); [by left|done|done|].
  destruct (IH acc1 w1) as (acc2 & w2 & Hrun2 & G2 & Hall); [by destruct G1| |].
  { intros r acc w' Hr Hacc Hsub. apply Hf; [by right|done|]. destruct G1. by etrans. }
  exists acc2, w2. split; [by erewrite bind_run by exact Hrun|]. split; [by eapply gathers_trans|].
  intros r [->|Hr]%elem_of_cons; [|by apply Hall]. destruct G2 as [_ Hs _]. by apply Hs.
Qed.

Lemma collectGroup_run ids fuel depth rep parentPath acc w : tree ids fuel →
  reach rep → acc_ok acc → (size (ids ∖ acc.1) < depth)%nat →
  ∃ acc' w', collectGroup c depth fuel rep parentPath acc w = (Ok acc', w') ∧ gathers acc acc' ∧ gr_ID rep ∈ acc'.1.
Proof.
  intros T. revert rep parentPath acc w. induction depth as [|depth IH]; intros rep pp acc w Hr Hok Hd; [lia|].
  cbn [collectGroup]. destruct (tr_ids _ _ T rep Hr) as (Hin & Hid & Hname).
  pose proof Hid as Hid'. apply String.eqb_neq in Hid, Hname. rewrite Hid, Hname. cbn [orb].
  case_decide as Hseen; [exists acc, w; split; [done|]; split; [by apply gathers_refl|done]|].
  destruct (tr_nodup _ _ T rep Hr) as (Nk & Nm & Lk & Lm).
  destruct (membersFrom_run (gr_ID rep) _ fuel 0 [] w (tr_tokens _ _ T) (tr_mems _ _ T rep Hr) Nm) as (w1 & H1); [lia|].
  erewrite bind_run; [|apply wrap_run; exact H1].
  destruct (groupsFrom_run (childrenPath c (gr_ID rep)) _ fuel 0 [] w1 (tr_tokens _ _ T) (tr_kids _ _ T rep Hr) Nk)
    as (w2 & H2); [lia|].
  erewrite bind_run; [|apply wrap_run; exact H2]. cbn [drop app].
  set (g := MkGroup _ _ _ _).
  assert (acc_ok ({[gr_ID rep]} ∪ acc.1, acc.2 ++ [g])) as Hok'.
  { destruct Hok as [Hs Hnd]. split; cbn [fst snd]; rewrite fmap_app.
    - rewrite list_to_set_app_L, <-Hs. cbn. set_solver.
    - apply NoDup_snoc. split; [|done]. cbn. by rewrite <-(elem_of_list_to_set (C:=gset string)), <-Hs. }
  edestruct (collectAll_run (λ acc child, collectGroup c depth fuel child (pathOf pp rep) acc) (kids (gr_ID rep)) _ w2 Hok')
    as (acc' & w' & Hrun & [Hok3 Hsub (new & E & C)] & Hall).
  { intros k a w3 Hk Hoka Hsuba. cbn [fst] in Hsuba. apply IH; [by eapply reach_kid|done|].
    apply Nat.lt_le_trans with (size (ids ∖ acc.1)); [|lia]. apply subset_size. split; [set_solver|].
    intros Hsub. specialize (Hsub (gr_ID rep)). set_solver. }
  exists acc', w'. split; [exact Hrun|]. cbn [fst snd] in *.
  assert (gr_ID rep ∈ acc'.1) as Hin' by (apply Hsub; set_solver). split; [|done].
  split; [done|set_solver|]. exists ([g] ++ new). split; [by rewrite E, (assoc_L (++))|].
  intros g' [->%list_elem_of_singleton|Hg]%elem_of_app; [|by apply C].
  exists rep. split_and!; try done. intros Hp. unfold g, pathOf. cbn. apply String.eqb_neq in Hp. by rewrite Hp.
Qed.

(** A snapshot of the tree: every group once, with its name, its path when it
    has one and exactly its enabled members. *)
Definition exact_snapshot (groups : list Group) : Prop := NoDup (g_ID <$> groups) ∧
  (∀ r, reach r → gr_ID r ∈ g_ID <$> groups) ∧
  ∀ g, g ∈ groups → ∃ r, reach r ∧ g_ID g = gr_ID r ∧ g_Name g = gr_Name r ∧
    (gr_Path r ≠ "" → g_Path g = gr_Path r) ∧ g_Members g = enabledUsers (mems (gr_ID r)).

Lemma ListGroups_run ids depth fuel w : tree ids fuel → (size ids < depth)%nat →
  ∃ groups w', ListGroups c depth fuel w = (Ok groups, w') ∧ exact_snapshot groups.
Proof.
  intros T Hd. destruct (tr_roots_nodup _ _ T) as [Nr Lr].
  destruct (groupsFrom_run (groupsPath c) _ fuel 0 [] w (tr_tokens _ _ T) (tr_roots _ _ T) Nr) as (w1 & H1); [lia|].
  assert (acc_ok (∅, [])) as Hok by (split; [done|constructor]).
  edestruct (collectAll_run (λ acc root, collectGroup c depth fuel root "" acc) roots _ w1 Hok)
    as (acc & w2 & Hrun & [[Hs Hnd] _ (new & E & C)] & Hall).
  { intros rep a w3 Hr Hoka _. apply (collectGroup_run ids); [done|by apply reach_root|done|].
    eapply Nat.le_lt_trans; [|exact Hd]. apply subseteq_size. set_solver. }
  destruct acc as [seen groups]. cbn [fst snd app] in *. subst new seen.
  exists groups, w2. split.
  { unfold ListGroups. erewrite bind_run; [|apply wrap_run; exact H1]. cbn [drop app]. by erewrite bind_run by exact Hrun. }
  split; [done|]. split.
  - intros r Hr. rewrite <-(elem_of_list_to_set (C:=gset string)). induction Hr as [r Hr|r k Hr IH Hk]; [by apply Hall|].
    rewrite elem_of_list_to_set, list_elem_of_fmap in IH. destruct IH as (g & Hg & Hin).
    destruct (C g Hin) as (r' & _ & Hid & _ & _ & _ & Hkids). apply Hkids. by rewrite <-Hid, <-Hg.
  - intros g Hg. destruct (C g Hg) as (r & H2 & H3 & H4 & H5 & H6 & _). by exists r.
Qed.

(** [C16] The descent terminates and is exact: against a server that lists a
    finite tree of groups, [ListGroups] succeeds and returns every group of
    the tree once, with its name, its path when it has one and exactly its
    enabled members; a depth above the number of groups and fuel above the
    length of every listing are enough. *)
Theorem snapshot_exact ids depth fuel w : tree ids fuel → (size ids < depth)%nat →
  ∃ groups w', ListGroups c depth fuel w = (Ok groups, w') ∧ NoDup (g_ID <$> groups) ∧
    (∀ r, reach r → gr_ID r ∈ g_ID <$> groups) ∧
    ∀ g, g ∈ groups → ∃ r, reach r ∧ g_ID g = gr_ID r ∧ g_Name g = gr_Name r ∧
      (gr_Path r ≠ "" → g_Path g = gr_Path r) ∧ g_Members g = enabledUsers (mems (gr_ID r)).
Proof. apply ListGroups_run. Qed.
End honest_server.

(** ** A small Keycloak server: a group with one child, a member in each, of
    whom one is disabled *)
Definition kcClient : Client := NewWithCredential "https://sso.example/" "corp" "groupbridge" (MkLoader "" "" (Some "s3cret")).

Definition kcTable (url : string) : list json :=
  if String.eqb url "https://sso.example/admin/realms/corp/groups" then
    [JObj [("id", JStr "g1"); ("name", JStr "team"); ("path", JStr "/team")]]
  else if String.eqb url "https://sso.example/admin/realms/corp/groups/g1/children" then
    [JObj [("id", JStr "g2"); ("name", JStr "sub"); ("path", JStr "")]]
  else if String.eqb url "https://sso.example/admin/realms/corp/groups/g1/members" then
    [JObj [("id", JStr "a1"); ("username", JStr "alice"); ("enabled", JBool true)]]
  else if String.eqb url "https://sso.example/admin/realms/corp/groups/g2/members" then
    [JObj [("id", JStr "b1"); ("username", JStr "bob"); ("enabled", JBool false)]]
  else [].

(** A Keycloak that hands out tokens, lists what a table has for a path, all on
    the first page, and shows one group. *)
Definition tableServer (table : string → list json) (r : HttpReq) : outcome err HttpResp :=
  if String.eqb (rq_method r) "POST" then
    Ok (MkResp 200 [] (Some (JObj [("access_token", JStr "tok"); ("expires_in", JInt 300)])))
  else match rq_query r with
       | [_; (_, first); _] => Ok (MkResp 200 [] (Some (JArr (if String.eqb first (itoa 0) then table (rq_url r) else []))))
       | _ => Ok (MkResp 200 [] (Some (JObj [("id", JStr "g1"); ("name", JStr "team"); ("path", JStr "/team")])))
       end.

Definition kcServer (r : HttpReq) (s : Time) : outcome err HttpResp * Time := (tableServer kcTable r, s).

Definition kcEnv : Env Time :=
  scriptEnv kcServer (λ _, None) (λ _, Err (EMsg "no file")) (λ t, (t, t)) (λ _ s, (false, s)).

Definition kcWorld : KC Time := MkKC "" zeroTime (MkSys zeroTime [] ∅ ∅).

Definition rep1 : groupRepresentation := MkGroupRep "g1" "team" "/team" 0 [].
Definition rep2 : groupRepresentation := MkGroupRep "g2" "sub" "" 0 [].
Definition kcKids (id : string) : list groupRepresentation := if decide (id = "g1") then [rep2] else [].
Definition kcMems (id : string) : list userRepresentation :=
  if decide (id = "g1") then [MkUserRep "a1" "alice" "" true]
  else if decide (id = "g2") then [MkUserRep "b1" "bob" "" false] else [].

Definition snapshotGroups : list Group :=
  [MkGroup "g1" "team" "/team" [MkUser "a1" "alice" ""]; MkGroup "g2" "sub" "/team/sub" []].
Definition kcEnd : KC Time := snd (ListGroups (H := kcEnv) kcClient 3 3 kcWorld).

Lemma kc_result : fst (ListGroups (H := kcEnv) kcClient 3 3 kcWorld) = Ok snapshotGroups.
Proof. vm_compute. reflexivity. Qed.

Lemma kc_run : ListGroups (H := kcEnv) kcClient 3 3 kcWorld = (Ok snapshotGroups, kcEnd).
Proof. rewrite <-kc_result. unfold kcEnd. apply surjective_pairing. Qed.

Lemma snapshot_complete_witness :
  ∃ l roots, listed kcClient gr_ID (decList decGroupRep) (groupsPath kcClient) 0 ∅ l roots ∧
    ∀ g, g ∈ snapshotGroups → complete_group kcClient l (list_to_set (g_ID <$> snapshotGroups)) g.
Proof.
  destruct (snapshot_complete (H := kcEnv) kcClient 3 3 kcWorld snapshotGroups kcEnd kc_run)
    as (l & roots & _ & _ & _ & Hr & _ & Hall).
  exists l, roots. split; [exact Hr|exact Hall].
Defined.

Definition kcEnd1 : KC Time := snd (ReadGroup (H := kcEnv) kcClient 3 "g1" kcWorld).

Lemma kc_read_result : fst (ReadGroup (H := kcEnv) kcClient 3 "g1" kcWorld) =
  Ok (Some (MkGroup "g1" "team" "/team" [MkUser "a1" "alice" ""])).
Proof. vm_compute. reflexivity. Qed.

Lemma kc_read : ReadGroup (H := kcEnv) kcClient 3 "g1" kcWorld =
  (Ok (Some (MkGroup "g1" "team" "/team" [MkUser "a1" "alice" ""])), kcEnd1).
Proof. rewrite <-kc_read_result. unfold kcEnd1. apply surjective_pairing. Qed.

Lemma read_group_exact_witness :
  ∃ l xs, listed kcClient ur_ID (decList decUserRep) (membersPath kcClient "g1") 0 ∅ l xs ∧
    [MkUser "a1" "alice" ""] = enabledUsers xs.
Proof.
  destruct (read_group_exact (H := kcEnv) kcClient 3 "g1" kcWorld _ kcEnd1 kc_read)
    as (l & _ & _ & _ & _ & _ & _ & xs & Hx & He).
  exists l, xs. split; [exact Hx|exact He].
Defined.

Lemma kc_reach r : reach [rep1] kcKids r → r = rep1 ∨ r = rep2.
Proof.
  induction 1 as [r Hr|r k Hr [-> | ->] Hk].
  - left. by apply list_elem_of_singleton in Hr.
  - right. by apply list_elem_of_singleton in Hk.
  - by apply elem_of_nil in Hk.
Qed.

Lemma table_serves {S A} `{Env S} table (dec : json → option (list A)) path all :
  (∀ tok k s, env_http (getRequest kcClient tok path (pageQuery (Z.of_nat k))) s =
    (tableServer table (getRequest kcClient tok path (pageQuery (Z.of_nat k))), s)) →
  dec (JArr (table ("https://sso.example" +:+ path))) = Some all → dec (JArr []) = Some [] → (length all ≤ 1)%nat →
  serves kcClient dec path all.
Proof.
  intros Henv Hall Hnil Hlen tok k s. rewrite Henv. destruct k as [|k].
  - eexists _, _, s, all. split; [reflexivity|]. split; [exact Hall|]. split; [done|]. by destruct all; simpl; [lia|].
  - exists [], (JArr []), s, []. split; [|split; [done|split; [apply prefix_nil|lia]]].
    unfold tableServer. cbn [rq_method getRequest rq_query pageQuery brief app].
    change (String.eqb "GET" "POST") with false. cbn match.
    destruct (String.eqb_spec (itoa (Z.of_nat (Datatypes.S k))) (itoa 0)) as [Heq|]; [|done].
    apply (inj pretty) in Heq. lia.
Qed.

Lemma kc_serves {A} (dec : json → option (list A)) path all :
  dec (JArr (kcTable ("https://sso.example" +:+ path))) = Some all → dec (JArr []) = Some [] → (length all ≤ 1)%nat →
  serves (H := kcEnv) kcClient dec path all.
Proof. by apply table_serves. Qed.

Lemma kc_tree : tree (H := kcEnv) kcClient "s3cret" [rep1] kcKids kcMems {["g1"; "g2"]} 2.
Proof.
  split.
  - intros s. eexists _, _, s, _. split; [reflexivity|]. split; [reflexivity|done].
  - apply kc_serves; [vm_compute; reflexivity|done|simpl; lia].
  - intros r [-> | ->]%kc_reach; apply kc_serves; try done; try (vm_compute; reflexivity); simpl; lia.
  - intros r [-> | ->]%kc_reach; apply kc_serves; try done; try (vm_compute; reflexivity); simpl; lia.
  - intros r [-> | ->]%kc_reach; split; [set_solver|done|set_solver|done].
  - split; [apply NoDup_singleton|simpl; lia].
  - intros r [-> | ->]%kc_reach; split_and!; try apply NoDup_singleton; try apply NoDup_nil_2; simpl; lia.
Qed.

Lemma snapshot_exact_witness : ∃ groups w', ListGroups (H := kcEnv) kcClient 3 2 kcWorld = (Ok groups, w') ∧
  "g2" ∈ g_ID <$> groups.
Proof.
  destruct (snapshot_exact (H := kcEnv) kcClient "s3cret" (steady_static (kc_clientSecret kcClient) "s3cret" _ eq_refl eq_refl) [rep1] kcKids kcMems
    {["g1"; "g2"]} 3 2 kcWorld kc_tree) as (groups & w' & Hrun & _ & Hall & _).
  - vm_compute. lia.
  - exists groups, w'. split; [exact Hrun|]. apply (Hall rep2). apply (reach_kid _ _ rep1); [|by left].
    apply reach_root. by left.
Defined.
