(* ===== verification/Vault.v ===== *)
(** * The Vault provider ([internal/provider/vault/client.go])

    The provider only verifies what GitOps owns.  Its methods run over [VT]:
    the cached token and the outside.  Which non-ASCII runes [%q] prints as
    they are is Unicode's table, a parameter. *)

From S2P Require Import Prelude GoStrings Sha256 GoTime Json World State Model Credential Config.

(** [strconv.Quote]. *)
Fixpoint hexDigits (n : nat) (z : Z) : string :=
  match n with
  | O => ""
  | S n => hexDigits n (z / 16) +:+ String (hexLower (z mod 16)) ""
  end.

Definition backslash : ascii := "092".
Definition quoteMark : ascii := "034".
Definition escaped (s : string) : string := String backslash s.

Definition quoteRune (isPrint : Z → bool) (r : rune) : string :=
  match r with
  | RBad a => escaped ("x" +:+ hexDigits 2 (byte_of a))
  | RGood z raw =>
      if (z =? byte_of quoteMark) || (z =? byte_of backslash) then escaped raw
      else if (32 <=? z) && (z <? 127) then raw
      else if (128 <=? z) && isPrint z then raw
      else if z =? 7 then escaped "a" else if z =? 8 then escaped "b" else if z =? 12 then escaped "f"
      else if z =? 10 then escaped "n" else if z =? 13 then escaped "r" else if z =? 9 then escaped "t"
      else if z =? 11 then escaped "v"
      else if (z <? 32) || (z =? 127) then escaped ("x" +:+ hexDigits 2 z)
      else if z <? 65536 then escaped ("u" +:+ hexDigits 4 z)
      else escaped ("U" +:+ hexDigits 8 z)
  end.

Definition goQuote (isPrint : Z → bool) (s : string) : string :=
  String quoteMark (concat_strings (map (quoteRune isPrint) (runes s)) +:+ String quoteMark "").

Module Vault.
Record Options : Type := MkOptions
  { op_KubernetesAuthMount : string;
    op_KubernetesRole : string;
    op_ServiceAccountTokenFile : string;
    op_OIDCMount : string;
    op_KVMount : string }.

Record Client : Type := MkClient { vc_name : string; vc_baseURL : string; vc_options : Options }.

Definition New (name baseURL : string) (options : Options) : Client :=
  MkClient name (trimRight isSlash baseURL) options.

(** ** API objects *)
Record vaultAlias : Type := MkAlias
  { va_ID : string; va_Name : string; va_MountAccessor : string; va_CanonicalID : string }.

Record vaultGroup : Type := MkVGroup
  { vg_ID : string; vg_Name : string; vg_Type : string; vg_Policies : list string; vg_Metadata : gmap string string }.

Record mountInfo : Type := MkMount
  { mi_Accessor : string; mi_Path : string; mi_Type : string; mi_Options : gmap string string }.

Definition noAlias : vaultAlias := MkAlias "" "" "" "".
Definition noVGroup : vaultGroup := MkVGroup "" "" "" [] ∅.

Definition stepAlias : vaultAlias → string → json → option vaultAlias :=
  λ '(MkAlias i n m c) k v,
    if field k "id" then x ← decString i v; Some (MkAlias x n m c)
    else if field k "name" then x ← decString n v; Some (MkAlias i x m c)
    else if field k "mount_accessor" then x ← decString m v; Some (MkAlias i n x c)
    else if field k "canonical_id" then x ← decString c v; Some (MkAlias i n m x)
    else Some (MkAlias i n m c).

Definition stepGroup : vaultGroup → string → json → option vaultGroup :=
  λ '(MkVGroup i n t p m) k v,
    if field k "id" then x ← decString i v; Some (MkVGroup x n t p m)
    else if field k "name" then x ← decString n v; Some (MkVGroup i x t p m)
    else if field k "type" then x ← decString t v; Some (MkVGroup i n x p m)
    else if field k "policies" then x ← decList (decString "") v; Some (MkVGroup i n t x m)
    else if field k "metadata" then x ← decStringMap m v; Some (MkVGroup i n t p x)
    else Some (MkVGroup i n t p m).

Definition stepMount : mountInfo → string → json → option mountInfo :=
  λ '(MkMount a p t o) k v,
    if field k "accessor" then x ← decString a v; Some (MkMount x p t o)
    else if field k "path" then x ← decString p v; Some (MkMount a x t o)
    else if field k "type" then x ← decString t v; Some (MkMount a p x o)
    else if field k "options" then x ← decStringMap o v; Some (MkMount a p t x)
    else Some (MkMount a p t o).

(** A response whose only field is [data]. *)
Definition decData {A} (step : A → string → json → option A) (init : A) : json → option A :=
  decStruct (λ cur k v, if field k "data" then decStruct step cur v else Some cur) init.

Definition decMount : json → option mountInfo := decData stepMount (MkMount "" "" "" ∅).
Definition decVGroup : json → option vaultGroup := decData stepGroup noVGroup.

(** A group with its alias: the fields of the embedded group are the outer ones. *)
Definition decAliasGroup : json → option (vaultGroup * vaultAlias) :=
  decData (λ '(g, a) k v,
    if field k "alias" then x ← decStruct stepAlias a v; Some (g, x)
    else x ← stepGroup g k v; Some (x, a)) (noVGroup, noAlias).

Definition decPolicy : json → option string :=
  decData (λ cur k v, if field k "policy" then decString cur v else Some cur) "".

Definition decLogin : json → option (string * Z) :=
  decStruct (λ cur k v,
    if field k "auth" then
      decStruct (λ '(t, l) k v,
        if field k "client_token" then x ← decString t v; Some (x, l)
        else if field k "lease_duration" then x ← decInt l v; Some (t, x)
        else Some (t, l)) cur v
    else Some cur) ("", 0).

(** ** Names and policies *)
Definition quoteP (isPrint : Z → bool) (path : string) : string := "path " +:+ goQuote isPrint path.

Definition quoted (s : string) : string := String quoteMark (s +:+ String quoteMark "").

Fixpoint commaJoin (l : list string) : string :=
  match l with [] => "" | [x] => x | x :: l => x +:+ ", " +:+ commaJoin l end.

Definition capList (l : list string) : string := "[" +:+ commaJoin (map quoted l) +:+ "]".

Definition stanza (isPrint : Z → bool) (path caps : string) : string :=
  quoteP isPrint path +:+ " {" +:+ newline +:+ "  capabilities = " +:+ caps +:+ newline +:+ "}" +:+ newline.

Definition dataCapabilities (profile : string) : list string :=
  if String.eqb profile "editor" then ["create"; "read"; "update"; "patch"; "delete"] else ["read"].

(** The proper ancestors of a secret path, outermost first. *)
Definition ancestors (secretPath : string) : list string :=
  let segments := split "/" secretPath in
  map (λ i, join "/" (take i segments)) (seq 1 (length segments - 1)).

(** The metadata paths that a discoverable organization may list. *)
Definition navPaths (mount secretPath : string) : list string :=
  (mount +:+ "/metadata/") :: map (λ a, mount +:+ "/metadata/" +:+ a) (ancestors secretPath).

Definition navigation (isPrint : Z → bool) (mount secretPath : string) : string :=
  concat_strings (map (λ p, stanza isPrint p (capList ["list"]) +:+ newline) (navPaths mount secretPath)).

Definition policyFor (isPrint : Z → bool) (mount secretPath profile : string) (discoverable : bool) : string :=
  let dataCaps := capList (dataCapabilities profile) in
  (if discoverable then navigation isPrint mount secretPath else "") +:+
  stanza isPrint (mount +:+ "/data/" +:+ secretPath) dataCaps +:+ newline +:+
  stanza isPrint (mount +:+ "/data/" +:+ secretPath +:+ "/*") dataCaps +:+ newline +:+
  stanza isPrint (mount +:+ "/metadata/" +:+ secretPath) (capList ["read"; "list"]) +:+ newline +:+
  stanza isPrint (mount +:+ "/metadata/" +:+ secretPath +:+ "/*") (capList ["read"; "list"]).

Fixpoint dashes (s : string) : string :=
  match s with
  | "" => ""
  | String a s => String (if Ascii.eqb a "/" || Ascii.eqb a "_" then "-"%char else a) (dashes s)
  end.

Definition maxSlug : nat := 38.
Definition isDashByte (a : ascii) : bool := Ascii.eqb a "-" || Ascii.eqb a "_".

Definition managedName (secretPath : string) : string :=
  let slug := dashes secretPath in
  let suffix := hexEncode (String.substring 0 4 (sha256 secretPath)) in
  let slug := if (maxSlug <? String.length slug)%nat then trim isDashByte (String.substring 0 maxSlug slug) else slug in
  "groupbridge-org-" +:+ slug +:+ "-" +:+ suffix.

Definition hashPolicy (policy : string) : string := hexEncode (sha256 policy).

Definition validateGitOpsGroup (group : vaultGroup) (expectedName : string) (expectedMetadata : gmap string string)
    : outcome err unit :=
  if negb (String.eqb (vg_Name group) expectedName) || negb (String.eqb (vg_Type group) "external") then
    Err (EMsg "Vault group is not the expected GitOps-owned external group")
  else if negb (bool_decide (vg_Policies group = [expectedName])) then
    Err (EMsg "Vault group does not attach exactly its compiled policy")
  else if negb (bool_decide (size (vg_Metadata group) = size expectedMetadata)) then
    Err (EMsg "Vault group metadata does not exactly match GitOps intent")
  else if forallb (λ kv, String.eqb (default "" (vg_Metadata group !! kv.1)) kv.2) (map_to_list expectedMetadata)
  then Ok tt
  else Err (EMsg "Vault group metadata does not exactly match GitOps intent").

(** ** The world of the client *)
Record VT (S : Type) : Type := MkVT { vw_token : string; vw_expiresAt : Time; vw_sys : Sys S }.
Arguments MkVT {S} _ _ _.
Arguments vw_token {S} _.
Arguments vw_expiresAt {S} _.
Arguments vw_sys {S} _.

#[export] Program Instance lens_vw_sys S : Lens (VT S) (Sys S) :=
  {| view := vw_sys; update s w := MkVT (vw_token w) (vw_expiresAt w) s |}.
Next Obligation. done. Qed.
Next Obligation. by intros S []. Qed.
Next Obligation. done. Qed.

Section client.
Context {S : Type} `{Env S} (isPrint : Z → bool) (c : Client).
Notation MV := (M (VT S) err).

Definition setToken (token : string) (expiry : Time) : MV unit := modify (λ w, MkVT token expiry (vw_sys w)).
Definition now : MV Time := zoom (W := VT S) (V := Sys S) timeNow.

Definition hasBody (b : payload) : bool := match b with BNone => false | _ => true end.

Definition rawReq (method path : string) (body : payload) (token : string) : HttpReq :=
  MkReq method (vc_baseURL c +:+ "/v1/" +:+ trimLeft isSlash path) []
    ([("Accept", "application/json")] ++
     (if hasBody body then [("Content-Type", "application/json")] else []) ++
     (if String.eqb token "" then [] else [("X-Vault-Token", token)])) body.

Definition rawRequest {A} (method path : string) (body : payload) (init : A) (dec : json → option A) (token : string)
    : MV (Z * A) :=
  o ← zoom (W := VT S) (V := Sys S) (httpDo (rawReq method path body token));
  match o with
  | Err e => mthrow (httpErr "build Vault request" "call Vault API" e)
  | Ok resp =>
      if is2xx (rs_status resp) && negb (rs_status resp =? 204) then
        match rs_body resp ≫= dec with
        | None => mthrow (EMsg "decode Vault API response")
        | Some a => mret (rs_status resp, a)
        end
      else mret (rs_status resp, init)
  end.

Definition loginPath : string := "auth/" +:+ trimSlash (op_KubernetesAuthMount (vc_options c)) +:+ "/login".

Definition loginLocked : MV unit :=
  r ← zoom (W := VT S) (V := Sys S) (readFile (op_ServiceAccountTokenFile (vc_options c)));
  match r with
  | Err e => mthrow (EWrap "read projected Vault service-account token" e)
  | Ok jwt =>
      if String.eqb jwt "" || (1048576 <? byteLen jwt) || String.eqb (trimSpace jwt) "" then
        mthrow (EMsg "projected Vault service-account token is empty or too large")
      else
        '(status, login) ← wrap_err (EWrap "authenticate to Vault with Kubernetes auth")
          (rawRequest "POST" loginPath
            (BJson (JObj [("jwt", encString (trimSpace jwt)); ("role", encString (op_KubernetesRole (vc_options c)))]))
            ("", 0) decLogin "");
        if negb (is2xx status) || String.eqb login.1 "" then mthrow (EMsg "Vault Kubernetes login without a usable token")
        else
          t ← now;
          setToken login.1 (add t (wrap64 (login.2 * Second)))
  end.

Definition ensureToken : MV string :=
  cached ← gets (λ w, (vw_token w, vw_expiresAt w));
  if String.eqb cached.1 "" then loginLocked;; gets vw_token
  else
    t ← now;
    if 30 * Second <? sub cached.2 t then mret cached.1
    else setToken "" cached.2;; loginLocked;; gets vw_token.

Definition clearToken (token : string) : MV unit :=
  modify (λ w, if String.eqb (vw_token w) token then MkVT "" (vw_expiresAt w) (vw_sys w) else w).

Definition request {A} (method path : string) (body : payload) (init : A) (dec : json → option A) : MV A :=
  token ← ensureToken;
  first ← rawRequest method path body init dec token;
  final ← (if first.1 =? 403 then
             clearToken token;;
             token ← ensureToken;
             rawRequest method path body init dec token
           else mret first);
  if final.1 =? 404 then mthrow ENotFound
  else if negb (is2xx final.1) then mthrow (EMsg "Vault API returned an error")
  else mret final.2.

(** The accessor of the OIDC mount and the name of the secret mount. *)
Definition discoverRuntime : MV (string * string) :=
  let oidcName := trimSlash (op_OIDCMount (vc_options c)) in
  auth ← wrap_err (EWrap "discover configured Vault OIDC mount")
    (request "GET" ("sys/internal/ui/mounts/auth/" +:+ pathEscape oidcName) BNone (MkMount "" "" "" ∅) decMount);
  if String.eqb (mi_Accessor auth) "" || negb (String.eqb (mi_Path auth) (oidcName +:+ "/")) ||
     (negb (String.eqb (mi_Type auth) "oidc") && negb (String.eqb (mi_Type auth) "jwt"))
  then mthrow (EMsg "configured Vault OIDC mount does not exist")
  else
    let mountName := trimSlash (op_KVMount (vc_options c)) in
    kv ← wrap_err (EWrap "discover configured Vault secret mount")
      (request "GET" ("sys/internal/ui/mounts/" +:+ pathEscape mountName) BNone (MkMount "" "" "" ∅) decMount);
    if negb (String.eqb (mi_Path kv) (mountName +:+ "/")) || negb (String.eqb (mi_Type kv) "kv") ||
       negb (String.eqb (default "" (mi_Options kv !! "version")) "2")
    then mthrow (EMsg "configured Vault mount must be an existing KV v2 mount")
    else mret (mi_Accessor auth, mountName).

Definition HealthCheck : MV unit := _ ← discoverRuntime; mret tt.

Definition verifyPolicy (name expected : string) : MV unit :=
  r ← attempt (request "GET" ("sys/policies/acl/" +:+ pathEscape name) BNone "" decPolicy);
  match r with
  | Err e => if is_not_found e then mthrow (EMsg "required GitOps-owned Vault policy is missing")
             else mthrow (EWrap "read GitOps-owned Vault policy" e)
  | Ok policy =>
      if negb (String.eqb policy expected)
      then mthrow (EMsg "GitOps-owned Vault policy does not match the expected least-privilege policy") else mret tt
  end.

Definition getGroupByName (name : string) : MV (option vaultGroup) :=
  r ← attempt (request "GET" ("identity/group/name/" +:+ pathEscape name) BNone noVGroup decVGroup);
  match r with
  | Err e => if is_not_found e then mret None else mthrow (EWrap "read GitOps-owned Vault external group" e)
  | Ok g => mret (Some g)
  end.

Definition lookupAlias (name accessor : string) : MV (option (vaultGroup * vaultAlias)) :=
  r ← attempt (request "POST" "identity/lookup/group"
        (BJson (JObj [("alias_mount_accessor", encString accessor); ("alias_name", encString name)]))
        (noVGroup, noAlias) decAliasGroup);
  match r with
  | Err e => if is_not_found e then mret None else mthrow (EWrap "read GitOps-owned Vault group alias" e)
  | Ok (g, a) => if String.eqb (vg_ID g) "" && String.eqb (va_ID a) "" then mret None else mret (Some (g, a))
  end.

(** ** [SyncAccessGroup]: its error carries the result so far. *)
Notation MB := (M (VT S) (AccessResult * err)).

Definition lift {A} (result : AccessResult) (m : MV A) : MB A := wrap_err (λ e, (result, e)) m.
Definition failWith {A} (result : AccessResult) (msg : string) : MB A := mthrow (result, EMsg msg).

Definition set_verified (r : AccessResult) : AccessResult :=
  MkAccessResult (ar_Provider r) (ar_SourceGroup r) (ar_SecretPath r) true (ar_Converged r) (ar_Duration r).
Definition set_converged (r : AccessResult) : AccessResult :=
  MkAccessResult (ar_Provider r) (ar_SourceGroup r) (ar_SecretPath r) (ar_VerifiedPolicy r) true (ar_Duration r).
Definition set_duration (d : Z) (r : AccessResult) : AccessResult :=
  MkAccessResult (ar_Provider r) (ar_SourceGroup r) (ar_SecretPath r) (ar_VerifiedPolicy r) (ar_Converged r) d.

Definition metadataFor (req : AccessSyncRequest) (expectedHash : string) : gmap string string :=
  <["managed-by" := "groupbridge"]> (<["groupbridge-rule" := as_RuleName req]>
    (<["secret-path" := as_SecretPath req]> {["policy-sha256" := expectedHash]})).

Definition syncBody (req : AccessSyncRequest) (result : AccessResult) : MB AccessResult :=
  if negb (String.eqb (as_PolicyMode req) "verify-only") then
    failWith result "Vault policy mode is not supported; all Vault access objects must be GitOps-owned"
  else
    '(accessor, mount) ← lift result discoverRuntime;
    let policyName := managedName (as_SecretPath req) in
    let expectedPolicy := policyFor isPrint mount (as_SecretPath req) (as_AccessProfile req) (as_Discoverable req) in
    lift result (verifyPolicy policyName expectedPolicy);;
    let result := set_verified result in
    found ← lift result (getGroupByName policyName);
    match found with
    | None => failWith result "required GitOps-owned Vault external group is missing"
    | Some group =>
        lift result (of_outcome (validateGitOpsGroup group policyName (metadataFor req (hashPolicy expectedPolicy))));;
        let aliasName := g_Path (as_SourceGroup req) in
        found ← lift result (lookupAlias aliasName accessor);
        match found with
        | Some (aliasGroup, alias) =>
            if negb (String.eqb (vg_ID aliasGroup) (vg_ID group)) || String.eqb (va_ID alias) "" ||
               negb (String.eqb (va_Name alias) aliasName) || negb (String.eqb (va_MountAccessor alias) accessor) ||
               negb (String.eqb (va_CanonicalID alias) (vg_ID group))
            then failWith result "Vault external group lacks its exact GitOps-owned Keycloak full-path OIDC group alias"
            else mret (set_converged result)
        | None => failWith result "Vault external group lacks its exact GitOps-owned Keycloak full-path OIDC group alias"
        end
    end.

Definition SyncAccessGroup (req : AccessSyncRequest) : MB AccessResult :=
  started ← zoom (W := VT S) (V := Sys S) timeNow;
  let result := MkAccessResult (vc_name c) (g_Path (as_SourceGroup req)) (as_SecretPath req) false false 0 in
  r ← attempt (syncBody req result);
  finished ← zoom (W := VT S) (V := Sys S) timeNow;
  match r with
  | Ok res => mret (set_duration (sub finished started) res)
  | Err (res, e) => mthrow (set_duration (sub finished started) res, e)
  end.
End client.
End Vault.
