(* ===== verification/VaultFacts.v ===== *)
(** * The Vault provider only looks

    Every request it sends is a read, a lookup or its own login; access that
    it reports as converged was found in Vault exactly as compiled. *)

From S2P Require Import Prelude GoStrings Sha256 GoTime Json World State Model Credential CredentialFacts Config Paths PathsFacts Vault.
Import Vault.

Section facts.
Context {S : Type} `{Env S} (isPrint : Z → bool) (c : Client).
Implicit Types (w : VT S).
Notation trace w := (sys_trace (vw_sys w)).

Definition apiURL (path : string) : string := vc_baseURL c +:+ "/v1/" +:+ path.

(** A GET, a lookup of a group alias, or the login of the service account. *)
Definition onlyLooks (ex : Exchange) : Prop :=
  rq_method ex.1 = "GET" ∨
  (rq_method ex.1 = "POST" ∧ (rq_url ex.1 = apiURL "identity/lookup/group" ∨ rq_url ex.1 = apiURL (loginPath c))).

Definition looks w0 (l : list Exchange) w : Prop := trace w = trace w0 ++ l ∧ Forall onlyLooks l.

Lemma looks_refl w0 w : trace w = trace w0 → looks w0 [] w.
Proof. intros Ht. split; [by rewrite (right_id_L [] (++))|constructor]. Qed.

Lemma looks_trans w0 l1 w1 l2 w2 : looks w0 l1 w1 → looks w1 l2 w2 → looks w0 (l1 ++ l2) w2.
Proof. intros [H1 F1] [H2 F2]. split; [by rewrite H2, H1, (assoc_L (++))|by apply Forall_app]. Qed.

(** [l] has an answer [a] to a request, read by [dec]. *)
Definition answered {A} (method path : string) (body : payload) (init : A) (dec : json → option A) (a : A)
    (l : list Exchange) : Prop :=
  ∃ tok resp, (rawReq c method path body tok, Ok resp) ∈ l ∧ is2xx (rs_status resp) = true ∧
    ((rs_status resp = 204 ∧ a = init) ∨ rs_body resp ≫= dec = Some a).

Lemma answered_mono {A} method path body (init : A) dec a l l' :
  (∀ ex, ex ∈ l → ex ∈ l') → answered method path body init dec a l → answered method path body init dec a l'.
Proof. intros Hsub (tok & resp & Hin & Hr). exists tok, resp. split; [by apply Hsub|done]. Qed.

(** A call of the API that the provider may make. *)
Definition lookCall (method path : string) : Prop :=
  method = "GET" ∨ (method = "POST" ∧ (path = "identity/lookup/group" ∨ path = loginPath c)).

Lemma lookCall_only method path body tok o : lookCall method path → onlyLooks (rawReq c method path body tok, o).
Proof. intros [->|[-> [->| ->]]]; [by left|right; split; [done|by left]|right; split; [done|by right]]. Qed.

Lemma triple_raw {A} method path body (init : A) dec tok w0 : lookCall method path →
  triple (λ w, w = w0) (rawRequest c method path body init dec tok)
    (λ r w, ∃ l, looks w0 l w ∧ (is2xx r.1 = true → answered method path body init dec r.2 l))
    (λ _ w, ∃ l, looks w0 l w).
Proof.
  intros Hcall. unfold rawRequest.
  eapply triple_bind with (R := λ o w, trace w = trace w0 ++ [(rawReq c method path body tok, o)]).
  { apply triple_zoom. intros w ->. apply triple_httpDo. by intros v v' o -> Ht _ _. }
  intros o. assert (∀ w, trace w = trace w0 ++ [(rawReq c method path body tok, o)] →
    looks w0 [(rawReq c method path body tok, o)] w) as Hend.
  { intros w Hw. split; [done|]. constructor; [by apply lookCall_only|done]. }
  destruct o as [resp|e]; [|apply triple_throw; intros w Hw; eexists; by apply Hend].
  destruct (is2xx (rs_status resp)) eqn:H2; cbn [andb].
  - destruct (Z.eqb_spec (rs_status resp) 204) as [H204|_]; cbn [negb].
    + apply triple_ret. intros w Hw. eexists. split; [by apply Hend|]. intros _. exists tok, resp.
      split; [by left|]. split; [done|by left].
    + destruct (rs_body resp ≫= dec) as [a|] eqn:Hd; [apply triple_ret|apply triple_throw]; intros w Hw;
        eexists; [split; [by apply Hend|]|by apply Hend].
      intros _. exists tok, resp. split; [by left|]. split; [done|by right].
  - apply triple_ret. intros w Hw. eexists. split; [by apply Hend|]. cbn. intros Hf. congruence.
Qed.

Lemma triple_look {E A} (m : M (VT S) E A) w0 (P : A → list Exchange → Prop) (B : Type)
    (k : A → M (VT S) E B) (Q : B → list Exchange → Prop) :
  triple (λ w, w = w0) m (λ a w, ∃ l, looks w0 l w ∧ P a l) (λ _ w, ∃ l, looks w0 l w) →
  (∀ a l1 w1, looks w0 l1 w1 → P a l1 → triple (λ w, w = w1) (k a)
     (λ b w, ∃ l, looks w1 l w ∧ Q b (l1 ++ l)) (λ _ w, ∃ l, looks w1 l w)) →
  triple (λ w, w = w0) (m ≫= k) (λ b w, ∃ l, looks w0 l w ∧ Q b l) (λ _ w, ∃ l, looks w0 l w).
Proof.
  intros Hm Hk. eapply triple_bind; [exact Hm|]. intros a. apply triple_at. intros w1 (l1 & H1 & HP).
  eapply triple_conseq; [by apply (Hk a l1 w1)|done|..].
  - intros b w (l & Hl & HQ). exists (l1 ++ l). split; [by eapply looks_trans|done].
  - intros e w (l & Hl). exists (l1 ++ l). by eapply looks_trans.
Qed.

Lemma triple_quiet {E A} (m : M (VT S) E A) w0 :
  (∀ w', let '(_, w) := m w' in trace w = trace w') →
  triple (λ w, w = w0) m (λ _ w, ∃ l, looks w0 l w ∧ True) (λ _ w, ∃ l, looks w0 l w).
Proof.
  intros Hm w ->. specialize (Hm w0). destruct (m w0) as [[a|e] w]; exists [];
    [split; [|done]|]; by apply looks_refl.
Qed.

Lemma quiet_now w' : let '(_, w) := now w' in trace w = trace w'.
Proof. unfold now, zoom, timeNow. by destruct (env_now _). Qed.

Lemma triple_login w0 : triple (λ w, w = w0) (loginLocked c) (λ _ w, ∃ l, looks w0 l w ∧ True) (λ _ w, ∃ l, looks w0 l w).
Proof.
  unfold loginLocked. eapply triple_look.
  { apply (triple_quiet (zoom (readFile _))). intros w'. unfold zoom, readFile. by destruct (env_read _ _). }
  intros r l1 w1 _ _. destruct r as [jwt|e]; [|apply triple_throw; intros w ->; exists []; by apply looks_refl].
  destruct (_ || _); [apply triple_throw; intros w ->; exists []; by apply looks_refl|].
  eapply triple_look.
  { apply triple_wrap_err. eapply triple_conseq; [apply (triple_raw _ _ _ _ _ _ w1); right; by auto|done| |done].
    intros a w (l & Hl & _). exists l. split; [exact Hl|]. exact I. }
  intros [status login] l2 w2 _ _. destruct (_ || _); [apply triple_throw; intros w ->; exists []; by apply looks_refl|].
  eapply triple_look; [apply (triple_quiet now), quiet_now|]. intros t l3 w3 _ _.
  by apply (triple_quiet (setToken _ _)).
Qed.

Lemma triple_ensureToken w0 :
  triple (λ w, w = w0) (ensureToken c) (λ _ w, ∃ l, looks w0 l w ∧ True) (λ _ w, ∃ l, looks w0 l w).
Proof.
  unfold ensureToken. eapply triple_look; [by apply (triple_quiet (gets _))|].
  intros cached l1 w1 _ _. destruct (String.eqb _ _).
  { eapply triple_look; [apply triple_login|]. intros [] l2 w2 _ _.
    by apply (triple_quiet (gets vw_token)). }
  eapply triple_look; [apply (triple_quiet now), quiet_now|]. intros t l2 w2 _ _. destruct (_ <? _).
  { by apply (triple_quiet (mret _)). }
  eapply triple_look; [by apply (triple_quiet (setToken _ _))|]. intros [] l3 w3 _ _.
  eapply triple_look; [apply triple_login|]. intros [] l4 w4 _ _.
  by apply (triple_quiet (gets vw_token)).
Qed.

Lemma triple_vaultRequest {A} method path body (init : A) dec w0 : lookCall method path →
  triple (λ w, w = w0) (request c method path body init dec)
    (λ a w, ∃ l, looks w0 l w ∧ answered method path body init dec a l)
    (λ _ w, ∃ l, looks w0 l w).
Proof.
  intros Hcall. unfold request. eapply triple_look; [apply triple_ensureToken|]. intros tok l1 w1 _ _.
  eapply triple_look; [by apply triple_raw|]. intros first l2 w2 _ Hfirst.
  eapply triple_look with (P := λ (r : Z * A) l, is2xx r.1 = true → answered method path body init dec r.2 (l2 ++ l)).
  { destruct (first.1 =? 403).
    - eapply triple_look; [apply (triple_quiet (clearToken _)); intros w'; cbn; by destruct (String.eqb _ _)|].
      intros [] l3 w3 _ _. eapply triple_look; [apply triple_ensureToken|]. intros tok' l4 w4 _ _.
      eapply triple_conseq; [by apply (triple_raw _ _ _ _ _ _ w4)|done| |done].
      intros r w (l & Hl & Ha). exists l. split; [done|]. intros H2. eapply answered_mono; [|by apply Ha].
      intros ex Hex. rewrite !elem_of_app. auto.
    - apply triple_ret. intros w ->. exists []. split; [by apply looks_refl|]. intros H2.
      eapply answered_mono; [|by apply Hfirst]. intros ex Hex. apply elem_of_app. by left. }
  intros final l3 w3 _ Hfinal.
  destruct (_ =? 404); [apply triple_throw; intros w ->; exists []; by apply looks_refl|].
  destruct (is2xx final.1); cbn [negb]; [|apply triple_throw; intros w ->; exists []; by apply looks_refl].
  apply triple_ret. intros w ->. exists []. split; [by apply looks_refl|].
  eapply answered_mono; [|by apply Hfinal]. intros ex Hex. rewrite !elem_of_app in *. tauto.
Qed.

(** A call whose errors are given another form. *)
Lemma triple_rewrap {E A} (g : err → E) (m : M (VT S) err A) w0 (P : A → list Exchange → Prop) :
  triple (λ w, w = w0) m (λ a w, ∃ l, looks w0 l w ∧ P a l) (λ _ w, ∃ l, looks w0 l w) →
  triple (λ w, w = w0) (wrap_err g m) (λ a w, ∃ l, looks w0 l w ∧ P a l) (λ _ w, ∃ l, looks w0 l w).
Proof. intros Hm. by apply triple_wrap_err. Qed.

Lemma triple_tried {E A} (m : M (VT S) err A) w0 (P : A → list Exchange → Prop) :
  triple (λ w, w = w0) m (λ a w, ∃ l, looks w0 l w ∧ P a l) (λ _ w, ∃ l, looks w0 l w) →
  triple (λ w, w = w0) (attempt (E' := E) m)
    (λ r w, ∃ l, looks w0 l w ∧ match r with Ok a => P a l | Err _ => True end) (λ _ w, ∃ l, looks w0 l w).
Proof.
  intros Hm. apply triple_attempt. eapply triple_conseq; [exact Hm|done|done|].
  intros e w (l & Hl). by exists l.
Qed.

Lemma triple_fail {E A} (e : E) w0 (Q : A → list Exchange → Prop) :
  triple (λ w, w = w0) (mthrow e) (λ a w, ∃ l, looks w0 l w ∧ Q a l) (λ _ w, ∃ l, looks w0 l w).
Proof. apply triple_throw. intros w ->. exists []. by apply looks_refl. Qed.

Lemma triple_done {E A} (a : A) w0 (Q : A → list Exchange → Prop) : Q a [] →
  triple (E := E) (λ w, w = w0) (mret a) (λ a w, ∃ l, looks w0 l w ∧ Q a l) (λ _ w, ∃ l, looks w0 l w).
Proof. intros HQ. apply triple_ret. intros w ->. exists []. split; [by apply looks_refl|done]. Qed.

Definition noMount : mountInfo := MkMount "" "" "" ∅.

(** The OIDC mount with this accessor and the secret mount of this name exist. *)
Definition mounts_found (accessor mount : string) (l : list Exchange) : Prop :=
  mount = trimSlash (op_KVMount (vc_options c)) ∧ accessor ≠ "" ∧
  (∃ mi, answered "GET" ("sys/internal/ui/mounts/auth/" +:+ pathEscape (trimSlash (op_OIDCMount (vc_options c))))
     BNone noMount decMount mi l ∧
     mi_Accessor mi = accessor ∧ mi_Path mi = trimSlash (op_OIDCMount (vc_options c)) +:+ "/" ∧
     (mi_Type mi = "oidc" ∨ mi_Type mi = "jwt")) ∧
  ∃ mi, answered "GET" ("sys/internal/ui/mounts/" +:+ pathEscape mount) BNone noMount decMount mi l ∧
    mi_Path mi = mount +:+ "/" ∧ mi_Type mi = "kv" ∧ mi_Options mi !! "version" = Some "2".

Lemma triple_discover w0 :
  triple (λ w, w = w0) (discoverRuntime c) (λ r w, ∃ l, looks w0 l w ∧ mounts_found r.1 r.2 l)
    (λ _ w, ∃ l, looks w0 l w).
Proof.
  unfold discoverRuntime. eapply triple_look; [apply triple_rewrap, triple_vaultRequest; by left|].
  intros auth l1 w1 _ Hauth. destruct (_ || _) eqn:Ha; [apply triple_fail|].
  rewrite !orb_false_iff, !negb_false_iff, andb_false_iff, !negb_false_iff, !String.eqb_eq in Ha.
  destruct Ha as [[Hacc%String.eqb_neq Hpath] Htype].
  eapply triple_look; [apply triple_rewrap, triple_vaultRequest; by left|].
  intros kv l2 w2 _ Hkv. destruct (_ || _) eqn:Hb; [apply triple_fail|].
  rewrite !orb_false_iff, !negb_false_iff, !String.eqb_eq in Hb. destruct Hb as [[Hkp Hkt] Hkver].
  apply triple_done. cbn [fst snd]. rewrite (right_id_L [] (++)). split; [done|]. split; [done|]. split.
  - exists auth. split; [|done]. eapply answered_mono; [|exact Hauth]. intros ex Hex. apply elem_of_app. by left.
  - exists kv. split; [|split_and!; try done; by destruct (mi_Options kv !! "version"); [f_equal|]].
    eapply answered_mono; [|exact Hkv]. intros ex Hex. apply elem_of_app. by right.
Qed.

(** What [validateGitOpsGroup] accepts. *)
Lemma validate_ok group name meta : validateGitOpsGroup group name meta = Ok tt →
  vg_Name group = name ∧ vg_Type group = "external" ∧ vg_Policies group = [name] ∧
  ((∀ k v, meta !! k = Some v → v ≠ "") → vg_Metadata group = meta).
Proof.
  unfold validateGitOpsGroup. destruct (_ || _) eqn:H1; [done|].
  rewrite orb_false_iff, !negb_false_iff, !String.eqb_eq in H1.
  case_bool_decide as H2; cbn [negb]; [|done]. case_bool_decide as H3; cbn [negb]; [|done].
  destruct (forallb _ _) eqn:H4; [|done]. intros _. destruct H1. split_and!; try done. intros Hne.
  symmetry. apply map_subseteq_size_eq; [|by rewrite H3]. apply map_subseteq_spec. intros k v Hk.
  rewrite forallb_forall in H4. specialize (H4 (k, v)). rewrite <-list_elem_of_In, elem_of_map_to_list in H4.
  specialize (H4 Hk). apply String.eqb_eq in H4. cbn in H4. specialize (Hne k v Hk).
  destruct (vg_Metadata group !! k); cbn in H4; congruence.
Qed.

(** What is found in Vault for a request that converged. *)
Record access_found (req : AccessSyncRequest) (accessor mount : string) (l : list Exchange) : Prop := {
  af_policy : answered "GET" ("sys/policies/acl/" +:+ pathEscape (managedName (as_SecretPath req))) BNone "" decPolicy
    (policyFor isPrint mount (as_SecretPath req) (as_AccessProfile req) (as_Discoverable req)) l;
  af_group : ∃ g ag al,
    answered "GET" ("identity/group/name/" +:+ pathEscape (managedName (as_SecretPath req))) BNone noVGroup decVGroup g l ∧
    vg_Name g = managedName (as_SecretPath req) ∧ vg_Type g = "external" ∧ vg_Policies g = [managedName (as_SecretPath req)] ∧
    (as_RuleName req ≠ "" → as_SecretPath req ≠ "" → vg_Metadata g = metadataFor req
       (hashPolicy (policyFor isPrint mount (as_SecretPath req) (as_AccessProfile req) (as_Discoverable req)))) ∧
    answered "POST" "identity/lookup/group"
      (BJson (JObj [("alias_mount_accessor", encString accessor); ("alias_name", encString (g_Path (as_SourceGroup req)))]))
      (noVGroup, noAlias) decAliasGroup (ag, al) l ∧
    vg_ID ag = vg_ID g ∧ va_CanonicalID al = vg_ID g ∧ va_ID al ≠ "" ∧
    va_Name al = g_Path (as_SourceGroup req) ∧ va_MountAccessor al = accessor
}.

Lemma hash_nonempty p : hashPolicy p ≠ "".
Proof.
  unfold hashPolicy. intros Heq. apply (f_equal String.length) in Heq. revert Heq.
  rewrite hexEncode_length, sha256_length. done.
Qed.

Lemma metadata_nonempty req h : h ≠ "" → as_RuleName req ≠ "" → as_SecretPath req ≠ "" →
  ∀ k v, metadataFor req h !! k = Some v → v ≠ "".
Proof.
  intros Hh Hr Hs k v. unfold metadataFor. rewrite !lookup_insert_Some, lookup_singleton_Some. naive_solver.
Qed.

Lemma triple_verifyPolicy name expected w0 :
  triple (λ w, w = w0) (verifyPolicy c name expected)
    (λ _ w, ∃ l, looks w0 l w ∧ answered "GET" ("sys/policies/acl/" +:+ pathEscape name) BNone "" decPolicy expected l)
    (λ _ w, ∃ l, looks w0 l w).
Proof.
  unfold verifyPolicy. eapply triple_look; [apply triple_tried, triple_vaultRequest; by left|].
  intros [policy|e] l1 w1 _ Hp; [|destruct (is_not_found e); apply triple_fail].
  destruct (String.eqb_spec policy expected) as [->|]; cbn [negb]; [|apply triple_fail].
  apply triple_done. by rewrite (right_id_L [] (++)).
Qed.

Lemma triple_getGroupByName name w0 :
  triple (λ w, w = w0) (getGroupByName c name)
    (λ r w, ∃ l, looks w0 l w ∧ ∀ g, r = Some g →
       answered "GET" ("identity/group/name/" +:+ pathEscape name) BNone noVGroup decVGroup g l)
    (λ _ w, ∃ l, looks w0 l w).
Proof.
  unfold getGroupByName. eapply triple_look; [apply triple_tried, triple_vaultRequest; by left|].
  intros [g|e] l1 w1 _ Hp; [|destruct (is_not_found e); [by apply triple_done|apply triple_fail]].
  apply triple_done. rewrite (right_id_L [] (++)). by intros g' [= <-].
Qed.

Lemma triple_lookupAlias name accessor w0 :
  triple (λ w, w = w0) (lookupAlias c name accessor)
    (λ r w, ∃ l, looks w0 l w ∧ ∀ ga, r = Some ga → answered "POST" "identity/lookup/group"
       (BJson (JObj [("alias_mount_accessor", encString accessor); ("alias_name", encString name)]))
       (noVGroup, noAlias) decAliasGroup ga l)
    (λ _ w, ∃ l, looks w0 l w).
Proof.
  unfold lookupAlias. eapply triple_look; [apply triple_tried, triple_vaultRequest; right; split; [done|by left]|].
  intros [[g a]|e] l1 w1 _ Hp; [|destruct (is_not_found e); [by apply triple_done|apply triple_fail]].
  destruct (_ && _); [by apply triple_done|].
  apply triple_done. rewrite (right_id_L [] (++)). by intros ga [= <-].
Qed.

(** The outcome of a run of [SyncAccessGroup] that does not fail. *)
Definition converged_on (req : AccessSyncRequest) (r : AccessResult) (l : list Exchange) : Prop :=
  as_PolicyMode req = "verify-only" ∧ ar_VerifiedPolicy r = true ∧ ar_Converged r = true ∧
  ∃ accessor mount, mounts_found accessor mount l ∧ access_found req accessor mount l.

Lemma triple_accessBody req result w0 :
  triple (λ w, w = w0) (syncBody isPrint c req result)
    (λ r w, ∃ l, looks w0 l w ∧ converged_on req r l) (λ _ w, ∃ l, looks w0 l w).
Proof.
  unfold syncBody. destruct (String.eqb_spec (as_PolicyMode req) "verify-only") as [Hmode|]; cbn [negb]; [|apply triple_fail].
  eapply triple_look; [apply triple_rewrap, triple_discover|]. intros [accessor mount] l1 w1 _ Hmounts. cbn [fst snd] in *.
  eapply triple_look; [apply triple_rewrap, triple_verifyPolicy|]. intros [] l2 w2 _ Hpolicy.
  eapply triple_look; [apply triple_rewrap, triple_getGroupByName|]. intros [g|] l3 w3 _ Hgroup; [|apply triple_fail].
  specialize (Hgroup g eq_refl). set (meta := metadataFor _ _).
  destruct (validateGitOpsGroup g (managedName (as_SecretPath req)) meta) as [[]|e] eqn:Hval;
    cbn [of_outcome]; [|apply (triple_fail (set_verified result, e))].
  eapply triple_look; [apply (triple_done tt _ (λ _ _, True)); done|]. intros [] l4 w4 _ _.
  eapply triple_look; [apply triple_rewrap, triple_lookupAlias|]. intros [[ag al]|] l5 w5 _ Halias; [|apply triple_fail].
  specialize (Halias (ag, al) eq_refl). destruct (_ || _) eqn:Hb; [apply triple_fail|].
  rewrite !orb_false_iff, !negb_false_iff, !String.eqb_eq, String.eqb_neq in Hb.
  destruct Hb as [[[[H1 H2] H3] H4] H5]. apply validate_ok in Hval as (V1 & V2 & V3 & V4).
  apply triple_done. split; [done|]. split; [done|]. split; [done|]. exists accessor, mount.
  rewrite (right_id_L [] (++)). split.
  - destruct Hmounts as (M1 & M2 & (mi & A1 & M3) & mj & A2 & M4). split; [done|]. split; [done|].
    split; [exists mi|exists mj]; (split; [|done]); (eapply answered_mono; [|eassumption]);
      intros ex Hex; rewrite !elem_of_app; auto.
  - split.
    + eapply answered_mono; [|exact Hpolicy]. intros ex Hex. rewrite !elem_of_app. auto.
    + exists g, ag, al. split; [eapply answered_mono; [|exact Hgroup]; intros ex Hex; rewrite !elem_of_app; auto|].
      split; [done|]. split; [done|]. split; [done|].
      split; [intros Hr Hsp; by apply V4, metadata_nonempty; [apply hash_nonempty|..]|].
      split; [eapply answered_mono; [|exact Halias]; intros ex Hex; rewrite !elem_of_app; auto|done].
Qed.

Lemma triple_SyncAccessGroup req w0 :
  triple (λ w, w = w0) (SyncAccessGroup isPrint c req)
    (λ r w, ∃ l, looks w0 l w ∧ converged_on req r l) (λ _ w, ∃ l, looks w0 l w).
Proof.
  assert (∀ w1, triple (λ w, w = w1) (zoom (W := VT S) (V := Sys S) timeNow)
    (λ _ w, ∃ l, looks w1 l w ∧ l = []) (λ (_ : AccessResult * err) w, ∃ l, looks w1 l w)) as Hnow.
  { intros w1. apply triple_zoom. intros w ->. apply triple_timeNow. intros v v' t -> (Ht & _).
    exists []. split; [|done]. by apply looks_refl. }
  unfold SyncAccessGroup. eapply triple_look; [apply Hnow|]. intros started l1 w1 _ ->.
  eapply triple_bind; [apply triple_attempt_split, triple_accessBody|]. intros o. apply triple_at. intros w2 Ho.
  eapply triple_bind; [eapply triple_conseq; [apply (Hnow w2)|done|intros a w Hw; exact Hw|]|].
  { intros e w (l & Hl). destruct o as [r|[r e']]; cbn in Ho.
    - destruct Ho as (l' & Hl' & _). exists (l' ++ l). by eapply looks_trans.
    - destruct Ho as (l' & Hl'). exists (l' ++ l). by eapply looks_trans. }
  intros finished. apply triple_at. intros w3 (l & Hl & ->).
  destruct o as [r|[r e]]; cbn in Ho; [apply triple_ret|apply triple_throw]; intros w ->.
  - destruct Ho as (l' & Hl' & Hc). exists (l' ++ []). split; [by eapply looks_trans|].
    rewrite (right_id_L [] (++)). exact Hc.
  - destruct Ho as (l' & Hl'). exists (l' ++ []). by eapply looks_trans.
Qed.

(** GroupBridge never changes Vault: whatever Vault answers and however a
    health check or an access synchronisation ends, every request it sent was
    a read, a lookup of a group alias or the login of its service account. *)
Theorem vault_only_looks req w0 :
  (∃ l, trace (snd (SyncAccessGroup isPrint c req w0)) = trace w0 ++ l ∧ Forall onlyLooks l) ∧
  ∃ l, trace (snd (HealthCheck c w0)) = trace w0 ++ l ∧ Forall onlyLooks l.
Proof.
  split.
  - pose proof (triple_SyncAccessGroup req w0 w0 eq_refl) as Ht.
    destruct (SyncAccessGroup isPrint c req w0) as [[r|e] w]; [destruct Ht as (l & Hl & _)|destruct Ht as (l & Hl)];
      exists l; exact Hl.
  - assert (triple (λ w, w = w0) (HealthCheck c) (λ _ w, ∃ l, looks w0 l w ∧ True) (λ _ w, ∃ l, looks w0 l w)) as Ht.
    { unfold HealthCheck. eapply triple_look; [apply triple_discover|]. intros r l1 w1 _ _. by apply triple_done. }
    specialize (Ht w0 eq_refl). destruct (HealthCheck c w0) as [[r|e] w]; [destruct Ht as (l & Hl & _)|destruct Ht as (l & Hl)];
      exists l; exact Hl.
Qed.

(** [C21] Access is reported only when it is exactly what GitOps declares: a
    synchronisation that succeeds ran in verify-only mode and found the
    configured OIDC and KV v2 mounts, the compiled policy word for word, an
    external group that carries that policy alone and the declared metadata,
    and the group's alias for the full Keycloak path on the OIDC mount. *)
Theorem vault_converged_exact req w0 r w :
  SyncAccessGroup isPrint c req w0 = (Ok r, w) →
  ∃ l, trace w = trace w0 ++ l ∧ converged_on req r l.
Proof.
  intros Hrun. destruct (triple_ok _ _ _ _ w0 r w (triple_SyncAccessGroup req w0) eq_refl Hrun) as (l & [Hl _] & Hc).
  by exists l.
Qed.
End facts.

(** ** What a policy text says *)

(** Bytes that [%q] writes as they are. *)
Definition plainByte (a : ascii) : bool :=
  (32 <=? byte_of a) && (byte_of a <? 127) && negb (byte_of a =? byte_of quoteMark) && negb (byte_of a =? byte_of backslash).

Lemma goQuote_plain isPrint s : string_all plainByte s = true → goQuote isPrint s = quoted s.
Proof.
  intros Hs. unfold goQuote, quoted. f_equal. f_equal. induction s as [|a s IH]; [done|].
  cbn [string_all] in Hs. apply andb_true_iff in Hs as [Ha Hs]. unfold plainByte in Ha.
  rewrite !andb_true_iff, !negb_true_iff in Ha. destruct Ha as [[[H1 H2] H3] H4].
  cbn [runes]. assert (byte_of a <? 128 = true) as -> by lia. cbn [map concat_strings foldr].
  cbn [quoteRune]. rewrite H3, H4, H1, H2. cbn [orb andb]. rewrite app_cons. cbn [String.append]. f_equal. by apply IH.
Qed.

(** One grant: a path and the capabilities on it, as they are printed. *)
Definition grantText (g : string * list string) : string :=
  "path " +:+ quoted g.1 +:+ " {" +:+ newline +:+ "  capabilities = " +:+ capList g.2 +:+ newline +:+ "}" +:+
  newline +:+ newline.

Definition grantsText (gs : list (string * list string)) : string := concat_strings (map grantText gs).

(** What a policy grants. *)
Definition grantsOf (mount secretPath profile : string) (discoverable : bool) : list (string * list string) :=
  (if discoverable then map (λ p, (p, ["list"])) (navPaths mount secretPath) else []) ++
  [(mount +:+ "/data/" +:+ secretPath, dataCapabilities profile);
   (mount +:+ "/data/" +:+ secretPath +:+ "/*", dataCapabilities profile);
   (mount +:+ "/metadata/" +:+ secretPath, ["read"; "list"]);
   (mount +:+ "/metadata/" +:+ secretPath +:+ "/*", ["read"; "list"])].

Definition plain (s : string) : Prop := string_all plainByte s = true.

Lemma plain_app s t : plain (s +:+ t) ↔ plain s ∧ plain t.
Proof. unfold plain. by rewrite string_all_app, andb_true_iff. Qed.

Lemma plain_ancestors s : plain s → Forall plain (ancestors s).
Proof.
  intros Hs. apply Forall_forall. intros a (i & <- & Hi)%list_elem_of_In%in_map_iff.
  pose proof (take_drop i (split "/" s)) as Htd. unfold plain.
  destruct (drop i (split "/" s)) as [|x l] eqn:Hd; [|destruct (take i (split "/" s)) as [|y k] eqn:Ht; [done|]].
  - rewrite (right_id_L [] (++)) in Htd. by rewrite Htd, join_split.
  - rewrite <-(join_split "/" s), <-Htd, join_app in Hs by done. apply plain_app in Hs as [Hs _]. exact Hs.
Qed.

Lemma stanza_text isPrint p caps : plain p → stanza isPrint p (capList caps) +:+ newline = grantText (p, caps).
Proof.
  intros Hp. unfold stanza, quoteP, grantText. rewrite goQuote_plain by done. rewrite !app_assoc. done.
Qed.

Lemma concat_app l k : concat_strings (l ++ k) = concat_strings l +:+ concat_strings k.
Proof. unfold concat_strings. induction l as [|x l IH]; [done|]. cbn. by rewrite IH, app_assoc. Qed.

Lemma policy_text isPrint mount s profile d : plain mount → plain s →
  policyFor isPrint mount s profile d +:+ newline = grantsText (grantsOf mount s profile d).
Proof.
  intros Hm Hs. unfold policyFor, grantsText, grantsOf. rewrite map_app, concat_app. cbn [map].
  assert (∀ t, plain t → plain (mount +:+ t)) as Hmt by (intros t Ht; by apply plain_app).
  rewrite <-!(stanza_text isPrint) by (repeat (apply plain_app; split; [done|]); done).
  unfold concat_strings at 2. cbn [foldr]. rewrite app_nil_r, !app_assoc. f_equal.
  destruct d; [|done]. unfold navigation.
  assert (Forall plain (navPaths mount s)) as Hps.
  { constructor; [by apply Hmt|]. apply Forall_map. eapply Forall_impl; [by apply plain_ancestors|].
    intros a Ha. by apply Hmt, plain_app. }
  rewrite map_map. f_equal. apply map_ext_in. intros p Hp. apply stanza_text.
  rewrite Forall_forall in Hps. by apply Hps, list_elem_of_In.
Qed.

Lemma plain_no_quote s : plain s → has_no quoteMark s = true.
Proof.
  unfold plain, has_no. apply string_all_weaken. intros a Ha. unfold plainByte in Ha.
  rewrite !andb_true_iff, !negb_true_iff in Ha. destruct Ha as [[_ Hq] _].
  apply negb_true_iff. apply Ascii.eqb_neq. intros ->. by rewrite Z.eqb_refl in Hq.
Qed.

(** The lists of capabilities a policy may carry. *)
Definition capabilities : list (list string) :=
  [["list"]; ["read"]; ["create"; "read"; "update"; "patch"; "delete"]; ["read"; "list"]].

Lemma capList_inj c c' : c ∈ capabilities → c' ∈ capabilities → capList c = capList c' → c = c'.
Proof.
  unfold capabilities. rewrite !elem_of_cons, !elem_of_nil.
  intros [->|[->|[->|[->|[]]]]] [->|[->|[->|[->|[]]]]]; vm_compute; congruence.
Qed.

Lemma capList_no_newline c : c ∈ capabilities → has_no "010" (capList c) = true.
Proof.
  unfold capabilities. rewrite !elem_of_cons, !elem_of_nil. by intros [->|[->|[->|[->|[]]]]].
Qed.

Definition grant_ok (g : string * list string) : Prop := plain g.1 ∧ g.2 ∈ capabilities.

Lemma grantText_cut g rest : grantText g +:+ rest =
  "path " +:+ String quoteMark (g.1 +:+ String quoteMark (" {" +:+ newline +:+ "  capabilities = " +:+
    (capList g.2 +:+ String "010" ("}" +:+ newline +:+ newline +:+ rest)))).
Proof. unfold grantText, quoted. rewrite !app_assoc. f_equal. rewrite app_cons, app_assoc. f_equal. Qed.

Lemma grantsText_inj gs gs' : Forall grant_ok gs → Forall grant_ok gs' → grantsText gs = grantsText gs' → gs = gs'.
Proof.
  intros Hgs. revert gs'. induction Hgs as [|[p c] gs [Hp Hc] _ IH]; intros gs' Hgs' Heq.
  { destruct gs' as [|[p c] gs']; [done|]. cbn in Heq. by rewrite grantText_cut in Heq. }
  destruct Hgs' as [|[p' c'] gs' [Hp' Hc'] Hgs'].
  { cbn in Heq. by rewrite grantText_cut in Heq. }
  change (grantsText ((p, c) :: gs)) with (grantText (p, c) +:+ grantsText gs) in Heq.
  change (grantsText ((p', c') :: gs')) with (grantText (p', c') +:+ grantsText gs') in Heq.
  rewrite !grantText_cut in Heq. cbn [fst snd] in *. apply append_inj in Heq. injection Heq as Heq.
  apply cut_inj in Heq as [-> Heq]; [|by apply plain_no_quote..].
  apply append_inj, append_inj, append_inj in Heq.
  apply cut_inj in Heq as [Hcap Heq]; [|by apply capList_no_newline..].
  apply capList_inj in Hcap as ->; [|done..]. do 3 apply append_inj in Heq. f_equal. by apply IH.
Qed.

Lemma mount_plain a : implb (mountByte a || Ascii.eqb a "/") (plainByte a) = true.
Proof. revert a. apply ascii_cases. vm_compute. reflexivity. Qed.

Lemma safe_plain v : safeVaultPath v = true → plain v.
Proof.
  unfold safeVaultPath. destruct (_ || _); [done|]. rewrite forallb_forall. intros Hall.
  unfold plain. apply (string_all_weaken (λ a, mountByte a || Ascii.eqb a "/")).
  { intros a Ha. pose proof (mount_plain a) as Hm. by rewrite Ha in Hm. }
  rewrite <-(join_split "/" v). apply string_all_join; [done|].
  apply Forall_forall. intros x Hx. rewrite list_elem_of_In in Hx. specialize (Hall x Hx).
  apply andb_true_iff in Hall as [_ Hall]. eapply string_all_weaken; [|exact Hall].
  intros a ->. done.
Qed.

(** Where a grant of the policy may be: data only at the secret path and below
    it, metadata there to read and list; and the navigation of a discoverable
    organization, which lists the metadata of the ancestors of the path. *)
Definition confined (mount secretPath profile : string) (discoverable : bool) (g : string * list string) : Prop :=
  (discoverable = true ∧ g.1 ∈ navPaths mount secretPath ∧ g.2 = ["list"]) ∨
  ((g.1 = mount +:+ "/metadata/" +:+ secretPath ∨ g.1 = mount +:+ "/metadata/" +:+ secretPath +:+ "/*") ∧
    g.2 = ["read"; "list"]) ∨
  ((g.1 = mount +:+ "/data/" +:+ secretPath ∨ g.1 = mount +:+ "/data/" +:+ secretPath +:+ "/*") ∧
    g.2 = dataCapabilities profile).

Lemma grants_confined mount s profile d : Forall (confined mount s profile d) (grantsOf mount s profile d).
Proof.
  unfold grantsOf. apply Forall_app. split.
  - destruct d; [|constructor]. apply Forall_map, Forall_forall. intros p Hp. by left.
  - repeat apply Forall_cons_2; try apply Forall_nil_2; unfold confined; cbn; auto 6.
Qed.

Lemma grants_ok mount s profile d : plain mount → plain s → Forall grant_ok (grantsOf mount s profile d).
Proof.
  intros Hm Hs.
  assert (∀ t, plain t → plain (mount +:+ t)) as Hmt by (intros t Ht; by apply plain_app).
  assert (dataCapabilities profile ∈ capabilities) as Hcap.
  { unfold dataCapabilities, capabilities. destruct (String.eqb _ _); rewrite !elem_of_cons; auto. }
  assert (["read"; "list"] ∈ capabilities) as Hrl by (unfold capabilities; rewrite !elem_of_cons; auto 8).
  unfold grantsOf. apply Forall_app. split.
  - destruct d; [|constructor]. apply Forall_map. constructor.
    + split; [by apply Hmt|]. cbn. by left.
    + apply Forall_map. eapply Forall_impl; [by apply plain_ancestors|]. intros a Ha.
      split; [by apply Hmt, plain_app|]. cbn. by left.
  - repeat apply Forall_cons_2; try apply Forall_nil_2; (split; cbn [fst snd];
      [apply Hmt; repeat (apply plain_app; split; [done|]); done|assumption]).
Qed.

(** [C33] A policy text is the list of its grants, nothing else.  For safe mount
    and secret paths data is granted at the organization's own path and below
    it only, metadata there to read and list; outside of it there is nothing
    but, for a discoverable organization, the right to list the metadata of the
    mount's root and of the ancestors of the path.  Equal texts mean equal
    secret paths, equal discoverability and equal data capabilities, so
    comparing the text compares the access. *)
Theorem policy_least_privilege isPrint mount s profile d s' profile' d' :
  safeVaultPath mount = true → safeVaultPath s = true → safeVaultPath s' = true →
  policyFor isPrint mount s profile d +:+ newline = grantsText (grantsOf mount s profile d) ∧
  Forall (confined mount s profile d) (grantsOf mount s profile d) ∧
  (policyFor isPrint mount s profile d = policyFor isPrint mount s' profile' d' →
   s = s' ∧ d = d' ∧ dataCapabilities profile = dataCapabilities profile').
Proof.
  intros Hm%safe_plain Hs%safe_plain Hs'%safe_plain. split; [by apply policy_text|]. split; [apply grants_confined|].
  intros Heq. apply (f_equal (λ t, t +:+ newline)) in Heq. rewrite !policy_text in Heq by done.
  apply grantsText_inj in Heq; [|by apply grants_ok..]. unfold grantsOf in Heq.
  apply app_inj_2 in Heq as [Hnav Htail]; [|done]. injection Htail as Hdata Hcap.
  apply append_inj, append_inj in Hdata. split; [done|]. split; [|done].
  destruct d, d'; done.
Qed.

Lemma policy_least_privilege_witness :
  policyFor (λ _, false) "kv" "orgs/team-a" "editor" true ≠ policyFor (λ _, false) "kv" "orgs/team-b" "editor" true.
Proof.
  intros Heq. destruct (policy_least_privilege (λ _, false) "kv" "orgs/team-a" "editor" true "orgs/team-b" "editor" true)
    as (_ & _ & Hinj); [reflexivity..|]. destruct (Hinj Heq) as (Hs & _). discriminate Hs.
Defined.

(** ** A small Vault server that holds what GitOps declares *)
Definition vaultClient : Client :=
  New "vault" "https://vault.example/" (MkOptions "kubernetes" "groupbridge" "/token" "oidc" "kv").
Definition vaultRequest : AccessSyncRequest :=
  MkAccessSync "rule" "/orgs/team" (MkGroup "g1" "team" "/orgs/team" []) "orgs/team" "reader" "verify-only" true.
Definition vaultPolicy : string := policyFor (λ _, false) "kv" "orgs/team" "reader" true.
Definition vaultName : string := managedName "orgs/team".

Definition strFields (l : list (string * string)) : json := JObj (map (λ '(k, v), (k, JStr v)) l).

Definition vaultServer (r : HttpReq) (s : Time) : outcome err HttpResp * Time :=
  let data j := (Ok (MkResp 200 [] (Some (JObj [("data", j)]))), s) in
  let at_ path := String.eqb (rq_url r) ("https://vault.example/v1/" +:+ path) in
  if at_ "auth/kubernetes/login" then
    (Ok (MkResp 200 [] (Some (JObj [("auth", JObj [("client_token", JStr "s.1"); ("lease_duration", JInt 3600)])]))), s)
  else if at_ "sys/internal/ui/mounts/auth/oidc" then
    data (strFields [("accessor", "auth_oidc_1"); ("path", "oidc/"); ("type", "oidc")])
  else if at_ "sys/internal/ui/mounts/kv" then
    data (JObj [("path", JStr "kv/"); ("type", JStr "kv"); ("options", strFields [("version", "2")])])
  else if at_ ("sys/policies/acl/" +:+ vaultName) then data (strFields [("policy", vaultPolicy)])
  else if at_ ("identity/group/name/" +:+ vaultName) then
    data (JObj [("id", JStr "gid"); ("name", JStr vaultName); ("type", JStr "external"); ("policies", JArr [JStr vaultName]);
      ("metadata", strFields [("managed-by", "groupbridge"); ("groupbridge-rule", "rule"); ("secret-path", "orgs/team");
        ("policy-sha256", hashPolicy vaultPolicy)])])
  else if at_ "identity/lookup/group" then
    data (JObj [("id", JStr "gid"); ("name", JStr vaultName);
      ("alias", strFields [("id", "aid"); ("name", "/orgs/team"); ("mount_accessor", "auth_oidc_1"); ("canonical_id", "gid")])])
  else (Ok (MkResp 404 [] None), s).

Definition vaultEnv : Env Time :=
  scriptEnv vaultServer (λ _, None) (λ _, Ok "jwt") (λ t, (t, t)) (λ _ s, (false, s)).
Definition vaultWorld : VT Time := MkVT "" zeroTime (MkSys zeroTime [] ∅ ∅).
Definition vaultResult : AccessResult := MkAccessResult "vault" "/orgs/team" "orgs/team" true true 0.
Definition vaultEnd : VT Time := snd (SyncAccessGroup (H := vaultEnv) (λ _, false) vaultClient vaultRequest vaultWorld).

Lemma vault_result : fst (SyncAccessGroup (H := vaultEnv) (λ _, false) vaultClient vaultRequest vaultWorld) = Ok vaultResult.
Proof. vm_compute. reflexivity. Qed.

Lemma vault_run :
  SyncAccessGroup (H := vaultEnv) (λ _, false) vaultClient vaultRequest vaultWorld = (Ok vaultResult, vaultEnd).
Proof. rewrite <-vault_result. unfold vaultEnd. apply surjective_pairing. Qed.

Lemma vault_converged_exact_witness :
  ∃ l accessor mount, mounts_found vaultClient accessor mount l ∧
    access_found (λ _, false) vaultClient vaultRequest accessor mount l.
Proof.
  destruct (vault_converged_exact (H := vaultEnv) (λ _, false) vaultClient vaultRequest vaultWorld vaultResult vaultEnd vault_run)
    as (l & _ & _ & _ & _ & accessor & mount & Hm & Ha).
  exists l, accessor, mount. split; [exact Hm|exact Ha].
Defined.
