(* ===== verification/Provider.v ===== *)
(** * Targets and sources as the reconciler sees them
    ([internal/provider/provider.go], [internal/source/source.go])

    An interface value is a record of methods over a world [W].  A type
    assertion to a capability is the test of an optional method. *)

From S2P Require Import Prelude GoStrings GoTime World State Model.

(** A method of a provider: its error carries the partial result. *)
Record Provider (W : Type) : Type := MkProvider
  { p_Name : string;
    p_HealthCheck : M W err unit;
    p_SyncGroup : option (SyncRequest → M W (Result * err) Result);
    p_SyncAccessGroup : option (AccessSyncRequest → M W (AccessResult * err) AccessResult) }.
Arguments MkProvider {W} _ _ _ _.
Arguments p_Name {W} _.
Arguments p_HealthCheck {W} _.
Arguments p_SyncGroup {W} _.
Arguments p_SyncAccessGroup {W} _.

Record Source (W : Type) : Type := MkSource
  { src_ListGroups : M W err (list Group);
    src_ReadGroup : option (string → M W err (option Group)) }.
Arguments MkSource {W} _ _.
Arguments src_ListGroups {W} _.
Arguments src_ReadGroup {W} _.

(** ** The registry *)
Notation Registry W := (gmap string (Provider W)).

Definition NewRegistry {W} (providers : list (Provider W)) : Registry W :=
  foldl (λ r p, <[p_Name p := p]> r) ∅ providers.

Definition Get {W} (r : Registry W) (name : string) : option (Provider W) := r !! name.

(** In the order of a range over the map. *)
Definition All {S W E} `{Env S} `{Lens W (Sys S)} (r : Registry W) : M W E (list (Provider W)) :=
  zoom (W := W) (V := Sys S) (rangeOrder (values r)).

(** ** Facts *)
Lemma registry_names {W} (providers : list (Provider W)) name p :
  Get (NewRegistry providers) name = Some p → p_Name p = name ∧ p ∈ providers.
Proof.
  unfold Get, NewRegistry.
  cut (∀ (r : Registry W), foldl (λ r p, <[p_Name p := p]> r) r providers !! name = Some p →
    r !! name = Some p ∨ (p_Name p = name ∧ p ∈ providers)).
  { intros Hc [He|He]%Hc; [by apply lookup_empty_Some in He|exact He]. }
  induction providers as [|q l IH]; intros r Hp; [by left|]. cbn [foldl] in Hp. apply IH in Hp as [Hp|[Hn Hin]].
  - rewrite lookup_insert_Some in Hp. destruct Hp as [[<- ->]|[_ Hp]]; [right; split; [done|by left]|by left].
  - right. split; [done|by right].
Qed.

(** Of two providers of one name the later wins; distinct names are all kept. *)
Lemma registry_complete {W} (providers : list (Provider W)) p :
  NoDup (p_Name <$> providers) → p ∈ providers → Get (NewRegistry providers) (p_Name p) = Some p.
Proof.
  unfold Get, NewRegistry.
  cut (∀ (r : Registry W), NoDup (p_Name <$> providers) →
    (p ∈ providers ∨ (r !! p_Name p = Some p ∧ p_Name p ∉ p_Name <$> providers)) →
    foldl (λ r p, <[p_Name p := p]> r) r providers !! p_Name p = Some p).
  { intros Hc Hnd Hin. apply Hc; [done|by left]. }
  induction providers as [|q l IH]; intros r Hnd Hin; cbn [foldl].
  - destruct Hin as [Hin|[Hin _]]; [by apply elem_of_nil in Hin|done].
  - rewrite fmap_cons, NoDup_cons in Hnd. destruct Hnd as [Hq Hnd]. apply IH; [done|].
    rewrite fmap_cons, not_elem_of_cons in Hin. destruct Hin as [[->|Hin]%elem_of_cons|[Hr [Hne Hni]]].
    + right. split; [by rewrite lookup_insert_eq|done].
    + by left.
    + right. split; [by rewrite lookup_insert_ne|done].
Qed.
