(* ===== verification/Reconcile.v ===== *)
(** * The reconciler ([internal/reconcile/reconciler.go] and the consumer side
    of [internal/reconcile/events.go])

    [buildJobs] is the part of [reconcileGroups] that decides what to do; it
    only looks at the snapshot, the rules, the registry and the ledger's
    mappings.  The rest runs over [World], whose last field is whatever the
    source and the providers keep. *)

From S2P Require Import Prelude GoStrings GoTime World State Model Credential Webhook Config Paths Events Provider.

(** ** The world of the reconciler *)

(** What another goroutine does to the queue: a handler adds a hint, a timer of
    the runtime fires, a pending call of [releaseDue] runs. *)
Inductive queueAction : Type := QHint (hint : Hint) | QFire (id : nat) | QRelease.

(** [w_others]: what the other goroutines do to the queue, one list for each of
    the times the loop of [Run] is about to use it; every call of the queue
    holds its mutex, and the loop's own steps in between do not touch it. *)
Record World (S T : Type) : Type := MkWorld
  { w_sys : Sys S;
    w_store : Store;
    w_routes : routeIndex;
    w_secret : StableLoader;
    w_queue : qstate;
    w_lastFullRepair : Time;
    w_lastFullAttempt : Time;
    w_readyDone : bool;
    w_ready : bool;
    w_others : list (list queueAction);
    w_ext : T }.
Arguments MkWorld {S T} _ _ _ _ _ _ _ _ _ _ _.
Arguments w_sys {S T} _.
Arguments w_store {S T} _.
Arguments w_routes {S T} _.
Arguments w_secret {S T} _.
Arguments w_queue {S T} _.
Arguments w_lastFullRepair {S T} _.
Arguments w_lastFullAttempt {S T} _.
Arguments w_readyDone {S T} _.
Arguments w_ready {S T} _.
Arguments w_others {S T} _.
Arguments w_ext {S T} _.

#[export] Program Instance lens_w_sys S T : Lens (World S T) (Sys S) :=
  {| view := w_sys; update s w := MkWorld s (w_store w) (w_routes w) (w_secret w) (w_queue w)
       (w_lastFullRepair w) (w_lastFullAttempt w) (w_readyDone w) (w_ready w) (w_others w) (w_ext w) |}.
Next Obligation. done. Qed.
Next Obligation. by intros S T []. Qed.
Next Obligation. done. Qed.

#[export] Program Instance lens_w_store S T : Lens (World S T) (Store * Sys S) :=
  {| view w := (w_store w, w_sys w);
     update v w := MkWorld (snd v) (fst v) (w_routes w) (w_secret w) (w_queue w)
       (w_lastFullRepair w) (w_lastFullAttempt w) (w_readyDone w) (w_ready w) (w_others w) (w_ext w) |}.
Next Obligation. by intros S T []. Qed.
Next Obligation. by intros S T []. Qed.
Next Obligation. done. Qed.

#[export] Program Instance lens_w_routes S T : Lens (World S T) (routeIndex * (StableLoader * Sys S)) :=
  {| view w := (w_routes w, (w_secret w, w_sys w));
     update v w := MkWorld (snd (snd v)) (w_store w) (fst v) (fst (snd v)) (w_queue w)
       (w_lastFullRepair w) (w_lastFullAttempt w) (w_readyDone w) (w_ready w) (w_others w) (w_ext w) |}.
Next Obligation. by intros S T [? []]. Qed.
Next Obligation. by intros S T []. Qed.
Next Obligation. done. Qed.

Definition set_queue {S T} (q : qstate) (w : World S T) : World S T :=
  MkWorld (w_sys w) (w_store w) (w_routes w) (w_secret w) q
    (w_lastFullRepair w) (w_lastFullAttempt w) (w_readyDone w) (w_ready w) (w_others w) (w_ext w).
Definition set_others {S T} (o : list (list queueAction)) (w : World S T) : World S T :=
  MkWorld (w_sys w) (w_store w) (w_routes w) (w_secret w) (w_queue w)
    (w_lastFullRepair w) (w_lastFullAttempt w) (w_readyDone w) (w_ready w) o (w_ext w).
Definition set_lastFullRepair {S T} (t : Time) (w : World S T) : World S T :=
  MkWorld (w_sys w) (w_store w) (w_routes w) (w_secret w) (w_queue w)
    t (w_lastFullAttempt w) (w_readyDone w) (w_ready w) (w_others w) (w_ext w).
Definition set_lastFullAttempt {S T} (t : Time) (w : World S T) : World S T :=
  MkWorld (w_sys w) (w_store w) (w_routes w) (w_secret w) (w_queue w)
    (w_lastFullRepair w) t (w_readyDone w) (w_ready w) (w_others w) (w_ext w).
(** [readyOnce.Do(onReady)], where [onReady] makes the server ready. *)
Definition becomeReady {S T} (w : World S T) : World S T :=
  MkWorld (w_sys w) (w_store w) (w_routes w) (w_secret w) (w_queue w)
    (w_lastFullRepair w) (w_lastFullAttempt w) true (w_ready w || negb (w_readyDone w)) (w_others w) (w_ext w).

Definition countMetric {S T} (c : counter) (n : Z) (w : World S T) : World S T :=
  set_queue (MkQ (qs_queue (w_queue w)) (qs_timers (w_queue w)) (addMetric c n (qs_metrics (w_queue w)))) w.

(** ** What to do *)
Section build.
Context {W : Type}.

Inductive reconcileJob : Type :=
| AccessJob (provider : Provider W) (sync : AccessSyncRequest → M W (AccessResult * err) AccessResult)
    (request : AccessSyncRequest)
| GroupJob (provider : Provider W) (sync : SyncRequest → M W (Result * err) Result)
    (request : SyncRequest) (tombstone : option GroupMapping).

Record building : Type := MkBuilding
  { bd_jobs : list reconcileJob;
    bd_owners : gmap string string;
    bd_present : gset string;
    bd_errs : list err }.

Definition noBuilding : building := MkBuilding [] ∅ ∅ [].

Definition addErr (e : err) (b : building) : building :=
  MkBuilding (bd_jobs b) (bd_owners b) (bd_present b) (bd_errs b ++ [e]).
Definition addJob (j : reconcileJob) (b : building) : building :=
  MkBuilding (bd_jobs b ++ [j]) (bd_owners b) (bd_present b) (bd_errs b).
Definition addOwner (key owner : string) (b : building) : building :=
  MkBuilding (bd_jobs b) (<[key := owner]> (bd_owners b)) (bd_present b) (bd_errs b).
Definition addPresent (key : string) (b : building) : building :=
  MkBuilding (bd_jobs b) (bd_owners b) ({[key]} ∪ bd_present b) (bd_errs b).

Definition ownerKey (target path : string) : string := target +:+ String NUL path.
Definition presentKey (rule sourceKey : string) : string := rule +:+ String NUL sourceKey.

(** One mapping of the ledger, seen from a rule and a source group: it may fix
    the target path, or collide with it in a targeted run. *)
Definition applyMapping (completeSnapshot : bool) (rule : Rule) (sourceKey : string)
    (acc : string * list err) (mapping : GroupMapping) : string * list err :=
  let '(targetPath, errs) := acc in
  let concerns := negb (isVault rule) && String.eqb (gm_Rule mapping) (ru_Name rule) &&
    hasPrefix (gm_Provider mapping) (ru_TargetProvider rule +:+ "@") in
  let targetPath :=
    if concerns && String.eqb (gm_SourceGroupID mapping) sourceKey &&
       negb (String.eqb (gm_TargetGroupPath mapping) targetPath)
    then gm_TargetGroupPath mapping else targetPath in
  let errs :=
    if negb completeSnapshot && concerns && negb (String.eqb (gm_SourceGroupID mapping) sourceKey) &&
       String.eqb (gm_TargetGroupPath mapping) targetPath
    then errs ++ [EMsg "source path collides with an existing managed target"] else errs in
  (targetPath, errs).

Definition pathOfRule (rule : Rule) (relative : string) : outcome err string :=
  match ru_Vault rule with
  | Some v => vaultSecretPath (vr_PathPrefix v) relative
  | None => targetGroupPath (ru_TargetParent rule) relative
  end.

Definition syncRequestOf (rule : Rule) (sourceKey : string) (group : Group) (targetPath : string) : SyncRequest :=
  MkSync (ru_Name rule) sourceKey group targetPath (ru_TargetParent rule) (ru_CreateGroups rule)
    (ru_AdoptExistingGroup rule) (ru_AccessLevel rule) (ru_Prune rule) (ru_ProtectedUsers rule)
    (ru_MaxRemovals rule) (ru_IdentityMatch rule) (ru_EnforceAccessLevel rule) false.

Definition accessRequestOf (rule : Rule) (v : VaultRule) (sourceKey : string) (group : Group) (secretPath : string)
    : AccessSyncRequest :=
  MkAccessSync (ru_Name rule) sourceKey (MkGroup (g_ID group) (g_Name group) (g_Path group) [])
    secretPath (vr_AccessProfile v) (vaultPolicyMode rule) (vr_Discoverable v).

(** One rule applied to one source group. *)
Definition buildRule (registry : Registry W) (mappings : list GroupMapping) (completeSnapshot membershipsOnly : bool)
    (group : Group) (b : building) (rule : Rule) : building :=
  if membershipsOnly && isVault rule then b
  else
    match relativeGroupPath (g_Path group) (ru_SourceGroupPrefix rule) with
    | None => b
    | Some relative =>
        if negb (sourcePathAllowed rule (g_Path group)) then b
        else
          let sourceKey := sourceStateKey rule group in
          match pathOfRule rule relative with
          | Err e => addErr (EWrap "rule group" e) b
          | Ok path0 =>
              let '(targetPath, errs) := foldl (applyMapping completeSnapshot rule sourceKey) (path0, []) mappings in
              let b := MkBuilding (bd_jobs b) (bd_owners b) (bd_present b) (bd_errs b ++ errs) in
              match Get registry (ru_TargetProvider rule) with
              | None => addErr (EMsg "rule target is unavailable") b
              | Some p =>
                  let key := ownerKey (ru_TargetProvider rule) targetPath in
                  match bd_owners b !! key with
                  | Some _ => addErr (EMsg "duplicate target mapping") b
                  | None =>
                      let b := addPresent (presentKey (ru_Name rule) sourceKey)
                                 (addOwner key (ru_Name rule +:+ "/" +:+ g_Path group) b) in
                      match ru_Vault rule with
                      | Some v =>
                          match p_SyncAccessGroup p with
                          | None => addErr (EMsg "rule target does not support access synchronization") b
                          | Some sync => addJob (AccessJob p sync (accessRequestOf rule v sourceKey group targetPath)) b
                          end
                      | None =>
                          match p_SyncGroup p with
                          | None => addErr (EMsg "rule target does not support membership synchronization") b
                          | Some sync => addJob (GroupJob p sync (syncRequestOf rule sourceKey group targetPath) None) b
                          end
                      end
                  end
              end
          end
    end.

Definition tombstoneRequest (rule : Rule) (mapping : GroupMapping) : SyncRequest :=
  MkSync (ru_Name rule) (gm_SourceGroupID mapping)
    (MkGroup (sourceNativeID mapping) "" (gm_SourceGroupPath mapping) [])
    (gm_TargetGroupPath mapping) (ru_TargetParent rule) false
    (ru_AdoptExistingGroup rule) (ru_AccessLevel rule) (ru_Prune rule) (ru_ProtectedUsers rule)
    (ru_MaxRemovals rule) (ru_IdentityMatch rule) (ru_EnforceAccessLevel rule)
    (bool_decide (is_Some (ru_SourceGroupPaths rule))).

(** One rule applied to a mapping whose source is gone. *)
Definition buildTombstone (registry : Registry W) (mapping : GroupMapping) (b : building) (rule : Rule) : building :=
  if negb (String.eqb (ru_Name rule) (gm_Rule mapping)) ||
     negb (hasPrefix (gm_Provider mapping) (ru_TargetProvider rule +:+ "@")) then b
  else if isVault rule then b
  else if bool_decide (is_Some (ru_SourceGroupPaths rule)) && sourcePathAllowed rule (gm_SourceGroupPath mapping) then b
  else
    match Get registry (ru_TargetProvider rule) with
    | None => b
    | Some p =>
        let key := ownerKey (ru_TargetProvider rule) (gm_TargetGroupPath mapping) in
        match bd_owners b !! key with
        | Some _ => addErr (EMsg "tombstone target collision") b
        | None =>
            let b := addOwner key ("tombstone/" +:+ gm_SourceGroupPath mapping) b in
            match p_SyncGroup p with
            | None => addErr (EMsg "rule target does not support membership synchronization") b
            | Some sync => addJob (GroupJob p sync (tombstoneRequest rule mapping) (Some mapping)) b
            end
        end
    end.

Definition buildMapping (registry : Registry W) (rules : list Rule) (b : building) (mapping : GroupMapping) : building :=
  if bool_decide (presentKey (gm_Rule mapping) (gm_SourceGroupID mapping) ∈ bd_present b) then b
  else foldl (buildTombstone registry mapping) b rules.

Definition buildJobs (registry : Registry W) (rules : list Rule) (mappings : list GroupMapping)
    (completeSnapshot membershipsOnly : bool) (groups : list Group) : building :=
  let b := foldl (λ b group,
    foldl (buildRule registry mappings completeSnapshot membershipsOnly group) b rules) noBuilding groups in
  if completeSnapshot then foldl (buildMapping registry rules) b mappings else b.
End build.
Arguments reconcileJob : clear implicits.
Arguments building : clear implicits.

Definition jobProvider {W} (j : reconcileJob W) : Provider W :=
  match j with AccessJob p _ _ => p | GroupJob p _ _ _ => p end.

(** ** Doing it *)
Record Reconciler (W : Type) : Type := MkReconciler
  { rc_source : Source W;
    rc_providers : Registry W;
    rc_rules : list Rule;
    rc_routed : bool }.
Arguments MkReconciler {W} _ _ _ _.
Arguments rc_source {W} _.
Arguments rc_providers {W} _.
Arguments rc_rules {W} _.
Arguments rc_routed {W} _.

Section run.
Context {S T : Type} `{Env S}.
Notation W := (World S T).
Notation MW := (M W err).
Context (r : Reconciler W).

Definition now : MW Time := zoom (W := W) (V := Sys S) timeNow.
Definition count (c : counter) (n : Z) : MW unit := modify (countMetric c n).

(** [r.metrics.ReconcileErrors.Add(1); return err]. *)
Definition failCounted {A} (e : err) : MW A := count ReconcileErrors 1;; mthrow e.

Definition attemptCounted {A} (ctx : string) (m : MW A) : MW A :=
  o ← attempt m;
  match o with Ok a => mret a | Err e => failCounted (EWrap ctx e) end.

(** A ledger call. *)
Definition ledger {A} (m : M (Store * Sys S) err A) : MW A := zoom (W := W) (V := Store * Sys S) m.

(** A call of the route index. *)
Definition routes {A} (m : M (routeIndex * (StableLoader * Sys S)) err A) : MW A :=
  zoom (W := W) (V := routeIndex * (StableLoader * Sys S)) m.

Definition requiredProviders (completeSnapshot : bool) (jobs : list (reconcileJob W)) : MW (Registry W) :=
  if completeSnapshot then all ← All (rc_providers r); mret (NewRegistry all)
  else mret (NewRegistry (jobProvider <$> jobs)).

(** The health checks of [ps]; the errors of those that failed. *)
Definition checkHealth (ps : list (Provider W)) : MW (list err) :=
  mfold (λ errs p,
    o ← attempt (p_HealthCheck p);
    match o with
    | Ok _ => mret errs
    | Err e => count ProviderHealthErrors 1;; mret (errs ++ [EWrap "provider health check" e])
    end) [] ps.

(** One job; the errors of the jobs that failed. *)
Definition applyJob (errs : list err) (job : reconcileJob W) : MW (list err) :=
  match job with
  | AccessJob _ sync request =>
      o ← attempt (sync request);
      match o with
      | Err (_, e) => mret (errs ++ [EWrap "sync access" e])
      | Ok result =>
          when (ar_VerifiedPolicy result) (count AccessPoliciesVerified 1);;
          mret errs
      end
  | GroupJob _ sync request tombstone =>
      o ← attempt (sync request);
      match o with
      | Err (_, e) => mret (errs ++ [EWrap "sync" e])
      | Ok result =>
          d ← attempt (match tombstone with
                       | Some m => when (r_Converged result)
                           (ledger (DeleteGroup (gm_Provider m) (gm_Rule m) (gm_SourceGroupID m)))
                       | None => mret tt
                       end);
          match d with
          | Err e => mret (errs ++ [EWrap "retire reconciled source-group tombstone" e])
          | Ok _ =>
              when (r_CreatedGroup result) (count GroupsCreated 1);;
              count MembershipsAdded (r_Added result);;
              count MembershipsChanged (r_Updated result);;
              count MembershipsRemoved (r_Removed result);;
              count UnresolvedUsers (r_Unresolved result);;
              mret errs
          end
      end
  end.

Definition reconcileGroups (groups : list Group) (completeSnapshot membershipsOnly : bool) : MW unit :=
  mappings ← ledger GroupMappings;
  let b := buildJobs (rc_providers r) (rc_rules r) mappings completeSnapshot membershipsOnly groups in
  if negb (bool_decide (bd_errs b = [])) then failCounted (EJoin (bd_errs b))
  else
    required ← requiredProviders completeSnapshot (bd_jobs b);
    order ← zoom (W := W) (V := Sys S) (rangeOrder (values required));
    healthErrs ← checkHealth order;
    if negb (bool_decide (healthErrs = [])) then failCounted (EJoin healthErrs)
    else
      applyErrs ← mfold applyJob [] (bd_jobs b);
      when completeSnapshot (count Reconciles 1);;
      if negb (bool_decide (applyErrs = [])) then failCounted (EJoin applyErrs)
      else when completeSnapshot (modify becomeReady).

(** Is this the mapping of an allowed path under an earlier key? *)
Definition movesMapping (rule : Rule) (group : Group) (mapping : GroupMapping) : bool :=
  String.eqb (gm_Rule mapping) (ru_Name rule) && hasPrefix (gm_Provider mapping) (ru_TargetProvider rule +:+ "@") &&
  String.eqb (gm_SourceGroupPath mapping) (g_Path group) && negb (String.eqb (gm_SourceGroupID mapping) (g_Path group)).

Definition migrateCanonicalMappings (groups : list Group) : MW unit :=
  mappings ← ledger GroupMappings;
  mfor (λ rule,
    if isVault rule || bool_decide (ru_SourceGroupPaths rule = None) then mret tt
    else mfor (λ group,
      if negb (sourcePathAllowed rule (g_Path group)) then mret tt
      else mfor (λ mapping,
        if movesMapping rule group mapping then
          wrap_err (EWrap "move rule path from legacy key")
            (ledger (MoveGroup (gm_Provider mapping) (gm_Rule mapping) (gm_SourceGroupID mapping)
                       (g_Path group) (g_ID group) (g_Path group)))
        else mret tt) mappings) groups) (rc_rules r).

Definition RunOnce : MW unit :=
  _ ← now;
  groups ← attemptCounted "read complete Keycloak snapshot" (src_ListGroups (rc_source r));
  when (rc_routed r) (attemptCounted "rebuild private event routing index" (routes (RouteIndex.Replace groups)));;
  attemptCounted "migrate GitOps-declared canonical source mappings" (migrateCanonicalMappings groups);;
  reconcileGroups groups true false;;
  t ← now;
  modify (set_lastFullRepair t).

Definition RunGroupOnce (groupID : string) (membershipsOnly : bool) : MW unit :=
  match src_ReadGroup (rc_source r) with
  | None => mthrow (EMsg "source does not support targeted group reads")
  | Some readGroup =>
      _ ← now;
      found ← attemptCounted "read targeted Keycloak group" (readGroup groupID);
      match found with
      | None => mret tt
      | Some group =>
          when (rc_routed r) (attemptCounted "update private event routing index" (routes (RouteIndex.Update group)));;
          attemptCounted "migrate GitOps-declared canonical source mapping" (migrateCanonicalMappings [group]);;
          reconcileGroups [group] false membershipsOnly
      end
  end.

(** ** Events *)

(** The order in which a range over the delayed work would run now. *)
Definition delayedOrder : MW (list delayedWork → list delayedWork) :=
  gets (λ w, λ l, fst (env_order delayedWork l (sys_env (w_sys w)))).

Definition onQueueState (f : qstate → qstate) : MW unit := modify (λ w, set_queue (f (w_queue w)) w).

Definition EnqueueEvent (hint : Hint) : MW unit := onQueueState (Add hint).

(** A pending call of [releaseDue]: it reads the clock under the mutex. *)
Definition releaseFired : MW unit :=
  fired ← gets (λ w, tm_fired (qs_timers (w_queue w)));
  if decide (fired = O) then mret tt
  else
    now1 ← now;
    q ← gets w_queue;
    l ← zoom (W := W) (V := Sys S) (rangeOrder (map_to_list (eq_delayed (qs_queue q))));
    now2 ← now;
    order ← delayedOrder;
    onQueueState (λ q, releaseDue now1 now2 l order (takeFired q)).

(** A step of another goroutine; a timer fires only while it is armed. *)
Definition otherStep (a : queueAction) : MW unit :=
  match a with
  | QHint hint => EnqueueEvent hint
  | QFire id =>
      q ← gets w_queue;
      if bool_decide (is_Some (tm_armed (qs_timers q) !! id)) then onQueueState (fireTimer id) else mret tt
  | QRelease => releaseFired
  end.

(** What the others do before the loop's next use of the queue. *)
Definition meanwhile : MW unit :=
  others ← gets w_others;
  match others with
  | [] => mret tt
  | actions :: rest => modify (set_others rest);; mfor otherStep actions
  end.

(** A call of the queue that reads the clock and may set the timer. *)
Definition queueTimed (f : Time → Time → (list delayedWork → list delayedWork) → qstate → qstate) : MW unit :=
  meanwhile;;
  now1 ← now;
  now2 ← now;
  order ← delayedOrder;
  onQueueState (f now1 now2 order).

Definition scheduleGroup (routeKey : string) (work : eventWork) (delay : Z) (reason : string) : MW unit :=
  queueTimed (λ now1 now2 order, ScheduleGroup now1 now2 order routeKey work delay reason).

Definition addGlobalAfter (delay : Z) : MW unit :=
  queueTimed (λ now1 now2 order, AddGlobalAfter now1 now2 order delay).

(** [true]: a complete repair ran and succeeded. *)
Definition runEventFullRepair : MW bool :=
  w ← gets id;
  let anchor := if after (w_lastFullRepair w) (w_lastFullAttempt w) then w_lastFullRepair w else w_lastFullAttempt w in
  t ← now;
  let remaining := if isZero anchor then 0 else wrap64 (topologyRepairMinInterval - sub t anchor) in
  if 0 <? remaining then addGlobalAfter remaining;; mret false
  else
    attempted ← now;
    modify (set_lastFullAttempt attempted);;
    count EventFullRepairs 1;;
    o ← attempt RunOnce;
    match o with
    | Ok _ => mret true
    | Err e => when (negb (is_canceled e)) (addGlobalAfter topologyRepairMinInterval);; mret false
    end.

(** What a batch amounts to once its keys are resolved: the work per group, the
    key of each group, the keys to retry, whether a complete repair is due. *)
Record batchWork : Type := MkBatchWork
  { bw_groups : gmap string eventWork;
    bw_routes : gmap string string;
    bw_retries : gset string;
    bw_global : bool }.

Definition addGroupWork (groupID routeKey : string) (work : eventWork) (b : batchWork) : batchWork :=
  MkBatchWork (<[groupID := mergeWork (default noWork (bw_groups b !! groupID)) work]> (bw_groups b))
    (<[groupID := routeKey]> (bw_routes b)) (bw_retries b) (bw_global b).
Definition needGlobal (b : batchWork) : batchWork := MkBatchWork (bw_groups b) (bw_routes b) (bw_retries b) true.
Definition addRetry (routeKey : string) (b : batchWork) : batchWork :=
  MkBatchWork (bw_groups b) (bw_routes b) ({[routeKey]} ∪ bw_retries b) (bw_global b).

Definition resolveGroupWork (b : batchWork) (kw : string * eventWork) : MW batchWork :=
  found ← gets (λ w, RouteIndex.ResolveGroup kw.1 (w_routes w));
  match found with
  | None => mret (needGlobal b)
  | Some groupID => mret (addGroupWork groupID kw.1 kw.2 b)
  end.

Definition resolveUserWork (b : batchWork) (kw : string * eventUserWork) : MW batchWork :=
  found ← routes (RouteIndex.ResolveUser kw.1);
  match found with
  | None => mret (needGlobal b)
  | Some groupIDs =>
      mfold (λ b groupID,
        route ← gets (λ w, RouteIndex.RouteForGroup groupID (w_routes w));
        match route with
        | None => mret (needGlobal b)
        | Some routeKey =>
            let b := addGroupWork groupID routeKey (MkWork false (uw_confirmMembership kw.2)) b in
            mret (if uw_jitRetry kw.2 then addRetry routeKey b else b)
        end) b groupIDs
  end.

Definition resolveBatch (batch : eventBatch) : MW batchWork :=
  groups ← zoom (W := W) (V := Sys S) (rangeOrder (map_to_list (eb_groups batch)));
  b ← mfold resolveGroupWork (MkBatchWork ∅ ∅ ∅ (eb_globalRepair batch)) groups;
  users ← zoom (W := W) (V := Sys S) (rangeOrder (map_to_list (eb_users batch)));
  mfold resolveUserWork b users.

(** The targeted runs of a resolved batch, and what they schedule. *)
Definition runTargeted (b : batchWork) : MW unit :=
  works ← zoom (W := W) (V := Sys S) (rangeOrder (map_to_list (bw_groups b)));
  mfor (λ gw : string * eventWork,
    count EventTargetedRuns 1;;
    _ ← attempt (E' := err) (RunGroupOnce gw.1 (negb (ew_allProviders gw.2)));
    when (ew_confirmRemoval gw.2)
      (scheduleGroup (default "" (bw_routes b !! gw.1)) noWork membershipConfirmDelay "membership-confirmation")) works;;
  retries ← zoom (W := W) (V := Sys S) (rangeOrder (elements (bw_retries b)));
  mfor (λ routeKey, scheduleGroup routeKey noWork jitProvisioningRetryDelay "jit-provisioning") retries.

Definition processEventBatch (batch : eventBatch) : MW unit :=
  if negb (rc_routed r) then _ ← runEventFullRepair; mret tt
  else
    o ← attempt (routes RouteIndex.Refresh);
    match o with
    | Err _ => count ReconcileErrors 1
    | Ok _ =>
        b ← resolveBatch batch;
        repaired ← (if bw_global b then runEventFullRepair else mret false);
        if repaired : bool then mret tt else runTargeted b
    end.

(** ** The loop of [Run] *)

(** What the select of [Run] reacts to.  [LWake n]: a wake-up, whose burst is
    over after at most [n] more; [LInterrupted n]: the process is told to stop
    while the burst is gathered; [LStop]: between two turns. *)
Inductive loopEvent : Type := LTick | LWake (n : nat) | LInterrupted (n : nat) | LStop.

(** A receive from the wake channel, when a token is in it. *)
Definition receive : MW bool :=
  meanwhile;;
  token ← gets (λ w, eq_wake (qs_queue (w_queue w)));
  when token (onQueueState receiveWake);;
  mret token.

(** The wake-ups that [waitForTriggerBurst] takes before it returns; their
    timing is [Trigger]'s. *)
Fixpoint gatherBurst (n : nat) : MW unit :=
  match n with
  | O => mret tt
  | Datatypes.S n => _ ← receive; gatherBurst n
  end.

Definition drainBatch : MW eventBatch :=
  meanwhile;;
  q ← gets w_queue;
  let '(batch, q) := Drain q in
  modify (set_queue q);;
  mret batch.

(** One turn of the loop, and whether there is another; without a token the
    loop keeps waiting. *)
Definition loopStep (e : loopEvent) : MW bool :=
  match e with
  | LStop => mret false
  | LTick => _ ← attempt (E' := err) RunOnce; mret true
  | LWake n =>
      woken ← receive;
      if woken : bool then
        gatherBurst n;;
        batch ← drainBatch;
        processEventBatch batch;;
        mret true
      else mret true
  | LInterrupted n =>
      woken ← receive;
      if woken : bool then gatherBurst n;; mret false else mret true
  end.

Fixpoint runLoop (events : list loopEvent) : MW unit :=
  match events with
  | [] => mret tt
  | e :: events => go ← loopStep e; if go : bool then runLoop events else mret tt
  end.

Definition closeEvents : MW unit := meanwhile;; onQueueState CloseQueue.

Definition Run (events : list loopEvent) : MW unit :=
  _ ← attempt (E' := err) RunOnce;
  runLoop events;;
  closeEvents.
End run.
