(* ===== verification/ReconcileFacts.v ===== *)
(** * What the reconciler decides and when it acts *)

From S2P Require Import Prelude GoStrings GoTime World State Model Credential Webhook Config Paths Events Provider Reconcile.

Section jobs.
Context {W : Type} (providers : list (Provider W)).
Notation registry := (NewRegistry providers).
Implicit Types (b : building W) (rule : Rule) (group : Group) (mapping : GroupMapping).

(** The target of a job: its provider and path. *)
Definition jobPath (j : reconcileJob W) : string :=
  match j with AccessJob _ _ q => as_SecretPath q | GroupJob _ _ q _ => sr_TargetPath q end.
Definition jobTarget (j : reconcileJob W) : string * string := (p_Name (jobProvider j), jobPath j).
Definition targetKey (t : string * string) : string := ownerKey t.1 t.2.

(** The path of a target: the one computed from the rule, or the one that the
    ledger records for this very source. *)
Definition established rule sourceKey (mappings : list GroupMapping) (path0 path : string) : Prop :=
  path = path0 ∨ ∃ m, m ∈ mappings ∧ isVault rule = false ∧ gm_Rule m = ru_Name rule ∧ gm_SourceGroupID m = sourceKey ∧
    hasPrefix (gm_Provider m) (ru_TargetProvider rule +:+ "@") = true ∧ gm_TargetGroupPath m = path.

Lemma applyMapping_established complete rule sourceKey mappings path0 acc :
  established rule sourceKey mappings path0 acc.1 → ∀ l, (∀ m, m ∈ l → m ∈ mappings) →
  established rule sourceKey mappings path0 (foldl (applyMapping complete rule sourceKey) acc l).1.
Proof.
  intros Hacc l. revert acc Hacc. induction l as [|m l IH]; intros acc Hacc Hl; [done|].
  cbn [foldl]. apply IH; [|intros x Hx; apply Hl; by right]. destruct acc as [path errs]. cbn [applyMapping fst].
  destruct (_ && String.eqb _ _ && negb _) eqn:Hc; [|done]. right. exists m.
  rewrite !andb_true_iff, !negb_true_iff, !String.eqb_eq in Hc. destruct Hc as [[[[Hv Hr] Hp] Hs] _].
  split; [apply Hl; by left|done].
Qed.

Definition matched rule group relative : Prop :=
  relativeGroupPath (g_Path group) (ru_SourceGroupPrefix rule) = Some relative ∧ sourcePathAllowed rule (g_Path group) = true.

(** Where a job of a snapshot comes from. *)
Definition fromRule (rules : list Rule) (mappings : list GroupMapping) (membershipsOnly : bool) (groups : list Group)
    (j : reconcileJob W) : Prop :=
  ∃ rule group relative path0 path, rule ∈ rules ∧ group ∈ groups ∧ matched rule group relative ∧
    pathOfRule rule relative = Ok path0 ∧ established rule (sourceStateKey rule group) mappings path0 path ∧
    p_Name (jobProvider j) = ru_TargetProvider rule ∧
    match j with
    | AccessJob p sync q => membershipsOnly = false ∧ p_SyncAccessGroup p = Some sync ∧
        ∃ v, ru_Vault rule = Some v ∧ path = path0 ∧
             q = accessRequestOf rule v (sourceStateKey rule group) group path
    | GroupJob p sync q t => p_SyncGroup p = Some sync ∧ t = None ∧ ru_Vault rule = None ∧
        q = syncRequestOf rule (sourceStateKey rule group) group path
    end.

(** Where a tombstone comes from. *)
Definition fromMapping (rules : list Rule) (mappings : list GroupMapping) (j : reconcileJob W) : Prop :=
  ∃ rule mapping p sync, rule ∈ rules ∧ mapping ∈ mappings ∧ ru_Name rule = gm_Rule mapping ∧
    hasPrefix (gm_Provider mapping) (ru_TargetProvider rule +:+ "@") = true ∧ isVault rule = false ∧
    (is_Some (ru_SourceGroupPaths rule) → sourcePathAllowed rule (gm_SourceGroupPath mapping) = false) ∧
    p_Name p = ru_TargetProvider rule ∧ p_SyncGroup p = Some sync ∧
    j = GroupJob p sync (tombstoneRequest rule mapping) (Some mapping).

Record sound (P : reconcileJob W → Prop) b : Prop := {
  so_nodup : NoDup (targetKey ∘ jobTarget <$> bd_jobs b);
  so_owned j : j ∈ bd_jobs b → is_Some (bd_owners b !! targetKey (jobTarget j));
  so_from j : j ∈ bd_jobs b → P j
}.

Lemma sound_none P : sound P noBuilding.
Proof. split; cbn; [constructor|intros j Hj; by apply elem_of_nil in Hj..]. Qed.

Lemma sound_weaken (P Q : reconcileJob W → Prop) b : (∀ j, P j → Q j) → sound P b → sound Q b.
Proof. intros HPQ []. split; auto. Qed.

Lemma sound_err P e b : sound P b → sound P (addErr e b).
Proof. intros []. by split. Qed.

Lemma sound_errs P errs b : sound P b → sound P (MkBuilding (bd_jobs b) (bd_owners b) (bd_present b) (bd_errs b ++ errs)).
Proof. intros []. by split. Qed.

Lemma sound_present P k b : sound P b → sound P (addPresent k b).
Proof. intros []. by split. Qed.

Lemma sound_owner P k o b : sound P b → sound P (addOwner k o b).
Proof.
  intros [H1 H2 H3]. split; [done| |done]. intros j Hj. cbn.
  destruct (decide (k = targetKey (jobTarget j))) as [->|]; [rewrite lookup_insert_eq; by eexists|].
  rewrite lookup_insert_ne by done. by apply H2.
Qed.

(** A job whose target nobody owned yet. *)
Lemma sound_job (P : reconcileJob W → Prop) j owner b k : sound P b → bd_owners b !! targetKey (jobTarget j) = None →
  P j → sound P (addJob j (addPresent k (addOwner (targetKey (jobTarget j)) owner b))) ∧
        sound P (addJob j (addOwner (targetKey (jobTarget j)) owner b)).
Proof.
  intros Hb Hfree HP. assert (sound P (addJob j (addOwner (targetKey (jobTarget j)) owner b))) as Hs.
  { pose proof (sound_owner P (targetKey (jobTarget j)) owner b Hb) as [H1 H2 H3]. cbn in *. split; cbn.
    - rewrite fmap_app. apply NoDup_snoc. split; [|done]. intros (j' & Heq & Hj')%list_elem_of_fmap.
      destruct Hb as [_ H2' _]. destruct (H2' j' Hj') as [o Ho]. cbn in Heq. unfold compose in Heq. congruence.
    - intros j' [Hj'| ->%list_elem_of_singleton]%elem_of_app; [by apply H2|]. rewrite lookup_insert_eq. by eexists.
    - intros j' [Hj'| ->%list_elem_of_singleton]%elem_of_app; [by apply H3|done]. }
  split; [|done]. destruct Hs as [H1 H2 H3]. by split.
Qed.

Lemma sound_foldl {A} P (f : building W → A → building W) l b :
  (∀ b x, x ∈ l → sound P b → sound P (f b x)) → sound P b → sound P (foldl f b l).
Proof.
  revert b. induction l as [|x l IH]; intros b Hf Hb; [done|]. cbn [foldl]. apply IH; [|apply Hf; [by left|done]].
  intros b' y Hy. apply Hf. by right.
Qed.

Lemma buildRule_sound rules mappings complete membershipsOnly groups group rule b :
  rule ∈ rules → group ∈ groups → sound (fromRule rules mappings membershipsOnly groups) b →
  sound (fromRule rules mappings membershipsOnly groups)
    (buildRule registry mappings complete membershipsOnly group b rule).
Proof.
  intros Hr Hg Hb. unfold buildRule. destruct (membershipsOnly && isVault rule) eqn:Hmo; [done|].
  destruct (relativeGroupPath _ _) as [relative|] eqn:Hrel; [|done].
  destruct (sourcePathAllowed rule (g_Path group)) eqn:Hall; cbn [negb]; [|done].
  destruct (pathOfRule rule relative) as [path0|e] eqn:Hpath; [|by apply sound_err].
  pose proof (applyMapping_established complete rule (sourceStateKey rule group) mappings path0 (path0, [])
    (or_introl eq_refl) mappings (λ _ Hm, Hm)) as Hest.
  destruct (foldl _ (path0, []) mappings) as [path errs]. cbn [fst] in Hest.
  destruct (Get registry (ru_TargetProvider rule)) as [p|] eqn:Hget; [|by apply sound_err, sound_errs].
  apply registry_names in Hget as [Hname _].
  set (b1 := MkBuilding _ _ _ (bd_errs b ++ errs)). assert (sound (fromRule rules mappings membershipsOnly groups) b1) as Hb1.
  { by apply sound_errs. }
  destruct (bd_owners b1 !! _) eqn:Hfree; [by apply sound_err|].
  assert (∀ j : reconcileJob W, jobTarget j = (ru_TargetProvider rule, path) →
    fromRule rules mappings membershipsOnly groups j → ∀ k o,
    sound (fromRule rules mappings membershipsOnly groups)
      (addJob j (addPresent k (addOwner (ownerKey (ru_TargetProvider rule) path) o b1)))) as Hjob.
  { intros j Hj Hfrom k o. change (ownerKey (ru_TargetProvider rule) path) with (targetKey (ru_TargetProvider rule, path)).
    rewrite <-Hj. apply sound_job; [done| |done]. by rewrite Hj. }
  destruct (ru_Vault rule) as [v|] eqn:Hv.
  - destruct (p_SyncAccessGroup p) as [sync|] eqn:Hsync; [|by apply sound_err, sound_present, sound_owner].
    apply Hjob; [unfold jobTarget; cbn; by rewrite Hname|]. exists rule, group, relative, path0, path.
    do 6 (split; [done|]). assert (isVault rule = true) as Hiv.
    { unfold isVault. rewrite Hv. by apply bool_decide_eq_true_2. }
    split; [by rewrite Hiv, andb_true_r in Hmo|]. split; [done|]. exists v. split; [done|]. split; [|done].
    destruct Hest as [|(m & _ & Hf & _)]; [done|congruence].
  - destruct (p_SyncGroup p) as [sync|] eqn:Hsync; [|by apply sound_err, sound_present, sound_owner].
    apply Hjob; [unfold jobTarget; cbn; by rewrite Hname|]. by exists rule, group, relative, path0, path.
Qed.

Lemma buildTombstone_sound (P : reconcileJob W → Prop) rules mappings mapping rule b :
  rule ∈ rules → mapping ∈ mappings → (∀ j, fromMapping rules mappings j → P j) → sound P b →
  sound P (buildTombstone registry mapping b rule).
Proof.
  intros Hr Hm HP Hb. unfold buildTombstone. destruct (_ || _) eqn:Hskip; [done|].
  rewrite orb_false_iff, !negb_false_iff, String.eqb_eq in Hskip. destruct Hskip as [Hname Hprov].
  destruct (isVault rule) eqn:Hv; [done|]. destruct (bool_decide _ && _) eqn:Hallow; [done|].
  destruct (Get registry (ru_TargetProvider rule)) as [p|] eqn:Hget; [|done].
  apply registry_names in Hget as [Hpn _].
  destruct (bd_owners b !! _) eqn:Hfree; [by apply sound_err|].
  destruct (p_SyncGroup p) as [sync|] eqn:Hsync; [|by apply sound_err, sound_owner].
  set (j := GroupJob _ _ _ _).
  assert (jobTarget j = (ru_TargetProvider rule, gm_TargetGroupPath mapping)) as Hj by (unfold jobTarget; cbn; by rewrite Hpn).
  change (ownerKey (ru_TargetProvider rule) (gm_TargetGroupPath mapping))
    with (targetKey (ru_TargetProvider rule, gm_TargetGroupPath mapping)). rewrite <-Hj.
  apply (sound_job P j _ b ""); [done|by rewrite Hj|]. apply HP. exists rule, mapping, p, sync.
  split_and!; try done. intros Hs. by rewrite bool_decide_eq_true_2 in Hallow.
Qed.

Lemma jobs_sources rules mappings complete membershipsOnly groups :
  let b := buildJobs registry rules mappings complete membershipsOnly groups in
  NoDup (jobTarget <$> bd_jobs b) ∧
  ∀ j, j ∈ bd_jobs b → fromRule rules mappings membershipsOnly groups j ∨
                       (complete = true ∧ fromMapping rules mappings j).
Proof.
  cbn zeta. set (P j := fromRule rules mappings membershipsOnly groups j ∨ (complete = true ∧ fromMapping rules mappings j)).
  cut (sound P (buildJobs registry rules mappings complete membershipsOnly groups)).
  { intros [Hnd _ Hfrom]. split; [|exact Hfrom]. rewrite list_fmap_compose in Hnd. by eapply NoDup_fmap_1. }
  unfold buildJobs.
  set (b0 := foldl (λ b group, foldl _ b rules) noBuilding groups).
  assert (sound P b0) as Hb0.
  { apply (sound_weaken (fromRule rules mappings membershipsOnly groups)); [by left|].
    apply sound_foldl; [|apply sound_none]. intros b group Hg Hb. apply sound_foldl; [|done].
    intros b' rule Hr Hb'. by apply buildRule_sound. }
  destruct complete; [|done]. apply sound_foldl; [|done].
  intros b mapping Hm Hb. unfold buildMapping. case_bool_decide; [done|].
  apply sound_foldl; [|done]. intros b' rule Hr Hb'.
  eapply buildTombstone_sound; [exact Hr|exact Hm| |done]. intros j Hj. right. by split.
Qed.

(** [C31] What a run decides to do is determined by the rules: every job goes
    to the provider its rule names, at the path computed from the rule or the
    one the ledger established for that very source; a rule for Vault makes an
    access job without members and none in a memberships-only run; a job
    without group is the retirement of a mapping; and no two jobs of a run
    have the same target. *)
Theorem jobs_sound rules mappings complete membershipsOnly groups :
  let b := buildJobs registry rules mappings complete membershipsOnly groups in
  NoDup (jobTarget <$> bd_jobs b) ∧
  ∀ j, j ∈ bd_jobs b → fromRule rules mappings membershipsOnly groups j ∨
                       (complete = true ∧ fromMapping rules mappings j).
Proof. apply jobs_sources. Qed.

(** ** Mappings whose source is gone *)

(** Errors and present sources are never taken back. *)
Definition grows b b' : Prop := bd_errs b `prefix_of` bd_errs b' ∧ bd_present b ⊆ bd_present b'.

#[export] Instance grows_preorder : PreOrder grows.
Proof. split; red; unfold grows; [done|]. intros b1 b2 b3 [] []. split; by etrans. Qed.

Lemma grows_foldl {A} (f : building W → A → building W) l b : (∀ b x, grows b (f b x)) → grows b (foldl f b l).
Proof. intros Hf. revert b. induction l as [|x l IH]; intros b; [done|]. cbn. etrans; [apply Hf|apply IH]. Qed.

Lemma grows_err e b : grows b (addErr e b).
Proof. split; [by eexists|done]. Qed.

Lemma buildRule_grows mappings complete mo group rule b :
  grows b (buildRule registry mappings complete mo group b rule) ∧
  (∀ relative, (mo && isVault rule) = false → matched rule group relative →
     bd_errs (buildRule registry mappings complete mo group b rule) = [] →
     presentKey (ru_Name rule) (sourceStateKey rule group) ∈
       bd_present (buildRule registry mappings complete mo group b rule)).
Proof.
  unfold buildRule, matched. destruct (mo && isVault rule); [by split; [|intros ? [=]]|].
  destruct (relativeGroupPath _ _) as [rel|]; [|split; [done|intros ? _ [[=] _]]].
  destruct (sourcePathAllowed rule (g_Path group)); cbn [negb]; [|split; [done|intros ? _ [_ [=]]]].
  assert (∀ (A : Prop) e b', grows b b' → grows b (addErr e b') ∧
    (∀ relative : string, false = false → A → bd_errs (addErr e b') = [] → 
       presentKey (ru_Name rule) (sourceStateKey rule group) ∈ bd_present (addErr e b'))) as Herr.
  { intros A e b' Hb'. split; [etrans; [exact Hb'|apply grows_err]|]. intros _ _ _ He. cbn in He.
    by destruct (bd_errs b'). }
  destruct (pathOfRule rule rel) as [path0|e].
  2: { split; [apply grows_err|]. intros ? _ _ He. cbn in He. by destruct (bd_errs b). }
  destruct (foldl _ (path0, []) mappings) as [path errs].
  set (b1 := MkBuilding _ _ _ (bd_errs b ++ errs)).
  assert (grows b b1) as Hb1 by (split; [by eexists|done]).
  assert (∀ e, grows b (addErr e b1) ∧ (∀ relative, false = false → Some rel = Some relative ∧ true = true →
    bd_errs (addErr e b1) = [] → presentKey (ru_Name rule) (sourceStateKey rule group) ∈ bd_present (addErr e b1))) as He1.
  { intros e. split; [etrans; [exact Hb1|apply grows_err]|]. intros ? _ _ He. cbn in He. by destruct (bd_errs b ++ errs). }
  destruct (Get registry _) as [p|]; [|apply He1]. destruct (bd_owners b1 !! _); [apply He1|].
  set (b2 := addPresent _ _).
  assert (grows b b2) as Hb2.
  { etrans; [exact Hb1|]. split; [by exists []; rewrite (right_id_L [] (++))|cbn; set_solver]. }
  assert (presentKey (ru_Name rule) (sourceStateKey rule group) ∈ bd_present b2) as Hin by (cbn; set_solver).
  destruct (ru_Vault rule) as [v|].
  - destruct (p_SyncAccessGroup p); (split; [|done]); [exact Hb2|etrans; [exact Hb2|apply grows_err]].
  - destruct (p_SyncGroup p); (split; [|done]); [exact Hb2|etrans; [exact Hb2|apply grows_err]].
Qed.

Lemma grows_errs b b' : grows b b' → bd_errs b' = [] → bd_errs b = [].
Proof. intros [Hp _] He. rewrite He in Hp. by apply prefix_nil_inv in Hp. Qed.

Lemma foldl_reaches {A} (f : building W → A → building W) (k : string) x l b :
  (∀ b x, grows b (f b x)) → x ∈ l → bd_errs (foldl f b l) = [] →
  (∀ b, bd_errs (f b x) = [] → k ∈ bd_present (f b x)) → k ∈ bd_present (foldl f b l).
Proof.
  intros Hf. revert b. induction l as [|y l IH]; intros b Hx He Hk; [by apply elem_of_nil in Hx|].
  cbn [foldl] in *. apply elem_of_cons in Hx as [->|Hx]; [|by apply IH].
  pose proof (grows_foldl f l (f b y) Hf) as Hg. destruct Hg as [Hp Hs]. apply Hs, Hk.
  rewrite He in Hp. by apply prefix_nil_inv in Hp.
Qed.

Lemma tombstone_grows mapping rule b :
  grows b (buildTombstone registry mapping b rule) ∧ bd_present (buildTombstone registry mapping b rule) = bd_present b.
Proof.
  unfold buildTombstone. repeat case_match; (split; [|done]); try done; try apply grows_err;
    (etrans; [|apply grows_err]); done.
Qed.

Lemma mapping_grows rules mapping b :
  grows b (buildMapping registry rules b mapping) ∧ bd_present (buildMapping registry rules b mapping) = bd_present b.
Proof.
  unfold buildMapping. case_bool_decide; [done|].
  revert b H. induction rules as [|rule rules IH]; intros b Hn; [done|]. cbn [foldl].
  destruct (tombstone_grows mapping rule b) as [G1 E1].
  destruct (IH (buildTombstone registry mapping b rule)) as [G2 E2]; [by rewrite E1|].
  split; [by etrans|congruence].
Qed.

(** The tombstones among the jobs stand for mappings that are not present. *)
Definition retired b : Prop := ∀ p sync q m, GroupJob p sync q (Some m) ∈ bd_jobs b →
  presentKey (gm_Rule m) (gm_SourceGroupID m) ∉ bd_present b.

Lemma tombstone_retired mapping rule b :
  presentKey (gm_Rule mapping) (gm_SourceGroupID mapping) ∉ bd_present b → retired b →
  retired (buildTombstone registry mapping b rule).
Proof.
  intros Hn Hb. unfold buildTombstone. repeat case_match; try exact Hb.
  intros pp ss qq mm Hin. cbn in Hin. apply elem_of_app in Hin as [Hin|Hin]; [by apply (Hb _ _ _ _ Hin)|].
  apply list_elem_of_singleton in Hin. injection Hin as _ _ _ ->. exact Hn.
Qed.

Lemma mapping_retired rules mapping b : retired b → retired (buildMapping registry rules b mapping).
Proof.
  intros Hb. unfold buildMapping. case_bool_decide as Hn; [done|].
  revert b Hb Hn. induction rules as [|rule rules IH]; intros b Hb Hn; [done|]. cbn [foldl].
  apply IH; [by apply tombstone_retired|]. by destruct (tombstone_grows mapping rule b) as [_ ->].
Qed.

(** The mapping [m] is one whose source is gone, and [q] retires it. *)
Definition gone (rules : list Rule) (mappings : list GroupMapping) (groups : list Group) (q : SyncRequest) (m : GroupMapping) : Prop :=
  m ∈ mappings ∧ g_Members (sr_SourceGroup q) = [] ∧ sr_CreateGroup q = false ∧
  sr_TargetPath q = gm_TargetGroupPath m ∧
  (∃ rule, rule ∈ rules ∧ ru_Name rule = gm_Rule m ∧ isVault rule = false ∧
     (is_Some (ru_SourceGroupPaths rule) → sourcePathAllowed rule (gm_SourceGroupPath m) = false)) ∧
  ∀ rule group relative, rule ∈ rules → ru_Name rule = gm_Rule m → group ∈ groups →
    matched rule group relative → sourceStateKey rule group ≠ gm_SourceGroupID m.

(** The mappings that follow the rules add no present source. *)
Lemma mappings_phase rules mappings b : let b' := foldl (buildMapping registry rules) b mappings in
  grows b b' ∧ bd_present b' = bd_present b ∧ (retired b → retired b').
Proof.
  cbn zeta. revert b. induction mappings as [|x l IH]; intros b; [done|]. cbn [foldl]. destruct (mapping_grows rules x b) as [G1 E1].
  destruct (IH (buildMapping registry rules b x)) as (G2 & E2 & R2). split; [by etrans|]. split; [congruence|].
  intros Hb. by apply R2, mapping_retired.
Qed.

(** A plan without errors knows every source that a rule covers. *)
Lemma planned_present rules mappings complete groups rule group relative :
  let b := buildJobs registry rules mappings complete false groups in
  bd_errs b = [] → rule ∈ rules → group ∈ groups → matched rule group relative →
  presentKey (ru_Name rule) (sourceStateKey rule group) ∈ bd_present b.
Proof.
  cbn zeta. unfold buildJobs. set (b0 := foldl (λ b group, foldl _ b rules) noBuilding groups). intros He Hr Hg Hmt.
  assert (bd_errs b0 = [] → presentKey (ru_Name rule) (sourceStateKey rule group) ∈ bd_present b0) as Hb0.
  { intros He0. apply (foldl_reaches (λ b group, foldl (buildRule registry mappings complete false group) b rules) _ group groups noBuilding).
    - intros b x. apply grows_foldl. intros b' y. apply buildRule_grows.
    - done.
    - exact He0.
    - intros b Heb. eapply (foldl_reaches _ _ rule); [|done|exact Heb|].
      + intros b' y. apply buildRule_grows.
      + intros b' Heb'. by eapply buildRule_grows. }
  destruct complete; [|by apply Hb0]. destruct (mappings_phase rules mappings b0) as (G & E & _). rewrite E.
  apply Hb0. by apply (grows_errs _ _ G).
Qed.

Lemma tombstones_gone rules mappings complete membershipsOnly groups p sync q m :
  let b := buildJobs registry rules mappings complete membershipsOnly groups in
  bd_errs b = [] → membershipsOnly = false → GroupJob p sync q (Some m) ∈ bd_jobs b →
  complete = true ∧ gone rules mappings groups q m.
Proof.
  cbn zeta. intros He -> Hj. pose proof He as Hpr.
  destruct (jobs_sources rules mappings complete false groups) as [_ Hfrom].
  destruct (Hfrom _ Hj) as [(? & ? & ? & ? & ? & _ & _ & _ & _ & _ & _ & _ & [=] & _)|[-> Hm]].
  destruct Hm as (rule & m' & p' & sync' & Hr & Hm & Hn & _ & Hv & Hal & _ & _ & [= <- <- -> <-]).
  split; [done|]. split; [done|]. split; [done|]. split; [done|]. split; [done|]. split; [by exists rule|].
  intros rule2 group relative Hr2 Hn2 Hg Hmt Heq. apply (planned_present rules mappings true groups rule2 group relative) in Hpr; [|done..].
  unfold buildJobs in Hj, Hpr. set (b0 := foldl (λ b group, foldl _ b rules) noBuilding groups) in *.
  destruct (mappings_phase rules mappings b0) as (_ & E & R).
  assert (retired b0) as Hb0.
  { intros p1 sync1 q1 m1 Hin. exfalso. destruct (jobs_sources rules mappings false false groups) as [_ Hf].
    unfold buildJobs in Hf.
    assert (∀ j, j ∈ bd_jobs b0 → fromRule rules mappings false groups j) as Hb0.
    { apply so_from. apply sound_foldl; [|apply sound_none]. intros b g' Hg' Hb.
      apply sound_foldl; [|done]. intros b' rule' Hr' Hb'. by apply buildRule_sound. }
    by destruct (Hb0 _ Hin) as (? & ? & ? & ? & ? & _ & _ & _ & _ & _ & _ & _ & [=] & _). }
  apply (R Hb0 _ _ _ _ Hj). by rewrite <-Hn2, <-Heq.
Qed.

(** [C20] Access is only ever retired for a source that is really gone: a
    tombstone is planned only from a complete snapshot in which no group that
    a rule of that name covers has the mapping's source key, never for a path
    that an allowlist still names, never for a Vault rule; and it is the
    synchronisation of an empty group that may not create its target. *)
Theorem tombstones_safe rules mappings complete membershipsOnly groups p sync q m :
  let b := buildJobs registry rules mappings complete membershipsOnly groups in
  bd_errs b = [] → membershipsOnly = false → GroupJob p sync q (Some m) ∈ bd_jobs b →
  complete = true ∧ gone rules mappings groups q m.
Proof. apply tombstones_gone. Qed.
End jobs.

(** ** When the decisions are carried out *)
Section run.
Context {S T : Type} `{Env S} (r : Reconciler (World S T)).
Notation W := (World S T).
Implicit Types (w : W).
Notation trace w := (sys_trace (w_sys w)).

(** What the outside, the ledger and the clients can see of a world. *)
Definition seen w : list Exchange * Store * T := (trace w, w_store w, w_ext w).

Lemma triple_seen_now w0 : triple (λ w, w = w0) now (λ _ w, seen w = seen w0) (λ _ _, False).
Proof.
  apply triple_zoom. intros w ->. apply triple_timeNow. intros v v' t -> (Ht & _). unfold seen. cbn in *. by rewrite Ht.
Qed.

Lemma triple_seen_count k n w0 : triple (λ w, w = w0) (count k n) (λ _ w, seen w = seen w0) (λ _ _, False).
Proof. apply triple_modify. by intros w ->. Qed.

Lemma triple_seen_order {E A} (l : list A) w0 :
  triple (E := E) (λ w, w = w0) (zoom (W := W) (V := Sys S) (rangeOrder l)) (λ l' w, l' ≡ₚ l ∧ seen w = seen w0) (λ _ _, False).
Proof.
  apply triple_zoom. intros w ->. apply triple_rangeOrder. intros v v' l' -> (Ht & _) Hl. split; [done|].
  unfold seen. cbn in *. by rewrite Ht.
Qed.

Lemma triple_mappings w0 :
  triple (λ w, w = w0) (ledger GroupMappings)
    (λ ms w, ms ≡ₚ values (st_groups (w_store w0)) ∧ seen w = seen w0) (λ _ _, False).
Proof.
  apply triple_zoom. intros w ->. unfold GroupMappings.
  eapply triple_bind with (R := λ s v, s = w_store w0 ∧ v = (w_store w0, w_sys w0)); [apply triple_gets; by intros v ->|].
  intros s. apply triple_at. intros v0 [-> ->].
  eapply triple_bind with (R := λ l v, l ≡ₚ values (st_groups (w_store w0)) ∧ fst v = w_store w0 ∧
    sys_trace (snd v) = trace w0).
  { apply triple_zoom. intros v ->. apply triple_rangeOrder. intros v v' l -> (Ht & _) Hl. by split. }
  intros l. apply triple_ret. intros v (Hl & Hs & Ht). split; [by unfold sortBy; rewrite merge_sort_Permutation|].
  unfold seen. cbn. by rewrite Ht, Hs.
Qed.

(** A run of the jobs collects errors, it does not stop at one. *)
Lemma applyJob_total errs j w : ∃ errs' w', applyJob errs j w = (Ok errs', w').
Proof.
  destruct j as [p sync q|p sync q t]; cbn [applyJob]; unfold mbind, M_bind, attempt.
  - destruct (sync q w) as [[res|[res e]] w1]; [|by eexists _, _].
    destruct (ar_VerifiedPolicy res); by eexists _, _.
  - destruct (sync q w) as [[res|[res e]] w1]; [|by eexists _, _].
    set (m := match t with Some m => _ | None => _ end). destruct (m w1) as [[[]|e] w2]; [|by eexists _, _].
    destruct (r_CreatedGroup res); by eexists _, _.
Qed.

Lemma applyJobs_total jobs errs w : ∃ errs' w', mfold applyJob errs jobs w = (Ok errs', w').
Proof.
  revert errs w. induction jobs as [|j jobs IH]; intros errs w; cbn [mfold]; [by eexists _, _|].
  destruct (applyJob_total errs j w) as (errs1 & w1 & Hj). erewrite bind_run by exact Hj. apply IH.
Qed.

(** The providers a run needs: all of them for a complete snapshot, those of
    the jobs otherwise. *)
Definition needed (complete : bool) (b : building W) (p : Provider W) : Prop :=
  if complete then ∃ name, rc_providers r !! name = Some p else ∃ j, j ∈ bd_jobs b ∧ p = jobProvider j.

Lemma elem_of_app_mid {A} (l1 : list A) x l2 : x ∈ l1 ++ x :: l2.
Proof. apply elem_of_app. right. by left. Qed.

Context (I : list Exchange * Store * T → Prop).

(** Of all the calls a run makes before its jobs only the health checks of the
    providers can touch what is seen. *)
Definition harmless_checks : Prop :=
  ∀ name p, rc_providers r !! name = Some p → keeps (λ w, I (seen w)) (p_HealthCheck p).

(** The health check of [p] gives [o] in a world like those before the jobs. *)
Definition answers (o : outcome err unit) (p : Provider W) : Prop :=
  ∃ wa wb, I (seen wa) ∧ p_HealthCheck p wa = (o, wb).

Lemma triple_checkHealth ps w0 : (∀ p, p ∈ ps → keeps (λ w, I (seen w)) (p_HealthCheck p)) → I (seen w0) →
  triple (λ w, w = w0) (checkHealth ps)
    (λ errs w, I (seen w) ∧ if decide (errs = []) then ∀ p, p ∈ ps → answers (Ok tt) p
       else ∃ p e, p ∈ ps ∧ answers (Err e) p) (λ _ _, False).
Proof.
  intros Hps HI. eapply triple_conseq; [apply (triple_mfold _ (λ done errs w, I (seen w) ∧
    if decide (errs = []) then ∀ p, p ∈ done → answers (Ok tt) p else ∃ p e, p ∈ ps ∧ answers (Err e) p) (λ _ _, False))| |done|done].
  - intros done p rest errs Heq. assert (p ∈ ps) as Hin by (rewrite Heq; apply elem_of_app_mid).
    eapply triple_bind with (R := λ o w, (I (seen w) ∧
      if decide (errs = []) then ∀ p, p ∈ done → answers (Ok tt) p else ∃ p e, p ∈ ps ∧ answers (Err e) p) ∧ answers o p).
    + intros w [Hw Hdone]. pose proof (Hps p Hin w Hw) as Hk. unfold attempt.
      destruct (p_HealthCheck p w) as [[[]|e] w'] eqn:Hrun; (split; [by split|by exists w, w']).
    + intros [[]|e].
      * apply triple_ret. intros w ((Hw & Hdone) & Hp). split; [done|]. destruct (decide (errs = [])) as [He|He]; [|exact Hdone].
        intros q [Hq| ->%list_elem_of_singleton]%elem_of_app; auto.
      * apply triple_at. intros w1 ((H1 & _) & Hp). eapply triple_bind.
        { eapply triple_conseq; [apply (triple_seen_count _ _ w1)|done|intros a w Hw; exact Hw|done]. }
        intros []. apply triple_ret. intros w Hw. rewrite Hw. split; [done|]. rewrite decide_False by (by intros [_ ?]%app_nil).
        by exists p, e.
  - intros w ->. split; [done|]. intros p Hp. by apply elem_of_nil in Hp.
Qed.

(** A provider of that name has just passed its health check. *)
Definition healthy (p : Provider W) : Prop :=
  ∃ p' wa wb, p_Name p' = p_Name p ∧ (∃ name, rc_providers r !! name = Some p') ∧
    I (seen wa) ∧ p_HealthCheck p' wa = (Ok tt, wb).

(** Why no job may run: a rule could not be resolved, or a provider that the
    run needs failed its health check. *)
Definition blocked groups complete mo w0 : Prop :=
  ∃ mappings, mappings ≡ₚ values (st_groups (w_store w0)) ∧
    let b := buildJobs (rc_providers r) (rc_rules r) mappings complete mo groups in
    bd_errs b ≠ [] ∨ ∃ p e, needed complete b p ∧ answers (Err e) p.

(** What [reconcileGroups] comes to: it stopped before the jobs, for one of
    these reasons, or ran them all. *)
Definition gated groups complete mo w0 (res : outcome err unit) w : Prop :=
  (∃ e, res = Err e ∧ I (seen w) ∧ blocked groups complete mo w0) ∨
  ∃ mappings w1 w2 errs,
    mappings ≡ₚ values (st_groups (w_store w0)) ∧
    let b := buildJobs (rc_providers r) (rc_rules r) mappings complete mo groups in
    bd_errs b = [] ∧ (∀ p, needed complete b p → healthy p) ∧
    I (seen w1) ∧ mfold applyJob [] (bd_jobs b) w1 = (Ok errs, w2) ∧
    seen w = seen w2 ∧ (res = Ok tt ↔ errs = []).

(** The method a job calls is the one of its provider. *)
Definition jobMethod (j : reconcileJob W) : Prop :=
  match j with
  | AccessJob p f _ => p_SyncAccessGroup p = Some f
  | GroupJob p f _ _ => p_SyncGroup p = Some f
  end.

Lemma jobs_registered mappings complete mo groups j :
  j ∈ bd_jobs (buildJobs (rc_providers r) (rc_rules r) mappings complete mo groups) →
  (∃ name, rc_providers r !! name = Some (jobProvider j)) ∧ jobMethod j.
Proof.
  set (Q (b : building W) := ∀ j, j ∈ bd_jobs b →
    (∃ name, rc_providers r !! name = Some (jobProvider j)) ∧ jobMethod j).
  assert (∀ (b : building W) j', Q b → (∃ name, rc_providers r !! name = Some (jobProvider j')) ∧ jobMethod j' → ∀ o k,
    Q (addJob j' (addPresent k (addOwner o k b))) ∧ Q (addJob j' (addOwner o k b))) as Hadd.
  { intros b j' Hb Hj' o k. split; intros x [Hx| ->%list_elem_of_singleton]%elem_of_app; auto. }
  assert (∀ A (f : building W → A → building W) l b, (∀ b x, Q b → Q (f b x)) → Q b → Q (foldl f b l)) as Hfold.
  { intros A f l. induction l as [|x l IH]; intros b Hf Hb; [done|]. apply IH; [done|by apply Hf]. }
  revert j. change (Q (buildJobs (rc_providers r) (rc_rules r) mappings complete mo groups)).
  assert (∀ b (m : GroupMapping) rule, Q b → Q (buildTombstone (rc_providers r) m b rule)) as Htomb.
  { intros b m rule Hb. unfold buildTombstone. repeat case_match; try exact Hb.
    intros x [Hx| ->%list_elem_of_singleton]%elem_of_app; [by apply Hb|]. split; [by eexists|done]. }
  assert (∀ b g rule, Q b → Q (buildRule (rc_providers r) mappings complete mo g b rule)) as Hrule.
  { intros b g rule Hb. unfold buildRule. repeat case_match; try exact Hb;
      intros x [Hx| ->%list_elem_of_singleton]%elem_of_app; try (by apply Hb); (split; [by eexists|done]). }
  unfold buildJobs. assert (Q noBuilding) as H0 by (intros x Hx; by apply elem_of_nil in Hx).
  destruct complete.
  - apply Hfold; [intros b m Hb; unfold buildMapping; case_bool_decide; [done|]; by apply Hfold; auto|].
    apply Hfold; [|done]. intros b g Hb. by apply Hfold; auto.
  - apply Hfold; [|done]. intros b g Hb. by apply Hfold; auto.
Qed.

Lemma registry_values {A} (l : list (Provider A)) p : p ∈ values (NewRegistry l) → p ∈ l.
Proof.
  unfold values. intros ([n q] & -> & Hq)%list_elem_of_fmap. apply elem_of_map_to_list in Hq.
  by apply registry_names in Hq as [_ ?].
Qed.

Lemma registry_covers {A} (l : list (Provider A)) p :
  p ∈ l → ∃ p', p' ∈ values (NewRegistry l) ∧ p_Name p' = p_Name p.
Proof.
  intros Hp. assert (∀ (l : list (Provider A)) (m : gmap string (Provider A)),
    (is_Some (m !! p_Name p) ∨ p ∈ l) → is_Some (foldl (λ m q, <[p_Name q := q]> m) m l !! p_Name p)) as Hall.
  { clear. intros l. induction l as [|q l IH]; intros m Hm; cbn [foldl].
    - destruct Hm as [Hm|Hm]; [done|by apply elem_of_nil in Hm].
    - apply IH. rewrite lookup_insert_is_Some'. destruct Hm as [Hm|[<-|Hm]%elem_of_cons]; auto. }
  destruct (Hall l ∅ (or_intror Hp)) as [q Hq]. exists q. split; [|by apply registry_names in Hq as [? _]].
  unfold values. apply list_elem_of_fmap. exists (p_Name p, q). split; [done|by apply elem_of_map_to_list].
Qed.

Lemma triple_required complete mappings mo groups w0 :
  let b := buildJobs (rc_providers r) (rc_rules r) mappings complete mo groups in
  triple (λ w, w = w0) (requiredProviders r complete (bd_jobs b))
    (λ reg w, seen w = seen w0 ∧ (∀ p, p ∈ values reg → (∃ name, rc_providers r !! name = Some p) ∧ needed complete b p) ∧
       ∀ p, needed complete b p → ∃ p', p' ∈ values reg ∧ p_Name p' = p_Name p) (λ _ _, False).
Proof.
  intros b. unfold requiredProviders, needed. destruct complete.
  - eapply triple_bind; [apply (triple_seen_order _ w0)|]. intros all. apply triple_ret. intros w (Hall & Hw).
    split; [done|]. split.
    + intros p Hp%registry_values. rewrite Hall in Hp. unfold values in Hp.
      apply list_elem_of_fmap in Hp as ([n q] & -> & Hq). apply elem_of_map_to_list in Hq. split; by exists n.
    + intros p [name Hn]. apply registry_covers. rewrite Hall. unfold values. apply list_elem_of_fmap.
      exists (name, p). split; [done|by apply elem_of_map_to_list].
  - apply triple_ret. intros w ->. split; [done|]. split.
    + intros p Hp%registry_values. apply list_elem_of_fmap in Hp as (j & -> & Hj). split; [|by exists j].
      by apply jobs_registered in Hj as [? _].
    + intros p (j & Hj & ->). apply registry_covers, list_elem_of_fmap. by exists j.
Qed.

Lemma triple_failCounted {A} e w0 (Q : A → W → Prop) (X : err → W → Prop) :
  (∀ w, seen w = seen w0 → X e w) → triple (λ w, w = w0) (failCounted e) Q X.
Proof.
  intros HX. unfold failCounted. eapply triple_bind.
  { eapply triple_conseq; [apply (triple_seen_count _ _ w0)|done|intros a w Hw; exact Hw|done]. }
  intros []. apply triple_throw. intros w Hw. by apply HX.
Qed.

Lemma triple_seen_when b (m : M W err unit) w0 :
  triple (λ w, w = w0) m (λ _ w, seen w = seen w0) (λ _ _, False) →
  triple (λ w, w = w0) (when b m) (λ _ w, seen w = seen w0) (λ _ _, False).
Proof. intros Hm. destruct b; [exact Hm|]. apply triple_ret. by intros w ->. Qed.

Lemma triple_gated groups complete mo w0 : harmless_checks → I (seen w0) →
  triple (λ w, w = w0) (reconcileGroups r groups complete mo) (λ _ w, gated groups complete mo w0 (Ok tt) w)
    (λ e w, gated groups complete mo w0 (Err e) w).
Proof.
  intros Hh HI. unfold reconcileGroups.
  eapply triple_bind; [eapply triple_conseq; [apply (triple_mappings w0)|done|intros a w Hw; exact Hw|done]|].
  intros mappings. apply triple_at. intros w1 [Hms H1]. set (b := buildJobs _ _ _ _ _ _).
  case_bool_decide as Hb; cbn [negb].
  2: { apply triple_failCounted. intros w Hw. left. exists (EJoin (bd_errs b)). split; [done|]. split; [by rewrite Hw, H1|].
       exists mappings. split; [done|]. by left. }
  eapply triple_bind; [eapply triple_conseq; [apply (triple_required complete mappings mo groups w1)|done
    |intros a w Hw; exact Hw|done]|].
  intros required. apply triple_at. intros w2 (H2 & Hreq & Hcov).
  eapply triple_bind; [eapply triple_conseq; [apply (triple_seen_order _ w2)|done|intros a w Hw; exact Hw|done]|].
  intros order. apply triple_at. intros w3 [Hord H3].
  assert (I (seen w3)) as HI3 by (by rewrite H3, H2, H1).
  eapply triple_bind.
  { eapply triple_conseq; [apply (triple_checkHealth order w3)|done|intros a w Hw; exact Hw|]; [|done|done].
    intros p Hp. rewrite Hord in Hp. destruct (Hreq p Hp) as [[name Hn] _]. by eapply Hh. }
  intros healthErrs. apply triple_at. intros w4 [HI4 Hok]. case_bool_decide as Hhe; cbn [negb].
  2: { rewrite decide_False in Hok by done. destruct Hok as (p & e & Hp & He).
       apply triple_failCounted. intros w Hw. left. exists (EJoin healthErrs). split; [done|]. split; [by rewrite Hw|].
       exists mappings. split; [done|]. right. exists p, e. rewrite Hord in Hp. split; [by apply Hreq|done]. }
  rewrite decide_True in Hok by done.
  assert (∀ p, needed complete b p → healthy p) as Hhealthy.
  { intros p (p' & Hin & Hname)%Hcov. destruct (Hok p') as (wa & wb & HIa & Hrun); [by rewrite Hord|].
    exists p', wa, wb. split; [done|]. split; [by apply Hreq|]. by split. }
  destruct (applyJobs_total (bd_jobs b) [] w4) as (errs & w5 & Hjobs).
  eapply triple_bind with (R := λ es w, es = errs ∧ w = w5); [intros w ->; by rewrite Hjobs|].
  intros es. apply triple_at. intros w5' [-> ->].
  eapply triple_bind.
  { eapply triple_conseq; [apply triple_seen_when, (triple_seen_count _ _ w5)|done|intros a w Hw; exact Hw|done]. }
  intros []. apply triple_at. intros w6 H6.
  assert (∀ res w, seen w = seen w6 → (res = Ok tt ↔ errs = []) → gated groups complete mo w0 res w) as Hend.
  { intros res w Hw Hres. right. exists mappings, w4, w5, errs. split_and!; try done; [by rewrite Hw|apply Hres..]. }
  case_bool_decide as Herrs; cbn [negb].
  - eapply triple_conseq; [apply (triple_seen_when _ (modify becomeReady) w6); apply triple_modify; by intros w ->|done| |done].
    intros [] w Hw. by apply Hend.
  - apply triple_failCounted. intros w Hw. by apply Hend.
Qed.

(** [C13] Fail closed: a run of the jobs only starts when every rule could be
    resolved and every provider it needs passed its health check.  Only when a
    rule could not be resolved or the health check of a provider it needs
    failed does the run end before its jobs, with an error; whatever the health
    checks preserve then still holds: no provider was asked to change anything.
    Otherwise all jobs run, each whatever became of the others, and the run
    succeeds exactly when none of them failed. *)
Theorem jobs_gated groups complete mo w0 res w :
  harmless_checks → I (seen w0) → reconcileGroups r groups complete mo w0 = (res, w) →
  gated groups complete mo w0 res w.
Proof.
  intros Hh HI Hrun. pose proof (triple_gated groups complete mo w0 Hh HI w0 eq_refl) as Ht.
  rewrite Hrun in Ht. by destruct res as [[]|e].
Qed.
End run.

(** ** Readiness *)
Section ready.
Context {S T : Type} `{Env S} (r : Reconciler (World S T)).
Notation W := (World S T).
Implicit Types (w : W).

Definition readiness w : bool * bool := (w_ready w, w_readyDone w).

(** A computation that cannot make the server ready. *)
Definition blind {E A} (m : M W E A) : Prop := ∀ v, keeps (λ w, readiness w = v) m.

(** The source and the providers do not reach into the server. *)
Record blind_clients : Prop := {
  bc_list : blind (src_ListGroups (rc_source r));
  bc_read f id : src_ReadGroup (rc_source r) = Some f → blind (f id);
  bc_health name p : rc_providers r !! name = Some p → blind (p_HealthCheck p);
  bc_group name p f q : rc_providers r !! name = Some p → p_SyncGroup p = Some f → blind (f q);
  bc_access name p f q : rc_providers r !! name = Some p → p_SyncAccessGroup p = Some f → blind (f q)
}.

Lemma blind_sys {E A} (m : M (Sys S) E A) : blind (zoom (W := W) (V := Sys S) m).
Proof. intros v w Hw. unfold zoom. by destruct (m (view w)) as [[a|e] x]. Qed.

Lemma blind_store {E A} (m : M (Store * Sys S) E A) : blind (zoom (W := W) (V := Store * Sys S) m).
Proof. intros v w Hw. unfold zoom. by destruct (m (view w)) as [[a|e] x]. Qed.

Lemma blind_routes {A} (m : M (routeIndex * (StableLoader * Sys S)) err A) : blind (routes m).
Proof. intros v w Hw. unfold routes, zoom. by destruct (m (view w)) as [[a|e] x]. Qed.

Lemma blind_count c n : blind (count (S := S) (T := T) c n).
Proof. intros v. apply triple_modify. by intros w. Qed.

Lemma blind_ret {E A} (a : A) : blind (E := E) (mret a).
Proof. intros v. apply keeps_ret. Qed.

Lemma blind_throw {E A} (e : E) : blind (A := A) (mthrow e).
Proof. intros v. apply keeps_throw. Qed.

Lemma blind_bind {E A B} (m : M W E A) (f : A → M W E B) : blind m → (∀ a, blind (f a)) → blind (m ≫= f).
Proof. intros Hm Hf v. apply keeps_bind; [apply Hm|intros a; apply Hf]. Qed.

Lemma blind_attempt {E E' A} (m : M W E A) : blind m → blind (attempt (E' := E') m).
Proof. intros Hm v. apply triple_attempt, Hm. Qed.

Lemma blind_wrap {E E' A} (g : E → E') (m : M W E A) : blind m → blind (wrap_err g m).
Proof. intros Hm v. apply keeps_wrap_err, Hm. Qed.

Lemma blind_when {E} b (m : M W E unit) : blind m → blind (when b m).
Proof. intros Hm. destruct b; [exact Hm|apply blind_ret]. Qed.

Lemma blind_mfold {E A B} (f : B → A → M W E B) l b : (∀ b x, x ∈ l → blind (f b x)) → blind (mfold f b l).
Proof. intros Hf v. apply (triple_mfold_inv f (λ _ w, readiness w = v)). intros x b' Hx. by apply Hf. Qed.

Lemma blind_failCounted {A} e : blind (failCounted (S := S) (T := T) (A := A) e).
Proof. apply blind_bind; [apply blind_count|intros []; apply blind_throw]. Qed.

Lemma blind_counted {A} ctx (m : M W err A) : blind m → blind (attemptCounted ctx m).
Proof.
  intros Hm. apply blind_bind; [by apply blind_attempt|]. intros [a|e]; [apply blind_ret|apply blind_failCounted].
Qed.

Lemma blind_migrate groups : blind (migrateCanonicalMappings r groups).
Proof.
  apply blind_bind; [apply blind_store|]. intros ms. apply blind_mfold. intros [] rule _.
  destruct (_ || _); [apply blind_ret|]. apply blind_mfold. intros [] group _.
  destruct (negb _); [apply blind_ret|]. apply blind_mfold. intros [] m _.
  destruct (movesMapping _ _ _); [|apply blind_ret]. apply blind_wrap, blind_store.
Qed.

Context (BC : blind_clients).

Lemma blind_job errs j mappings complete mo groups :
  j ∈ bd_jobs (buildJobs (rc_providers r) (rc_rules r) mappings complete mo groups) → blind (applyJob errs j).
Proof.
  intros Hj. apply jobs_registered in Hj as [[name Hn] Hf]. destruct j as [p f q|p f q t]; cbn [applyJob jobProvider] in *.
  - apply blind_bind; [apply blind_attempt; by eapply bc_access|]. intros [res|[res e]]; [|apply blind_ret].
    apply blind_bind; [apply blind_when, blind_count|]. intros []. apply blind_ret.
  - apply blind_bind; [apply blind_attempt; by eapply bc_group|]. intros [res|[res e]]; [|apply blind_ret].
    apply blind_bind.
    { apply blind_attempt. destruct t; [apply blind_when, blind_store|apply blind_ret]. }
    intros [[]|e]; [|apply blind_ret]. apply blind_bind; [apply blind_when, blind_count|]. intros [].
    do 4 (apply blind_bind; [apply blind_count|]; intros []). apply blind_ret.
Qed.

Lemma blind_all {E} : blind (E := E) (All (rc_providers r)).
Proof. apply blind_sys. Qed.

Lemma checked_registered complete mappings mo groups w reg w' p order :
  requiredProviders r complete (bd_jobs (buildJobs (rc_providers r) (rc_rules r) mappings complete mo groups)) w = (Ok reg, w') →
  order ≡ₚ values reg → p ∈ order → ∃ name, rc_providers r !! name = Some p.
Proof.
  intros Hrun Ho Hp. rewrite Ho in Hp.
  destruct (triple_ok _ _ _ _ w reg w' (triple_required r complete mappings mo groups w) eq_refl Hrun) as (_ & Hreg & _).
  by destruct (Hreg p Hp).
Qed.

Lemma triple_fail_blind {A} e v (Q : A → W → Prop) :
  triple (λ w, readiness w = v) (failCounted e) Q (λ _ w, readiness w = v).
Proof.
  unfold failCounted. eapply triple_bind; [apply blind_count|]. intros []. by apply triple_throw.
Qed.

(** Up to its end [reconcileGroups] does not change readiness. *)
Lemma triple_ready groups complete mo v :
  triple (λ w, readiness w = v) (reconcileGroups r groups complete mo)
    (λ _ w, if complete then readiness w = (v.1 || negb v.2, true) else readiness w = v)
    (λ _ w, readiness w = v).
Proof.
  unfold reconcileGroups. eapply triple_bind; [apply blind_store|]. intros mappings. set (b := buildJobs _ _ _ _ _ _).
  case_bool_decide; cbn [negb]; [|apply triple_fail_blind].
  eapply triple_bind with (R := λ reg w, readiness w = v ∧ ∀ p, p ∈ values reg → ∃ name, rc_providers r !! name = Some p).
  { apply triple_at. intros w0 Hw0. pose proof (triple_required r complete mappings mo groups w0) as Ht.
    intros w ->. specialize (Ht w0 eq_refl). fold b in Ht.
    assert (blind (requiredProviders r complete (bd_jobs b))) as Hb.
    { unfold requiredProviders. destruct complete; [|apply blind_ret]. apply blind_bind; [apply blind_sys|].
      intros all. apply blind_ret. }
    specialize (Hb v w0 Hw0). destruct (requiredProviders _ _ _ w0) as [[reg|e] w']; [|done].
    split; [exact Hb|]. destruct Ht as (_ & Ht & _). intros p Hp. by destruct (Ht p Hp). }
  intros required. apply triple_at. intros w1 [H1 Hreq].
  eapply triple_bind with (R := λ order w, readiness w = v ∧ order ≡ₚ values required).
  { intros w ->. unfold zoom, rangeOrder. cbn [view lens_w_sys].
    pose proof (env_order_perm _ (values required) (sys_env (w_sys w1))) as Hp.
    destruct (env_order _ (values required) _) as [l s]. by split. }
  intros order. apply triple_at. intros w2 [H2 Ho].
  eapply triple_bind with (R := λ _ w, readiness w = v).
  { eapply triple_conseq; [eapply (blind_mfold _ order [])|intros w ->; exact H2|done|done].
    intros errs p Hp. rewrite Ho in Hp. destruct (Hreq p Hp) as [name Hn].
    apply blind_bind; [apply blind_attempt; by eapply bc_health|]. intros [[]|e]; [apply blind_ret|].
    apply blind_bind; [apply blind_count|intros []; apply blind_ret]. }
  intros healthErrs. case_bool_decide; cbn [negb]; [|apply triple_fail_blind].
  eapply triple_bind; [apply (blind_mfold applyJob (bd_jobs b) []); intros errs j Hj; by eapply blind_job|].
  intros errs. eapply triple_bind; [apply blind_when, blind_count|]. intros [].
  case_bool_decide; cbn [negb]; [|apply triple_fail_blind].
  destruct complete; [apply triple_modify|by apply triple_ret]. intros w Hw. unfold readiness in *. cbn. by rewrite <-Hw.
Qed.

(** [C28] Readiness means a complete run that succeeded: with a source and
    providers that do not reach into the server, [RunOnce] makes the server
    ready only when it succeeds, leaves readiness alone when it fails, and
    sets it at most once in the life of the process; a targeted run never
    changes it. *)
Theorem ready_after_complete_success res w0 w groupID mo res' w' :
  RunOnce r w0 = (res, w) → RunGroupOnce r groupID mo w0 = (res', w') →
  match res with
  | Ok _ => readiness w = (w_ready w0 || negb (w_readyDone w0), true)
  | Err _ => readiness w = readiness w0
  end ∧ readiness w' = readiness w0.
Proof.
  intros Hrun Hrun'. split.
  - assert (triple (λ w, readiness w = readiness w0) (RunOnce r)
      (λ _ w, readiness w = (w_ready w0 || negb (w_readyDone w0), true)) (λ _ w, readiness w = readiness w0)) as Ht.
    { unfold RunOnce. eapply triple_bind; [apply blind_sys|]. intros started.
      eapply triple_bind; [apply blind_counted, bc_list, BC|]. intros groups.
      eapply triple_bind; [apply blind_when, blind_counted, blind_routes|]. intros [].
      eapply triple_bind; [apply blind_counted, blind_migrate|]. intros [].
      eapply triple_bind; [apply (triple_ready groups true false)|]. intros [].
      eapply triple_bind with (R := λ _ w, readiness w = (w_ready w0 || negb (w_readyDone w0), true)).
      - intros w1 Hw1. unfold now, zoom, timeNow. by destruct (env_now _).
      - intros t. by apply triple_modify. }
    specialize (Ht w0 eq_refl). rewrite Hrun in Ht. by destruct res.
  - assert (blind (RunGroupOnce r groupID mo)) as Hb.
    { unfold RunGroupOnce. destruct (src_ReadGroup (rc_source r)) as [f|] eqn:Hf; [|apply blind_throw].
      apply blind_bind; [apply blind_sys|]. intros started.
      apply blind_bind; [by apply blind_counted, bc_read|]. intros [group|]; [|apply blind_ret].
      apply blind_bind; [apply blind_when, blind_counted, blind_routes|]. intros [].
      apply blind_bind; [apply blind_counted, blind_migrate|]. intros [] v.
      apply (triple_ready [group] false mo). }
    specialize (Hb (readiness w0) w0 eq_refl). rewrite Hrun' in Hb. by destruct res'.
Qed.
End ready.

(** ** A run on concrete inputs: one group to synchronise, one to retire *)
Definition demoWorld : Type := World Time unit.

Definition demoGroupResult : Result := MkResult "gitlab" "" "" false 1 0 0 0 0 true 0.
Definition demoSyncGroup : SyncRequest → M demoWorld (Result * err) Result := λ _, mret demoGroupResult.
Definition demoProvider : Provider demoWorld := MkProvider "gitlab" (mret tt) (Some demoSyncGroup) None.
Definition demoTeam : Group := MkGroup "g1" "team" "/team" [MkUser "a1" "alice" ""].
Definition demoSource : Source demoWorld := MkSource (mret [demoTeam]) (Some (λ _, mret (Some demoTeam))).
Definition demoRule : Rule :=
  MkRule "rule" "/" None "gitlab" "corp" true false "developer" "managed-only" [] 5 ["oidc"] false None.
Definition oldMapping : GroupMapping := MkGroupMapping "gitlab@1" "rule" "g0" "g0" "/old" "9" "corp/old" true.
Definition demoReconciler : Reconciler demoWorld :=
  MkReconciler demoSource (NewRegistry [demoProvider]) [demoRule] false.
Definition demoState : Store := MkStore "/var/lib/gb/state.json" ∅ {[mappingKey oldMapping := oldMapping]} ∅ true.
Definition demoStart : demoWorld :=
  MkWorld (MkSys zeroTime [] ∅ ∅) demoState (newRouteIndex "corp") (MkStable (MkLoader "" "" None) 32 "")
    (MkQ newEventQueue (MkTimers 0 ∅ 0) noMetrics) zeroTime zeroTime false false [] tt.

Lemma demo_errs : bd_errs (buildJobs (NewRegistry [demoProvider]) [demoRule] [oldMapping] true false [demoTeam]) = [].
Proof. vm_compute. reflexivity. Qed.

Lemma demo_tombstone :
  GroupJob demoProvider demoSyncGroup (tombstoneRequest demoRule oldMapping) (Some oldMapping) ∈
    bd_jobs (buildJobs (NewRegistry [demoProvider]) [demoRule] [oldMapping] true false [demoTeam]).
Proof.
  assert (bd_jobs (buildJobs (NewRegistry [demoProvider]) [demoRule] [oldMapping] true false [demoTeam]) =
    [GroupJob demoProvider demoSyncGroup (syncRequestOf demoRule "g1" demoTeam "corp/team") None;
     GroupJob demoProvider demoSyncGroup (tombstoneRequest demoRule oldMapping) (Some oldMapping)]) as ->
    by (vm_compute; reflexivity).
  right. by left.
Qed.

Lemma demo_matched : matched demoRule demoTeam "team".
Proof. split; vm_compute; reflexivity. Qed.

Lemma tombstones_safe_witness :
  sourceStateKey demoRule demoTeam ≠ gm_SourceGroupID oldMapping.
Proof.
  destruct (tombstones_safe [demoProvider] [demoRule] [oldMapping] true false [demoTeam] demoProvider demoSyncGroup
    _ oldMapping demo_errs eq_refl demo_tombstone) as (_ & _ & _ & _ & _ & _ & Hall).
  apply (Hall demoRule demoTeam "team"); [by left|reflexivity|by left|exact demo_matched].
Defined.

Definition demoAfter : demoWorld := snd (reconcileGroups (H := quietEnv) demoReconciler [demoTeam] true false demoStart).

Lemma demo_reconcile_ok : fst (reconcileGroups (H := quietEnv) demoReconciler [demoTeam] true false demoStart) = Ok tt.
Proof. vm_compute. reflexivity. Qed.

Lemma demo_reconcile :
  reconcileGroups (H := quietEnv) demoReconciler [demoTeam] true false demoStart = (Ok tt, demoAfter).
Proof. rewrite <-demo_reconcile_ok. unfold demoAfter. apply surjective_pairing. Qed.

(** The job that retired the mapping removed it from the ledger. *)
Lemma demo_retired : st_groups (w_store demoAfter) = ∅.
Proof. vm_compute. reflexivity. Qed.

Lemma demo_providers name p : rc_providers demoReconciler !! name = Some p → p = demoProvider.
Proof. intros Hp. apply registry_names in Hp as [_ Hp]. by apply list_elem_of_singleton in Hp. Qed.

Lemma jobs_gated_witness :
  gated (H := quietEnv) demoReconciler (λ s, s = seen demoStart) [demoTeam] true false demoStart (Ok tt) demoAfter.
Proof.
  apply (jobs_gated (H := quietEnv) demoReconciler (λ s, s = seen demoStart) [demoTeam] true false demoStart (Ok tt) demoAfter).
  - intros name p Hp. rewrite (demo_providers name p Hp). apply keeps_ret.
  - reflexivity.
  - exact demo_reconcile.
Defined.

Lemma demo_blind : blind_clients demoReconciler.
Proof.
  split.
  - apply blind_ret.
  - intros f id [= <-]. apply blind_ret.
  - intros name p Hp. rewrite (demo_providers name p Hp). apply blind_ret.
  - intros name p f q Hp Hf. rewrite (demo_providers name p Hp) in Hf. injection Hf as <-. apply blind_ret.
  - intros name p f q Hp Hf. rewrite (demo_providers name p Hp) in Hf. discriminate.
Qed.

Definition demoRun : outcome err unit * demoWorld := RunOnce (H := quietEnv) demoReconciler demoStart.
Lemma demo_run_ok : fst demoRun = Ok tt.
Proof. vm_compute. reflexivity. Qed.
Lemma demo_run : RunOnce (H := quietEnv) demoReconciler demoStart = (Ok tt, snd demoRun).
Proof. rewrite <-demo_run_ok. apply (surjective_pairing demoRun). Qed.
Definition demoTargeted : outcome err unit * demoWorld :=
  RunGroupOnce (H := quietEnv) demoReconciler "g1" true demoStart.
Lemma demo_targeted : RunGroupOnce (H := quietEnv) demoReconciler "g1" true demoStart = (fst demoTargeted, snd demoTargeted).
Proof. apply (surjective_pairing demoTargeted). Qed.

Lemma ready_after_complete_success_witness :
  readiness (snd demoRun) = (true, true) ∧ readiness (snd demoTargeted) = (false, false).
Proof.
  exact (ready_after_complete_success (H := quietEnv) demoReconciler demo_blind (Ok tt) demoStart (snd demoRun) "g1" true
    (fst demoTargeted) (snd demoTargeted) demo_run demo_targeted).
Defined.
