(* ===== verification/PlanFacts.v ===== *)
(** * The plan of the next pass

    A plan depends on the ledger in two ways: a mapping fixes the path of the
    source it was made for, and a mapping whose source is gone asks for a
    retirement.  So a ledger that has grown by the bindings of a plan without
    retirements leads to the same plan ([plan_again]). *)

From S2P Require Import Prelude GoStrings GoTime World State Model Credential Webhook Config Paths Events Provider Reconcile ReconcileFacts.

Section plan.
Context {W : Type} (providers : list (Provider W)).
Notation registry := (NewRegistry providers).
Implicit Types (b : building W) (rule : Rule) (rules : list Rule) (group : Group) (m : GroupMapping).

(** ** Paths *)

(** The mapping was made for this source under this rule. *)
Definition concerned rule (key : string) m : Prop := isVault rule = false ∧ gm_Rule m = ru_Name rule ∧
  hasPrefix (gm_Provider m) (ru_TargetProvider rule +:+ "@") = true ∧ gm_SourceGroupID m = key.

#[export] Instance concerned_dec rule key m : Decision (concerned rule key m).
Proof. unfold concerned. apply _. Defined.

Lemma applyMapping_complete rule key path errs m :
  applyMapping true rule key (path, errs) m = (if decide (concerned rule key m) then gm_TargetGroupPath m else path, errs).
Proof.
  unfold applyMapping. cbn [negb andb]. f_equal. destruct (decide _) as [(Hv & Hr & Hp & Hk)|Hn].
  - rewrite Hv, Hp. apply String.eqb_eq in Hr, Hk. rewrite Hr, Hk. cbn [negb andb].
    by destruct (String.eqb_spec (gm_TargetGroupPath m) path).
  - destruct (_ && String.eqb _ _ && negb _) eqn:Hc; [|done]. exfalso. apply Hn.
    rewrite !andb_true_iff, !negb_true_iff, !String.eqb_eq in Hc. unfold concerned. tauto.
Qed.

Lemma pathFor_none rule key path errs ms : (∀ m, m ∈ ms → ¬ concerned rule key m) →
  foldl (applyMapping true rule key) (path, errs) ms = (path, errs).
Proof.
  induction ms as [|m ms IH]; intros Hn; [done|]. cbn [foldl]. rewrite applyMapping_complete, decide_False by (apply Hn; by left).
  apply IH. intros x Hx. apply Hn. by right.
Qed.

Lemma pathFor_known rule key path errs ms p : (∀ m, m ∈ ms → concerned rule key m → gm_TargetGroupPath m = p) →
  path = p ∨ (∃ m, m ∈ ms ∧ concerned rule key m) → foldl (applyMapping true rule key) (path, errs) ms = (p, errs).
Proof.
  revert path. induction ms as [|m ms IH]; intros path Hp Hor.
  - destruct Hor as [->|(m & Hm & _)]; [done|by apply elem_of_nil in Hm].
  - cbn [foldl]. rewrite applyMapping_complete. apply IH; [intros x Hx; apply Hp; by right|].
    destruct (decide _) as [Hc|Hc]; [left; apply Hp; [by left|done]|]. destruct Hor as [->|(x & Hx & Hxc)]; [by left|].
    apply elem_of_cons in Hx as [->|Hx]; [done|]. right. by exists x.
Qed.

(** The ledger holds mappings of one provider under their keys. *)
Definition keyed (own : string) (ledger : gmap string GroupMapping) : Prop :=
  ∀ k m, ledger !! k = Some m → mappingKey m = k ∧ gm_Provider m = own.

(** Then the path of a source is looked up under the key of the source. *)
Definition pathUnder rule (key path0 : string) (found : option GroupMapping) : string :=
  match found with
  | Some m => if decide (concerned rule key m) then gm_TargetGroupPath m else path0
  | None => path0
  end.

Lemma elem_of_values {A} (x : A) (l : list A) (ledger : gmap string A) : l ≡ₚ values ledger → x ∈ l ↔ ∃ k, ledger !! k = Some x.
Proof.
  intros ->. unfold values. rewrite list_elem_of_fmap. split.
  - intros ([k y] & -> & Hy%elem_of_map_to_list). by exists k.
  - intros [k Hk]. exists (k, x). split; [done|]. by apply elem_of_map_to_list.
Qed.

Lemma path_by_key own ledger ms rule key path0 : keyed own ledger → ms ≡ₚ values ledger →
  foldl (applyMapping true rule key) (path0, []) ms = (pathUnder rule key path0 (ledger !! groupKey own (ru_Name rule) key), []).
Proof.
  intros Hk Hms. assert (∀ m, m ∈ ms → concerned rule key m → ledger !! groupKey own (ru_Name rule) key = Some m) as Hone.
  { intros m [k Hm]%(elem_of_values _ _ _ Hms) (_ & Hr & _ & Hs). destruct (Hk _ _ Hm) as [<- Ho].
    unfold mappingKey in Hm. by rewrite Ho, Hr, Hs in Hm. }
  unfold pathUnder. destruct (ledger !! _) as [x|] eqn:Hx; [|apply pathFor_none; intros m Hm Hc; by specialize (Hone m Hm Hc)].
  destruct (decide (concerned rule key x)) as [Hc|Hc].
  - apply pathFor_known; [|right; exists x; split; [apply (elem_of_values _ _ _ Hms); by eexists|done]].
    intros m Hm Hcm. specialize (Hone m Hm Hcm). congruence.
  - apply pathFor_none. intros m Hm Hcm. specialize (Hone m Hm Hcm). congruence.
Qed.

Lemma buildRule_ext ms ms' mo group rule b :
  (∀ relative path0, matched rule group relative → pathOfRule rule relative = Ok path0 →
     foldl (applyMapping true rule (sourceStateKey rule group)) (path0, []) ms' =
     foldl (applyMapping true rule (sourceStateKey rule group)) (path0, []) ms) →
  buildRule registry ms' true mo group b rule = buildRule registry ms true mo group b rule.
Proof.
  intros Hp. unfold buildRule. destruct (mo && isVault rule); [done|].
  destruct (relativeGroupPath _ _) as [rel|] eqn:Hrel; [|done]. destruct (sourcePathAllowed _ _) eqn:Hal; cbn [negb]; [|done].
  destruct (pathOfRule rule rel) as [path0|e] eqn:Hpath; [|done]. by rewrite (Hp rel path0).
Qed.

Lemma foldl_same {A B} (f g : A → B → A) l a : (∀ a x, x ∈ l → f a x = g a x) → foldl f a l = foldl g a l.
Proof.
  revert a. induction l as [|x l IH]; intros a Hfg; [done|]. cbn. rewrite (Hfg a x) by by left.
  apply IH. intros a' y Hy. apply Hfg. by right.
Qed.

(** ** Mappings without retirement *)

(** The rule does not look at the mapping of a source that is gone. *)
Definition skipped rule m : bool :=
  negb (String.eqb (ru_Name rule) (gm_Rule m)) || negb (hasPrefix (gm_Provider m) (ru_TargetProvider rule +:+ "@")) ||
  isVault rule || (bool_decide (is_Some (ru_SourceGroupPaths rule)) && sourcePathAllowed rule (gm_SourceGroupPath m)) ||
  bool_decide (Get registry (ru_TargetProvider rule) = None).

Definition retires (j : reconcileJob W) : Prop := match j with GroupJob _ _ _ (Some _) => True | _ => False end.

Lemma tombstone_skipped rule m b : skipped rule m = true → buildTombstone registry m b rule = b.
Proof.
  unfold skipped, buildTombstone. destruct (_ || negb (hasPrefix _ _)); [done|]. destruct (isVault rule); [done|].
  destruct (bool_decide _ && _); [done|]. cbn [orb]. intros Hn%bool_decide_eq_true. by rewrite Hn.
Qed.

Lemma tombstone_unskipped rule m b : skipped rule m = false →
  let b' := buildTombstone registry m b rule in bd_errs b' ≠ [] ∨ ∃ j, j ∈ bd_jobs b' ∧ retires j.
Proof.
  unfold skipped, buildTombstone. destruct (_ || negb (hasPrefix _ _)); [done|]. destruct (isVault rule); [done|].
  destruct (bool_decide _ && _); [done|]. cbn [orb]. intros Hn%bool_decide_eq_false.
  destruct (Get registry _) as [p|]; [|done]. cbn zeta.
  assert (∀ e b', bd_errs (addErr e b') ≠ []) as He by (intros e b' Hnil; cbn in Hnil; by destruct (bd_errs b')).
  destruct (bd_owners b !! _); [by left|]. destruct (p_SyncGroup p) as [sync|]; [|by left].
  right. eexists. split; [cbn; apply elem_of_app; right; by left|done].
Qed.

Lemma tombstone_jobs rule m b j : j ∈ bd_jobs b → j ∈ bd_jobs (buildTombstone registry m b rule).
Proof. intros Hj. unfold buildTombstone. repeat case_match; try done. cbn. apply elem_of_app. by left. Qed.

Lemma foldl_mono {A} (f : building W → A → building W) (Q : building W → Prop) l b :
  (∀ b x, Q b → Q (f b x)) → Q b → Q (foldl f b l).
Proof. intros Hf. revert b. induction l as [|x l IH]; intros b Hb; [done|]. cbn. by apply IH, Hf. Qed.

(** Something went wrong or is to be retired: that stays so. *)
Definition stirred b : Prop := bd_errs b ≠ [] ∨ ∃ j, j ∈ bd_jobs b ∧ retires j.

Lemma tombstone_stirred rule m b : stirred b → stirred (buildTombstone registry m b rule).
Proof.
  intros [He|(j & Hj & Hr)]; [left|right; exists j; split; [by apply tombstone_jobs|done]].
  intros Hn. apply He. eapply grows_errs; [apply tombstone_grows|exact Hn].
Qed.

Lemma mapping_stirred rules m b : stirred b → stirred (buildMapping registry rules b m).
Proof. intros Hb. unfold buildMapping. case_bool_decide; [done|]. by apply foldl_mono; [intros; apply tombstone_stirred|]. Qed.

(** The mapping asks for nothing: its source is there, or no rule retires it. *)
Definition kept rules (present : gset string) m : Prop :=
  presentKey (gm_Rule m) (gm_SourceGroupID m) ∈ present ∨ ∀ rule, rule ∈ rules → skipped rule m = true.

Lemma mapping_kept rules m b : kept rules (bd_present b) m → buildMapping registry rules b m = b.
Proof.
  unfold buildMapping. case_bool_decide as Hin; [done|]. intros [?|Hs]; [done|]. clear Hin.
  revert b. induction rules as [|rule rules IH]; intros b; [done|]. cbn [foldl].
  rewrite tombstone_skipped by (apply Hs; by left). apply IH. intros rule' Hr. apply Hs. by right.
Qed.

Lemma mapping_unkept rules m b : ¬ stirred (buildMapping registry rules b m) → kept rules (bd_present b) m.
Proof.
  unfold buildMapping, kept. case_bool_decide as Hin; [by left|]. intros Hn. right. clear Hin.
  revert b Hn. induction rules as [|rule rules IH]; intros b Hn rule' Hr; [by apply elem_of_nil in Hr|]. cbn [foldl] in Hn.
  apply elem_of_cons in Hr as [->|Hr]; [|by eapply IH]. apply not_false_iff_true. intros Hs. apply Hn.
  apply foldl_mono; [intros; by apply tombstone_stirred|]. by apply tombstone_unskipped.
Qed.

Lemma mappings_kept rules ms b : (∀ m, m ∈ ms → kept rules (bd_present b) m) → foldl (buildMapping registry rules) b ms = b.
Proof.
  induction ms as [|m ms IH]; intros Hk; [done|]. cbn [foldl]. rewrite mapping_kept by (apply Hk; by left).
  apply IH. intros x Hx. apply Hk. by right.
Qed.

Lemma mappings_unkept rules ms b : ¬ stirred (foldl (buildMapping registry rules) b ms) →
  ∀ m, m ∈ ms → kept rules (bd_present b) m.
Proof.
  revert b. induction ms as [|x ms IH]; intros b Hn m Hm; [by apply elem_of_nil in Hm|]. cbn [foldl] in Hn.
  assert (kept rules (bd_present b) x) as Hx.
  { apply mapping_unkept. intros Hs. apply Hn. by apply foldl_mono; [intros; by apply mapping_stirred|]. }
  apply elem_of_cons in Hm as [->|Hm]; [done|]. rewrite mapping_kept in Hn by done. by apply (IH b).
Qed.

(** ** The plan *)
Lemma plan_again rules ms ms' groups : let b := buildJobs registry rules ms true false groups in
  bd_errs b = [] → (∀ j, j ∈ bd_jobs b → ¬ retires j) →
  (∀ rule group relative path0, rule ∈ rules → group ∈ groups → matched rule group relative → pathOfRule rule relative = Ok path0 →
     foldl (applyMapping true rule (sourceStateKey rule group)) (path0, []) ms' =
     foldl (applyMapping true rule (sourceStateKey rule group)) (path0, []) ms) →
  (∀ m, m ∈ ms' → m ∈ ms ∨ presentKey (gm_Rule m) (gm_SourceGroupID m) ∈ bd_present b) →
  buildJobs registry rules ms' true false groups = b.
Proof.
  cbn zeta. intros He Hj Hp Hm. assert (¬ stirred (buildJobs registry rules ms true false groups)) as Hn.
  { intros [?|(j & Hin & Hr)]; [done|]. by apply (Hj j Hin). }
  unfold buildJobs in *. set (b0 := foldl (λ b group, foldl (buildRule registry ms true false group) b rules) noBuilding groups) in *.
  pose proof (mappings_unkept rules ms b0 Hn) as Hk. rewrite (mappings_kept rules ms b0 Hk) in *.
  assert (foldl (λ b group, foldl (buildRule registry ms' true false group) b rules) noBuilding groups = b0) as ->.
  { apply foldl_same. intros b group Hg. apply foldl_same. intros b' rule Hr. apply buildRule_ext. intros relative path0. by apply Hp. }
  apply mappings_kept. intros m Hin. destruct (Hm m Hin) as [Hin'|Hpr]; [by apply Hk|by left].
Qed.
End plan.
