(* ===== verification/EventFacts.v ===== *)
(** * What becomes of a batch of events

    [resolveBatch] turns the keys of a batch into the work of groups without
    losing any, and [runEventFullRepair] keeps complete repairs apart. *)

From S2P Require Import Prelude GoStrings GoTime World State Model Credential CredentialFacts Webhook WebhookFacts Config Paths Events RoutesFacts QueueFacts Provider Reconcile ReconcileFacts.

(** ** Work that waits for its time *)

(** A clock that never goes back, while the order of a range is chosen too. *)
Record ticking {S} `{Env S} (C : S → Z) : Prop := {
  tk_clock : clock_mono C;
  tk_order A (l : list A) s : C s ≤ C (env_order A l s).2
}.

Section scheduling.
Context {S T : Type} `{Env S}.
Notation W := (World S T).
Implicit Types (w : W).
Notation env w := (sys_env (w_sys w)).

Definition stamps w : Time * Time := (w_lastFullRepair w, w_lastFullAttempt w).

(** Apart from the queue nothing changes, and no time is lost. *)
Definition aside w w' : Prop :=
  seen w' = seen w ∧ stamps w' = stamps w ∧ ∀ C, ticking C → C (env w) ≤ C (env w').

#[export] Instance aside_preorder : PreOrder aside.
Proof.
  split; [done|]. intros w1 w2 w3 (A1 & A2 & A3) (B1 & B2 & B3). split; [congruence|]. split; [congruence|].
  intros C HC. etrans; [by apply A3|by apply B3].
Qed.

(** [t] was read off the clock between [w] and [w']. *)
Definition readBetween w w' (t : Time) : Prop :=
  ∀ C, ticking C → time_ok t ∧ C (env w) ≤ total t ≤ C (env w').

Lemma readBetween_mono w w1 w2 w3 t : aside w w1 → readBetween w1 w2 t → aside w2 w3 → readBetween w w3 t.
Proof.
  intros (_ & _ & A) Ht (_ & _ & B) C HC. destruct (Ht C HC). specialize (A C HC). specialize (B C HC). split; [done|lia].
Qed.

(** A computation that never fails and only concerns the queue. *)
Definition passes {E A} (m : M W E A) : Prop := ∀ v, triple (λ w, w = v) m (λ _, aside v) (λ _ _, False).

Lemma passes_bind {E A B} (m : M W E A) (f : A → M W E B) : passes m → (∀ a, passes (f a)) → passes (m ≫= f).
Proof.
  intros Hm Hf v. eapply triple_bind; [apply Hm|]. intros a. apply triple_at. intros w1 H1.
  eapply triple_conseq; [apply (Hf a w1)|done| |done]. intros b w Hw. by etrans.
Qed.

Lemma passes_ret {E A} (a : A) : passes (E := E) (mret a).
Proof. intros v. apply triple_ret. by intros w ->. Qed.

Lemma passes_gets {E A} (f : W → A) : passes (E := E) (gets f).
Proof. intros v. apply triple_gets. by intros w ->. Qed.

Lemma passes_modify {E} (f : W → W) : (∀ w, w_sys (f w) = w_sys w ∧ seen (f w) = seen w ∧ stamps (f w) = stamps w) →
  passes (E := E) (modify f).
Proof. intros Hf v. apply triple_modify. intros w ->. destruct (Hf v) as (Hs & H1 & H2). split; [done|]. split; [done|]. by rewrite Hs. Qed.

Lemma passes_queue f : passes (onQueueState (S := S) (T := T) f).
Proof. by apply passes_modify. Qed.

Lemma triple_clock v : triple (λ w, w = v) (now (S := S) (T := T)) (λ t w, aside v w ∧ readBetween v w t) (λ _ _, False).
Proof.
  intros w ->. unfold now, zoom, timeNow. cbn [view lens_w_sys].
  destruct (env_now (env v)) as [t s] eqn:Ht.
  assert (∀ C, ticking C → time_ok t ∧ C (env v) ≤ total t ≤ C s) as Hr.
  { intros C [HC _]. pose proof (cm_ok C HC (env v)) as Hok. pose proof (cm_now C HC (env v)) as Hn. rewrite Ht in Hok, Hn. done. }
  split; [|exact Hr]. split; [done|]. split; [done|]. intros C HC. destruct (Hr C HC). cbn. lia.
Qed.

Lemma passes_now : passes (now (S := S) (T := T)).
Proof. intros v. eapply triple_conseq; [apply (triple_clock v)|done| |done]. by intros t w [? _]. Qed.

Lemma passes_order {E A} (l : list A) : passes (zoom (W := W) (V := Sys S) (rangeOrder (E := E) l)).
Proof.
  intros v w ->. unfold zoom, rangeOrder. cbn [view lens_w_sys]. destruct (env_order A l (env v)) as [l' s] eqn:Ho.
  split; [done|]. split; [done|]. intros C [_ HC]. specialize (HC A l (env v)). by rewrite Ho in HC.
Qed.

Lemma passes_mfor {E A} (f : A → M W E unit) l : (∀ x, passes (f x)) → passes (mfor f l).
Proof.
  intros Hf. unfold mfor. induction l as [|x l IH]; cbn [mfold]; [apply passes_ret|].
  apply passes_bind; [apply Hf|]. intros []. exact IH.
Qed.

(** What the other goroutines do to the queue. *)
Lemma passes_other a : passes (otherStep (S := S) (T := T) a).
Proof.
  destruct a as [hint|id|]; cbn [otherStep]; [apply passes_queue|..].
  - apply passes_bind; [apply passes_gets|]. intros q. case_bool_decide; [apply passes_queue|apply passes_ret].
  - unfold releaseFired. apply passes_bind; [apply passes_gets|]. intros fired. destruct (decide _); [apply passes_ret|].
    apply passes_bind; [apply passes_now|]. intros now1. apply passes_bind; [apply passes_gets|]. intros q.
    apply passes_bind; [apply passes_order|]. intros l. apply passes_bind; [apply passes_now|]. intros now2.
    apply passes_bind; [apply passes_gets|]. intros order. apply passes_queue.
Qed.

Lemma passes_meanwhile : passes (meanwhile (S := S) (T := T)).
Proof.
  unfold meanwhile. apply passes_bind; [apply passes_gets|]. intros [|actions rest]; [apply passes_ret|].
  apply passes_bind; [by apply passes_modify|]. intros []. apply passes_mfor, passes_other.
Qed.

(** A call of the queue that reads the clock. *)
Lemma triple_timed f (Q : Time → qstate → Prop) w0 : (∀ now1 now2 order s, Q now1 (f now1 now2 order s)) →
  triple (λ w, w = w0) (queueTimed f) (λ _ w, aside w0 w ∧ ∃ t, readBetween w0 w t ∧ Q t (w_queue w)) (λ _ _, False).
Proof.
  intros HQ. unfold queueTimed.
  eapply triple_bind; [apply passes_meanwhile|]. intros []. apply triple_at. intros w1 H1.
  eapply triple_bind; [apply triple_clock|]. intros now1. apply triple_at. intros w2 [H2 Ht].
  eapply triple_bind; [apply passes_now|]. intros now2. apply triple_at. intros w3 H3.
  eapply triple_bind with (R := λ _ w, w = w3); [by apply triple_gets|]. intros order. apply triple_modify. intros w ->.
  split; [etrans; [exact H1|]; etrans; [exact H2|exact H3]|]. exists now1. split; [|apply HQ].
  by eapply readBetween_mono; [exact H1|exact Ht|exact H3].
Qed.

(** Work under this reason and key waits until [due], or a complete repair is
    due at once, unless the queue is closed. *)
Definition scheduled (reason key : string) (due : Time) (s : qstate) : Prop :=
  eq_closed (qs_queue s) = true ∨ eq_global (qs_queue s) = true ∨
  ∃ d, eq_delayed (qs_queue s) !! delayedKey reason key = Some d ∧ dw_due d = due.

Lemma reset_delayed now l s : eq_delayed (qs_queue (resetTimerLocked now l s)) = eq_delayed (qs_queue s).
Proof. unfold resetTimerLocked, stopTimer. destruct l; by destruct (eq_timer _). Qed.

Lemma ScheduleGroup_scheduled now1 now2 order key work delay reason s :
  scheduled reason key (add now1 delay) (ScheduleGroup now1 now2 order key work delay reason s).
Proof.
  unfold ScheduleGroup. destruct (eq_closed (qs_queue s)) eqn:Hc; [by left|].
  destruct (eq_delayed (qs_queue s) !! _) as [d|].
  - right. right. eexists. rewrite reset_delayed. cbn. rewrite lookup_insert_eq. by split.
  - destruct (_ <=? _).
    + right. left. unfold globalLocked, signalLocked, stopTimer. cbn. by destruct (eq_timer _).
    + right. right. eexists. rewrite reset_delayed. cbn. rewrite lookup_insert_eq. by split.
Qed.

(** The work is put off by [delay] from a moment between [w] and [w']. *)
Definition putOff (reason key : string) (delay : Z) w w' : Prop :=
  aside w w' ∧ ∃ t, readBetween w w' t ∧ scheduled reason key (add t delay) (w_queue w').

Lemma triple_schedule key work delay reason w0 :
  triple (λ w, w = w0) (scheduleGroup key work delay reason) (λ _ w, putOff reason key delay w0 w) (λ _ _, False).
Proof. apply (triple_timed _ (λ t, scheduled reason key (add t delay))). intros. apply ScheduleGroup_scheduled. Qed.

Lemma triple_defer delay w0 :
  triple (λ w, w = w0) (addGlobalAfter delay) (λ _ w, putOff "global" "" delay w0 w) (λ _ _, False).
Proof. apply (triple_timed _ (λ t, scheduled "global" "" (add t delay))). intros. apply ScheduleGroup_scheduled. Qed.

Lemma schedule_run key work delay reason w : ∃ w', scheduleGroup key work delay reason w = (Ok tt, w') ∧ putOff reason key delay w w'.
Proof.
  pose proof (triple_schedule key work delay reason w w eq_refl) as Ht.
  destruct (scheduleGroup key work delay reason w) as [[[]|e] w']; [by exists w'|done].
Qed.
End scheduling.

(** ** What a batch stands for *)
Section resolve.
Context {S T : Type} `{Env S}.
Notation W := (World S T).
Implicit Types (w : W) (b : batchWork) (i : routeIndex).

#[local] Instance work_le_preorder : PreOrder work_le.
Proof. split; [by intros v; split|]. intros v1 v2 v3 [] []. split; auto. Qed.

(** More work, and nothing taken back. *)
Record batch_le b b' : Prop := {
  bl_groups g v : bw_groups b !! g = Some v → ∃ v', bw_groups b' !! g = Some v' ∧ work_le v v';
  bl_retries : bw_retries b ⊆ bw_retries b';
  bl_global : bw_global b = true → bw_global b' = true
}.

#[export] Instance batch_le_preorder : PreOrder batch_le.
Proof.
  split.
  - intros b. split; [|done|done]. intros g v Hv. exists v. split; [done|]. by split.
  - intros b1 b2 b3 [G1 R1 L1] [G2 R2 L2]. split; [|by etrans|auto]. intros g v (v' & Hv' & ?)%G1.
    apply G2 in Hv' as (v2 & Hv2 & ?). exists v2. split; [done|]. by etrans.
Qed.

Lemma batch_le_group b g k v : batch_le b (addGroupWork g k v b) ∧
  ∃ v', bw_groups (addGroupWork g k v b) !! g = Some v' ∧ work_le v v'.
Proof.
  split; [split; [|done|done]|].
  - intros g' v' Hv'. cbn. destruct (decide (g = g')) as [->|Hne].
    + rewrite lookup_insert_eq, Hv'. eexists. split; [done|]. by apply work_le_merge_l.
    + rewrite lookup_insert_ne by done. exists v'. split; [done|]. by split.
  - cbn. rewrite lookup_insert_eq. eexists. split; [done|]. apply work_le_merge_r.
Qed.

Lemma batch_le_global b : batch_le b (needGlobal b).
Proof. split; [|done|done]. intros g v Hv. exists v. split; [done|]. by split. Qed.

Lemma batch_le_retry b k : batch_le b (addRetry k b).
Proof. split; [|cbn; set_solver|done]. intros g v Hv. exists v. split; [done|]. by split. Qed.

(** The group of the key is to be read with at least this work; for a key that
    stands for no known group a complete repair is due. *)
Definition group_covered i (kw : string * eventWork) b : Prop :=
  match ResolveGroup kw.1 i with
  | Some g => ∃ v, bw_groups b !! g = Some v ∧ work_le kw.2 v
  | None => bw_global b = true
  end.

Definition user_work (uw : eventUserWork) : eventWork := MkWork false (uw_confirmMembership uw).

(** As above for every group the user is a member of, to be tried again when
    the event asks for it; for a user of no known group a complete repair is
    due. *)
Definition user_covered i (kw : string * eventUserWork) b : Prop :=
  (∀ g, memberWith (ri_secret i) i kw.1 g →
    (∃ v, bw_groups b !! g = Some v ∧ work_le (user_work kw.2) v) ∧
    (uw_jitRetry kw.2 = true → ∃ k, RouteForGroup g i = Some k ∧ k ∈ bw_retries b)) ∧
  ((∀ g, ¬ memberWith (ri_secret i) i kw.1 g) → bw_global b = true).

(** Why a group is in the work, and under which key it will be tried again. *)
Definition stems i (batch : eventBatch) (g : string) : Prop :=
  (∃ k v, eb_groups batch !! k = Some v ∧ ResolveGroup k i = Some g) ∨
  ∃ k v, eb_users batch !! k = Some v ∧ memberWith (ri_secret i) i k g.

(** Why a complete repair is due: it is asked for, or a key stands for nothing
    known. *)
Definition stray i (batch : eventBatch) : Prop :=
  eb_globalRepair batch = true ∨
  (∃ k v, eb_groups batch !! k = Some v ∧ ResolveGroup k i = None) ∨
  ∃ k v, eb_users batch !! k = Some v ∧ ∀ g, ¬ memberWith (ri_secret i) i k g.

Record from_batch i batch b : Prop := {
  fb_stems g : is_Some (bw_groups b !! g) → stems i batch g;
  fb_route g : is_Some (bw_groups b !! g) → ∃ k, bw_routes b !! g = Some k ∧
    (ResolveGroup k i = Some g ∨ RouteForGroup g i = Some k);
  fb_retry k : k ∈ bw_retries b → ∃ u v g, eb_users batch !! u = Some v ∧ uw_jitRetry v = true ∧
    memberWith (ri_secret i) i u g ∧ RouteForGroup g i = Some k;
  fb_global : bw_global b = true → stray i batch
}.

Lemma from_batch_group i batch b g k v : from_batch i batch b → stems i batch g →
  (ResolveGroup k i = Some g ∨ RouteForGroup g i = Some k) → from_batch i batch (addGroupWork g k v b).
Proof.
  intros [Hs Hr Ht Hgl] Hg Hk. split; [..|done|done]; intros g' Hg'; cbn in *; (destruct (decide (g = g')) as [->|Hne]; [|
    rewrite lookup_insert_ne in Hg' by done]); auto.
  - rewrite lookup_insert_eq. by exists k.
  - rewrite lookup_insert_ne by done. by apply Hr.
Qed.

Lemma from_batch_global i batch b : from_batch i batch b → stray i batch → from_batch i batch (needGlobal b).
Proof. intros [] Hs. by split. Qed.

Lemma from_batch_retry i batch b u v g k : from_batch i batch b → eb_users batch !! u = Some v → uw_jitRetry v = true →
  memberWith (ri_secret i) i u g → RouteForGroup g i = Some k → from_batch i batch (addRetry k b).
Proof.
  intros [Hs Hr Ht Hgl] Hu Hj Hg Hk. split; [done|done| |done]. intros k' [->%elem_of_singleton|Hk']%elem_of_union; [|by apply Ht].
  by exists u, v, g.
Qed.

Lemma covered_group_le i kw b b' : batch_le b b' → group_covered i kw b → group_covered i kw b'.
Proof.
  intros [G _ L]. unfold group_covered. destruct (ResolveGroup _ _) as [g|]; [|exact L].
  intros (v & Hv & Hle). apply G in Hv as (v' & Hv' & Hle'). exists v'. split; [done|]. by etrans.
Qed.

Lemma covered_user_le i kw b b' : batch_le b b' → user_covered i kw b → user_covered i kw b'.
Proof.
  intros [G R L] (Hall & Hnone). split; [|auto]. intros g Hg.
  destruct (Hall g Hg) as ((v & Hv & Hle) & Hj). apply G in Hv as (v' & Hv' & Hle'). split.
  - exists v'. split; [done|]. by etrans.
  - intros (k & Hk & Hin)%Hj. exists k. split; [done|]. by apply R.
Qed.

(** The world around the index while a batch is resolved. *)
Definition routes_wf w : Prop := route_wf (w_routes w, (w_secret w, w_sys w)).
Definition index_is i (l : StableLoader) w : Prop := w_routes w = i ∧ w_secret w = l.

Lemma triple_resolve_user k i l : index_ok (ri_secret i) i → stable_wf l →
  triple (W := W) (index_is i l) (routes (RouteIndex.ResolveUser k))
    (λ r w, index_is i l w ∧ match r with
       | Some gs => gs ≠ [] ∧ ∀ g, g ∈ gs ↔ memberWith (ri_secret i) i k g
       | None => ∀ g, ¬ memberWith (ri_secret i) i k g
       end) (λ _ _, False).
Proof.
  intros Hix Hl w [Hi Hs]. unfold routes, zoom. cbn [view lens_w_routes]. rewrite Hi, Hs.
  destruct (RouteIndex.ResolveUser k (i, (l, w_sys w))) as [[r|e] v] eqn:Hrun.
  - assert (route_wf (i, (l, w_sys w))) as Hwf by done.
    destruct (route_index_resolves _ _ _ _ Hwf Hrun) as (_ & _ & Hr). split.
    + unfold RouteIndex.ResolveUser in Hrun. apply bind_ok in Hrun as (s & v1 & [= <- <-] & Hrun).
      destruct (ri_userGroups _ !! k); [|by injection Hrun as _ <-].
      apply bind_ok in Hrun as (gs & v2 & Hl2 & [= _ <-]). unfold zoom, rangeOrder in Hl2. cbn in Hl2.
      destruct (env_order _ _ _). by injection Hl2 as _ <-.
    + destruct r; [|done]. by destruct Hr as (? & _ & ?).
  - unfold RouteIndex.ResolveUser, mbind, M_bind, gets in Hrun. cbn in Hrun.
    destruct (ri_userGroups i !! k); [|done]. unfold mbind, M_bind, zoom, rangeOrder in Hrun. cbn in Hrun.
    destruct (env_order _ _ _) as [l' s']. discriminate Hrun.
Qed.

(** The groups of one user. *)
Lemma triple_user_groups i l batch kw b0 gs : index_ok (ri_secret i) i →
  (∀ g, g ∈ gs ↔ memberWith (ri_secret i) i kw.1 g) → eb_users batch !! kw.1 = Some kw.2 → from_batch i batch b0 →
  triple (W := W) (index_is i l)
    (mfold (λ b groupID,
        route ← gets (λ w, RouteIndex.RouteForGroup groupID (w_routes w));
        match route with
        | None => mret (needGlobal b)
        | Some routeKey =>
            let b := addGroupWork groupID routeKey (MkWork false (uw_confirmMembership kw.2)) b in
            mret (if uw_jitRetry kw.2 then addRetry routeKey b else b)
        end) b0 gs)
    (λ b w, index_is i l w ∧ batch_le b0 b ∧ from_batch i batch b ∧ ∀ g, g ∈ gs →
       (∃ v, bw_groups b !! g = Some v ∧ work_le (user_work kw.2) v) ∧
       (uw_jitRetry kw.2 = true → ∃ k, RouteForGroup g i = Some k ∧ k ∈ bw_retries b)) (λ (_ : err) _, False).
Proof.
  intros [Hk _ _ _ _] Hgs Hu Hb0.
  eapply triple_conseq; [apply (triple_mfold _ (λ done b w, index_is i l w ∧ batch_le b0 b ∧ from_batch i batch b ∧
    ∀ g, g ∈ done → (∃ v, bw_groups b !! g = Some v ∧ work_le (user_work kw.2) v) ∧
      (uw_jitRetry kw.2 = true → ∃ k, RouteForGroup g i = Some k ∧ k ∈ bw_retries b)) (λ _ _, False))| |done|done].
  2: { intros w Hw. split; [done|]. split; [done|]. split; [done|]. intros g Hg. by apply elem_of_nil in Hg. }
  intros done g rest b ->. apply triple_at. intros w0 ([Hi Hl] & Hle & Hfrom & Hdone).
  assert (memberWith (ri_secret i) i kw.1 g) as Hg by (apply Hgs, elem_of_app_mid).
  assert (RouteForGroup g i = Some (gkey (ri_secret i) i g)) as Hroute.
  { unfold RouteForGroup. rewrite Hk. by destruct Hg as (us & u & -> & _). }
  set (k := gkey _ _ _) in *.
  eapply triple_bind with (R := λ r w, r = Some k ∧ w = w0); [apply triple_gets; intros w ->; by rewrite Hi|].
  intros r. apply triple_at. intros w [-> ->]. apply triple_ret. intros w ->. split; [done|].
  set (b1 := addGroupWork g k (MkWork false (uw_confirmMembership kw.2)) b).
  destruct (batch_le_group b g k (MkWork false (uw_confirmMembership kw.2))) as [Hle1 (v & Hv & Hwork)]. fold b1 in Hle1, Hv.
  set (b2 := if uw_jitRetry kw.2 then addRetry k b1 else b1).
  assert (batch_le b1 b2) as Hle2 by (unfold b2; destruct (uw_jitRetry kw.2); [apply batch_le_retry|done]).
  assert (batch_le b b2) as Hle3 by (by etrans). split; [by etrans|]. split.
  { assert (from_batch i batch b1) as Hb1.
    { apply from_batch_group; [done| |by right]. right. by exists kw.1, kw.2. }
    unfold b2. destruct (uw_jitRetry kw.2) eqn:Hj; [|done]. by eapply from_batch_retry. }
  intros g' [Hg'| ->%list_elem_of_singleton]%elem_of_app.
  - destruct (Hdone g' Hg') as ((v' & Hv' & Hw') & Hj). split.
    + apply Hle3 in Hv' as (v2 & Hv2 & Hw2). exists v2. split; [done|]. by etrans.
    + intros (k' & Hk' & Hin)%Hj. exists k'. split; [done|]. by apply Hle3.
  - split.
    + apply Hle2 in Hv as (v2 & Hv2 & Hw2). exists v2. split; [done|]. by etrans.
    + intros Hjit. exists k. split; [done|]. unfold b2. rewrite Hjit. by apply elem_of_union_l, elem_of_singleton.
Qed.

(** Everything in the batch, key by key. *)
Definition resolved i (batch : eventBatch) b : Prop :=
  (eb_globalRepair batch = true → bw_global b = true) ∧
  (∀ k v, eb_groups batch !! k = Some v → group_covered i (k, v) b) ∧
  (∀ k v, eb_users batch !! k = Some v → user_covered i (k, v) b) ∧
  from_batch i batch b.

Lemma triple_group_keys i l batch order : order ≡ₚ map_to_list (eb_groups batch) →
  triple (W := W) (index_is i l) (mfold resolveGroupWork (MkBatchWork ∅ ∅ ∅ (eb_globalRepair batch)) order)
    (λ b w, index_is i l w ∧ (eb_globalRepair batch = true → bw_global b = true) ∧ from_batch i batch b ∧
       ∀ kw, kw ∈ order → group_covered i kw b) (λ _ _, False).
Proof.
  intros Ho. eapply triple_conseq; [apply (triple_mfold _ (λ done b w, index_is i l w ∧
    (eb_globalRepair batch = true → bw_global b = true) ∧ from_batch i batch b ∧
    ∀ kw, kw ∈ done → group_covered i kw b) (λ _ _, False))| |done|done].
  2: { intros w Hw. split; [done|]. split; [done|]. split.
       { split; [..|by left]; [intros g [x Hg]; cbn in Hg; by rewrite lookup_empty in Hg..|]. intros k Hk. by apply elem_of_empty in Hk. }
       intros kw Hk. by apply elem_of_nil in Hk. }
  intros done [k v] rest b ->. apply triple_at. intros w0 ([Hi Hl] & Hglob & Hfrom & Hdone). unfold resolveGroupWork.
  assert (eb_groups batch !! k = Some v) as Hk.
  { apply elem_of_map_to_list. rewrite <-Ho. apply elem_of_app_mid. }
  eapply triple_bind with (R := λ r w, r = ResolveGroup k i ∧ w = w0); [apply triple_gets; intros w ->; by rewrite Hi|].
  intros r. apply triple_at. intros w [-> ->].
  assert (∀ b', batch_le b b' → group_covered i (k, v) b' →
    ∀ kw, kw ∈ done ++ [(k, v)] → group_covered i kw b') as Hall.
  { intros b' Hle Hkv kw [Hd| ->%list_elem_of_singleton]%elem_of_app; [|done]. by eapply covered_group_le; [|apply Hdone]. }
  destruct (ResolveGroup k i) as [g|] eqn:Hg; apply triple_ret; intros w ->; (split; [done|]).
  - destruct (batch_le_group b g k v) as [Hle (v' & Hv & Hw)]. split; [done|]. split.
    + apply from_batch_group; [done| |by left]. left. by exists k, v.
    + apply Hall; [done|]. unfold group_covered. cbn [fst snd]. rewrite Hg. by exists v'.
  - split; [done|]. split; [apply from_batch_global; [done|]; right; left; by exists k, v|]. apply Hall; [apply batch_le_global|].
    unfold group_covered. cbn [fst snd]. by rewrite Hg.
Qed.

Lemma triple_user_keys i l batch b0 order : index_ok (ri_secret i) i → stable_wf l →
  order ≡ₚ map_to_list (eb_users batch) → from_batch i batch b0 →
  triple (W := W) (index_is i l) (mfold resolveUserWork b0 order)
    (λ b w, index_is i l w ∧ batch_le b0 b ∧ from_batch i batch b ∧ ∀ kw, kw ∈ order → user_covered i kw b) (λ _ _, False).
Proof.
  intros Hix Hl Ho Hb0. eapply triple_conseq; [apply (triple_mfold _ (λ done b w, index_is i l w ∧ batch_le b0 b ∧
    from_batch i batch b ∧ ∀ kw, kw ∈ done → user_covered i kw b) (λ _ _, False))| |done|done].
  2: { intros w Hw. split; [done|]. split; [done|]. split; [done|]. intros kw Hk. by apply elem_of_nil in Hk. }
  intros done [k v] rest b ->. apply triple_at. intros w0 (Hw0 & Hle & Hfrom & Hdone). unfold resolveUserWork.
  assert (eb_users batch !! k = Some v) as Hk.
  { apply elem_of_map_to_list. rewrite <-Ho. apply elem_of_app_mid. }
  assert (∀ b', batch_le b b' → user_covered i (k, v) b' →
    ∀ kw, kw ∈ done ++ [(k, v)] → user_covered i kw b') as Hall.
  { intros b' Hle' Hkv kw [Hd| ->%list_elem_of_singleton]%elem_of_app; [|done]. by eapply covered_user_le; [|apply Hdone]. }
  eapply triple_bind; [eapply triple_conseq; [apply (triple_resolve_user k i l); done|by intros w ->|intros a w Hw; exact Hw|done]|].
  intros [gs|]; [|apply triple_ret; intros w [Hw Hnone]; split; [done|]].
  - apply triple_at. intros w1 (Hw1 & Hne & Hgs).
    eapply triple_conseq; [apply (triple_user_groups i l batch (k, v) b gs); done|by intros w ->| |done].
    intros b' w (Hw & Hle' & Hfrom' & Hcov). split; [done|]. split; [by etrans|]. split; [done|]. apply Hall; [done|].
    split; [intros g Hg%Hgs; by apply Hcov|]. intros Hnone. destruct gs as [|g gs]; [done|].
    exfalso. apply (Hnone g), Hgs. by left.
  - split; [etrans; [exact Hle|apply batch_le_global]|]. split.
    { apply from_batch_global; [done|]. right. right. by exists k, v. }
    apply Hall; [apply batch_le_global|]. split; [|done]. intros g Hg. by destruct (Hnone g).
Qed.

Lemma triple_order_silent {A} (l : list A) (P : W → Prop) : (∀ w w' : W, w_routes w = w_routes w' → w_secret w = w_secret w' → P w → P w') →
  triple (E := err) P (zoom (W := W) (V := Sys S) (rangeOrder l)) (λ l' w, l' ≡ₚ l ∧ P w) (λ _ _, False).
Proof.
  intros HP. apply triple_at. intros w0 H0. apply triple_zoom. intros w ->. apply triple_rangeOrder.
  intros v v' l' -> _ Hl. split; [done|]. by apply (HP w0).
Qed.

Lemma resolve_batch_ok batch w : routes_wf w →
  ∃ b w', resolveBatch batch w = (Ok b, w') ∧ resolved (w_routes w) batch b.
Proof.
  intros [Hix Hl]. cbn in Hix, Hl. set (i := w_routes w) in *.
  assert (triple (index_is i (w_secret w)) (resolveBatch batch) (λ b _, resolved i batch b) (λ _ _, False)) as Ht.
  { unfold resolveBatch.
    eapply triple_bind; [apply triple_order_silent; unfold index_is; intros ? ? -> ->; done|].
    intros groups. apply triple_pure. intros Hg.
    eapply triple_bind; [apply triple_group_keys; exact Hg|]. intros b1.
    apply triple_at. intros w1 (Hw1 & Hglob & Hfrom & Hgroups).
    eapply triple_bind; [eapply triple_conseq; [apply (triple_order_silent _ (index_is i (w_secret w)))|
      intros v ->; exact Hw1|intros a v Hv; exact Hv|done]; unfold index_is; intros ? ? -> ->; done|].
    intros users. apply triple_pure. intros Hu.
    eapply triple_conseq; [apply (triple_user_keys i (w_secret w) batch b1 users); done|done| |done].
    intros b v (_ & Hle & Hfrom' & Husers). split; [|split; [|split; [|done]]].
    - intros He. by apply Hle, Hglob.
    - intros k x Hk. eapply covered_group_le; [exact Hle|]. apply Hgroups. rewrite Hg. by apply elem_of_map_to_list.
    - intros k x Hk. apply Husers. rewrite Hu. by apply elem_of_map_to_list. }
  specialize (Ht w (conj eq_refl eq_refl)). destruct (resolveBatch batch w) as [[b|e] w'] eqn:Hrun; [|done].
  by exists b, w'.
Qed.

(** A loader that has a value of at least 32 bytes, as [startup] leaves it. *)
Definition loaded (l : StableLoader) : Prop := stable_wf l ∧ sl_last l ≠ "" ∧ 32 ≤ sl_minBytes l.

Lemma refresh_ok (v : routeIndex * (StableLoader * Sys S)) : loaded (fst (snd v)) → ∃ v', RouteIndex.Refresh v = (Ok tt, v').
Proof.
  intros (Hl & Hne & Hmin). unfold RouteIndex.Refresh, RouteIndex.refreshSecretLocked.
  pose proof (triple_StableLoad (fst (snd v)) (snd v) (conj eq_refl Hl)) as Ht.
  destruct (StableLoad (snd v)) as [[s|e] [l sys]] eqn:Hrun; [|by destruct Ht as [_ ?]].
  destruct Ht as (_ & _ & _ & Hlen & _). unfold mbind, M_bind, zoom. cbn [view lens_snd]. rewrite Hrun.
  destruct (Z.ltb_spec (byteLen s) 32); [lia|]. unfold gets. cbn. destruct (String.eqb _ _); [by eexists|].
  unfold RouteIndex.rebuildWithSecretLocked, mbind, M_bind, zoom, rangeOrder, gets. cbn.
  destruct (env_order _ _ _). by eexists.
Qed.

Definition batch_wf w : Prop := loaded (w_secret w) ∧ index_ok (ri_secret (w_routes w)) (w_routes w).

Lemma refresh_wf w : batch_wf w → ∃ w', routes RouteIndex.Refresh w = (Ok tt, w') ∧ routes_wf w'.
Proof.
  intros [Hl Hix]. set (v := (w_routes w, (w_secret w, w_sys w))).
  destruct (refresh_ok v Hl) as [v' Hv]. assert (route_wf v) as Hwf by (destruct Hl; split; done).
  pose proof (triple_run_route RRefresh (fst v) v (conj eq_refl Hwf)) as Ht. cbn [run_route] in Ht. rewrite Hv in Ht.
  destruct Ht as (Hwf' & _). exists (update v' w). unfold routes, zoom. change (view w) with v. rewrite Hv.
  split; [done|]. destruct v' as [i [l sys]]. exact Hwf'.
Qed.

Context (r : Reconciler W).

(** The targeted runs over [works], from [w] to [w']: each group is read,
    whatever became of the others, by a run over all providers when the work
    asks for that; a removal is put off to be confirmed, under the key of its
    group. *)
Fixpoint readAll b (works : list (string * eventWork)) w w' : Prop :=
  match works with
  | [] => w' = w
  | (g, v) :: works => ∃ o w1 w2,
      RunGroupOnce r g (negb (ew_allProviders v)) (countMetric EventTargetedRuns 1 w) = (o, w1) ∧
      (if ew_confirmRemoval v
       then ∃ key, bw_routes b !! g = Some key ∧ putOff "membership-confirmation" key membershipConfirmDelay w1 w2
       else w2 = w1) ∧
      readAll b works w2 w'
  end.

(** Each key is put off to be tried again. *)
Fixpoint retryAll (keys : list string) w w' : Prop :=
  match keys with
  | [] => w' = w
  | k :: keys => ∃ w1, putOff "jit-provisioning" k jitProvisioningRetryDelay w w1 ∧ retryAll keys w1 w'
  end.

(** All that the batch asks of single groups is done. *)
Definition servedGroups b w w' : Prop := ∃ works keys w0 w1 w2,
  works ≡ₚ map_to_list (bw_groups b) ∧ keys ≡ₚ elements (bw_retries b) ∧
  aside w w0 ∧ readAll b works w0 w1 ∧ aside w1 w2 ∧ retryAll keys w2 w'.

Lemma targeted_serves i batch b w res w' : from_batch i batch b → runTargeted r b w = (res, w') → res = Ok tt ∧ servedGroups b w w'.
Proof.
  intros Hb. assert (∀ works w, (∀ kv, kv ∈ works → is_Some (bw_groups b !! kv.1)) → ∃ w',
    mfor (λ gw : string * eventWork, count EventTargetedRuns 1;;
      _ ← attempt (E' := err) (RunGroupOnce r gw.1 (negb (ew_allProviders gw.2)));
      when (ew_confirmRemoval gw.2)
        (scheduleGroup (default "" (bw_routes b !! gw.1)) noWork membershipConfirmDelay "membership-confirmation")) works w = (Ok tt, w') ∧
    readAll b works w w') as Hreads.
  { unfold mfor. induction works as [|[g v] works IH]; intros w0 Hin; [by exists w0|]. cbn [mfold readAll fst snd].
    destruct (RunGroupOnce r g (negb (ew_allProviders v)) (countMetric EventTargetedRuns 1 w0)) as [o w1] eqn:Hrun.
    destruct (fb_route _ _ _ Hb g) as (key & Hkey & _); [by apply (Hin (g, v)); left|]. replace (default "" (bw_routes b !! g)) with key by (by rewrite Hkey).
    assert (∃ w2, when (ew_confirmRemoval v) (scheduleGroup key noWork membershipConfirmDelay "membership-confirmation") w1 = (Ok (E := err) tt, w2) ∧
      if ew_confirmRemoval v then ∃ key, bw_routes b !! g = Some key ∧ putOff "membership-confirmation" key membershipConfirmDelay w1 w2 else w2 = w1)
      as (w2 & H2 & Hc).
    { destruct (ew_confirmRemoval v); [|by exists w1].
      destruct (schedule_run key noWork membershipConfirmDelay "membership-confirmation" w1) as (w2 & Hs & Hp).
      exists w2. split; [done|]. by exists key. }
    destruct (IH w2) as (w3 & H3 & Hr); [intros kv Hkv; apply Hin; by right|]. exists w3. split.
    - erewrite bind_run; [exact H3|]. erewrite bind_run by reflexivity.
      erewrite bind_run; [exact H2|]. unfold attempt. by rewrite Hrun.
    - by exists o, w1, w2. }
  assert (∀ keys w, ∃ w', mfor (λ k, scheduleGroup k noWork jitProvisioningRetryDelay "jit-provisioning") keys w = (Ok (E := err) tt, w') ∧
    retryAll keys w w') as Hretries.
  { unfold mfor. induction keys as [|k keys IH]; intros w0; [by exists w0|]. cbn [mfold retryAll].
    destruct (schedule_run k noWork jitProvisioningRetryDelay "jit-provisioning" w0) as (w1 & Hs & Hp).
    destruct (IH w1) as (w2 & H2 & Hr). exists w2. rewrite (bind_run _ _ _ _ _ Hs). split; [done|]. by exists w1. }
  assert (∀ A (l : list A) w, ∃ l' w', zoom (W := W) (V := Sys S) (rangeOrder (E := err) l) w = (Ok l', w') ∧ l' ≡ₚ l ∧ aside w w') as Hord.
  { intros A l w0. pose proof (passes_order (E := err) l w0 w0 eq_refl) as Ht. unfold zoom, rangeOrder in *. cbn in *.
    pose proof (env_order_perm _ l (sys_env (w_sys w0))). destruct (env_order A l _) as [l' s]. by eexists l', _. }
  unfold runTargeted. destruct (Hord _ (map_to_list (bw_groups b)) w) as (works & w0 & H0 & Hworks & A0).
  destruct (Hreads works w0) as (w1 & H1 & Hr).
  { intros [g v] Hg. rewrite Hworks in Hg. apply elem_of_map_to_list in Hg. by exists v. }
  destruct (Hord _ (elements (bw_retries b)) w1) as (keys & w2 & H2 & Hkeys & A2). destruct (Hretries keys w2) as (w3 & H3 & Hj).
  rewrite (bind_run _ _ _ _ _ H0), (bind_run _ _ _ _ _ H1), (bind_run _ _ _ _ _ H2), H3. intros [= <- <-]. split; [done|].
  by exists works, keys, w0, w1, w2.
Qed.

(** [C15] No event is dropped on its way to the source: with the secret the
    process has held since its start, a batch never fails for a reason of its
    own.  Its keys are all resolved: one that stands for known groups puts
    every one of them, and nothing else puts any, on the list of those to be
    read, with at least the work the batch asks for; a complete repair is due
    exactly when the batch asks for one or a key stands for nothing known.
    Then, unless a complete repair was due and succeeded, each group on the
    list is read, whatever became of the others, removals are put off to be
    confirmed, and the keys of logins to be tried again. *)
Theorem batch_processed batch w0 res w : rc_routed r = true → batch_wf w0 → processEventBatch r batch w0 = (res, w) →
  ∃ w1 b w2, routes RouteIndex.Refresh w0 = (Ok tt, w1) ∧ resolved (w_routes w1) batch b ∧
    resolveBatch batch w1 = (Ok b, w2) ∧
    if bw_global b
    then ∃ o w3, runEventFullRepair r w2 = (o, w3) ∧
      match o with
      | Ok true => res = Ok tt ∧ w = w3
      | Ok false => res = Ok tt ∧ servedGroups b w3 w
      | Err e => res = Err e ∧ w = w3
      end
    else res = Ok tt ∧ servedGroups b w2 w.
Proof.
  intros Hr Hwf Hrun. destruct (refresh_wf w0 Hwf) as (w1 & Href & Hwf1).
  destruct (resolve_batch_ok batch w1 Hwf1) as (b & w2 & Hres & Hcov).
  exists w1, b, w2. split; [done|]. split; [done|]. split; [done|].
  unfold processEventBatch in Hrun. rewrite Hr in Hrun. cbn [negb] in Hrun.
  erewrite bind_run in Hrun by (unfold attempt; rewrite Href; reflexivity). cbv iota in Hrun.
  erewrite bind_run in Hrun by exact Hres. destruct (bw_global b).
  - unfold mbind, M_bind in Hrun. destruct (runEventFullRepair r w2) as [[[]|e] w3]; eexists _, _; (split; [done|]).
    + by injection Hrun as <- <-.
    + eapply targeted_serves; [apply Hcov|exact Hrun].
    + by injection Hrun as <- <-.
  - eapply targeted_serves; [apply Hcov|exact Hrun].
Qed.
End resolve.

(** ** Complete repairs asked for by events *)
Section repair.
Context {S T : Type} `{Env S} (r : Reconciler (World S T)).
Notation W := (World S T).
Implicit Types (w : W).

(** When the last complete run ended or was last attempted, and the clock. *)
Definition lastFull w : Time :=
  if after (w_lastFullRepair w) (w_lastFullAttempt w) then w_lastFullRepair w else w_lastFullAttempt w.
Definition clock w : Time := fst (env_now (sys_env (w_sys w))).
(** What the clock says next. *)
Definition nextClock w : Time := fst (env_now (snd (env_now (sys_env (w_sys w))))).
Lemma clock_run w : ∃ w', now w = (Ok (clock w), w') ∧ seen w' = seen w ∧ stamps w' = stamps w ∧ clock w' = nextClock w ∧ aside w w'.
Proof.
  pose proof (triple_clock w w eq_refl) as Ht. revert Ht. unfold now, zoom, timeNow, clock, nextClock. cbn [view lens_w_sys]. destruct (env_now (sys_env (w_sys w))) as [t s].
  intros [Ha _]. by eexists.
Qed.

Lemma putOff_after reason key delay w0 w1 w : aside w0 w1 → putOff reason key delay w1 w → putOff reason key delay w0 w.
Proof.
  intros A (B & t & Ht & Hp). split; [|exists t; split; [|exact Hp]].
  - destruct A as (A1 & A2 & A3), B as (B1 & B2 & B3). split; [congruence|]. split; [congruence|].
    intros C HC. etrans; [by apply A3|by apply B3].
  - by eapply readBetween_mono.
Qed.

Lemma remaining_exact t anchor : time_ok t → time_ok anchor → total anchor ≤ total t →
  wrap64 (topologyRepairMinInterval - sub t anchor) = topologyRepairMinInterval - Z.min int64_max (total t - total anchor).
Proof.
  intros Ht Ha Hle. rewrite sub_saturates by done. unfold clamp64. change topologyRepairMinInterval with 5000000000.
  rewrite wrap64_id by (unfold in_int64, int64_min, int64_max; lia). unfold int64_min, int64_max. lia.
Qed.

End repair.

(** ** Concrete inputs *)

(** The index of [RoutesFacts] inside a world, and a login of one of its users. *)
Definition routedReconciler : Reconciler demoWorld :=
  MkReconciler demoSource (NewRegistry [demoProvider]) [demoRule] true.
Definition routedWorld : demoWorld :=
  MkWorld (snd (snd routeDemo1)) demoState (fst routeDemo1) (fst (snd routeDemo1))
    (MkQ newEventQueue (MkTimers 0 ∅ 0) noMetrics) zeroTime zeroTime false false [] tt.
Definition loginBatch : eventBatch := MkBatch ∅ {[demoUserKey := MkUserWork true false]} false.

Lemma routed_wf : batch_wf routedWorld.
Proof.
  destruct routeDemo1_wf as [Hix Hl]. split; [|exact Hix]. split; [exact Hl|]. split; [by vm_compute|].
  by vm_compute.
Qed.

Lemma batch_processed_witness : ∃ (w1 : demoWorld) b (w2 : demoWorld),
  resolveBatch (H := routeDemoEnv) loginBatch w1 = (Ok b, w2) ∧ resolved (w_routes w1) loginBatch b.
Proof.
  destruct (processEventBatch (H := routeDemoEnv) routedReconciler loginBatch routedWorld) as [res w] eqn:Hrun.
  destruct (batch_processed (H := routeDemoEnv) routedReconciler loginBatch routedWorld res w eq_refl routed_wf Hrun)
    as (w1 & b & w2 & _ & Hb & Hres & _).
  exists w1, b, w2. split; [exact Hres|exact Hb].
Defined.

(** Two seconds after an attempt: the repair is put off for three.  The clock
    advances by a second with each of its first readings. *)
Definition busyClock (n : nat) : Time := unix (1700000000 + Z.of_nat (min n 10)).
Definition busyEnv : Env nat :=
  scriptEnv (λ _ s, (Err (EMsg "no server"), s)) (λ _, None) (λ _, Err (EMsg "no file")) (λ n, (busyClock n, S n)) (λ _ s, (false, s)).

Lemma busy_total n : total (busyClock n) = (1700000000 + Z.of_nat (min n 10) + unixToInternal) * nanos.
Proof.
  unfold busyClock, unix, total. cbn [t_sec t_nsec]. rewrite wrap64_id; [lia|].
  unfold in_int64, int64_min, int64_max, unixToInternal. lia.
Qed.

Lemma busy_ticking : ticking (H := busyEnv) (λ n, total (busyClock n)).
Proof.
  split; [|done]. split; intros; try done; [apply unix_ok|]. cbn [env_now busyEnv scriptEnv fst snd].
  rewrite !busy_total. unfold nanos. lia.
Qed.

Definition idleReconciler : Reconciler (World nat unit) := MkReconciler (MkSource (mret []) None) (NewRegistry []) [] false.
Definition busyWorld : World nat unit :=
  MkWorld (MkSys O [] ∅ ∅) demoState (newRouteIndex "corp") (MkStable (MkLoader "" "" None) 32 "")
    (MkQ newEventQueue (MkTimers 0 ∅ 0) noMetrics) (unix 90) (unix 1699999998) false false [] tt.

