(* ===== verification/Traffic.v ===== *)
(** * What a computation may send

    [Traced] is the interface of a world in which exchanges are recorded, and
    [TracedLens] that of a part of a world that records the same exchanges.
    [emits I P m]: started in a world satisfying [I], the computation [m] keeps
    [I] and what it sends falls into segments that satisfy [P], however it
    ends.  The rules follow the structure of a computation, so the clients'
    lemmas compose into statements about the whole process. *)

From S2P Require Import Prelude GoStrings GoTime Json World.

Class Traced (W : Type) : Type := trace_of : W → list Exchange.

Class TracedLens (W V : Type) {tw : Traced W} {tv : Traced V} {lens : Lens W V} : Prop := {
  trace_view (w : W) : trace_of (view w) = trace_of w;
  trace_update (v : V) (w : W) : trace_of (update v w) = trace_of v
}.

#[export] Instance traced_sys S : Traced (Sys S) := sys_trace.

Section emits.
Context {W : Type} `{Traced W}.
Implicit Types (I : W → Prop) (P : list Exchange → Prop) (w : W).

(** [w'] is [w] after segments of exchanges that all satisfy [P]. *)
Definition grew P w w' : Prop := ∃ ls, trace_of w' = trace_of w ++ concat ls ∧ Forall P ls.

#[export] Instance grew_preorder P : PreOrder (grew P).
Proof.
  split.
  - intros w. exists []. split; [by rewrite List.app_nil_r|constructor].
  - intros w1 w2 w3 (l1 & H1 & F1) (l2 & H2 & F2). exists (l1 ++ l2).
    split; [by rewrite H2, H1, List.concat_app, (assoc_L (++))|by apply Forall_app].
Qed.

Lemma grew_same P w w' : trace_of w' = trace_of w → grew P w w'.
Proof. intros Ht. exists []. split; [by rewrite Ht, List.app_nil_r|constructor]. Qed.

Lemma grew_segment P l w w' : trace_of w' = trace_of w ++ l → P l → grew P w w'.
Proof.
  intros Ht Hl. exists [l]. split; [cbn [concat]; by rewrite Ht, List.app_nil_r|by constructor].
Qed.

Lemma grew_weaken P (Q : list Exchange → Prop) w w' : (∀ l, P l → Q l) → grew P w w' → grew Q w w'.
Proof. intros HPQ (ls & Ht & F). exists ls. split; [done|]. by eapply Forall_impl. Qed.

(** Segments of exchanges that satisfy a predicate each make one such segment. *)
Lemma grew_each (P : Exchange → Prop) w w' : grew (Forall P) w w' → ∃ l, trace_of w' = trace_of w ++ l ∧ Forall P l.
Proof. intros (ls & Ht & F). exists (concat ls). split; [done|]. by apply Forall_concat. Qed.

Definition emits {E A} I P (m : M W E A) : Prop :=
  ∀ w0, I w0 → triple (λ w, w = w0) m (λ _ w, I w ∧ grew P w0 w) (λ _ w, I w ∧ grew P w0 w).

Lemma emits_ret {E A} I P (a : A) : emits (E := E) I P (mret a).
Proof. intros w0 HI. apply triple_ret. by intros w ->. Qed.

Lemma emits_throw {E A} I P (e : E) : emits (A := A) I P (mthrow e).
Proof. intros w0 HI. apply triple_throw. by intros w ->. Qed.

Lemma emits_gets {E A} I P (f : W → A) : emits (E := E) I P (gets f).
Proof. intros w0 HI. apply triple_gets. by intros w ->. Qed.

Lemma emits_outcome {E A} I P (r : outcome E A) : emits I P (of_outcome r).
Proof. intros w0 HI. apply triple_of_outcome. intros w ->. by destruct r. Qed.

Lemma emits_modify {E} I P (f : W → W) :
  (∀ w, I w → I (f w) ∧ trace_of (f w) = trace_of w) → emits (E := E) I P (modify f).
Proof. intros Hf w0 HI. apply triple_modify. intros w ->. destruct (Hf w0 HI). split; [done|by apply grew_same]. Qed.

Lemma emits_bind {E A B} I P (m : M W E A) (f : A → M W E B) :
  emits I P m → (∀ a, emits I P (f a)) → emits I P (m ≫= f).
Proof.
  intros Hm Hf w0 HI. eapply triple_bind; [by apply Hm|]. intros a. apply triple_at. intros w1 [HI1 G1].
  eapply triple_conseq; [by apply (Hf a)|done|..]; intros ? w [HI2 G2]; (split; [done|]); by etrans.
Qed.

(** As [emits_bind], remembering what the first part did. *)
Lemma emits_bind_run {E A B} I P (m : M W E A) (f : A → M W E B) :
  emits I P m → (∀ a, (∃ w w', I w ∧ m w = (Ok a, w')) → emits I P (f a)) → emits I P (m ≫= f).
Proof.
  intros Hm Hf w0 HI. eapply triple_bind with (R := λ a w, (I w ∧ grew P w0 w) ∧ ∃ w w', I w ∧ m w = (Ok a, w')).
  - intros w ->. pose proof (Hm w0 HI w0 eq_refl) as Ht. destruct (m w0) as [[a|e] w'] eqn:Hrun; [|exact Ht].
    split; [exact Ht|]. by exists w0, w'.
  - intros a. apply triple_at. intros w1 [[HI1 G1] Ha].
    eapply triple_conseq; [by apply (Hf a Ha)|done|..]; intros ? w [HI2 G2]; (split; [done|]); by etrans.
Qed.

Lemma emits_mfold {E A B} I P (f : B → A → M W E B) l b :
  (∀ b' x, x ∈ l → emits I P (f b' x)) → emits I P (mfold f b l).
Proof.
  intros Hf. revert b. induction l as [|x l IH]; intros b; cbn [mfold]; [apply emits_ret|].
  apply emits_bind; [apply Hf; by left|]. intros b'. apply IH. intros b2 y Hy. apply Hf. by right.
Qed.

Lemma emits_mfor {E A} I P (f : A → M W E unit) l : (∀ x, x ∈ l → emits I P (f x)) → emits I P (mfor f l).
Proof. intros Hf. apply emits_mfold. auto. Qed.

Lemma emits_attempt {E E' A} I P (m : M W E A) : emits I P m → emits (E := E') I P (attempt m).
Proof. intros Hm w0 HI. apply triple_attempt. by apply Hm. Qed.

Lemma emits_wrap {E E' A} I P (g : E → E') (m : M W E A) : emits I P m → emits I P (wrap_err g m).
Proof. intros Hm w0 HI. apply triple_wrap_err. by apply Hm. Qed.

Lemma emits_when {E} I P b (m : M W E unit) : emits I P m → emits I P (when b m).
Proof. intros Hm. destruct b; [exact Hm|apply emits_ret]. Qed.

Lemma emits_weaken {E A} I P (Q : list Exchange → Prop) (m : M W E A) : (∀ l, P l → Q l) → emits I P m → emits I Q m.
Proof.
  intros HPQ Hm w0 HI. eapply triple_conseq; [by apply Hm|done|..]; intros ? w [? ?]; (split; [done|]); by eapply grew_weaken.
Qed.

(** What was sent by the time a computation has ended. *)
Lemma emits_run {E A} I P (m : M W E A) w r w' : emits I P m → I w → m w = (r, w') → I w' ∧ grew P w w'.
Proof. intros Hm HI Hrun. pose proof (Hm w HI w eq_refl) as Ht. rewrite Hrun in Ht. by destruct r. Qed.
End emits.

(** A part of the world. *)
Lemma emits_zoom {W V} `{TracedLens W V} {E A} (I : W → Prop) (J : V → Prop) P (m : M V E A) :
  (∀ w, I w → J (view w)) → (∀ w v, I w → J v → I (update v w)) → emits J P m → emits I P (zoom m).
Proof.
  intros Hv Hu Hm w0 HI. apply triple_zoom. intros w -> v ->. specialize (Hm (view w0) (Hv w0 HI) _ eq_refl).
  destruct (m (view w0)) as [[a|e] v]; destruct Hm as [HJ (l & Ht & F)]; (split; [by apply Hu|]); exists l;
    by rewrite trace_update, Ht, trace_view.
Qed.

Lemma emits_part {W V} `{TracedLens W V} {E A} (I : W → Prop) P (m : M V E A) :
  (∀ w v, I w → I (update v w)) → emits (λ _, True) P m → emits I P (zoom m).
Proof. intros Hu. apply emits_zoom; auto. Qed.

(** ** The outside world *)
Section outside.
Context {S : Type} `{Env S} {E : Type}.
Notation silent := (emits (W := Sys S) (E := E) (λ _, True) (λ _, False)).

Lemma emits_frame {A} (m : M (Sys S) E A) :
  (∀ w0, triple (λ w, w = w0) m (λ _ w, frame w0 w) (λ _ w, frame w0 w)) → silent m.
Proof.
  intros Hm w0 _. eapply triple_conseq; [apply (Hm w0)|done|..]; intros ? w (Ht & _); (split; [done|]); by apply grew_same.
Qed.

Lemma emits_now : silent timeNow.
Proof. apply emits_frame. intros w0. apply triple_timeNow. by intros w w' t ->. Qed.

Lemma emits_order {A} (l : list A) : silent (rangeOrder l).
Proof. apply emits_frame. intros w0. apply triple_rangeOrder. by intros w w' t ->. Qed.

Lemma emits_http r : emits (W := Sys S) (E := E) (λ _, True) (Forall (λ ex, ex.1 = r)) (httpDo r).
Proof.
  intros w0 _. apply triple_httpDo. intros w w' o -> Ht _ _. split; [done|].
  by apply (grew_segment _ [(r, o)]); [exact Ht|repeat constructor].
Qed.
End outside.

#[export] Hint Resolve emits_ret emits_throw emits_gets emits_outcome emits_now emits_order : gb.

(** One step along the structure of a computation. *)
Ltac emit :=
  lazymatch goal with
  | |- emits _ _ (mret _) => apply emits_ret
  | |- emits _ _ (mthrow _) => apply emits_throw
  | |- emits _ _ (gets _) => apply emits_gets
  | |- emits _ _ (of_outcome _) => apply emits_outcome
  | |- emits _ _ (_ ≫= _) => apply emits_bind; [|intros ?]
  | |- emits _ _ (attempt _) => apply emits_attempt
  | |- emits _ _ (wrap_err _ _) => apply emits_wrap
  | |- emits _ _ (when _ _) => apply emits_when
  | |- emits _ _ (mfor _ _) => apply emits_mfor; intros ? ?
  | |- emits _ _ (mfold _ _ _) => apply emits_mfold; intros ? ? ?
  | |- emits _ _ (match ?x with _ => _ end) => destruct x
  | |- emits _ _ (let '_ := ?x in _) => destruct x
  end.
