(* ===== verification/ClientTraffic.v ===== *)
(** * What each component sends

    The traffic of the ledger (none), the route index (none), the Keycloak
    source, the Vault provider and the GitLab provider, each over its own
    world. *)

From S2P Require Import Prelude GoStrings GoTime Json World State StateSpec StateFacts Model Credential CredentialFacts Webhook Config Events Traffic GitLab GitLabSpec GitLabSync GitLabRemove GitLabRun GitLabFacts Keycloak KeycloakFacts Vault VaultFacts.

(** ** Worlds *)
#[export] Instance traced_pair A B `{Traced B} : Traced (A * B) := λ w, trace_of (snd w).
#[export] Instance traced_gl S : Traced (GL S) := λ w, sys_trace (gl_sys w).
#[export] Instance traced_kc S : Traced (Keycloak.KC S) := λ w, sys_trace (Keycloak.kw_sys w).
#[export] Instance traced_vt S : Traced (Vault.VT S) := λ w, sys_trace (Vault.vw_sys w).

#[export] Instance traced_lens_snd A B `{Traced B} : TracedLens (A * B) B.
Proof. by split. Qed.
#[export] Instance traced_lens_gl S : TracedLens (GL S) (Sys S).
Proof. by split. Qed.
#[export] Instance traced_lens_gl_store S : TracedLens (GL S) (Store * Sys S).
Proof. by split. Qed.
#[export] Instance traced_lens_kc S : TracedLens (lens := Keycloak.lens_kw_sys S) (Keycloak.KC S) (Sys S).
Proof. by split. Qed.
#[export] Instance traced_lens_vt S : TracedLens (lens := Vault.lens_vw_sys S) (Vault.VT S) (Sys S).
Proof. by split. Qed.
#[export] Instance traced_lens_route S :
  TracedLens (lens := RouteIndex.lens_route_sys (S := S)) (routeIndex * (StableLoader * Sys S)) (Sys S).
Proof. by split. Qed.

Notation nothing := (λ _ : list Exchange, False).
Notation anywhere := (λ _, True).

Section components.
Context {S : Type} `{Env S}.

(** ** The ledger *)
Definition ledger_path (w : Store * Sys S) : Prop := path_ok (st_path (fst w)).

Lemma emits_op o : emits ledger_path nothing (run_op (S := S) o).
Proof.
  intros [s sys] Hp w ->. pose proof (run_op_cases o s sys) as Hr.
  destruct (run_op o (s, sys)) as [[b|e] w']; specialize (Hr _ _ Hp eq_refl); cbn in Hr; split.
  - apply op_ok_post_store in Hr as (wr & He & _). unfold ledger_path. by rewrite (op_effect_path _ _ _ _ He).
  - apply grew_same. by apply op_ok_post_trace in Hr.
  - apply op_err_post_store in Hr. unfold ledger_path. cbn in Hr. by rewrite Hr.
  - apply grew_same. by apply op_err_post_trace in Hr.
Qed.

Lemma emits_op_unit o (m : M (Store * Sys S) err unit) : run_op o = (m;; mret false) → emits ledger_path nothing m.
Proof.
  intros Ho w Hp w' ->. pose proof (emits_op o w Hp w eq_refl) as Ht. rewrite Ho in Ht.
  unfold mbind, M_bind, mret, M_ret in Ht. by destruct (m w) as [[[]|e] v].
Qed.

Lemma emits_mappings : emits ledger_path nothing (GroupMappings (S := S)).
Proof.
  unfold GroupMappings. emit; [emit|]. emit; [|emit]. apply emits_part; [done|apply emits_order].
Qed.

(** ** Credentials and the route index *)
Lemma emits_load l : emits anywhere nothing (Load (S := S) l).
Proof. apply emits_frame. intros w0. apply triple_Load; intros w w' ? Hw Hf; cbv beta in Hw; subst w; [intros _|]; exact Hf. Qed.

Lemma emits_stable : emits anywhere nothing (StableLoad (S := S)).
Proof.
  unfold StableLoad. emit; [emit|]. emit; [emit; apply emits_part; [done|apply emits_load]|].
  match goal with |- emits _ _ (match ?x with _ => _ end) => destruct x as [v|e] end.
  - emit; [by apply emits_modify|emit].
  - destruct (negb _); emit.
Qed.

Lemma emits_rebuild secret : emits anywhere nothing (RouteIndex.rebuildWithSecretLocked (S := S) secret).
Proof.
  unfold RouteIndex.rebuildWithSecretLocked. emit; [emit|]. emit; [apply emits_part; [done|apply emits_order]|].
  by apply emits_modify.
Qed.

Lemma emits_refresh : emits anywhere nothing (RouteIndex.refreshSecretLocked (S := S)).
Proof.
  unfold RouteIndex.refreshSecretLocked. emit; [apply emits_part; [done|apply emits_stable]|].
  emit; [emit|]. emit; [emit|]. emit; [emit|]. emit; [by apply emits_modify|]. emit; [apply emits_rebuild|emit].
Qed.

Lemma emits_routes :
  (∀ gs, emits anywhere nothing (RouteIndex.Replace (S := S) gs)) ∧ (∀ g, emits anywhere nothing (RouteIndex.Update (S := S) g)) ∧
  emits anywhere nothing (RouteIndex.Refresh (S := S)) ∧ (∀ k, emits anywhere nothing (RouteIndex.ResolveUser (S := S) k)).
Proof.
  split_and!.
  - intros gs. unfold RouteIndex.Replace. emit; [apply emits_refresh|]. emit; [by apply emits_modify|apply emits_rebuild].
  - intros g. unfold RouteIndex.Update. emit; [apply emits_refresh|by apply emits_modify].
  - unfold RouteIndex.Refresh. emit; [apply emits_refresh|emit].
  - intros k. unfold RouteIndex.ResolveUser. emit; [emit|]. emit; [|emit]. emit; [|emit].
    apply emits_part; [done|apply emits_order].
Qed.
End components.

(** ** Starting *)
Section starting.
Context {S : Type} `{Env S}.

Lemma emits_fsFails {E} k : emits (W := Sys S) (E := E) anywhere nothing (fsFails k).
Proof. apply emits_frame. intros w0. apply triple_fsFails. by intros w w' b ->. Qed.

Lemma emits_close : emits anywhere nothing (Close (S := S)).
Proof.
  unfold Close. emit; [emit|]. emit; [|emit]. emit.
  { unfold fsTry. emit; [apply emits_part; [done|apply emits_fsFails]|]. emit; emit. }
  emit; [by apply emits_modify|]. emit; [apply emits_part; [done|apply emits_fsFails]|].
  emit; [by apply emits_modify|]. emit; emit.
Qed.

Lemma emits_open path : emits anywhere nothing (Open (S := S) path).
Proof.
  assert (∀ s e, emits (W := Sys S) (E := err) (A := Store) anywhere nothing
    (λ w, let '(_, w') := Close (s, w) in (Err e, snd w'))) as Hclose.
  { intros s e w0 _ w ->. pose proof (emits_close (s, w0) I (s, w0) eq_refl) as Ht.
    destruct (Close (s, w0)) as [[[]|e'] w']; exact Ht. }
  unfold Open. emit; [apply emits_fsFails|]. emit; [emit|]. emit; [apply emits_fsFails|]. emit; [emit|].
  emit; [emit|]. emit; [emit|]. emit; [by apply emits_modify|]. emit; [apply emits_fsFails|]. emit; [emit|].
  cbn zeta. emit; [apply Hclose|]. emit; [|emit]. emit; [emit|apply Hclose].
Qed.

Lemma emits_stable_new l n : emits anywhere nothing (NewStable (S := S) l n).
Proof.
  unfold NewStable. emit; [emit|]. intros w0 _ w ->.
  pose proof (emits_stable (MkStable l n "", w0) I (MkStable l n "", w0) eq_refl) as Ht.
  destruct (StableLoad _) as [[v|e] [l' w']]; exact Ht.
Qed.
End starting.

(** ** The Keycloak source *)
Section keycloak.
Import Keycloak.
Context {S : Type} `{Env S} (c : Client).
Notation only := (emits (W := KC S) anywhere (Forall (sourceRead c))).

Lemma emits_reads {A} (m : M (KC S) err A) (Q : A → list Exchange → Prop) :
  (∀ w0, triple (λ w, w = w0) m (λ a w, ∃ l, reads c w0 l w ∧ Q a l) (λ _ w, ∃ l, reads c w0 l w)) → only m.
Proof.
  intros Hm w0 _. eapply triple_conseq; [apply (Hm w0)|done|..].
  - intros a w (l & [Ht F] & _). split; [done|]. by apply (grew_segment _ l).
  - intros e w (l & [Ht F]). split; [done|]. by apply (grew_segment _ l).
Qed.

Lemma emits_get {A} path query (dec : json → option A) : only (get c path query dec).
Proof. eapply emits_reads. intros w0. apply triple_get. Qed.

Lemma emits_groupsFrom fuel path first all seen : only (groupsFrom c fuel path first all seen).
Proof.
  revert first all seen. induction fuel as [|fuel IH]; intros first all seen; cbn [groupsFrom]; [emit|].
  emit; [apply emits_get|]. emit; [emit|]. emit; [apply IH|emit].
Qed.

Lemma emits_membersFrom fuel gid first result seen : only (membersFrom c fuel gid first result seen).
Proof.
  revert first result seen. induction fuel as [|fuel IH]; intros first result seen; cbn [membersFrom]; [emit|].
  emit; [apply emits_get|]. emit; [emit|]. emit; [apply IH|emit].
Qed.

Lemma emits_collect depth fuel g parent acc : only (collectGroup c depth fuel g parent acc).
Proof.
  revert g parent acc. induction depth as [|depth IH]; intros g parent acc; cbn [collectGroup]; [emit|].
  destruct (_ || _); [emit|]. destruct (decide _); [emit|].
  emit; [emit; apply emits_membersFrom|]. emit; [emit; apply emits_groupsFrom|]. emit. apply IH.
Qed.

Lemma emits_ListGroups depth fuel : only (ListGroups c depth fuel).
Proof.
  unfold ListGroups. emit; [emit; apply emits_groupsFrom|]. emit; [emit; apply emits_collect|]. emit. emit.
Qed.

Lemma emits_ReadGroup fuel id : only (ReadGroup c fuel id).
Proof.
  unfold ReadGroup. destruct (String.eqb _ _); [emit|].
  emit; [emit; eapply emits_reads; intros w0; apply triple_getAttempts|]. emit; [|emit].
  destruct (_ || _); [emit|]. destruct (negb _); [emit|]. emit; [emit; apply emits_membersFrom|emit].
Qed.
End keycloak.

(** ** The Vault provider *)
Section vault.
Import Vault.
Context {S : Type} `{Env S} (isPrint : Z → bool) (c : Client).
Notation only := (emits (W := VT S) anywhere (Forall (onlyLooks c))).

Lemma emits_looks {E A} (m : M (VT S) E A) (Q : A → list Exchange → Prop) :
  (∀ w0, triple (λ w, w = w0) m (λ a w, ∃ l, looks c w0 l w ∧ Q a l) (λ _ w, ∃ l, looks c w0 l w)) → only m.
Proof.
  intros Hm w0 _. eapply triple_conseq; [apply (Hm w0)|done|..].
  - intros a w (l & [Ht F] & _). split; [done|]. by apply (grew_segment _ l).
  - intros e w (l & [Ht F]). split; [done|]. by apply (grew_segment _ l).
Qed.

Lemma emits_vault_health : only (HealthCheck c).
Proof. unfold HealthCheck. emit; [eapply emits_looks; intros w0; apply triple_discover|emit]. Qed.

Lemma emits_vault_sync req : only (SyncAccessGroup isPrint c req).
Proof. eapply emits_looks. intros w0. apply triple_SyncAccessGroup. Qed.
End vault.

(** ** The GitLab provider *)
Section gitlab.
Context {S : Type} `{Env S} (c : GitLab.Client).
Implicit Types (w : GL S).
Notation trace w := (sys_trace (gl_sys w)).

Lemma emits_gitlab_health : emits gl_path_ok (Forall isGet) (GitLab.HealthCheck (S := S) c).
Proof.
  unfold GitLab.HealthCheck. emit; [|emit]. intros w0 Hp.
  eapply triple_conseq; [apply (triple_currentIdentity c w0)|done|..].
  - intros a w (l & [Ht Hs F] & _). split; [unfold gl_path_ok; by rewrite Hs|by apply (grew_segment _ l)].
  - intros e w (l & [Ht Hs F]). split; [unfold gl_path_ok; by rewrite Hs|by apply (grew_segment _ l)].
Qed.

Context (req : SyncRequest).

Lemma path_of_store {E A} (m : M (GL S) E A) :
  (∀ w0, triple (λ w, w = w0) m (λ _ w, gl_store w = gl_store w0) (λ _ w, gl_store w = gl_store w0)) → keeps gl_path_ok m.
Proof. apply (keeps_same gl_store m (λ s, path_ok (st_path s))). Qed.

Lemma keeps_path fuel : keeps gl_path_ok (GitLab.SyncGroup (S := S) c fuel req).
Proof.
  unfold GitLab.SyncGroup. apply keeps_bind; [|intros started].
  { apply path_of_store. intros w0. apply triple_zoom. intros w ->. apply triple_timeNow. by intros v v' t ->. }
  apply keeps_bind; [apply triple_attempt; unfold syncBody; apply keeps_bind; [|intros [target result]]|intros o; apply keeps_bind].
  - intros w0 Hp. pose proof (triple_bindTarget c req (MkResult (c_name c) (g_Path (sr_SourceGroup req)) (sr_TargetPath req)
      false 0 0 0 0 0 false 0) w0 Hp w0 eq_refl) as Ht.
    destruct (bindTarget _ _ _ _) as [[x|e] w]; [by destruct Ht as (? & _ & _ & _ & ?)|].
    destruct Ht as [_ Hs]. unfold gl_path_ok. by rewrite Hs.
  - intros w0 Hp. pose proof (keeps_groups c req (st_groups (gl_store w0)) fuel target result w0 (conj Hp eq_refl)) as Ht.
    by destruct (syncMembers _ _ _ _ _ _) as [[x|e] w]; destruct Ht.
  - apply path_of_store. intros w0. apply triple_zoom. intros w ->. apply triple_timeNow. by intros v v' t ->.
  - intros finished. destruct o as [res|[res e]]; [apply keeps_ret|apply keeps_throw].
Qed.

(** The exchanges of a run of [SyncGroup] for this request; all but the reads
    are allowed by what the run had seen. *)
Definition fromSync (fuel : nat) (l : list Exchange) : Prop :=
  ∃ w r w', GitLab.SyncGroup c fuel req w = (r, w') ∧ trace w' = trace w ++ l ∧
    Z.of_nat (length (List.filter isDelete l)) ≤ Z.max 0 (sr_MaxRemovals req) ∧
    ∀ ex, ex ∈ l → isGet ex ∨
      if isDelete ex then removalAllowed c req (gl_identityID w') (gl_store w) l ex
      else grantAllowed c req (gl_store w) l ex.

Lemma emits_gitlab_sync fuel : emits gl_path_ok (fromSync fuel) (GitLab.SyncGroup c fuel req).
Proof.
  intros w0 Hp w ->. pose proof (keeps_path fuel w0 Hp) as Hk.
  destruct (GitLab.SyncGroup c fuel req w0) as [r w] eqn:Hrun.
  destruct (sync_removals c req fuel w0 r w Hp Hrun) as (l & Ht & Hmax & Hrem).
  destruct (sync_grants c req fuel w0 r w Hp Hrun) as (l' & Ht' & _ & Hgr).
  assert (l' = l) as -> by (apply (app_inv_head (trace w0)); congruence).
  assert (grew (fromSync fuel) w0 w) as G.
  { apply (grew_segment _ l); [exact Ht|]. exists w0, r, w. split_and!; try done. intros ex Hex.
    destruct (decide (rq_method ex.1 = "GET")) as [Hg|Hg]; [by left|right].
    destruct (isDelete ex) eqn:Hd; [by apply Hrem|]. by apply Hgr. }
  by destruct r.
Qed.
End gitlab.
