(* ===== verification/App.v ===== *)
(** * The HTTP surface and the wiring of the process
    ([internal/app/server.go], [cmd/groupbridge/server.go], [cmd/groupbridge/main.go])

    [Surface] routes requests, [Certificates] reloads the TLS key pair,
    [Wiring] builds the providers and the reconciler of a configuration and
    embeds each client's world in the reconciler's. *)

From Stdlib Require Import FunctionalExtensionality.
From S2P Require Import Prelude GoStrings GoTime Json World State Model Credential Webhook Config Events GitLab Keycloak Vault Provider Reconcile.

(** ** The HTTP surface *)
Module Surface.
Inductive endpoint : Type := EEvents | EHealth | EReady | EMetrics | ERoot.

(** The patterns of [NewServer] that a method and a clean path match; a GET
    pattern also takes HEAD, and ["GET /"] any path no other pattern takes. *)
Definition matchRoute (method path : string) : option endpoint :=
  let get := String.eqb method "GET" || String.eqb method "HEAD" in
  if String.eqb method "POST" && String.eqb path "/v1/events/keycloak" then Some EEvents
  else if negb get then None
  else if String.eqb path "/healthz" then Some EHealth
  else if String.eqb path "/readyz" then Some EReady
  else if String.eqb path "/metrics" then Some EMetrics
  else Some ERoot.

(** The headers that [securityHeaders] sets on every response. *)
Definition securityHeaders : list (string * string) :=
  [("Cache-Control", "no-store");
   ("Content-Security-Policy", "default-src 'none'; frame-ancestors 'none'");
   ("X-Content-Type-Options", "nosniff");
   ("X-Frame-Options", "DENY")].

Record Page : Type := MkPage { pg_response : Response; pg_body : string }.

Definition secured (p : Page) : Page :=
  MkPage (MkResponse (rp_status (pg_response p)) (securityHeaders ++ rp_header (pg_response p))) (pg_body p).

(** What the small handlers answer; [json.Encode] of the name and the version
    is a parameter's work.  The webhook answers [EEvents] itself. *)
Definition answer (encodeRoot : string → string) (version : string) (ready : bool) (m : Metrics) (e : endpoint) : Page :=
  match e with
  | EEvents => MkPage (MkResponse 200 []) ""
  | EHealth => MkPage (MkResponse 200 []) ""
  | EReady => if ready then MkPage (MkResponse 200 []) ""
              else MkPage (httpError 503 []) ("not ready" +:+ newline)
  | EMetrics => MkPage (MkResponse 200 [("Content-Type", "text/plain; version=0.0.4")]) (WritePrometheus m)
  | ERoot => MkPage (MkResponse 200 [("Content-Type", "application/json")]) (encodeRoot version)
  end.

Section handler.
Context {S : Type} `{Env S}.

(** [Handler]: the headers first, then the route. *)
Definition Handle (encodeRoot : string → string) (version : string) (ready : bool) (path : string) (r : InRequest)
    : M (Hook S) err Page :=
  match matchRoute (in_method r) path with
  | None =>
      let allow := if String.eqb path "/v1/events/keycloak" then "GET, HEAD, POST" else "GET, HEAD" in
      mret (secured (MkPage (httpError 405 [("Allow", allow)]) ("Method Not Allowed" +:+ newline)))
  | Some EEvents => resp ← ServeHTTP r; mret (secured (MkPage resp ""))
  | Some e => w ← gets id; mret (secured (answer encodeRoot version ready (hk_metrics w) e))
  end.
End handler.

(** Every response carries the security headers. *)
Lemma Handle_secured {S} `{Env S} enc version ready path r (w : Hook S) :
  match Handle enc version ready path r w with
  | (Ok p, _) => ∃ rest, rp_header (pg_response p) = securityHeaders ++ rest
  | (Err _, _) => True
  end.
Proof.
  unfold Handle. destruct (matchRoute _ _) as [[]|]; try (by eexists).
  unfold mbind, M_bind. destruct (ServeHTTP r w) as [[resp|e] w']; [by eexists|done].
Qed.
End Surface.

(** ** TLS certificates *)
Module Certificates.
Section reload.
(** A key pair, and [tls.LoadX509KeyPair] over the files of the outside. *)
Context {S Cert : Type} (LoadX509KeyPair : string → string → S → option Cert * S).

Record certificateReloader : Type := MkReloader
  { cr_certFile : string; cr_keyFile : string; cr_current : Cert; cr_lastLoadFailed : bool }.

Definition newCertificateReloader (certFile keyFile : string) : M S err certificateReloader := λ s,
  let '(c, s) := LoadX509KeyPair certFile keyFile s in
  match c with
  | None => (Err (EMsg "load initial GroupBridge TLS certificate"), s)
  | Some certificate => (Ok (MkReloader certFile keyFile certificate false), s)
  end.

Definition GetCertificate : M (certificateReloader * S) err Cert := λ w,
  let '(r, s) := w in
  let '(c, s) := LoadX509KeyPair (cr_certFile r) (cr_keyFile r) s in
  match c with
  | None => (Ok (cr_current r), (MkReloader (cr_certFile r) (cr_keyFile r) (cr_current r) true, s))
  | Some certificate => (Ok certificate, (MkReloader (cr_certFile r) (cr_keyFile r) certificate false, s))
  end.

(** A handshake always gets a certificate: the pair on disk when it loads, else
    the last one that did. *)
Lemma GetCertificate_last_good r s :
  ∃ c s', GetCertificate (r, s) = (Ok c, s') ∧ cr_current (fst s') = c ∧
    (c = cr_current r ∨ fst (LoadX509KeyPair (cr_certFile r) (cr_keyFile r) s) = Some c).
Proof.
  unfold GetCertificate. destruct (LoadX509KeyPair _ _ s) as [[c|] s']; eexists _, _;
    (split; [done|]); (split; [done|]); [by right|by left].
Qed.
End reload.
End Certificates.

(** ** The wiring *)
Module Wiring.
(** What the clients of one target keep, and what the source keeps. *)
Record Caches : Type := MkCaches
  { ca_identityID : Z; ca_identityHash : string; ca_vaultToken : string; ca_vaultExpiry : Time }.
Record Clients : Type := MkClients
  { cs_kcToken : string; cs_kcExpiry : Time; cs_targets : string → Caches }.

Definition setTarget (name : string) (c : Caches) (x : Clients) : Clients :=
  MkClients (cs_kcToken x) (cs_kcExpiry x) (λ n, if String.eqb n name then c else cs_targets x n).

Definition set_ext {S T} (t : T) (w : Reconcile.World S T) : Reconcile.World S T :=
  MkWorld (w_sys w) (w_store w) (w_routes w) (w_secret w) (w_queue w)
    (w_lastFullRepair w) (w_lastFullAttempt w) (w_readyDone w) (w_ready w) (w_others w) t.
Definition set_outside {S T} (st : Store) (s : Sys S) (w : Reconcile.World S T) : Reconcile.World S T :=
  MkWorld s st (w_routes w) (w_secret w) (w_queue w)
    (w_lastFullRepair w) (w_lastFullAttempt w) (w_readyDone w) (w_ready w) (w_others w) (w_ext w).

Lemma setTarget_same name x : setTarget name (cs_targets x name) x = x.
Proof.
  destruct x as [t e f]. unfold setTarget. cbn. f_equal. apply functional_extensionality. intros n.
  by destruct (String.eqb_spec n name) as [->|].
Qed.

Lemma setTarget_twice name c c' x : setTarget name c (setTarget name c' x) = setTarget name c x.
Proof.
  unfold setTarget. cbn. f_equal. apply functional_extensionality. intros n. by destruct (String.eqb n name).
Qed.

(** The world of the GitLab client of target [name]. *)
#[export] Program Instance lens_gitlab S (name : string) : Lens (Reconcile.World S Clients) (GL S) | 10 :=
  {| view w := let c := cs_targets (w_ext w) name in MkGL (ca_identityID c) (ca_identityHash c) (w_store w) (w_sys w);
     update v w :=
       let c := cs_targets (w_ext w) name in
       set_outside (gl_store v) (gl_sys v) (set_ext (setTarget name
         (MkCaches (gl_identityID v) (gl_identityTokenHash v) (ca_vaultToken c) (ca_vaultExpiry c)) (w_ext w)) w) |}.
Next Obligation. intros S name [i h st s] w. unfold set_outside, set_ext, setTarget. cbn. rewrite String.eqb_refl. reflexivity. Qed.
Next Obligation.
  intros S name w. cbn. destruct w as [s st ro se q a b c d o x]. unfold set_outside, set_ext. cbn. f_equal.
  transitivity (setTarget name (cs_targets x name) x); [|apply setTarget_same]. f_equal. by destruct (cs_targets x name).
Qed.
Next Obligation.
  intros S name v v' w. cbn. unfold set_outside, set_ext. cbn. f_equal. rewrite ?String.eqb_refl. apply setTarget_twice.
Qed.

(** The world of the Vault client of target [name]. *)
#[export] Program Instance lens_vault S (name : string) : Lens (Reconcile.World S Clients) (Vault.VT S) | 10 :=
  {| view w := let c := cs_targets (w_ext w) name in Vault.MkVT (ca_vaultToken c) (ca_vaultExpiry c) (w_sys w);
     update v w :=
       let c := cs_targets (w_ext w) name in
       set_outside (w_store w) (Vault.vw_sys v) (set_ext (setTarget name
         (MkCaches (ca_identityID c) (ca_identityHash c) (Vault.vw_token v) (Vault.vw_expiresAt v)) (w_ext w)) w) |}.
Next Obligation. intros S name [t e s] w. unfold set_outside, set_ext, setTarget. cbn. rewrite String.eqb_refl. reflexivity. Qed.
Next Obligation.
  intros S name w. cbn. destruct w as [s st ro se q a b c d o x]. unfold set_outside, set_ext. cbn. f_equal.
  transitivity (setTarget name (cs_targets x name) x); [|apply setTarget_same]. f_equal. by destruct (cs_targets x name).
Qed.
Next Obligation.
  intros S name v v' w. cbn. unfold set_outside, set_ext. cbn. f_equal. rewrite ?String.eqb_refl. apply setTarget_twice.
Qed.

(** The world of the Keycloak client. *)
#[export] Program Instance lens_keycloak S : Lens (Reconcile.World S Clients) (Keycloak.KC S) :=
  {| view w := Keycloak.MkKC (cs_kcToken (w_ext w)) (cs_kcExpiry (w_ext w)) (w_sys w);
     update v w := set_outside (w_store w) (Keycloak.kw_sys v)
       (set_ext (MkClients (Keycloak.kw_accessToken v) (Keycloak.kw_tokenExpiry v) (cs_targets (w_ext w))) w) |}.
Next Obligation. by intros S [] w. Qed.
Next Obligation. by intros S [? ? ? ? ? ? ? ? ? ? []]. Qed.
Next Obligation. done. Qed.

Section wiring.
Context {S : Type} `{Env S} (isPrint : Z → bool) (depth fuel : nat).
Notation W := (Reconcile.World S Clients).
Notation MS := (M (Sys S) err).

Definition gitlabProvider (c : GitLab.Client) : Provider W :=
  let name := c_name c in
  MkProvider name
    (zoom (W := W) (V := GL S) (H := lens_gitlab S name) (GitLab.HealthCheck c))
    (Some (λ req, zoom (W := W) (V := GL S) (H := lens_gitlab S name) (GitLab.SyncGroup c fuel req)))
    None.

Definition vaultProvider (c : Vault.Client) : Provider W :=
  let name := Vault.vc_name c in
  MkProvider name
    (zoom (W := W) (V := Vault.VT S) (H := lens_vault S name) (Vault.HealthCheck c))
    None
    (Some (λ req, zoom (W := W) (V := Vault.VT S) (H := lens_vault S name) (Vault.SyncAccessGroup isPrint c req))).

Definition keycloakSource (c : Keycloak.Client) : Source W :=
  MkSource
    (zoom (W := W) (V := Keycloak.KC S) (Keycloak.ListGroups c depth fuel))
    (Some (λ id, zoom (W := W) (V := Keycloak.KC S) (Keycloak.ReadGroup c fuel id))).

(** A credential that is configured and can be loaded. *)
Definition readyLoader (environment filePath : string) : MS Loader :=
  l ← of_outcome (Credential.New environment filePath);
  Load l;;
  mret l.

(** One iteration of the loop over the targets. *)
Definition newProvider (t : Target) : MS (Provider W) :=
  if String.eqb (ta_Type t) "gitlab" then
    token ← wrap_err (EWrap "GitLab mutation credential") (readyLoader (ta_TokenEnv t) (ta_TokenFile t));
    resolver ← (if negb (String.eqb (ta_ResolverTokenEnv t) "") || negb (String.eqb (ta_ResolverTokenFile t) "")
                then wrap_err (EWrap "GitLab resolver credential")
                       (readyLoader (ta_ResolverTokenEnv t) (ta_ResolverTokenFile t))
                else mret token);
    mret (gitlabProvider (NewWithCredentials (ta_Name t) (ta_BaseURL t) token resolver (ta_OIDCProvider t)))
  else if String.eqb (ta_Type t) "vault" then
    mret (vaultProvider (Vault.New (ta_Name t) (ta_BaseURL t)
      (Vault.MkOptions (ka_Mount (ta_KubernetesAuth t)) (ka_Role (ta_KubernetesAuth t))
        (ka_TokenFile (ta_KubernetesAuth t)) (ta_OIDCMount t) (ta_KVMount t))))
  else mthrow (EMsg "target provider type is not compiled in").

Definition buildProviders (targets : list Target) : MS (list (Provider W)) :=
  mfold (λ ps t, p ← newProvider t; mret (ps ++ [p])) [] targets.

(** [defer store.Close()] on the way out of a failed start. *)
Definition closing {A} (store : Store) (m : MS A) : MS A := λ w,
  match m w with
  | (Ok a, w') => (Ok a, w')
  | (Err e, w') => let '(_, (_, w'')) := Close (store, w') in (Err e, w'')
  end.

(** [run] up to the start of the workers: the reconciler and its world. *)
Definition startup (cfg : Config) : MS (Reconciler W * (Sys S → W)) :=
  keycloakSecret ← wrap_err (EWrap "Keycloak client credential")
    (readyLoader (so_ClientSecretEnv (cf_Source cfg)) (so_ClientSecretFile (cf_Source cfg)));
  webhookSource ← wrap_err (EWrap "configure webhook credential")
    (of_outcome (Credential.New (wc_SecretEnv (cf_Webhook cfg)) (wc_SecretFile (cf_Webhook cfg))));
  webhookSecret ← wrap_err (EWrap "load webhook credential") (NewStable webhookSource 32);
  store ← Open (cf_StatePath cfg);
  providers ← closing store (buildProviders (cf_Targets cfg));
  let src := Keycloak.NewWithCredential (so_BaseURL (cf_Source cfg)) (so_Realm (cf_Source cfg))
    (so_ClientID (cf_Source cfg)) keycloakSecret in
  mret (MkReconciler (keycloakSource src) (NewRegistry providers) (cf_Rules cfg) true,
    λ sys, MkWorld sys store (newRouteIndex (so_Realm (cf_Source cfg))) webhookSecret
      (MkQ newEventQueue (MkTimers 0 ∅ 0) noMetrics) zeroTime zeroTime false false []
      (MkClients "" zeroTime (λ _, MkCaches 0 "" "" zeroTime))).
End wiring.
End Wiring.
