(* ===== verification/Lifecycle.v ===== *)
(** * The life of the process ([run] in [cmd/groupbridge/main.go])

    From the start of the worker on, [run] is three goroutines (itself, the
    reconciler's loop and the HTTP server) that meet in channels.  A state says
    where each of them is; an action is one atomic step of one of them, of the
    environment or of a timer, and [step] is what it does, if it can happen. *)

From S2P Require Import Prelude.

Inductive exitKind : Type :=
| ExitServer        (* [listenAndServe] failed *)
| ExitShutdown      (* [server.Shutdown] failed *)
| ExitTimeout       (* the worker had to be cancelled *)
| ExitClean.

(** Where [run] is: in its select, in [server.Shutdown], waiting for the worker,
    waiting for it after cancelling it, running its deferred calls, out. *)
Inductive mainState : Type :=
| MSelect | MShutdown | MWait | MForced
| MReturn (e : exitKind) | MClosing (e : exitKind) | MExited (e : exitKind).

(** The reconciler's loop: in its select, gathering a burst of wake-ups, in a run
    of which [complete] says whether it is a [RunOnce], or returned.  How long a
    run takes is not known: it may end at any time, and it may never end by
    itself. *)
Inductive worker : Type := WIdle | WBurst | WRun (complete : bool) | WDone.

Record proc : Type := MkProc
  { pr_main : mainState;
    pr_worker : worker;
    pr_wakes : nat;               (* ticks and wake-ups not yet received *)
    pr_signal : bool;             (* a signal is in its channel *)
    pr_server : option bool;      (* what [listenAndServe] returned; [true]: [ErrServerClosed] *)
    pr_ready : bool;
    pr_once : bool;               (* [readyOnce] has run *)
    pr_stop : bool;               (* [stopWorkers] is closed *)
    pr_cancelled : bool;          (* [workerCtx] is done *)
    pr_deadline : bool;           (* [shutdownCtx] is done *)
    pr_store : bool }.            (* the store is open *)

Inductive action : Type :=
| ATick | ASignal | AServerReturn (closed : bool) | ADeadline
| AMain                           (* the next step of [run], when it has one *)
| AMainServer                     (* the select takes the server's error *)
| AShutdownFails
| ATimeout                        (* the select takes the deadline *)
| AWorkerTick                     (* the select of the loop takes a tick *)
| AWorkerWake                     (* it takes a wake-up *)
| AWorkerMore                     (* one more wake-up of the burst *)
| AWorkerSettled (complete : bool) (* the burst is over; [complete]: its batch makes a complete run *)
| AWorkerFinish (ok : bool)
| AWorkerStop.

#[export] Instance exitKind_eq_dec : EqDecision exitKind.
Proof. solve_decision. Defined.
#[export] Instance mainState_eq_dec : EqDecision mainState.
Proof. solve_decision. Defined.
#[export] Instance worker_eq_dec : EqDecision worker.
Proof. solve_decision. Defined.

Definition set_main (m : mainState) (p : proc) : proc :=
  MkProc m (pr_worker p) (pr_wakes p) (pr_signal p) (pr_server p) (pr_ready p) (pr_once p) (pr_stop p)
    (pr_cancelled p) (pr_deadline p) (pr_store p).
Definition set_worker (v : worker) (p : proc) : proc :=
  MkProc (pr_main p) v (pr_wakes p) (pr_signal p) (pr_server p) (pr_ready p) (pr_once p) (pr_stop p)
    (pr_cancelled p) (pr_deadline p) (pr_store p).
Definition set_wakes (n : nat) (p : proc) : proc :=
  MkProc (pr_main p) (pr_worker p) n (pr_signal p) (pr_server p) (pr_ready p) (pr_once p) (pr_stop p)
    (pr_cancelled p) (pr_deadline p) (pr_store p).
Definition set_signal (b : bool) (p : proc) : proc :=
  MkProc (pr_main p) (pr_worker p) (pr_wakes p) b (pr_server p) (pr_ready p) (pr_once p) (pr_stop p)
    (pr_cancelled p) (pr_deadline p) (pr_store p).
Definition set_server (v : option bool) (p : proc) : proc :=
  MkProc (pr_main p) (pr_worker p) (pr_wakes p) (pr_signal p) v (pr_ready p) (pr_once p) (pr_stop p)
    (pr_cancelled p) (pr_deadline p) (pr_store p).
Definition SetReady (b : bool) (p : proc) : proc :=
  MkProc (pr_main p) (pr_worker p) (pr_wakes p) (pr_signal p) (pr_server p) b (pr_once p) (pr_stop p)
    (pr_cancelled p) (pr_deadline p) (pr_store p).
Definition set_once (p : proc) : proc :=
  MkProc (pr_main p) (pr_worker p) (pr_wakes p) (pr_signal p) (pr_server p) (pr_ready p) true (pr_stop p)
    (pr_cancelled p) (pr_deadline p) (pr_store p).
Definition close_stop (p : proc) : proc :=
  MkProc (pr_main p) (pr_worker p) (pr_wakes p) (pr_signal p) (pr_server p) (pr_ready p) (pr_once p) true
    (pr_cancelled p) (pr_deadline p) (pr_store p).
Definition forceStopWorkers (p : proc) : proc :=
  MkProc (pr_main p) (pr_worker p) (pr_wakes p) (pr_signal p) (pr_server p) (pr_ready p) (pr_once p) (pr_stop p)
    true (pr_deadline p) (pr_store p).
Definition set_deadline (p : proc) : proc :=
  MkProc (pr_main p) (pr_worker p) (pr_wakes p) (pr_signal p) (pr_server p) (pr_ready p) (pr_once p) (pr_stop p)
    (pr_cancelled p) true (pr_store p).
Definition close_store (p : proc) : proc :=
  MkProc (pr_main p) (pr_worker p) (pr_wakes p) (pr_signal p) (pr_server p) (pr_ready p) (pr_once p) (pr_stop p)
    (pr_cancelled p) (pr_deadline p) false.

(** [readyOnce.Do(onReady)], where [onReady] is [httpSurface.SetReady(true)]. *)
Definition onReady (p : proc) : proc := if pr_once p then p else set_once (SetReady true p).

Definition exited (p : proc) : bool := match pr_main p with MExited _ => true | _ => false end.

(** The next step of [run]: the select takes the signal; [server.Shutdown]
    returns nil; the worker is seen to be done; the deferred calls, of which
    only [forceStopWorkers] and then [store.Close] matter here. *)
Definition mainStep (p : proc) : option proc :=
  match pr_main p with
  | MSelect => if pr_signal p then Some (set_main MShutdown (SetReady false (set_signal false p))) else None
  | MShutdown => Some (set_main MWait (close_stop p))
  | MWait => if decide (pr_worker p = WDone) then Some (set_main (MReturn ExitClean) p) else None
  | MForced => if decide (pr_worker p = WDone) then Some (set_main (MReturn ExitTimeout) p) else None
  | MReturn e => Some (set_main (MClosing e) (forceStopWorkers p))
  | MClosing e => Some (set_main (MExited e) (close_store p))
  | MExited _ => None
  end.

(** The select of [run] takes what [listenAndServe] returned. *)
Definition serverStep (p : proc) : option proc :=
  match pr_main p, pr_server p with
  | MSelect, Some true => Some (set_main MShutdown (SetReady false p))
  | MSelect, Some false => Some (set_main (MReturn ExitServer) p)
  | _, _ => None
  end.

(** The loop of [reconciler.Run] and the wait of [waitForTriggerBurst]: a select
    may take a tick or a wake-up even when it could also stop.  A run that was
    complete and ended well calls [onReady]. *)
Definition workerStep (a : action) (p : proc) : option proc :=
  match a, pr_worker p, pr_wakes p with
  | AWorkerTick, WIdle, Datatypes.S n => Some (set_worker (WRun true) (set_wakes n p))
  | AWorkerWake, WIdle, Datatypes.S n => Some (set_worker WBurst (set_wakes n p))
  | AWorkerMore, WBurst, Datatypes.S n => Some (set_wakes n p)
  | AWorkerSettled complete, WBurst, _ => Some (set_worker (WRun complete) p)
  | AWorkerFinish ok, WRun complete, _ => Some (set_worker WIdle (if ok && complete then onReady p else p))
  | AWorkerStop, (WIdle | WBurst), _ => if pr_stop p || pr_cancelled p then Some (set_worker WDone p) else None
  | _, _, _ => None
  end.

Definition step (a : action) (p : proc) : option proc :=
  if exited p then None
  else
    match a with
    | ATick => Some (set_wakes (Datatypes.S (pr_wakes p)) p)
    | ASignal => Some (set_signal true p)
    | AServerReturn closed => match pr_server p with None => Some (set_server (Some closed) p) | Some _ => None end
    | ADeadline =>
        match pr_main p with
        | MShutdown | MWait => if pr_deadline p then None else Some (set_deadline p)
        | _ => None
        end
    | AMain => mainStep p
    | AMainServer => serverStep p
    | AShutdownFails =>
        if bool_decide (pr_main p = MShutdown)
        then Some (set_main (MReturn ExitShutdown) (forceStopWorkers p)) else None
    | ATimeout =>
        if bool_decide (pr_main p = MWait) && pr_deadline p then Some (set_main MForced (forceStopWorkers p)) else None
    | AWorkerTick | AWorkerWake | AWorkerMore | AWorkerSettled _ | AWorkerFinish _ | AWorkerStop => workerStep a p
    end.

Fixpoint execute (l : list action) (p : proc) : option proc :=
  match l with
  | [] => Some p
  | a :: l => p' ← step a p; execute l p'
  end.

(** The worker's first run is already under way. *)
Definition launched : proc :=
  MkProc MSelect (WRun true) 0 false None false false false false false true.

(** ** What holds in every reachable state *)
Lemma execute_app l1 l2 p : execute (l1 ++ l2) p = execute l1 p ≫= execute l2.
Proof. revert p. induction l1 as [|a l1 IH]; intros p; [done|]. cbn. destruct (step a p); [apply IH|done]. Qed.

(** An exit that was reached through the wait for the worker. *)
Definition orderly (e : exitKind) : bool := match e with ExitClean | ExitTimeout => true | _ => false end.

Record alive (p : proc) : Prop := {
  al_done e : pr_main p = MReturn e ∨ pr_main p = MClosing e ∨ pr_main p = MExited e → orderly e = true → pr_worker p = WDone;
  al_store : pr_store p = negb (exited p);
  al_stop : pr_main p = MWait → pr_stop p = true;
  al_forced : pr_main p = MForced → pr_cancelled p = true;
  al_ready : pr_ready p = true → pr_once p = true
}.

Ltac stepped :=
  repeat match goal with
  | H : Some _ = Some _ |- _ => injection H as <-
  | H : None = Some _ |- _ => discriminate H
  | H : context [match ?x with _ => _ end] |- _ => destruct x eqn:?; try discriminate H
  end.

Ltac settle :=
  intros; repeat match goal with H : _ ∨ _ |- _ => destruct H end; simplify_eq; try congruence; try (by auto);
  match goal with H : ∀ e : exitKind, _, O : orderly ?e = true |- _ => specialize (H e); intuition congruence end.

Lemma step_alive a p p' : step a p = Some p' → alive p → alive p'.
Proof.
  intros Hs [H1 H2 H3 H4 H5]. destruct p as [m v n sg sv rd on st ca de so]. unfold exited in *. cbn in *.
  destruct a; unfold step, exited, mainStep, serverStep, workerStep, onReady in Hs; cbn in Hs; stepped; subst;
    repeat match goal with |- alive ?x => match x with context [if ?b then _ else _] => destruct b end end;
    (split; unfold exited; cbn; settle).
Qed.

Lemma execute_alive l p p' : execute l p = Some p' → alive p → alive p'.
Proof.
  revert p. induction l as [|a l IH]; intros p; cbn; [by intros [= <-]|].
  destruct (step a p) as [p1|] eqn:Hs; [|done]. intros Hl Hp. by eapply IH, step_alive.
Qed.

Lemma launched_alive : alive launched.
Proof. split; unfold exited; cbn; try done. by intros e [?|[?|?]]. Qed.

(** ** The end of the process *)

(** An action that is no new tick, wake-up or signal. *)
Definition quiet (a : action) : bool := match a with ATick | ASignal => false | _ => true end.

Definition mainRank (m : mainState) : nat :=
  match m with
  | MSelect => 6 | MShutdown => 5 | MWait => 4 | MForced => 3 | MReturn _ => 2 | MClosing _ => 1 | MExited _ => 0
  end.
Definition workerRank (v : worker) : nat :=
  match v with WBurst => 3 | WRun _ => 2 | WIdle => 1 | WDone => 0 end.
Definition rank (p : proc) : nat :=
  mainRank (pr_main p) + workerRank (pr_worker p) +
  (if pr_server p then 0 else 1) + (if pr_deadline p then 0 else 1).

Lemma quiet_decreases a p p' : quiet a = true → step a p = Some p' →
  (pr_wakes p' < pr_wakes p)%nat ∨ (pr_wakes p' = pr_wakes p ∧ (rank p' < rank p)%nat).
Proof.
  intros Hq Hs. destruct p as [m v n sg sv rd on st ca de so].
  destruct a; try discriminate Hq; unfold step, exited, mainStep, serverStep, workerStep, onReady in Hs; cbn in Hs; stepped; subst;
    repeat match goal with H : bool_decide _ && _ = true |- _ =>
      apply andb_true_iff in H as [H ?]; apply bool_decide_eq_true in H end; try discriminate;
    repeat match goal with |- context [if ?b && ?c then _ else _] => destruct (b && c) end;
    try destruct on; cbn; unfold rank; cbn; repeat case_match; try (left; lia); right; (split; [done|lia]).
Qed.

(** [p'] is one quiet action after [p]. *)
Definition after_quiet (p' p : proc) : Prop := ∃ a, quiet a = true ∧ step a p = Some p'.

Lemma quiet_ends p : Acc after_quiet p.
Proof.
  remember (pr_wakes p) as n eqn:Hn. revert p Hn. induction (lt_wf n) as [n _ IHn]. intros p Hn.
  remember (rank p) as k eqn:Hk. revert p Hn Hk. induction (lt_wf k) as [k _ IHk]. intros p -> ->.
  constructor. intros p' (a & Hq & Hs). destruct (quiet_decreases a p p' Hq Hs) as [Hlt|[Heq Hlt]].
  - by apply (IHn (pr_wakes p')).
  - by apply (IHk (rank p')).
Qed.

(** The actions that are bound to happen where they can: the steps of [run], the
    deadline and what it brings about, the selects, the timers of the burst.
    Not [server.Shutdown] returning before its deadline, which open requests may
    prevent; and a run of the reconciler is bound to end only when its context is
    cancelled, as every call it makes is made with that context. *)
Definition obliged (a : action) (p : proc) : bool :=
  match a with
  | AMain => negb (bool_decide (pr_main p = MShutdown))
  | AShutdownFails => pr_deadline p
  | AMainServer | ADeadline | ATimeout | AWorkerSettled _ | AWorkerStop => true
  | AWorkerFinish _ => pr_cancelled p
  | ATick | ASignal | AServerReturn _ | AWorkerTick | AWorkerWake | AWorkerMore => false
  end.

Lemma obliged_quiet a p : obliged a p = true → quiet a = true.
Proof. by destruct a. Qed.

(** Once [run] has left its select, something is always bound to happen. *)
Lemma never_stuck p : alive p → pr_main p ≠ MSelect → exited p = false →
  ∃ a, obliged a p = true ∧ is_Some (step a p).
Proof.
  intros [_ _ Hst Hca _] Hm He. destruct p as [m v n sg sv rd on st ca de so]. unfold exited in He. cbn in *.
  destruct m; try done.
  - destruct de; [exists AShutdownFails|exists ADeadline]; (split; [done|by eexists]).
  - rewrite Hst by done. destruct de; [exists ATimeout|exists ADeadline]; (split; [done|by eexists]).
  - rewrite Hca by done. destruct v as [| |complete|]; [exists AWorkerStop|exists AWorkerStop|exists (AWorkerFinish false)|exists AMain];
      (split; [done|]); unfold step, workerStep; cbn; rewrite ?orb_true_r; by eexists.
  - exists AMain. split; [done|by eexists].
  - exists AMain. split; [done|by eexists].
Qed.

Lemma step_leaves a p p' : step a p = Some p' → pr_main p ≠ MSelect → pr_main p' ≠ MSelect.
Proof.
  intros Hs Hm. destruct p as [m v n sg sv rd on st ca de so]. cbn in Hm.
  destruct a; unfold step, exited, mainStep, serverStep, workerStep, onReady in Hs; cbn in Hs; stepped; subst; cbn;
    repeat match goal with |- context [if ?b && ?c then _ else _] => destruct (b && c) end; try destruct on; cbn; congruence.
Qed.

Lemma execute_leaves l p p' : execute l p = Some p' → pr_main p ≠ MSelect → pr_main p' ≠ MSelect.
Proof.
  revert p. induction l as [|a l IH]; intros p; cbn; [by intros [= <-]|].
  destruct (step a p) as [p1|] eqn:Hs; [|done]. intros Hl Hp. eapply IH; [done|]. by eapply step_leaves.
Qed.

(** [C30] The process always ends, however long the runs of the reconciler and
    the open requests would take: once [run] has taken a signal or the server's
    error, whatever is already in the channels, there is no infinite sequence of
    steps without new ticks, wake-ups and signals; and as long as [run] has not
    returned, some step is possible that is bound to happen although neither a
    run nor [server.Shutdown] has to end by itself: the deadline passes, and a
    run ends because its context has been cancelled. *)
Theorem shutdown_terminates l p :
  execute l launched = Some p → pr_main p ≠ MSelect →
  Acc after_quiet p ∧
  ∀ l' p', execute l' p = Some p' → exited p' = false →
    ∃ a, obliged a p' = true ∧ is_Some (step a p').
Proof.
  intros Hl Hm. split; [apply quiet_ends|]. intros l' p' Hl' He.
  apply never_stuck; [|by eapply execute_leaves|done].
  eapply execute_alive, execute_alive; eauto using launched_alive.
Qed.

(** [C29] The ledger is released last: the store is closed exactly when [run] has
    returned; and when [run] returns by waiting for the worker, normally or
    after cancelling it, the reconciler has stopped by then, so that no ledger
    is written after its lock was given up. *)
Theorem store_closed_last l p : execute l launched = Some p →
  pr_store p = negb (exited p) ∧
  (pr_main p = MExited ExitClean ∨ pr_main p = MExited ExitTimeout → pr_worker p = WDone).
Proof.
  intros Hl. assert (alive p) as [Hd Hs _ _ _] by (eapply execute_alive; eauto using launched_alive).
  split; [done|]. intros [He|He]; (eapply Hd; [by right; right|done]).
Qed.

(** A whole life: a complete run, a wake-up, a signal during the run that it
    causes, which is finished before the store is closed. *)
Definition cleanLife : list action :=
  [AWorkerFinish true; ATick; ATick; AWorkerWake; AWorkerMore; AWorkerSettled false; ASignal; AMain; AMain; AWorkerFinish true;
   AWorkerStop; AMain; AMain; AMain].

Lemma clean_life : execute cleanLife launched =
  Some (MkProc (MExited ExitClean) WDone 0 false None false true true true false false).
Proof. reflexivity. Qed.

(** The state when the signal has been taken, in the middle of the second run. *)
Definition signalled : proc := MkProc MShutdown (WRun false) 0 false None false true false false false true.

Lemma signalled_run : execute (take 8 cleanLife) launched = Some signalled.
Proof. reflexivity. Qed.

(** The run does not end by itself: the deadline passes, and it is cancelled. *)
Definition forcedEnd : list action := [AMain; ADeadline; ATimeout; AWorkerFinish false; AWorkerStop; AMain; AMain; AMain].

Lemma forced_end : execute forcedEnd signalled =
  Some (MkProc (MExited ExitTimeout) WDone 0 false None false true true true true false).
Proof. reflexivity. Qed.

(** In the middle of it the next step is the end of the run, which is bound to
    come because its context is cancelled. *)
Lemma shutdown_terminates_witness : execute (take 8 cleanLife) launched = Some signalled ∧ Acc after_quiet signalled ∧
  ∃ p a, execute (take 3 forcedEnd) signalled = Some p ∧ pr_worker p = WRun false ∧ obliged a p = true ∧ is_Some (step a p).
Proof.
  split; [exact signalled_run|].
  destruct (shutdown_terminates (take 8 cleanLife) signalled signalled_run) as [Hacc Hnext]; [discriminate|].
  split; [exact Hacc|]. destruct (Hnext (take 3 forcedEnd) _ eq_refl eq_refl) as (a & Ho & Hs).
  eexists _, a. split; [reflexivity|]. split; [reflexivity|]. split; [exact Ho|exact Hs].
Defined.

Lemma store_closed_last_witness : ∃ p, execute cleanLife launched = Some p ∧ pr_worker p = WDone.
Proof.
  exists (MkProc (MExited ExitClean) WDone 0 false None false true true true false false). split; [exact clean_life|].
  apply (store_closed_last cleanLife _ clean_life). left. reflexivity.
Defined.

(** Where the order is not kept, in three lives: when the server fails, or when
    [server.Shutdown] runs into its deadline, [run] returns and the store is
    closed, its lock released, while a run of the reconciler is under way; and
    the first complete run, if it ends after the signal, makes the server ready
    again although [run] has just withdrawn the readiness. *)
Example shutdown_gaps :
  execute [AServerReturn false; AMainServer; AMain; AMain] launched =
    Some (MkProc (MExited ExitServer) (WRun true) 0 false (Some false) false false false true false false) ∧
  execute [ASignal; AMain; ADeadline; AShutdownFails; AMain; AMain] launched =
    Some (MkProc (MExited ExitShutdown) (WRun true) 0 false None false false false true true false) ∧
  execute [ASignal; AMain; AWorkerFinish true] launched =
    Some (MkProc MShutdown WIdle 0 false None true true false false false true).
Proof. split_and!; reflexivity. Qed.
