(* ===== verification/WiredFacts.v ===== *)
(** * The process as it is wired

    Keycloak, GitLab and Vault clients inside the reconciler's world: what the
    whole process sends over its lifetime, and in which order. *)

From S2P Require Import Prelude GoStrings GoTime Json World State StateSpec StateFacts Model Credential CredentialFacts Webhook Config Paths Events GitLab GitLabSpec GitLabRun GitLabFacts Keycloak KeycloakFacts Vault VaultFacts Provider Reconcile ReconcileFacts Traffic ClientTraffic App.
Import Wiring.

(** ** Where the exchanges of the parts go *)
#[export] Instance traced_world S T : Traced (World S T) := λ w, sys_trace (w_sys w).
#[export] Instance traced_lens_w_sys S T : TracedLens (World S T) (Sys S).
Proof. by split. Qed.
#[export] Instance traced_lens_w_store S T : TracedLens (World S T) (Store * Sys S).
Proof. by split. Qed.
#[export] Instance traced_lens_w_routes S T : TracedLens (World S T) (routeIndex * (StableLoader * Sys S)).
Proof. by split. Qed.
#[export] Instance traced_lens_gitlab S name : TracedLens (lens := lens_gitlab S name) (World S Clients) (GL S).
Proof. by split. Qed.
#[export] Instance traced_lens_vault S name : TracedLens (lens := lens_vault S name) (World S Clients) (Vault.VT S).
Proof. by split. Qed.
#[export] Instance traced_lens_keycloak S : TracedLens (lens := lens_keycloak S) (World S Clients) (Keycloak.KC S).
Proof. by split. Qed.

Section wired.
Context {S : Type} `{Env S} (isPrint : Z → bool) (depth fuel : nat).
Notation W := (World S Clients).
Context (r : Reconciler W) (kc : Keycloak.Client) (providers : list (Provider W)).
Implicit Types (w : W).

(** The reconciler that [startup] builds: one Keycloak client, and a GitLab or
    Vault client per target. *)
Record wired : Prop := {
  wi_source : rc_source r = keycloakSource depth fuel kc;
  wi_registry : rc_providers r = NewRegistry providers;
  wi_provider p : p ∈ providers → (∃ c, p = gitlabProvider fuel c) ∨ ∃ c, p = vaultProvider isPrint c
}.

Definition ledger_ok w : Prop := path_ok (st_path (w_store w)).

(** An exchange that changes nobody's access: a read of Keycloak, a read of
    GitLab, or what the Vault client of a registered target sends. *)
Definition harmless (ex : Exchange) : Prop :=
  sourceRead kc ex ∨ isGet ex ∨
  ∃ name c, rc_providers r !! name = Some (vaultProvider isPrint c) ∧ onlyLooks c ex.
Notation quiet := (Forall harmless).

(** A pass starts by asking the source: for a complete snapshot, or for one
    group. *)
Definition asked (complete mo : bool) (groups : list Group) w w' : Prop :=
  if complete then mo = false ∧ src_ListGroups (rc_source r) w = (Ok groups, w')
  else ∃ f id g, src_ReadGroup (rc_source r) = Some f ∧ f id w = (Ok (Some g), w') ∧ groups = [g].

(** A world in which nothing but harmless exchanges followed [t0]. *)
Definition still (t0 : list Exchange) (s : list Exchange * Store * Clients) : Prop :=
  path_ok (st_path s.1.2) ∧ ∃ ls, s.1.1 = t0 ++ concat ls ∧ Forall quiet ls.

(** The exchanges of a job of a plan: all rules were resolved, all providers
    the plan needs passed their health check since [t0], and they are those of
    one run of [SyncGroup]. *)
Definition change (t0 : list Exchange) (groups : list Group) (complete mo : bool) (l : list Exchange) : Prop :=
  ∃ mappings c f req tomb,
    let b := buildJobs (rc_providers r) (rc_rules r) mappings complete mo groups in
    bd_errs b = [] ∧ GroupJob (gitlabProvider fuel c) f req tomb ∈ bd_jobs b ∧
    (∀ p, needed r complete b p → healthy r (still t0) p) ∧ fromSync c req fuel l.

(** The exchanges of a pass: reads of Keycloak that gave [groups], then what
    was done about them. *)
Definition pass (l : list Exchange) : Prop :=
  ∃ complete mo groups w w' l1 ls, asked complete mo groups w w' ∧ sys_trace (w_sys w') = sys_trace (w_sys w) ++ l1 ∧
    Forall (sourceRead kc) l1 ∧ l = l1 ++ concat ls ∧
    Forall (λ s, quiet s ∨ change (sys_trace (w_sys w')) groups complete mo s) ls.

Definition accounted (l : list Exchange) : Prop := quiet l ∨ pass l.

Context (WR : wired).
Notation sends := (emits (W := W) ledger_ok).

Lemma sends_part {V} `{TracedLens W V} {E A} P (m : M V E A) :
  (∀ w v, w_store (update v w) = w_store w) → emits (λ _, True) P m → sends P (zoom m).
Proof. intros Hs. apply emits_part. unfold ledger_ok. intros w v. by rewrite Hs. Qed.

Lemma sends_nothing {E A} P (m : M W E A) : sends (λ _, False) m → sends P m.
Proof. apply emits_weaken. done. Qed.

Lemma sends_modify {E} P (f : W → W) :
  (∀ w, w_store (f w) = w_store w) → (∀ w, sys_trace (w_sys (f w)) = sys_trace (w_sys w)) → sends P (modify (E := E) f).
Proof. intros Hs Ht. apply emits_modify. unfold ledger_ok. intros w Hw. rewrite Hs. split; [done|apply Ht]. Qed.

Lemma sends_now P : sends P now.
Proof. apply sends_nothing, sends_part; [done|apply emits_now]. Qed.

Lemma sends_count P k n : sends P (count k n).
Proof. by apply sends_modify. Qed.

Lemma sends_order {E A} P (l : list A) : emits (E := E) ledger_ok P (zoom (W := W) (V := Sys S) (rangeOrder l)).
Proof. apply sends_nothing, sends_part; [done|apply emits_order]. Qed.

Lemma sends_failCounted {A} P e : sends P (failCounted (A := A) e).
Proof. unfold failCounted. emit; [apply sends_count|emit]. Qed.

Lemma sends_counted {A} P ctx (m : M W err A) : sends P m → sends P (attemptCounted ctx m).
Proof. intros Hm. unfold attemptCounted. emit; [by emit|]. emit; [emit|apply sends_failCounted]. Qed.

Lemma sends_ledger {A} P (m : M (Store * Sys S) err A) : emits ledger_path (λ _, False) m → sends P (ledger m).
Proof. intros Hm. eapply sends_nothing, emits_zoom; [| |exact Hm]; done. Qed.

Lemma sends_routes {A} P (m : M (routeIndex * (StableLoader * Sys S)) err A) :
  emits (λ _, True) (λ _, False) m → sends P (routes m).
Proof. intros Hm. by apply sends_nothing, sends_part. Qed.

(** ** The passes *)
Lemma provider_emits name p : rc_providers r !! name = Some p →
  sends quiet (p_HealthCheck p) ∧
  (∀ f req, p_SyncAccessGroup p = Some f → emits ledger_ok quiet (f req)) ∧
  ∀ f req, p_SyncGroup p = Some f → ∃ c, p = gitlabProvider fuel c ∧ emits ledger_ok (fromSync c req fuel) (f req).
Proof.
  intros Hp. pose proof Hp as Hin. rewrite (wi_registry WR) in Hin. apply registry_names in Hin as [_ Hin].
  destruct (wi_provider WR p Hin) as [[c ->]|[c ->]]; cbn.
  - split_and!; [|done|].
    + apply emits_weaken with (P := Forall isGet); [intros l Hl; eapply Forall_impl; [exact Hl|]; intros ex Hex; right; by left|].
      eapply emits_zoom; [| |apply emits_gitlab_health]; done.
    + intros f req [= <-]. exists c. split; [done|]. eapply emits_zoom; [| |apply emits_gitlab_sync]; done.
  - assert (∀ l, Forall (onlyLooks c) l → quiet l) as Hl.
    { intros l F. eapply Forall_impl; [exact F|]. intros ex Hex. right. right. by exists name, c. }
    split_and!; [|intros f req [= <-]|done]; (eapply emits_weaken; [exact Hl|]); apply sends_part; try done.
    + apply emits_vault_health.
    + apply emits_vault_sync.
Qed.

Lemma sends_mappings P : sends P (ledger GroupMappings).
Proof. apply sends_ledger, emits_mappings. Qed.

Lemma sends_source P : (∀ l, Forall (sourceRead kc) l → P l) →
  sends P (src_ListGroups (rc_source r)) ∧ ∀ f id, src_ReadGroup (rc_source r) = Some f → sends P (f id).
Proof.
  intros HP. rewrite (wi_source WR). cbn. split.
  - eapply emits_weaken; [exact HP|]. by apply sends_part, emits_ListGroups.
  - intros f id [= <-]. eapply emits_weaken; [exact HP|]. by apply sends_part, emits_ReadGroup.
Qed.

Lemma sends_job P errs j name : rc_providers r !! name = Some (jobProvider j) → jobMethod j → (∀ l, quiet l → P l) →
  (∀ c f req tomb l, j = GroupJob (gitlabProvider fuel c) f req tomb → fromSync c req fuel l → P l) →
  sends P (applyJob errs j).
Proof.
  intros Hp Hm HP HC. destruct (provider_emits name _ Hp) as (_ & Ha & Hg).
  destruct j as [p f req|p f req tomb]; cbn [jobProvider jobMethod applyJob] in *.
  - emit; [emit; eapply emits_weaken; [exact HP|by apply Ha]|]. repeat emit. apply sends_count.
  - destruct (Hg f req Hm) as (c & -> & He).
    emit; [emit; eapply emits_weaken; [|exact He]; intros l; by eapply HC|].
    match goal with |- emits _ _ (match ?x with _ => _ end) => destruct x as [res|[res e]] end; [|emit].
    emit.
    + emit. destruct tomb as [m|]; [|emit]. emit. apply sends_ledger.
      apply (emits_op_unit (ODelete (gm_Provider m) (gm_Rule m) (gm_SourceGroupID m))). reflexivity.
    + emit; [|emit]. repeat (emit; [first [apply sends_count | emit; apply sends_count]|]). emit.
Qed.

Lemma triple_reconcile groups complete mo w0 : ledger_ok w0 →
  let P l := quiet l ∨ change (trace_of w0) groups complete mo l in
  triple (λ w, w = w0) (reconcileGroups r groups complete mo)
    (λ _ w, ledger_ok w ∧ grew P w0 w) (λ _ w, ledger_ok w ∧ grew P w0 w).
Proof.
  intros Hw0 P. set (I := still (trace_of w0)).
  assert (∀ w, I (seen w) ↔ ledger_ok w ∧ grew quiet w0 w) as HI by done.
  assert (harmless_checks r I) as Hh.
  { intros name p Hp w Hw. apply HI in Hw as [Hw Hg]. destruct (provider_emits name p Hp) as [He _].
    destruct (p_HealthCheck p w) as [[a|e] w'] eqn:Hrun;
      apply (emits_run _ _ _ _ _ _ He Hw) in Hrun as [? ?]; apply HI; (split; [done|]); (etrans; [exact Hg|done]). }
  assert (I (seen w0)) as H0 by (apply HI; split; [done|reflexivity]).
  assert (∀ w, grew quiet w0 w → grew P w0 w) as HP by (intros w; apply grew_weaken; by left).
  assert (∀ res w, gated r I groups complete mo w0 res w → ledger_ok w ∧ grew P w0 w) as Hend.
  { intros res w [(e & _ & Hw & _)|(ms & w1 & w2 & errs & _ & Hb & Hhealthy & Hw1 & Hjobs & Hseen & _)].
    { apply HI in Hw as [? ?]. auto. }
    apply HI in Hw1 as [Hw1 G1].
    assert (sends P (mfold applyJob [] (bd_jobs (buildJobs (rc_providers r) (rc_rules r) ms complete mo groups)))) as He.
    { apply emits_mfold. intros errs' j Hj. destruct (jobs_registered _ _ _ _ _ _ Hj) as [[name Hp] Hm].
      eapply sends_job; [exact Hp|exact Hm|by left|]. intros c f req tomb l -> Hl. right.
      by exists ms, c, f, req, tomb. }
    apply (emits_run _ _ _ _ _ _ He Hw1) in Hjobs as [H2 G2].
    assert (ledger_ok w ∧ trace_of w = trace_of w2) as [? Ht].
    { injection Hseen as Ht Hs _. split; [unfold ledger_ok; by rewrite Hs|exact Ht]. }
    split; [done|]. etrans; [apply HP, G1|]. etrans; [exact G2|]. by apply grew_same. }
  eapply triple_conseq; [by apply (triple_gated r I groups complete mo w0)|done|..]; intros ? w Hg; exact (Hend _ w Hg).
Qed.

Lemma sends_migrate P groups : sends P (migrateCanonicalMappings r groups).
Proof.
  unfold migrateCanonicalMappings. emit; [apply sends_mappings|]. emit. emit; [emit|]. emit. emit; [emit|]. emit.
  emit; [|emit]. emit. apply sends_ledger. eapply emits_op_unit with (o := OMove _ _ _ _ _ _). reflexivity.
Qed.

(** ** A pass *)
Lemma quiet_accounted l : quiet l → accounted l.
Proof. by left. Qed.

Lemma source_quiet l : Forall (sourceRead kc) l → quiet l.
Proof. intros F. eapply Forall_impl; [exact F|]. by left. Qed.

Lemma counted_ok {A} ctx (m : M W err A) w a w' : attemptCounted ctx m w = (Ok a, w') → m w = (Ok a, w').
Proof. unfold attemptCounted, mbind, M_bind, attempt. destruct (m w) as [[b|e] w1]; [|done]. by intros [= -> ->]. Qed.

Notation grows_by P w0 m := (triple (λ w, w = w0) m (λ _ w, ledger_ok w ∧ grew P w0 w) (λ _ w, ledger_ok w ∧ grew P w0 w)).

Lemma grew_from P w0 w1 w : trace_of w1 = trace_of w0 → grew P w1 w → grew P w0 w.
Proof. intros Ht (ls & Hl & F). exists ls. by rewrite Hl, Ht. Qed.

(** A first step that sends nothing. *)
Lemma silent_then {A B} P (m : M W err A) (f : A → M W err B) w0 : ledger_ok w0 → sends (λ _, False) m →
  (∀ a w1, ledger_ok w1 → trace_of w1 = trace_of w0 → grows_by P w1 (f a)) → grows_by P w0 (m ≫= f).
Proof.
  intros Hw0 Hm Hf. assert (∀ w, grew (λ _, False) w0 w → trace_of w = trace_of w0) as Hsame.
  { intros w ([|l ls] & Ht & F); [by rewrite Ht, List.app_nil_r|by inversion F]. }
  eapply triple_bind; [eapply triple_conseq; [by apply (Hm w0)|done|intros a w Hw; exact Hw|]|].
  - intros e w [Hw Ht]. split; [done|]. by apply grew_same, Hsame.
  - intros a. apply triple_at. intros w1 [Hw Ht]. apply Hsame in Ht.
    eapply triple_conseq; [by apply Hf|done|..]; intros ? w [? ?]; (split; [done|]); by eapply grew_from.
Qed.

(** A last part that sends nothing. *)
Lemma then_silent {A B} P (m : M W err A) (f : A → M W err B) w0 :
  grows_by P w0 m → (∀ a, sends (λ _, False) (f a)) → grows_by P w0 (m ≫= f).
Proof.
  intros Hm Hf. eapply triple_bind; [exact Hm|]. intros a. apply triple_at. intros w1 [Hw1 G1].
  eapply triple_conseq; [by apply (Hf a w1)|done|..]; intros ? w [? G]; (split; [done|]);
    (etrans; [exact G1|]); (eapply grew_weaken; [|exact G]); done.
Qed.

(** The answer of the source and what follows it make one pass. *)
Lemma asking {A} (ask : M W err A) complete mo (groups : A → option (list Group)) (m : A → M W err unit) ctx w0 :
  ledger_ok w0 → sends (Forall (sourceRead kc)) ask →
  (∀ a gs w w', groups a = Some gs → ask w = (Ok a, w') → asked complete mo gs w w') →
  (∀ a, groups a = None → m a = mret tt) →
  (∀ a gs w1, groups a = Some gs → ledger_ok w1 →
     grows_by (λ l, quiet l ∨ change (trace_of w1) gs complete mo l) w1 (m a)) →
  grows_by accounted w0 (a ← attemptCounted ctx ask; m a).
Proof.
  intros Hw0 Hs Hask Hnone Hm w ->. pose proof (sends_counted _ ctx _ Hs w0 Hw0 w0 eq_refl) as Ht.
  assert (∀ w1, grew (Forall (sourceRead kc)) w0 w1 → grew accounted w0 w1) as Hq.
  { intros w1. apply grew_weaken. auto using quiet_accounted, source_quiet. }
  unfold mbind at 1, M_bind at 1. destruct (attemptCounted ctx ask w0) as [[a|e] w1] eqn:Hrun.
  2: { destruct Ht. auto. }
  destruct Ht as [Hw1 G1]. destruct (groups a) as [gs|] eqn:Hgs; [|rewrite (Hnone a Hgs); split; auto].
  pose proof (Hm a gs w1 Hgs Hw1 w1 eq_refl) as Hr. apply counted_ok in Hrun.
  assert (∀ w2, grew (λ l, quiet l ∨ change (trace_of w1) gs complete mo l) w1 w2 → grew accounted w0 w2) as Hpass.
  { intros w2 (ls & Hl & F). destruct (grew_each _ _ _ G1) as (l1 & Hl1 & F1).
    apply (grew_segment _ (l1 ++ concat ls)); [by rewrite Hl, Hl1, (assoc_L (++))|]. right.
    exists complete, mo, gs, w0, w1, l1, ls. split; [by eapply Hask|]. done. }
  destruct (m a w1) as [[[]|e] w2]; destruct Hr; auto.
Qed.

Lemma grows_RunOnce w0 : ledger_ok w0 → grows_by accounted w0 (RunOnce r).
Proof.
  intros Hw0. unfold RunOnce. apply silent_then; [done|apply sends_now|]. intros started w1 Hw1 _.
  destruct (sends_source (Forall (sourceRead kc))) as [Hlist _]; [done|].
  apply (asking _ true false Some); [done|done| |done|]; [intros a gs w w' [= <-]; by split|].
  intros groups gs w2 [= <-] Hw2.
  apply silent_then; [done|emit; apply sends_counted, sends_routes, emits_routes|]. intros [] w3 Hw3 Ht3.
  apply silent_then; [done|apply sends_counted, sends_migrate|]. intros [] w4 Hw4 Ht4. rewrite <-Ht3, <-Ht4.
  apply then_silent; [by apply triple_reconcile|]. intros []. emit; [apply sends_now|]. by apply sends_modify.
Qed.

Lemma grows_RunGroupOnce groupID mo w0 : ledger_ok w0 → grows_by accounted w0 (RunGroupOnce r groupID mo).
Proof.
  intros Hw0. unfold RunGroupOnce. destruct (src_ReadGroup (rc_source r)) as [f|] eqn:Hf.
  2: { apply triple_throw. intros w ->. by split. }
  apply silent_then; [done|apply sends_now|]. intros started w1 Hw1 _.
  destruct (sends_source (Forall (sourceRead kc))) as [_ Hread]; [done|].
  apply (asking _ false mo (λ o, g ← o; Some [g])); [done|by apply Hread| |by intros []|].
  { intros [g|] gs w w' [= <-] Hrun. by exists f, groupID, g. }
  intros [g|] gs w2 [= <-] Hw2.
  apply silent_then; [done|emit; apply sends_counted, sends_routes, emits_routes|]. intros [] w3 Hw3 Ht3.
  apply silent_then; [done|apply sends_counted, sends_migrate|]. intros [] w4 Hw4 Ht4. rewrite <-Ht3, <-Ht4.
  by apply triple_reconcile.
Qed.

Lemma sends_RunOnce : sends accounted (RunOnce r).
Proof. exact grows_RunOnce. Qed.

Lemma sends_RunGroupOnce groupID mo : sends accounted (RunGroupOnce r groupID mo).
Proof. exact (grows_RunGroupOnce groupID mo). Qed.

(** What the other goroutines do to the queue sends nothing. *)
Lemma sends_meanwhile P : sends P meanwhile.
Proof.
  unfold meanwhile. emit; [emit|]. match goal with |- emits _ _ (match ?x with _ => _ end) => destruct x end; [emit|].
  emit; [by apply sends_modify|]. emit. match goal with |- emits _ _ (otherStep ?a) => destruct a end; cbn [otherStep].
  - by apply sends_modify.
  - emit; [emit|]. emit; [by apply sends_modify|emit].
  - unfold releaseFired. emit; [emit|]. emit; [emit|].
    repeat (emit; [first [apply sends_now | apply sends_order | emit]|]). by apply sends_modify.
Qed.

Lemma sends_queueTimed P f : sends P (queueTimed f).
Proof. unfold queueTimed. repeat (emit; [first [apply sends_now | apply sends_meanwhile | emit]|]). by apply sends_modify. Qed.

Lemma sends_fullRepair : sends accounted (runEventFullRepair r).
Proof.
  unfold runEventFullRepair. emit; [emit|]. emit; [apply sends_now|]. cbn zeta.
  match goal with |- emits _ _ (if ?b then _ else _) => destruct b end; [emit; [apply sends_queueTimed|emit]|].
  emit; [apply sends_now|]. emit; [by apply sends_modify|]. emit; [apply sends_count|].
  emit; [emit; apply sends_RunOnce|].
  match goal with |- emits _ _ (match ?x with _ => _ end) => destruct x end; [emit|].
  emit; [emit; apply sends_queueTimed|emit].
Qed.

Lemma sends_resolve P batch : sends P (resolveBatch batch).
Proof.
  unfold resolveBatch. emit; [apply sends_order|]. emit.
  { emit. unfold resolveGroupWork. emit; [emit|]. emit; emit. }
  emit; [apply sends_order|]. emit. unfold resolveUserWork. emit; [apply sends_routes, emits_routes|].
  emit; [|emit]. emit. emit; [emit|]. emit; emit.
Qed.

Lemma sends_targeted b : sends accounted (runTargeted r b).
Proof.
  unfold runTargeted. emit; [apply sends_order|]. emit.
  { emit. emit; [apply sends_count|]. emit; [emit; apply sends_RunGroupOnce|]. emit. apply sends_queueTimed. }
  emit; [apply sends_order|]. emit. apply sends_queueTimed.
Qed.

Lemma sends_batch batch : sends accounted (processEventBatch r batch).
Proof.
  unfold processEventBatch. destruct (negb _); [emit; [apply sends_fullRepair|emit]|].
  emit; [emit; apply sends_routes, emits_routes|].
  match goal with |- emits _ _ (match ?x with _ => _ end) => destruct x end; [|apply sends_count].
  emit; [apply sends_resolve|]. emit; [destruct (bw_global _); [apply sends_fullRepair|emit]|].
  match goal with |- emits _ _ (if ?x then _ else _) => destruct x end; [emit|apply sends_targeted].
Qed.

Lemma sends_receive P : sends P receive.
Proof. unfold receive. emit; [apply sends_meanwhile|]. emit; [emit|]. emit; [emit; by apply sends_modify|emit]. Qed.

Lemma sends_burst P n : sends P (gatherBurst n).
Proof. induction n as [|n IH]; cbn [gatherBurst]; [emit|]. emit; [apply sends_receive|exact IH]. Qed.

Lemma sends_drain P : sends P drainBatch.
Proof.
  unfold drainBatch. emit; [apply sends_meanwhile|]. emit; [emit|].
  match goal with |- emits _ _ (let '(_, _) := ?x in _) => destruct x end. emit; [by apply sends_modify|emit].
Qed.

Lemma sends_loopStep e : sends accounted (loopStep r e).
Proof.
  destruct e; cbn [loopStep].
  - emit; [emit; apply sends_RunOnce|emit].
  - emit; [apply sends_receive|]. match goal with |- emits _ _ (if ?x then _ else _) => destruct x end; [|emit].
    emit; [apply sends_burst|]. emit; [apply sends_drain|]. emit; [apply sends_batch|emit].
  - emit; [apply sends_receive|]. match goal with |- emits _ _ (if ?x then _ else _) => destruct x end; [|emit].
    emit; [apply sends_burst|emit].
  - emit.
Qed.

Lemma sends_Run events : sends accounted (Run r events).
Proof.
  unfold Run. emit; [emit; apply sends_RunOnce|]. emit.
  2: { unfold closeEvents. emit; [apply sends_meanwhile|]. by apply sends_modify. }
  induction events as [|e events IH]; cbn [runLoop]; [emit|]. emit; [apply sends_loopStep|].
  match goal with |- emits _ _ (if ?x then _ else _) => destruct x end; [exact IH|emit].
Qed.
End wired.

(** ** Starting *)
Section starting.
Context {S : Type} `{Env S} (isPrint : Z → bool) (depth fuel : nat).
Notation W := (World S Clients).
Notation silent := (emits (W := Sys S) (E := err) (λ _, True) (λ _, False)).

Lemma emits_ready environment path : silent (readyLoader environment path).
Proof. unfold readyLoader. emit; [emit|]. emit; [apply emits_load|emit]. Qed.

Lemma emits_newProvider t : silent (newProvider (S := S) isPrint fuel t).
Proof.
  unfold newProvider. emit; [|emit; emit]. emit; [emit; apply emits_ready|]. emit; [|emit].
  emit; [emit; apply emits_ready|emit].
Qed.

Lemma emits_closing {A} store (m : M (Sys S) err A) : silent m → silent (closing store m).
Proof.
  intros Hm w0 _ w ->. pose proof (Hm w0 I w0 eq_refl) as Ht. unfold closing.
  destruct (m w0) as [[a|e] w']; [exact Ht|]. destruct Ht as [_ Ht].
  pose proof (emits_close (store, w') I (store, w') eq_refl) as Hc.
  destruct (Close (store, w')) as [[[]|e'] [st w2]]; destruct Hc as [_ Hc]; (split; [done|]);
    (etrans; [exact Ht|exact Hc]).
Qed.

Lemma emits_startup cfg : silent (startup (S := S) isPrint depth fuel cfg).
Proof.
  unfold startup. emit; [emit; apply emits_ready|]. emit; [emit; emit|].
  emit; [emit; apply emits_stable_new|]. emit; [apply emits_open|].
  emit; [|emit]. apply emits_closing. unfold buildProviders. emit. emit; [apply emits_newProvider|emit].
Qed.

Definition clientProvider (p : Provider W) : Prop :=
  (∃ c, p = gitlabProvider fuel c) ∨ ∃ c, p = vaultProvider isPrint c.

Lemma triple_any {E A} P (m : M (Sys S) E A) : triple P m (λ _ _, True) (λ _ _, True).
Proof. intros w _. by destruct (m w) as [[]]. Qed.

Lemma buildProviders_clients targets :
  triple (λ _, True) (buildProviders isPrint fuel targets) (λ ps _, Forall clientProvider ps) (λ _ _, True).
Proof.
  unfold buildProviders. eapply triple_conseq; [apply (triple_mfold_inv _ (λ ps _, Forall clientProvider ps))|by constructor|done|done].
  intros t ps _. eapply triple_bind with (R := λ p _, clientProvider p ∧ Forall clientProvider ps).
  - apply triple_at. intros w0 Hps. unfold newProvider. destruct (String.eqb _ _).
    + do 2 (eapply triple_bind with (R := λ _ _, True); [apply triple_any|intros ?]).
      apply triple_ret. intros w _. split; [left; by eexists|done].
    + destruct (String.eqb _ _); [|by apply triple_throw]. apply triple_ret. intros w _. split; [right; by eexists|done].
  - intros p. apply triple_ret. intros w [Hp Hps]. apply Forall_app. split; [done|]. by apply Forall_cons_2; [|constructor].
Qed.

Lemma open_path path w : match Open (S := S) path w with (Ok s, _) => st_path s = path | (Err _, _) => True end.
Proof.
  assert (∀ f s, loadStore path f = Ok s → st_path s = path) as Hload.
  { intros [j|] s; cbn; [|done]. destruct (decodeDisk j); [|done]. destruct (decide _); [|done]. by intros [= <-]. }
  unfold Open, mbind, M_bind, fsFails, gets, modify.
  destruct (env_fault FsMkdirAll _) as [[] s1]; [done|]. destruct (env_fault FsOpenLock _) as [[] s2]; [done|].
  case_bool_decide; [done|]. destruct (env_fault FsRead _) as [[] s3]; [by destruct (Close _) as [? []]|].
  cbn. destruct (sys_fs w !! path) as [f|]; [|done].
  destruct (loadStore path f) as [st|e] eqn:Hst; [by eapply Hload|by destruct (Close _) as [? []]].
Qed.

(** The process that [startup] leaves behind: the wired reconciler, its first
    world, and no traffic yet. *)
Definition sourceOf (cfg : Config) (secret : Loader) : Keycloak.Client :=
  Keycloak.NewWithCredential (so_BaseURL (cf_Source cfg)) (so_Realm (cf_Source cfg)) (so_ClientID (cf_Source cfg)) secret.

Lemma startup_wired cfg sys r mk sys' : startup isPrint depth fuel cfg sys = (Ok (r, mk), sys') →
  sys_trace sys' = sys_trace sys ∧ rc_rules r = cf_Rules cfg ∧
  (∀ s, w_sys (mk s) = s ∧ st_path (w_store (mk s)) = cf_StatePath cfg) ∧
  ∃ secret providers, wired isPrint depth fuel r (sourceOf cfg secret) providers.
Proof.
  intros Hrun. destruct (emits_run _ _ _ _ _ _ (emits_startup cfg) I Hrun) as [_ (ls & Ht & Hl)]. split.
  { destruct ls as [|l ls]; [by rewrite List.app_nil_r in Ht|by inversion Hl]. }
  clear Ht Hl. unfold startup in Hrun.
  apply bind_ok in Hrun as (secret & w1 & _ & Hrun). apply bind_ok in Hrun as (hook & w2 & _ & Hrun).
  apply bind_ok in Hrun as (stable & w3 & _ & Hrun). apply bind_ok in Hrun as (store & w4 & Hopen & Hrun).
  apply bind_ok in Hrun as (providers & w5 & Hps & Hrun). injection Hrun as <- <- _.
  pose proof (open_path (cf_StatePath cfg) w3) as Hpath. rewrite Hopen in Hpath.
  split; [done|]. split; [done|]. exists secret, providers. split; [done|done|]. intros p Hp.
  unfold closing in Hps. destruct (buildProviders _ _ _ w4) as [[ps|e] w6] eqn:Hb.
  - injection Hps as -> _. pose proof (triple_ok _ _ _ _ _ _ _ (buildProviders_clients (cf_Targets cfg)) I Hb) as F.
    rewrite Forall_forall in F. by apply F.
  - by destruct (Close _) as [? []].
Qed.

(** The whole process: started with [cfg] and run through [events], while the
    handlers and the timers do [others] to the queue. *)
Definition lifetime (cfg : Config) (events : list loopEvent) (others : list (list queueAction)) (sys : Sys S)
    (r : Reconciler W) (w : W) : Prop :=
  ∃ mk sys' res, startup isPrint depth fuel cfg sys = (Ok (r, mk), sys') ∧ Run r events (set_others others (mk sys')) = (res, w).

Lemma lifetime_traffic cfg events others sys r w : path_ok (cf_StatePath cfg) → lifetime cfg events others sys r w →
  ∃ secret providers ls, wired isPrint depth fuel r (sourceOf cfg secret) providers ∧ rc_rules r = cf_Rules cfg ∧
    sys_trace (w_sys w) = sys_trace sys ++ concat ls ∧ Forall (accounted isPrint fuel r (sourceOf cfg secret)) ls.
Proof.
  intros Hp (mk & sys' & res & Hstart & Hrun).
  destruct (startup_wired _ _ _ _ _ Hstart) as (Ht & Hrules & Hmk & secret & providers & WR).
  destruct (Hmk sys') as [Hsys Hpath].
  assert (ledger_ok (set_others others (mk sys'))) as Hok by (unfold ledger_ok; cbn; by rewrite Hpath).
  destruct (emits_run _ _ _ _ _ _ (sends_Run _ _ _ _ _ _ WR events) Hok Hrun) as [_ (ls & Hl & F)].
  exists secret, providers, ls. split; [done|]. split; [done|]. split; [|done].
  unfold trace_of, traced_world in Hl. rewrite Hl. cbn. by rewrite Hsys, Ht.
Qed.

(** ** What the process does to anyone's access *)
Lemma harmless_not_delete r kc ex : harmless isPrint r kc ex → isDelete ex = false.
Proof.
  unfold isDelete. intros [[(tok & p & q & ->)|[sec ->]]|[->|(n & c & _ & [->|[-> _]])]]; done.
Qed.

Lemma in_concat_split {A} (x : A) ls : x ∈ concat ls → ∃ l la lz, l ∈ ls ∧ x ∈ l ∧ concat ls = la ++ l ++ lz.
Proof.
  induction ls as [|l ls IH]; cbn; [by intros ?%elem_of_nil|]. intros [Hx|Hx]%elem_of_app.
  - exists l, [], (concat ls). split; [by left|done].
  - destruct (IH Hx) as (l' & la & lz & Hin & Hx' & ->). exists l', (l ++ la), lz. split; [by right|].
    by rewrite <-(assoc_L (++)).
Qed.

(** Why a request of the plan exists: a rule covers a group of the snapshot, or
    a mapping of the ledger lost its source. *)
Definition planned (rules : list Rule) (mappings : list GroupMapping) (groups : list Group) (req : SyncRequest) : Prop :=
  (∃ rule group relative path, rule ∈ rules ∧ group ∈ groups ∧ matched rule group relative ∧
     req = syncRequestOf rule (sourceStateKey rule group) group path) ∨
  ∃ m, gone rules mappings groups req m.

Lemma change_planned r kc providers t0 groups complete mo l w w' :
  wired isPrint depth fuel r kc providers → asked r complete mo groups w w' → change isPrint fuel r kc t0 groups complete mo l →
  ∃ mappings c req, planned (rc_rules r) mappings groups req ∧ fromSync c req fuel l ∧
    let b := buildJobs (rc_providers r) (rc_rules r) mappings complete mo groups in
    bd_errs b = [] ∧ ∀ p, needed r complete b p → healthy r (still isPrint r kc t0) p.
Proof.
  intros WR Ha (mappings & c & f & req & tomb & Hb & Hj & Hh & Hs). exists mappings, c, req. split; [|done].
  rewrite (wi_registry _ _ _ _ _ _ WR) in Hj, Hb. destruct tomb as [m|].
  - assert (mo = false) as ->.
    { destruct complete; [by destruct Ha|].
      destruct (jobs_sources providers (rc_rules r) mappings false mo groups) as [_ Hfrom].
      by destruct (Hfrom _ Hj) as [(? & ? & ? & ? & ? & _ & _ & _ & _ & _ & _ & _ & ? & _)|[? _]]. }
    right. exists m. eapply (tombstones_gone providers); [exact Hb|done|exact Hj].
  - left. destruct (jobs_sources providers (rc_rules r) mappings complete mo groups) as [_ Hfrom].
    destruct (Hfrom _ Hj) as [(rule & g & rel & p0 & path & Hr & Hg & Hm & _ & _ & _ & _ & _ & _ & Hq)|[_ Hm]].
    + by exists rule, g, rel, path.
    + by destruct Hm as (? & ? & ? & ? & _ & _ & _ & _ & _ & _ & _ & _ & ?).
Qed.

(** [C14] Whatever the outside answers, everything the process ever sends is
    accounted for: it is harmless, or it belongs to a pass, in which the reads
    of Keycloak come first and give the groups, and each change is part of a
    run of [SyncGroup] for a job planned from exactly those groups, under a
    plan without errors whose providers passed their health check after the
    groups were read. *)
Theorem process_accounted cfg events others sys r w : path_ok (cf_StatePath cfg) → lifetime cfg events others sys r w →
  ∃ secret ls, sys_trace (w_sys w) = sys_trace sys ++ concat ls ∧
    Forall (accounted isPrint fuel r (sourceOf cfg secret)) ls.
Proof.
  intros Hp Hl. destruct (lifetime_traffic _ _ _ _ _ _ Hp Hl) as (secret & _ & ls & _ & _ & Ht & F). by exists secret, ls.
Qed.

End starting.

(** ** A whole life on concrete inputs

    The Keycloak and GitLab servers of [KeycloakFacts] and [GitLabFacts] behind
    one network, a state file that records user 43 as managed: the process
    starts and synchronises [/team] with [corp/team], noting that 43 is missing
    from the source; then a handler adds a hint of the group to the queue, the
    targeted pass confirms the absence, and the process stops. *)
Definition worldServer (r : HttpReq) (ms : list (Z * Z)) : outcome err HttpResp * list (Z * Z) :=
  if hasPrefix (rq_url r) "https://sso.example/" then (fst (kcServer r zeroTime), ms) else demoServer r ms.

Definition worldEnv : Env (list (Z * Z)) :=
  scriptEnv worldServer (λ name, Some ("the-value-of-the-variable-" +:+ name)) (λ _, Err (EMsg "no file"))
    (λ s, (unix 1000, s)) (λ _ s, (false, s)).

Definition worldConfig : Config :=
  MkConfig (MkServer ":8080" (10 * Second) (MkServerTLS "" ""))
    (MkWebhookConfig "WEBHOOK_SECRET" "" (300 * Second))
    (MkSourceConfig "keycloak" "https://sso.example" false "corp" "groupbridge" "KC_SECRET" "" (300 * Second))
    [MkTarget "gitlab" "gitlab" "https://git.example" false "GITLAB_TOKEN" "" "" "" "oidc" "" ""
       (MkVaultKubernetesAuth "" "" "")]
    [MkRule "rule" "/" (Some ["/team"]) "gitlab" "corp" false false "developer" "managed-only" [] 5 ["oidc"] false None]
    "/var/lib/gb/state.json".

Definition worldSys : Sys (list (Z * Z)) :=
  MkSys [(43, 30); (44, 50)] []
    {["/var/lib/gb/state.json" := FDoc (encodeDisk (MkDisk 3 (values (st_records demoLedger)) [] []))]} ∅.

(** A hint of [/team], whose key is made with the webhook secret. *)
Definition worldHint : Hint :=
  MkHint "GROUP_MEMBERSHIP" "CREATE" (routingKey "the-value-of-the-variable-WEBHOOK_SECRET" "group" "corp" "g1") "" false.
Definition worldEvents : list loopEvent := [LWake 1; LStop].
Definition worldOthers : list (list queueAction) := [[QHint worldHint]].

(** What became of it: the members of [corp/team], readiness, whether a
    removal was sent. *)
Definition worldOutcome (events : list loopEvent) (others : list (list queueAction)) : option (list (Z * Z) * bool * bool) :=
  match startup (H := worldEnv) (λ _, false) 3 3 worldConfig worldSys with
  | (Ok (r, mk), sys) =>
      let '(_, w) := Run (H := worldEnv) r events (set_others others (mk sys)) in
      Some (sys_env (w_sys w), w_ready w, existsb isDelete (sys_trace (w_sys w)))
  | (Err _, _) => None
  end.

(** Without the hint: Alice is added, user 43 stays for now. *)
Lemma world_undisturbed : worldOutcome worldEvents [] = Some ([(43, 30); (44, 50); (42, 30)], true, false).
Proof. vm_compute. reflexivity. Qed.

(** With it user 43 is removed; the owner is kept. *)
Lemma world_outcome : worldOutcome worldEvents worldOthers = Some ([(44, 50); (42, 30)], true, true).
Proof. vm_compute. reflexivity. Qed.

Lemma world_lifetime : ∃ r w, lifetime (H := worldEnv) (λ _, false) 3 3 worldConfig worldEvents worldOthers worldSys r w ∧
  existsb isDelete (sys_trace (w_sys w)) = true.
Proof.
  pose proof world_outcome as Ho. unfold worldOutcome in Ho.
  destruct (startup _ _ _ worldConfig worldSys) as [[[r mk]|e] sys] eqn:Hstart; [|discriminate Ho].
  destruct (Run r worldEvents (set_others worldOthers (mk sys))) as [res w] eqn:Hrun. exists r, w. split.
  - exists mk, sys, res. split; [exact Hstart|exact Hrun].
  - cbv beta iota in Ho. injection Ho as _ _ Hd. exact Hd.
Qed.

Lemma process_accounted_witness : ∃ (r : Reconciler (World (list (Z * Z)) Clients)) secret ls,
  existsb isDelete (concat ls) = true ∧ Forall (accounted (H := worldEnv) (λ _, false) 3 r (sourceOf worldConfig secret)) ls.
Proof.
  destruct world_lifetime as (r & w & Hl & Hd).
  destruct (process_accounted (H := worldEnv) (λ _, false) 3 3 worldConfig worldEvents worldOthers worldSys r w demo_path_ok Hl)
    as (secret & ls & Ht & F).
  exists r, secret, ls. split; [|exact F]. rewrite <-Hd, Ht. reflexivity.
Defined.

