(* ===== verification/QueueLife.v ===== *)
(** * The queue in the running process

    [QueueFacts] proves what the steps of the queue's transition system keep.
    Here the process is shown to take only such steps, so that a hint of the
    webhook reaches the batch that the loop of [Run] processes. *)

From S2P Require Import Prelude GoStrings GoTime World State Model Credential Webhook Config Paths Keycloak Events QueueFacts Provider Reconcile ReconcileFacts EventFacts App WiredFacts.
Import Wiring.

(** ** Moves: steps that the consumer takes no part in *)

Definition isOpen (s : qstate) : bool := negb (eq_closed (qs_queue s)).

(** A step that leaves the consumer where it is, and the queue open. *)
Definition qmove (s s' : qstate) : Prop := (∀ p, qstep (p, s) (p, s')) ∧ isOpen s' = isOpen s.

Lemma stopTimer_open s : isOpen (stopTimer s) = isOpen s.
Proof. unfold isOpen. by rewrite stopTimer_queue. Qed.

Lemma globalLocked_open s : isOpen (globalLocked s) = isOpen s.
Proof. unfold isOpen. rewrite globalLocked_queue. by destruct (eq_global (qs_queue s)). Qed.

Lemma resetTimer_open now l s : isOpen (resetTimerLocked now l s) = isOpen s.
Proof. unfold isOpen. by destruct (resetTimer_queue now l s) as [t ->]. Qed.

Lemma move_Add h s : qmove s (Add h s).
Proof.
  split; [intros p; apply step_add|]. unfold Add. cbv zeta.
  repeat (case_match; try done); by rewrite globalLocked_open.
Qed.

Lemma move_Schedule now1 now2 order k v d reason s : some_order order → qmove s (ScheduleGroup now1 now2 order k v d reason s).
Proof.
  intros Ho. split; [intros p; by apply step_schedule|]. unfold ScheduleGroup. cbv zeta.
  repeat (case_match; try done); by rewrite ?globalLocked_open, ?resetTimer_open.
Qed.

Lemma releaseLoop_open now l s : isOpen (releaseLoop now l s).2 = isOpen s.
Proof.
  revert s. induction l as [|[k d] l IH]; intros s; cbn [releaseLoop]; [done|].
  destruct (after _ _); [apply IH|]. destruct (String.eqb _ _); cbn [snd]; [by rewrite globalLocked_open|].
  rewrite IH. by destruct (eq_global _).
Qed.

Lemma move_release now now2 l order s : (0 < tm_fired (qs_timers s))%nat → l ≡ₚ map_to_list (eq_delayed (qs_queue s)) →
  some_order order → qmove s (releaseDue now now2 l order (takeFired s)).
Proof.
  intros Hf Hl Ho. split; [intros p; by apply step_release|]. unfold releaseDue, signalLocked.
  destruct (eq_closed _); [done|]. pose proof (releaseLoop_open now l (takeFired s)) as Hr.
  destruct (releaseLoop _ _ _) as [[] s']; [done|].
  change (isOpen (resetTimerLocked now2 (order (values (eq_delayed (qs_queue (onQueue (set_timer None) s'))))) (onQueue (set_timer None) s')) = isOpen s).
  by rewrite resetTimer_open.
Qed.

(** ** Computations that only move the queue *)
Section moves.
Context {S T : Type} `{Env S}.
Notation W := (World S T).
Implicit Types (w : W).

Definition moves {E A} (m : M W E A) : Prop := ∀ w, rtc qmove (w_queue w) (w_queue (m w).2).

Lemma moves_same {E A} (m : M W E A) : (∀ w, w_queue (m w).2 = w_queue w) → moves m.
Proof. intros Hm w. by rewrite Hm. Qed.

Lemma moves_zoom {V E A} `{Lens W V} (m : M V E A) : (∀ v w, w_queue (update v w) = w_queue w) → moves (zoom m).
Proof. intros Hv. apply moves_same. intros w. unfold zoom. destruct (m (view w)) as [o v]. apply Hv. Qed.

Lemma moves_ret {E A} (a : A) : moves (E := E) (mret a).
Proof. by apply moves_same. Qed.

Lemma moves_throw {E A} (e : E) : moves (A := A) (mthrow e).
Proof. by apply moves_same. Qed.

Lemma moves_gets {E A} (f : W → A) : moves (E := E) (gets f).
Proof. by apply moves_same. Qed.

Lemma moves_run {E A B} (m : M W E A) (f : A → M W E B) : moves m → (∀ a w w', m w = (Ok a, w') → moves (f a)) → moves (m ≫= f).
Proof.
  intros Hm Hf w. specialize (Hm w). unfold mbind, M_bind. destruct (m w) as [[a|e] w1] eqn:Hrun; [|done].
  etrans; [exact Hm|]. by eapply Hf.
Qed.

Lemma moves_bind {E A B} (m : M W E A) (f : A → M W E B) : moves m → (∀ a, moves (f a)) → moves (m ≫= f).
Proof. intros Hm Hf. apply moves_run; auto. Qed.

Lemma moves_attempt {E E' A} (m : M W E A) : moves m → moves (attempt (E' := E') m).
Proof. intros Hm w. specialize (Hm w). unfold attempt. by destruct (m w) as [o w']. Qed.

Lemma moves_wrap {E E' A} (g : E → E') (m : M W E A) : moves m → moves (wrap_err g m).
Proof. intros Hm w. specialize (Hm w). unfold wrap_err. by destruct (m w) as [o w']. Qed.

Lemma moves_when {E} b (m : M W E unit) : moves m → moves (when b m).
Proof. destruct b; [done|]. intros _. apply moves_ret. Qed.

Lemma moves_mfold {E A B} (f : B → A → M W E B) l b : (∀ b x, x ∈ l → moves (f b x)) → moves (mfold f b l).
Proof.
  revert b. induction l as [|x l IH]; intros b Hf; cbn [mfold]; [apply moves_ret|].
  apply moves_bind; [apply Hf; by left|]. intros b'. apply IH. intros c y Hy. apply Hf. by right.
Qed.

Lemma moves_queue f : (∀ s, qmove s (f s)) → moves (onQueueState (S := S) (T := T) f).
Proof. intros Hf w. apply rtc_once, Hf. Qed.

Lemma moves_count c n : moves (count (S := S) (T := T) c n).
Proof. intros w. apply rtc_once. split; [|done]. intros p. apply step_count. Qed.

Lemma moves_sys {E A} (m : M (Sys S) E A) : moves (zoom (W := W) (V := Sys S) m).
Proof. by apply moves_zoom. Qed.

Lemma moves_store {A} (m : M (Store * Sys S) err A) : moves (ledger m).
Proof. by apply moves_zoom. Qed.

Lemma moves_routes {A} (m : M (routeIndex * (StableLoader * Sys S)) err A) : moves (routes m).
Proof. by apply moves_zoom. Qed.

Lemma moves_failCounted {A} e : moves (failCounted (S := S) (T := T) (A := A) e).
Proof. apply moves_bind; [apply moves_count|]. intros []. apply moves_throw. Qed.

Lemma moves_counted {A} ctx (m : M W err A) : moves m → moves (attemptCounted ctx m).
Proof.
  intros Hm. apply moves_bind; [by apply moves_attempt|]. intros [a|e]; [apply moves_ret|apply moves_failCounted].
Qed.

Lemma delayedOrder_some w : ∃ order, delayedOrder (S := S) (T := T) w = (Ok order, w) ∧ some_order order.
Proof. eexists. split; [done|]. intros l. apply env_order_perm. Qed.

Lemma moves_release : moves (releaseFired (S := S) (T := T)).
Proof.
  intros w. unfold releaseFired, mbind, M_bind, gets. destruct (decide _) as [|Hf]; [done|].
  unfold now, zoom, timeNow, rangeOrder. cbn [view lens_w_sys].
  destruct (env_now _) as [now1 s1]. cbn.
  pose proof (env_order_perm _ (map_to_list (eq_delayed (qs_queue (w_queue w)))) s1) as Hp.
  destruct (env_order _ _ s1) as [l s2]. cbn. destruct (env_now s2) as [now2 s3]. cbn.
  apply rtc_once, move_release; [lia|exact Hp|]. intros l'. apply env_order_perm.
Qed.

Lemma moves_other a : moves (otherStep (S := S) (T := T) a).
Proof.
  destruct a as [h|id|]; cbn [otherStep].
  - apply moves_queue, move_Add.
  - intros w. unfold mbind, M_bind, gets. cbn. case_bool_decide as Hid; [|done]. destruct Hid as [t Hid].
    apply rtc_once. split; [|done]. intros p. by eapply step_fire.
  - apply moves_release.
Qed.

Lemma moves_meanwhile : moves (meanwhile (S := S) (T := T)).
Proof.
  apply moves_bind; [apply moves_gets|]. intros [|actions rest]; [apply moves_ret|].
  apply moves_bind; [by apply moves_same|]. intros []. apply moves_mfold. intros [] a _. apply moves_other.
Qed.

Lemma moves_timed f : (∀ now1 now2 order s, some_order order → qmove s (f now1 now2 order s)) →
  moves (queueTimed (S := S) (T := T) f).
Proof.
  intros Hf. unfold queueTimed. apply moves_bind; [apply moves_meanwhile|]. intros [].
  apply moves_bind; [apply moves_sys|]. intros now1. apply moves_bind; [apply moves_sys|]. intros now2.
  apply moves_run; [by apply moves_same|]. intros order w w' Ho.
  destruct (delayedOrder_some w) as (o & Ho' & Hso). rewrite Ho in Ho'. injection Ho' as -> ->.
  apply moves_queue. intros s. by apply Hf.
Qed.
End moves.

(** ** The computations of the reconciler *)
Section reconciler.
Context {S : Type} `{Env S} (isPrint : Z → bool) (depth fuel : nat).
Notation W := (World S Clients).
Context (r : Reconciler W) (kc : Keycloak.Client) (providers : list (Provider W)).
Context (WR : wired isPrint depth fuel r kc providers).
Implicit Types (w : W).

Lemma moves_source : moves (src_ListGroups (rc_source r)) ∧ ∀ f id, src_ReadGroup (rc_source r) = Some f → moves (f id).
Proof.
  rewrite (wi_source _ _ _ _ _ _ WR). split; [by apply moves_zoom|]. intros f id. cbn. intros [= <-]. by apply moves_zoom.
Qed.

Lemma moves_provider name p : rc_providers r !! name = Some p → moves (p_HealthCheck p) ∧
  (∀ f q, p_SyncGroup p = Some f → moves (f q)) ∧ ∀ f q, p_SyncAccessGroup p = Some f → moves (f q).
Proof.
  rewrite (wi_registry _ _ _ _ _ _ WR). intros Hp. apply registry_names in Hp as [_ Hp].
  destruct (wi_provider _ _ _ _ _ _ WR p Hp) as [[c ->]|[c ->]]; cbn; split_and!; try (by apply moves_zoom);
    intros f q [= <-]; by apply moves_zoom.
Qed.

Lemma moves_migrate groups : moves (migrateCanonicalMappings r groups).
Proof.
  apply moves_bind; [apply moves_store|]. intros ms. apply moves_mfold. intros [] rule _.
  destruct (_ || _); [apply moves_ret|]. apply moves_mfold. intros [] group _.
  destruct (negb _); [apply moves_ret|]. apply moves_mfold. intros [] m _.
  destruct (movesMapping _ _ _); [|apply moves_ret]. apply moves_wrap, moves_store.
Qed.

Lemma moves_job errs j mappings complete mo groups :
  j ∈ bd_jobs (buildJobs (rc_providers r) (rc_rules r) mappings complete mo groups) → moves (applyJob errs j).
Proof.
  intros Hj. apply jobs_registered in Hj as [[name Hn] Hf]. destruct (moves_provider name _ Hn) as (_ & Hg & Ha).
  destruct j as [p f q|p f q t]; cbn [applyJob jobProvider] in *.
  - apply moves_bind; [by apply moves_attempt, Ha|]. intros [res|[res e]]; [|apply moves_ret].
    apply moves_bind; [apply moves_when, moves_count|]. intros []. apply moves_ret.
  - apply moves_bind; [by apply moves_attempt, Hg|]. intros [res|[res e]]; [|apply moves_ret].
    apply moves_bind.
    { apply moves_attempt. destruct t; [apply moves_when, moves_store|apply moves_ret]. }
    intros [[]|e]; [|apply moves_ret]. apply moves_bind; [apply moves_when, moves_count|]. intros [].
    do 4 (apply moves_bind; [apply moves_count|]; intros []). apply moves_ret.
Qed.

Lemma order_run {A} (l l' : list A) w w' : zoom (W := W) (V := Sys S) (rangeOrder (E := err) l) w = (Ok l', w') → l' ≡ₚ l.
Proof.
  unfold zoom, rangeOrder. cbn. pose proof (env_order_perm _ l (sys_env (w_sys w))) as Hp.
  destruct (env_order _ _ _). by intros [= <- _].
Qed.

Lemma moves_health order : (∀ p, p ∈ order → ∃ name, rc_providers r !! name = Some p) → moves (checkHealth order).
Proof.
  intros Ho. apply moves_mfold. intros errs p Hp. destruct (Ho p Hp) as [name Hn].
  apply moves_bind; [apply moves_attempt; by apply (moves_provider name)|]. intros [[]|e]; [apply moves_ret|].
  apply moves_bind; [apply moves_count|intros []; apply moves_ret].
Qed.

Lemma moves_reconcile groups complete mo : moves (reconcileGroups r groups complete mo).
Proof.
  unfold reconcileGroups. apply moves_bind; [apply moves_store|]. intros mappings. cbv zeta.
  case_bool_decide; cbn [negb]; [|apply moves_failCounted].
  apply moves_run.
  { unfold requiredProviders. destruct complete; [|apply moves_ret]. apply moves_bind; [apply moves_sys|]. intros all. apply moves_ret. }
  intros reg w1 w1' Hreg. apply moves_run; [apply moves_sys|]. intros order w2 w2' Ho%order_run.
  apply moves_bind; [|intros healthErrs].
  { apply moves_health. intros p Hp. by eapply checked_registered. }
  case_bool_decide; cbn [negb]; [|apply moves_failCounted].
  apply moves_bind; [apply moves_mfold; intros errs j Hj; by eapply moves_job|].
  intros errs. apply moves_bind; [apply moves_when, moves_count|]. intros [].
  case_bool_decide; cbn [negb]; [|apply moves_failCounted].
  destruct complete; [by apply moves_same|apply moves_ret].
Qed.

Lemma moves_RunOnce : moves (RunOnce r).
Proof.
  unfold RunOnce. apply moves_bind; [apply moves_sys|]. intros started.
  apply moves_bind; [apply moves_counted, moves_source|]. intros groups.
  apply moves_bind; [apply moves_when, moves_counted, moves_routes|]. intros [].
  apply moves_bind; [apply moves_counted, moves_migrate|]. intros [].
  apply moves_bind; [apply moves_reconcile|]. intros [].
  apply moves_bind; [apply moves_sys|]. intros t. by apply moves_same.
Qed.

Lemma moves_RunGroupOnce groupID mo : moves (RunGroupOnce r groupID mo).
Proof.
  unfold RunGroupOnce. destruct (src_ReadGroup (rc_source r)) as [f|] eqn:Hf; [|apply moves_throw].
  apply moves_bind; [apply moves_sys|]. intros started.
  apply moves_bind; [by apply moves_counted, moves_source|]. intros [group|]; [|apply moves_ret].
  apply moves_bind; [apply moves_when, moves_counted, moves_routes|]. intros [].
  apply moves_bind; [apply moves_counted, moves_migrate|]. intros []. apply moves_reconcile.
Qed.
Lemma moves_schedule key work delay reason : moves (scheduleGroup (S := S) (T := Clients) key work delay reason).
Proof. apply moves_timed. intros now1 now2 order s. apply move_Schedule. Qed.

Lemma moves_defer delay : moves (addGlobalAfter (S := S) (T := Clients) delay).
Proof. apply moves_timed. intros now1 now2 order s. apply move_Schedule. Qed.

Lemma moves_fullRepair : moves (runEventFullRepair r).
Proof.
  apply moves_bind; [apply moves_gets|]. intros w. apply moves_bind; [apply moves_sys|]. intros t.
  cbv zeta. match goal with |- context [if ?b then _ else _] => destruct b end.
  { apply moves_bind; [apply moves_defer|]. intros []. apply moves_ret. }
  apply moves_bind; [apply moves_sys|]. intros attempted. apply moves_bind; [by apply moves_same|]. intros [].
  apply moves_bind; [apply moves_count|]. intros []. apply moves_bind; [apply moves_attempt, moves_RunOnce|].
  intros [[]|e]; [apply moves_ret|]. apply moves_bind; [apply moves_when, moves_defer|]. intros []. apply moves_ret.
Qed.

Lemma moves_resolve batch : moves (resolveBatch (S := S) (T := Clients) batch).
Proof.
  apply moves_bind; [apply moves_sys|]. intros groups. apply moves_bind.
  { apply moves_mfold. intros b kw _. apply moves_bind; [apply moves_gets|]. intros [g|]; apply moves_ret. }
  intros b. apply moves_bind; [apply moves_sys|]. intros users. apply moves_mfold. intros b' kw _.
  apply moves_bind; [apply moves_routes|]. intros [ids|]; [|apply moves_ret]. apply moves_mfold. intros c id _.
  apply moves_bind; [apply moves_gets|]. intros [k|]; apply moves_ret.
Qed.

Lemma moves_targeted b : moves (runTargeted r b).
Proof.
  apply moves_bind; [apply moves_sys|]. intros works. apply moves_bind.
  { apply moves_mfold. intros [] gw _. apply moves_bind; [apply moves_count|]. intros [].
    apply moves_bind; [apply moves_attempt, moves_RunGroupOnce|]. intros _. apply moves_when, moves_schedule. }
  intros []. apply moves_bind; [apply moves_sys|]. intros keys. apply moves_mfold. intros [] k _. apply moves_schedule.
Qed.

Lemma moves_batch batch : moves (processEventBatch r batch).
Proof.
  unfold processEventBatch. destruct (negb _); [apply moves_bind; [apply moves_fullRepair|]; intros _; apply moves_ret|].
  apply moves_bind; [apply moves_attempt, moves_routes|]. intros [[]|e]; [|apply moves_count].
  apply moves_bind; [apply moves_resolve|]. intros b.
  apply moves_bind; [destruct (bw_global b); [apply moves_fullRepair|apply moves_ret]|].
  intros []; [apply moves_ret|apply moves_targeted].
Qed.
End reconciler.

(** ** What moves keep *)

Lemma pending_moves h s s' : rtc qmove s s' → pending h s → pending h s'.
Proof.
  induction 1 as [|s1 s2 s3 [Hs _] _ IH]; [done|]. intros Hp. apply IH.
  by destruct (pending_step h (Waiting, s1) (Waiting, s2) Hp (Hs Waiting)) as [?|(b & ? & _)].
Qed.

Lemma reachable_moves p s s' : rtc qmove s s' → reachable (p, s) → reachable (p, s').
Proof. induction 1 as [|s1 s2 s3 [Hs _] _ IH]; [done|]. intros Hr. apply IH. by eapply reach_step. Qed.

Lemma open_moves s s' : rtc qmove s s' → isOpen s' = isOpen s.
Proof. induction 1 as [|s1 s2 s3 [_ Hs] _ IH]; [done|]. congruence. Qed.

Lemma pending_dirty h s : pending h s → dirty (qs_queue s).
Proof.
  intros [Hg|[(_ & _ & v & Hv & _)|(_ & _ & _ & v & Hv & _)]]; cbn in *; [by right; right|right; left|left];
    intros He; by rewrite He, lookup_empty in Hv.
Qed.

(** The queue of a process whose loop has not ended. *)
Definition live (p : phase) (s : qstate) : Prop := reachable (p, s) ∧ isOpen s = true.

Lemma live_moves p s s' : rtc qmove s s' → live p s → live p s'.
Proof. intros Hm [Hr Ho]. split; [by eapply reachable_moves|]. by rewrite (open_moves _ _ Hm). Qed.

(** A waiting consumer whose queue holds a hint has a token. *)
Lemma pending_token h s : live Waiting s → pending h s → eq_wake (qs_queue s) = true.
Proof.
  intros [Hr _] Hp. by destruct (qi_wake _ (reachable_inv _ Hr) (pending_dirty h s Hp)) as [?|?].
Qed.

(** ** The loop waits, gathers and drains *)
Section loop.
Context {S T : Type} `{Env S}.
Notation W := (World S T).
Implicit Types (w : W).

(** The hint is in the queue, or will be before the loop next looks. *)
Definition expected (h : Hint) w : Prop :=
  pending h (w_queue w) ∨ ∃ actions rest, w_others w = actions :: rest ∧ QHint h ∈ actions.

(** A computation that passes and moves can be run like a step. *)
Lemma calm_run {E A} (m : M W E A) w : passes m → moves m →
  ∃ a w', m w = (Ok a, w') ∧ aside w w' ∧ rtc qmove (w_queue w) (w_queue w').
Proof.
  intros Hp Hm. specialize (Hp w w eq_refl). specialize (Hm w). destruct (m w) as [[a|e] w']; [by exists a, w'|done].
Qed.

Lemma others_hint h actions w : isOpen (w_queue w) = true → QHint h ∈ actions →
  pending h (w_queue (mfor (otherStep (S := S) (T := T)) actions w).2).
Proof.
  revert w. induction actions as [|a actions IH]; intros w Ho Hin; [by apply elem_of_nil in Hin|].
  unfold mfor. cbn [mfold]. fold (mfor (otherStep (S := S) (T := T))).
  destruct (calm_run (otherStep a) w (passes_other a) (moves_other a)) as ([] & w1 & Hrun & _ & Hq).
  rewrite (bind_run _ _ _ _ _ Hrun). apply elem_of_cons in Hin as [<-|Hin].
  - assert (moves (mfor (otherStep (S := S) (T := T)) actions)) as Hm by (apply moves_mfold; intros [] x _; apply moves_other).
    eapply pending_moves; [apply Hm|]. injection Hrun as <-. apply Add_pending. by apply negb_true_iff in Ho.
  - apply IH; [|done]. by rewrite (open_moves _ _ Hq).
Qed.

Lemma meanwhile_hint h w : isOpen (w_queue w) = true → expected h w → pending h (w_queue (meanwhile (S := S) (T := T) w).2).
Proof.
  intros Ho [Hp|(actions & rest & Hw & Hin)]; [by eapply pending_moves; [apply moves_meanwhile|]|].
  unfold meanwhile, mbind, M_bind, gets. rewrite Hw. by apply (others_hint h actions (set_others rest w)).
Qed.

(** What a computation of the loop does to the phase of the consumer and to the
    hints that it is about to handle. *)
Definition turns (p p' : phase) w w' : Prop :=
  aside w w' ∧ (live p (w_queue w) → live p' (w_queue w')) ∧ ∀ h, pending h (w_queue w) → pending h (w_queue w').

Lemma turns_trans p1 p2 p3 w1 w2 w3 : turns p1 p2 w1 w2 → turns p2 p3 w2 w3 → turns p1 p3 w1 w3.
Proof. intros (A1 & R1 & P1) (A2 & R2 & P2). split; [by etrans|]. auto. Qed.

Lemma turns_calm p w w' : aside w w' → rtc qmove (w_queue w) (w_queue w') → turns p p w w'.
Proof. intros Ha Hq. split; [done|]. split; [by apply live_moves|]. intros h. by apply pending_moves. Qed.

Lemma receive_run p w : p = Waiting ∨ p = Settling → ∃ b w', receive (S := S) (T := T) w = (Ok b, w') ∧
  turns p (if b : bool then Settling else p) w w' ∧ (live p (w_queue w) → ∀ h, expected h w → pending h (w_queue w') ∧ (p = Waiting → b = true)).
Proof.
  intros Hp. destruct (calm_run _ w passes_meanwhile moves_meanwhile) as ([] & w1 & Hrun & Ha & Hq).
  pose proof (λ h, meanwhile_hint h w) as Hh. rewrite Hrun in Hh. cbn in Hh.
  unfold receive. rewrite (bind_run _ _ _ _ _ Hrun). unfold mbind, M_bind, gets. cbv beta iota.
  destruct (eq_wake (qs_queue (w_queue w1))) eqn:Hw; cbn [when].
  - exists true, (set_queue (receiveWake (w_queue w1)) w1). split; [done|]. split.
    + eapply turns_trans; [by apply turns_calm|]. split; [done|]. split; [|by intros h].
      intros [Hr Ho]. split; [|exact Ho]. destruct Hp as [->| ->]; (eapply reach_step; [exact Hr|]); [by apply step_wake|by apply step_burst].
    + intros [_ Ho] h He. split; [by apply Hh|done].
  - exists false, w1. split; [done|]. split; [by apply turns_calm|]. intros Hl h He. destruct Hl as [Hr Ho].
    split; [by apply Hh|]. intros ->. by rewrite (pending_token h (w_queue w1)) in Hw; [|eapply live_moves|apply Hh].
Qed.

Lemma burst_run n w : ∃ w', gatherBurst (S := S) (T := T) n w = (Ok tt, w') ∧ turns Settling Settling w w'.
Proof.
  revert w. induction n as [|n IH]; intros w; cbn [gatherBurst].
  - exists w. split; [done|]. by apply turns_calm.
  - destruct (receive_run Settling w) as (b & w1 & Hrun & Ht & _); [by right|]. rewrite (bind_run _ _ _ _ _ Hrun).
    destruct (IH w1) as (w2 & H2 & Ht2). exists w2. split; [done|]. eapply turns_trans; [|exact Ht2]. by destruct b.
Qed.

Lemma drain_run w : ∃ batch w', drainBatch (S := S) (T := T) w = (Ok batch, w') ∧ aside w w' ∧
  (live Settling (w_queue w) → live (Working batch) (w_queue w')) ∧ ∀ h, pending h (w_queue w) → covers h batch.
Proof.
  destruct (calm_run _ w passes_meanwhile moves_meanwhile) as ([] & w1 & Hrun & Ha & Hq).
  exists (Drain (w_queue w1)).1, (set_queue (Drain (w_queue w1)).2 w1). unfold drainBatch. rewrite (bind_run _ _ _ _ _ Hrun).
  split; [done|]. split; [exact Ha|]. split.
  - intros Hl. destruct (live_moves _ _ _ Hq Hl) as [Hr Ho]. split; [|exact Ho]. eapply reach_step; [exact Hr|]. apply step_drain.
  - intros h Hp. by eapply pending_moves.
Qed.

(** A turn that begins with a wake-up: nothing happens, as there was none, or a
    batch is drained and processed. *)
Lemma wake_run r n w : live Waiting (w_queue w) →
  (∃ w', loopStep r (LWake n) w = (Ok true, w') ∧ live Waiting (w_queue w') ∧ ∀ h, ¬ expected h w) ∨
  ∃ batch w1, loopStep r (LWake n) w = (processEventBatch r batch;; mret true) w1 ∧ aside w w1 ∧
    live (Working batch) (w_queue w1) ∧ ∀ h, expected h w → covers h batch.
Proof.
  intros Hr. destruct (receive_run Waiting w) as ([] & w1 & H1 & (A1 & R1 & P1) & Hh); [by left|right|left]; cbn [loopStep];
    rewrite (bind_run _ _ _ _ _ H1).
  - destruct (burst_run n w1) as (w2 & H2 & (A2 & R2 & P2)). destruct (drain_run w2) as (batch & w3 & H3 & A3 & R3 & C3).
    exists batch, w3. rewrite (bind_run _ _ _ _ _ H2), (bind_run _ _ _ _ _ H3). split; [done|].
    split; [by do 2 (etrans; [eassumption|])|]. split; [by apply R3, R2, R1|].
    intros h He. apply C3, P2. by apply Hh.
  - exists w1. split; [done|]. split; [by apply R1|]. intros h He. destruct (Hh Hr h He) as [_ Hb]. by specialize (Hb eq_refl).
Qed.
End loop.

(** ** The running process *)
Section process.
Context {S : Type} `{Env S} (isPrint : Z → bool) (depth fuel : nat).
Notation W := (World S Clients).
Implicit Types (w : W).

(** [w] is a world in which the loop of [Run], begun in [w0], waits. *)
Inductive awaits (r : Reconciler W) (w0 : W) : W → Prop :=
| aw_first o w : RunOnce r w0 = (o, w) → awaits r w0 w
| aw_turn w e w' : awaits r w0 w → loopStep r e w = (Ok true, w') → awaits r w0 w'.

Lemma turn_live r kc providers e w w' : wired isPrint depth fuel r kc providers → live Waiting (w_queue w) →
  loopStep r e w = (Ok true, w') → live Waiting (w_queue w').
Proof.
  intros WR Hl Hrun. destruct e as [|n|n|]; [| | |done].
  - cbn [loopStep] in Hrun. pose proof (moves_RunOnce _ _ _ _ _ _ WR w) as Hm. unfold mbind, M_bind, attempt in Hrun.
    destruct (RunOnce r w) as [o w1]. injection Hrun as <-. by eapply live_moves.
  - destruct (wake_run r n w Hl) as [(w1 & H1 & Hl1 & _)|(batch & w1 & H1 & _ & Hl1 & _)]; rewrite H1 in Hrun; [by injection Hrun as <-|].
    pose proof (moves_batch _ _ _ _ _ _ WR batch w1) as Hm. unfold mbind, M_bind in Hrun.
    destruct (processEventBatch r batch w1) as [[[]|e] w2]; [|done]. injection Hrun as <-.
    destruct (live_moves _ _ _ Hm Hl1) as [Hr Ho]. split; [|done]. eapply reach_step; [exact Hr|]. apply step_done.
  - cbn [loopStep] in Hrun. destruct (receive_run Waiting w) as (b & w1 & H1 & (_ & Hl1 & _) & _); [by left|].
    rewrite (bind_run _ _ _ _ _ H1) in Hrun. destruct b; [|injection Hrun as <-; by apply Hl1].
    destruct (burst_run n w1) as (w2 & H2 & _). by rewrite (bind_run _ _ _ _ _ H2) in Hrun.
Qed.

Lemma awaits_live r kc providers w0 w : wired isPrint depth fuel r kc providers → live Waiting (w_queue w0) →
  awaits r w0 w → live Waiting (w_queue w).
Proof.
  intros WR Hl. induction 1 as [o w Hrun|w e w' _ IH Hrun]; [|by eapply turn_live].
  eapply live_moves; [|exact Hl]. pose proof (moves_RunOnce _ _ _ _ _ _ WR w0) as Hm. by rewrite Hrun in Hm.
Qed.

Lemma startup_queue cfg sys r mk sys' : startup isPrint depth fuel cfg sys = (Ok (r, mk), sys') →
  ∀ s, w_queue (mk s) = qinit.2.
Proof.
  intros Hrun. unfold startup in Hrun.
  apply bind_ok in Hrun as (secret & w1 & _ & Hrun). apply bind_ok in Hrun as (hook & w2 & _ & Hrun).
  apply bind_ok in Hrun as (stable & w3 & _ & Hrun). apply bind_ok in Hrun as (store & w4 & _ & Hrun).
  apply bind_ok in Hrun as (providers & w5 & _ & Hrun). by injection Hrun as _ <- _.
Qed.

(** [C11] A hint reaches its batch in the running process: whatever hints, timers,
    ticks and wake-ups there were since [startup], while the loop of [Run]
    waits, a hint that is in the queue, or that a handler adds before the loop
    next looks, wakes it; the burst is gathered, however many wake-ups belong to
    it, and the batch that is drained then covers the hint and is processed,
    before anything but the queue has changed.  A complete pass that comes in
    between leaves the hint in the queue. *)
Theorem hint_reaches_batch cfg sys r mk sys' others w h :
  startup isPrint depth fuel cfg sys = (Ok (r, mk), sys') → awaits r (set_others others (mk sys')) w → expected h w →
  (∀ n, ∃ batch w1, loopStep r (LWake n) w = (processEventBatch r batch;; mret true) w1 ∧ covers h batch ∧ aside w w1) ∧
  ∃ w', loopStep r LTick w = (Ok true, w') ∧ (pending h (w_queue w) → pending h (w_queue w')).
Proof.
  intros Hstart Hw He. destruct (startup_wired _ _ _ _ _ _ _ _ Hstart) as (_ & _ & _ & secret & providers & WR).
  assert (live Waiting (w_queue w)) as Hl.
  { eapply awaits_live; [exact WR| |exact Hw]. cbn. rewrite (startup_queue _ _ _ _ _ Hstart). split; [apply reach_init|done]. }
  split.
  - intros n. destruct (wake_run r n w Hl) as [(_ & _ & _ & Hno)|(batch & w1 & H1 & Ha & _ & Hc)]; [by destruct (Hno h)|].
    exists batch, w1. split; [done|]. split; [by apply Hc|done].
  - cbn [loopStep]. pose proof (moves_RunOnce _ _ _ _ _ _ WR w) as Hm. unfold mbind, M_bind, attempt.
    destruct (RunOnce r w) as [o w1]. exists w1. split; [done|]. by apply pending_moves.
Qed.
End process.

(** ** A concrete process: the hint comes while the loop waits after its first pass *)
Definition worldAhead : option (list (list queueAction)) :=
  match startup (H := worldEnv) (λ _, false) 3 3 worldConfig worldSys with
  | (Ok (r, mk), sys) => Some (w_others (RunOnce (H := worldEnv) r (set_others worldOthers (mk sys))).2)
  | (Err _, _) => None
  end.

Lemma world_ahead : worldAhead = Some worldOthers.
Proof. vm_compute. reflexivity. Qed.

Lemma hint_reaches_batch_witness : ∃ (r : Reconciler (World (list (Z * Z)) Clients)) w batch w1,
  w_others w = worldOthers ∧
  loopStep (H := worldEnv) r (LWake 1) w = (processEventBatch (H := worldEnv) r batch;; mret true) w1 ∧ covers worldHint batch.
Proof.
  pose proof world_ahead as Ha. unfold worldAhead in Ha.
  destruct (startup _ _ _ worldConfig worldSys) as [[[r mk]|e] sys] eqn:Hstart; [|discriminate Ha].
  destruct (RunOnce r (set_others worldOthers (mk sys))) as [o w] eqn:Hrun. cbn [snd] in Ha. injection Ha as Ha.
  assert (awaits (H := worldEnv) r (set_others worldOthers (mk sys)) w) as Hw by (eapply aw_first; exact Hrun).
  destruct (hint_reaches_batch (H := worldEnv) (λ _, false) 3 3 worldConfig worldSys r mk sys worldOthers w worldHint Hstart Hw) as [Hn _].
  { right. exists [QHint worldHint], []. split; [exact Ha|by left]. }
  destruct (Hn 1%nat) as (batch & w1 & H1 & Hc & _). exists r, w, batch, w1. split; [exact Ha|]. split; [exact H1|exact Hc].
Defined.
