(* ===== verification/PassLive.v ===== *)
(** * A complete pass against servers that answer

    [RunOnce] of the wired process with one GitLab target: against a Keycloak
    that lists a finite tree of groups and a GitLab that keeps its promises
    and answers, on a disk that works, a pass whose plan can be carried out
    ends with success, makes the server ready and takes every planned target to
    what its rule asks for.  The same for a targeted pass, and for the turn of
    the loop that starts with a hint. *)

From S2P Require Import Prelude GoStrings Sha256 GoTime Json World State StateSpec StateFacts StateLive Model Credential CredentialFacts Webhook Config Paths Events RoutesFacts QueueFacts GitLab GitLabSpec GitLabSync GitLabRemove GitLabRun GitLabFacts History GitLabServer GitLabLive Keycloak KeycloakFacts Vault Provider Reconcile ReconcileFacts Traffic ClientTraffic App WiredFacts.
Import Wiring.

(** A loader that has a value to fall back on, as [NewStable] leaves it behind. *)
Record serving (l : StableLoader) : Prop := {
  sv_wf : stable_wf l;
  sv_last : sl_last l ≠ "";
  sv_min : 32 ≤ sl_minBytes l
}.

Lemma StableLoad_serves {S} `{Env S} l (sys : Sys S) : serving l →
  ∃ v w', StableLoad (l, sys) = (Ok v, w') ∧ 32 ≤ byteLen v.
Proof.
  intros [Hwf Hlast Hmin]. pose proof (triple_StableLoad l (l, sys) (conj eq_refl Hwf)) as Ht.
  destruct (StableLoad (l, sys)) as [[v|e] w']; [|by destruct Ht].
  exists v, w'. split; [done|]. destruct Ht as (_ & _ & _ & Hlen & _). lia.
Qed.

Lemma keeps_serving {S} `{Env S} : keeps (λ w : StableLoader * Sys S, serving (fst w)) StableLoad.
Proof.
  intros [l sys] [Hwf Hlast Hmin]. pose proof (triple_StableLoad l (l, sys) (conj eq_refl Hwf)) as Ht.
  destruct (StableLoad (l, sys)) as [[v|e] [l' sys']]; [|destruct Ht as [Heq Hnone]; by cbn in Heq; subst l'].
  destruct Ht as (_ & Hm & Hv & Hlen & Hok). cbn [fst] in *. subst v. destruct Hwf as [H1 _].
  split; [split; [lia|right; rewrite Hm; by split]|by destruct Hok|lia].
Qed.

(** The operations of the route index succeed. *)
Lemma rebuild_serves {S} `{Env S} secret (w : routeIndex * (StableLoader * Sys S)) :
  ∃ w', rebuildWithSecretLocked secret w = (Ok tt, w').
Proof.
  destruct w as [i [l s]]. unfold rebuildWithSecretLocked. rewrite (bind_run _ _ (i, (l, s)) i (i, (l, s))) by done.
  unfold zoom, rangeOrder, mbind, M_bind. cbn. destruct (env_order _ _ _) as [o s']. by eexists.
Qed.

Lemma refresh_serves {S} `{Env S} i l (sys : Sys S) : serving l →
  ∃ secret w', refreshSecretLocked (i, (l, sys)) = (Ok secret, w').
Proof.
  intros Hl. destruct (StableLoad_serves l sys Hl) as (v & [l' sys'] & Hrun & Hlen). unfold refreshSecretLocked.
  rewrite (bind_run _ _ (i, (l, sys)) v (i, (l', sys'))) by (unfold zoom; cbn; by rewrite Hrun).
  destruct (Z.ltb_spec (byteLen v) 32); [lia|]. rewrite (bind_run _ _ (i, (l', sys')) (ri_secret i) (i, (l', sys'))) by done.
  destruct (String.eqb _ _); [by eexists _, _|]. rewrite (bind_run _ _ _ tt (set_routeSecret v i, (l', sys'))) by done.
  destruct (rebuild_serves v (set_routeSecret v i, (l', sys'))) as [w2 H2]. rewrite (bind_run _ _ _ _ _ H2). by eexists _, _.
Qed.

Lemma index_serves {S} `{Env S} i l (sys : Sys S) : serving l →
  (∀ groups, ∃ w', RouteIndex.Replace groups (i, (l, sys)) = (Ok tt, w')) ∧
  ∀ group, ∃ w', RouteIndex.Update group (i, (l, sys)) = (Ok tt, w').
Proof.
  intros Hl. destruct (refresh_serves i l sys Hl) as (secret & w1 & H1). unfold RouteIndex.Replace, RouteIndex.Update.
  split; [intros groups|intros group]; rewrite (bind_run _ _ _ _ _ H1); cbn beta; [|by eexists].
  rewrite (bind_run _ _ w1 tt (set_groupUsers (groupUsersOf groups) (fst w1), snd w1)) by done. apply rebuild_serves.
Qed.

Section pass.
Context {S : Type} `{Env S} (isPrint : Z → bool) (depth fuel : nat).
Notation W := (World S Clients).
Context (r : Reconciler W) (kc : Keycloak.Client) (c : GitLab.Client).
Context (Hwired : wired isPrint depth fuel r kc [gitlabProvider fuel c]).
Context (roster : S → Z → list member) (Hon : honest c roster) (Hdisk : disk_works).
Context (token rtoken : string) (Htoken : steadyToken (c_token c) token) (Hrtoken : steadyToken (c_resolverToken c) rtoken).
Context (directory : list (string * string) → list user) (self : Z) (Hacc : accountOf c token self).
Context (secret : string) (Hsecret : steadyToken (Keycloak.kc_clientSecret kc) secret).
Context (roots : list Keycloak.groupRepresentation) (kids : string → list Keycloak.groupRepresentation) (mems : string → list Keycloak.userRepresentation).
Context (ids : gset string) (Htree : tree kc secret roots kids mems ids fuel) (Hdepth : (size ids < depth)%nat).
Context (Hlogin : ∀ x s, sameMembers roster s (env_http (Keycloak.tokenRequest kc x) s).2).
Implicit Types (w : W).
Notation gl w := (view (Lens := lens_gitlab S (c_name c)) w).
Notation env w := (sys_env (w_sys w)).
Notation at_ := (memberAt roster).

(** Readiness is as it was, and there still is a routing secret if there was one. *)
Definition standing w w' : Prop := readiness w' = readiness w ∧ (serving (w_secret w) → serving (w_secret w')).

#[local] Instance standing_preorder : PreOrder standing.
Proof. split; [by split|]. intros w1 w2 w3 [A1 A2] [B1 B2]. split; [congruence|auto]. Qed.

(** A step of the reconciler that concerns no target. *)
Definition idle w w' : Prop := calm roster (gl w) (gl w') ∧ standing w w'.

#[local] Instance idle_preorder : PreOrder idle.
Proof.
  split; [intros w; split; [by apply calm_preorder|done]|].
  intros w1 w2 w3 [A1 A2] [B1 B2]. split; [|by etrans].
  destruct (calm_preorder roster) as [_ Ht]. exact (Ht _ _ _ A1 B1).
Qed.

(** A computation that ends well from every world and is idle. *)
Definition idles {E A} (m : M W E A) (Q : W → A → Prop) : Prop :=
  ∀ w, ∃ a w', m w = (Ok a, w') ∧ idle w w' ∧ Q w a.

Lemma idle_outside w (v : Store * Sys S) : fst v = w_store w → sys_fs (snd v) = sys_fs (w_sys w) →
  sameMembers roster (env w) (sys_env (snd v)) → idle w (update (Lens := lens_w_store S Clients) v w).
Proof. intros Hst Hfs Hs. split; [|done]. split; [exact Hst|]. split; [exact Hfs|]. by split. Qed.

Lemma idles_now : idles (now (S := S) (T := Clients)) (λ _ _, True).
Proof.
  intros w. unfold now, zoom, timeNow. pose proof (qt_now _ (hn_quiet _ _ Hon) (env w)) as Hq.
  cbn. destruct (env_now _) as [t s]. eexists _, _. split; [done|]. split; [|done].
  by apply (idle_outside w (w_store w, set_env s (w_sys w))).
Qed.

Lemma idles_order {E A} (l : list A) : idles (zoom (W := W) (V := Sys S) (rangeOrder (E := E) l)) (λ _ l', l' ≡ₚ l).
Proof.
  intros w. unfold zoom, rangeOrder. cbn. pose proof (env_order_perm _ l (env w)) as Hp.
  pose proof (qt_order _ (hn_quiet _ _ Hon) _ l (env w)) as Hq. destruct (env_order _ _ _) as [l' s].
  eexists l', _. split; [done|]. split; [|done]. by apply (idle_outside w (w_store w, set_env s (w_sys w))).
Qed.

Lemma idles_mappings : idles (ledger (S := S) (T := Clients) GroupMappings) (λ w ms, ms ≡ₚ values (st_groups (w_store w))).
Proof.
  intros w. unfold ledger, GroupMappings, zoom, mbind, M_bind, gets, rangeOrder. cbn.
  pose proof (env_order_perm _ (values (st_groups (w_store w))) (env w)) as Hp.
  pose proof (qt_order _ (hn_quiet _ _ Hon) _ (values (st_groups (w_store w))) (env w)) as Hq.
  destruct (env_order _ _ _) as [l' s]. eexists _, _. split; [reflexivity|].
  split; [|unfold sortBy; by rewrite merge_sort_Permutation]. by apply (idle_outside w (w_store w, set_env s (w_sys w))).
Qed.

Lemma idles_modify {E} (f : W → W) : (∀ w, w_sys (f w) = w_sys w ∧ w_store (f w) = w_store w ∧ w_ext (f w) = w_ext w ∧ standing w (f w)) →
  idles (modify (E := E) f) (λ _ _, True).
Proof.
  intros Hf w. destruct (Hf w) as (H1 & H2 & H3 & H4). exists tt, (f w). split; [done|]. split; [|done]. split; [|done].
  unfold calm, identity. cbn. rewrite H1, H2, H3. by split_and!.
Qed.

Lemma idles_count k n : idles (count (S := S) (T := Clients) k n) (λ _ _, True).
Proof. by apply idles_modify. Qed.

(** What the source and the index leave alone: the files and the members. *)
Definition unmoved w (v : Sys S) : Prop := sys_fs v = sys_fs (w_sys w) ∧ sameMembers roster (env w) (sys_env v).

Lemma unmoved_set w E A (f : S → A * S) : (∀ s, sameMembers roster s (f s).2) →
  keeps (E := E) (unmoved w) (λ v, let '(a, s) := f (sys_env v) in (Ok a, set_env s v)).
Proof.
  intros Hf v [Hfs Hs]. specialize (Hf (sys_env v)). destruct (f (sys_env v)) as [a s]. split; [done|]. by etrans.
Qed.

Lemma unmoved_http w E x : (∀ s, sameMembers roster s (env_http x s).2) → keeps (E := E) (unmoved w) (httpDo x).
Proof. intros Hf v [Hfs Hs]. unfold httpDo. specialize (Hf (sys_env v)). destruct (env_http _ _) as [a s]. split; [done|]. by etrans. Qed.

Lemma unmoved_load w l : keeps (unmoved w) (Load (S := S) l).
Proof.
  unfold Load, readCredentialFile. pose proof (hn_quiet _ _ Hon) as Hq.
  repeat first [keeping | apply unmoved_set; intros; apply Hq].
Qed.

(** Reading the source concerns no target. *)
Lemma source_idle {A} (m : M (Keycloak.KC S) err A) a w v : m (view w) = (Ok a, v) →
  keeps (λ v, unmoved w (Keycloak.kw_sys v)) m →
  ∃ w', zoom (W := W) m w = (Ok a, w') ∧ idle w w' ∧ w_secret w' = w_secret w.
Proof.
  intros Hrun Hk. specialize (Hk (view w)). rewrite Hrun in Hk. destruct Hk as [Hfs Hs]; [done|].
  exists (update v w). split; [unfold zoom; by rewrite Hrun|]. split; [|done]. split; [|done].
  split; [done|]. split; [exact Hfs|]. by split.
Qed.

Lemma run_snapshot w : ∃ groups w', src_ListGroups (rc_source r) w = (Ok groups, w') ∧ idle w w' ∧ w_secret w' = w_secret w ∧
  exact_snapshot roots kids mems groups.
Proof.
  rewrite (wi_source _ _ _ _ _ _ Hwired). cbn [src_ListGroups keycloakSource].
  destruct (ListGroups_run kc secret Hsecret roots kids mems ids depth fuel (view w) Htree Hdepth) as (groups & v & Hrun & Hex).
  destruct (source_idle _ _ w v Hrun) as (w' & Hz & Hi & Hsec); [|by exists groups, w'].
  pose proof (hn_quiet _ _ Hon) as Hq. apply keeps_ListGroups.
  - apply unmoved_set. apply Hq.
  - apply unmoved_load.
  - intros tok path query. apply unmoved_http. intros s. by apply (hn_get _ _ Hon).
  - intros x. apply unmoved_http, Hlogin.
Qed.

Lemma run_read rep all w : shown kc secret rep all fuel → ∃ f w', src_ReadGroup (rc_source r) = Some f ∧
  f (Keycloak.gr_ID rep) w = (Ok (Some (MkGroup (Keycloak.gr_ID rep) (Keycloak.gr_Name rep) (Keycloak.gr_Path rep) (Keycloak.enabledUsers all))), w') ∧
  idle w w' ∧ w_secret w' = w_secret w.
Proof.
  intros Hsh. rewrite (wi_source _ _ _ _ _ _ Hwired). cbn [src_ReadGroup keycloakSource].
  destruct (ReadGroup_run kc secret Hsecret rep all fuel (view w) Hsh) as (v & Hrun).
  destruct (source_idle _ _ w v Hrun) as (w' & Hz & Hi & Hsec); [|by eexists _, w'].
  pose proof (hn_quiet _ _ Hon) as Hq. apply keeps_ReadGroup.
  - apply unmoved_set. apply Hq.
  - apply unmoved_load.
  - intros tok path query. apply unmoved_http. intros s. by apply (hn_get _ _ Hon).
  - intros x. apply unmoved_http, Hlogin.
Qed.

Lemma unmoved_index w : let J := λ v : routeIndex * (StableLoader * Sys S), unmoved w (snd (snd v)) in
  (∀ groups, keeps J (RouteIndex.Replace groups)) ∧ ∀ group, keeps J (RouteIndex.Update group).
Proof.
  cbn zeta. pose proof (hn_quiet _ _ Hon) as Hq.
  assert (∀ E A (L : Lens (routeIndex * (StableLoader * Sys S)) (Sys S)) (l : list A), (∀ v, view (Lens := L) v = snd (snd v)) →
    keeps (E := E) (λ v, unmoved w (snd (snd v))) (zoom (H := L) (rangeOrder l))) as Ho.
  { intros E A L l HL. eapply triple_conseq; [apply (keeps_zoom (H := L) (unmoved w) (rangeOrder (E := E) l)), unmoved_set; intros; apply Hq|..];
      cbn beta; intros; revert select (unmoved w _); by rewrite HL. }
  assert (keeps (λ v : StableLoader * Sys S, unmoved w (snd v)) (StableLoad (S := S))) as Hl.
  { unfold StableLoad. repeat first [keeping | by apply keeps_modify | exact (keeps_zoom (W := StableLoader * Sys S) (unmoved w) _ (unmoved_load w _))]. }
  split; intros x; unfold RouteIndex.Replace, RouteIndex.Update, refreshSecretLocked, rebuildWithSecretLocked, modifyIndex;
    repeat first [keeping | by apply keeps_modify | by apply Ho
    | exact (keeps_zoom (W := routeIndex * (StableLoader * Sys S)) (λ v : StableLoader * Sys S, unmoved w (snd v)) _ Hl)].
Qed.

(** The index never loses the secret. *)
Lemma serving_index : let J := λ v : routeIndex * (StableLoader * Sys S), serving (fst (snd v)) in
  (∀ groups, keeps J (RouteIndex.Replace groups)) ∧ ∀ group, keeps J (RouteIndex.Update group).
Proof.
  cbn zeta. assert (∀ E A (L : Lens (routeIndex * (StableLoader * Sys S)) (Sys S)) (l : list A),
    (∀ v x, fst (snd (update (Lens := L) x v)) = fst (snd v)) →
    keeps (E := E) (λ v, serving (fst (snd v))) (zoom (H := L) (rangeOrder l))) as Ho.
  { intros E A L l HL v Hv. unfold zoom, rangeOrder. destruct (env_order _ _ _). by rewrite HL. }
  split; intros x; unfold RouteIndex.Replace, RouteIndex.Update, refreshSecretLocked, rebuildWithSecretLocked, modifyIndex;
    repeat first [keeping | by apply keeps_modify | by apply Ho
    | exact (keeps_zoom (W := routeIndex * (StableLoader * Sys S)) (λ v : StableLoader * Sys S, serving (fst v)) _ keeps_serving)].
Qed.

Lemma routes_idle (m : M (routeIndex * (StableLoader * Sys S)) err unit) w :
  (∃ v, m (w_routes w, (w_secret w, w_sys w)) = (Ok tt, v)) → keeps (λ v, unmoved w (snd (snd v))) m →
  keeps (λ v, serving (fst (snd v))) m → ∃ w', routes m w = (Ok tt, w') ∧ idle w w'.
Proof.
  intros [v Hrun] Hk Hsv. specialize (Hk (w_routes w, (w_secret w, w_sys w))). specialize (Hsv (w_routes w, (w_secret w, w_sys w))).
  rewrite Hrun in Hk, Hsv. destruct Hk as [Hfs Hs]; [done|].
  exists (update v w). split; [unfold routes, zoom; cbn [view lens_w_routes]; by rewrite Hrun|]. split; [|by split].
  split; [done|]. split; [exact Hfs|]. by split.
Qed.

Lemma run_index w : serving (w_secret w) →
  (∀ groups, ∃ w', routes (RouteIndex.Replace groups) w = (Ok tt, w') ∧ idle w w') ∧
  ∀ group, ∃ w', routes (RouteIndex.Update group) w = (Ok tt, w') ∧ idle w w'.
Proof.
  intros Hsv. destruct (index_serves (w_routes w) (w_secret w) (w_sys w) Hsv) as [H1 H2].
  destruct (unmoved_index w) as [K1 K2], serving_index as [V1 V2]. split; intros x; by apply routes_idle.
Qed.

(** No mapping of the ledger has to move to another key. *)
Definition inPlace (groups : list Group) (ms : list GroupMapping) : Prop := ∀ rule group mapping,
  rule ∈ rc_rules r → group ∈ groups → mapping ∈ ms → isVault rule = false → is_Some (ru_SourceGroupPaths rule) →
  sourcePathAllowed rule (g_Path group) = true → movesMapping rule group mapping = false.

Lemma mfor_nothing {A} (f : A → M W err unit) l w : (∀ x, x ∈ l → f x w = (Ok tt, w)) → mfor f l w = (Ok tt, w).
Proof.
  unfold mfor. induction l as [|x l IH]; intros Hf; [done|]. cbn [mfold].
  rewrite (bind_run _ _ w tt w) by (apply Hf; by left). apply IH. intros y Hy. apply Hf. by right.
Qed.

Lemma run_migrate groups w : (∀ ms, ms ≡ₚ values (st_groups (w_store w)) → inPlace groups ms) →
  ∃ w', migrateCanonicalMappings r groups w = (Ok tt, w') ∧ idle w w'.
Proof.
  intros Hin. destruct (idles_mappings w) as (ms & w' & Hrun & Hi & Hms). exists w'. split; [|done].
  unfold migrateCanonicalMappings. rewrite (bind_run _ _ _ _ _ Hrun). specialize (Hin ms Hms).
  apply mfor_nothing. intros rule Hr. destruct (isVault rule) eqn:Hv; [done|]. cbn [orb].
  case_bool_decide as Hp; [done|]. apply not_eq_None_Some in Hp. apply mfor_nothing. intros group Hg.
  destruct (sourcePathAllowed rule (g_Path group)) eqn:Ha; cbn [negb]; [|done].
  apply mfor_nothing. intros mapping Hm. by rewrite (Hin rule group mapping).
Qed.

(** ** The jobs *)

(** A job of the plan that can be carried out: where it goes, and whom the
    source members stand for. *)
Record errand : Type := MkErrand
  { er_req : SyncRequest;
    er_tombstone : option GroupMapping;
    er_target : GitLab.group;
    er_wanted : list Z;
    er_who : User → user }.

Notation er_gid e := (gg_ID (er_target e)).
Definition er_key (e : errand) : string := groupKey (c_ownershipKey c) (sr_RuleName (er_req e)) (stateKeyOf (er_req e)).

Definition jobOf (e : errand) : reconcileJob W :=
  GroupJob (gitlabProvider fuel c) (λ req, zoom (W := W) (V := GL S) (H := lens_gitlab S (c_name c)) (GitLab.SyncGroup c fuel req))
    (er_req e) (er_tombstone e).

Record workable w (e : errand) : Prop := {
  wk_responsive : responsive c roster token rtoken (er_req e) (er_target e) directory (er_wanted e);
  wk_who source : source ∈ g_Members (sr_SourceGroup (er_req e)) →
    foundAs c directory (sr_IdentityMatch (er_req e)) source (er_who e source) ∧ gu_State (er_who e source) = "active";
  wk_wanted id : id ∈ er_wanted e ↔ ∃ source, source ∈ g_Members (sr_SourceGroup (er_req e)) ∧ gu_ID (er_who e source) = id;
  wk_strategies : bool_decide (1 < length (sr_IdentityMatch (er_req e)))%nat && inList "oidc-username" (sr_IdentityMatch (er_req e)) = false;
  wk_fits : fits c roster token (er_req e) (er_target e) (er_wanted e) self fuel (gl w);
  wk_tombstone m : er_tombstone e = Some m → mappingKey m = er_key e
}.

(** What the errand means, whatever the world: the group is the one that GitLab
    names for the target path, and the wanted users are those that the source
    members are found as. *)
Record meant (e : errand) : Prop := {
  mn_target s : GitLabLive.answers c token (MkCall "GET" (groupPath (trimSlash (sr_TargetPath (er_req e)))) [] BNone)
    noGroup (Some decGroup) s (λ _ g _, g = er_target e);
  mn_who source : source ∈ g_Members (sr_SourceGroup (er_req e)) →
    foundAs c directory (sr_IdentityMatch (er_req e)) source (er_who e source) ∧ gu_State (er_who e source) = "active";
  mn_wanted id : id ∈ er_wanted e ↔ ∃ source, source ∈ g_Members (sr_SourceGroup (er_req e)) ∧ gu_ID (er_who e source) = id
}.

Lemma workable_meant w e : workable w e → meant e.
Proof. intros [Hre Hwho Hwanted _ _ _]. split; [apply Hre|done|done]. Qed.

Lemma found_once ms source u u' : foundAs c directory ms source u → foundAs c directory ms source u' → u = u'.
Proof.
  clear Hdepth. intros (b & f & a & q & -> & Hb & Hq & Hu) (b' & f' & a' & q' & Heq & Hb' & Hq' & Hu').
  assert (∀ (b1 b2 : list string) f1 f2 a1 a2 q2 v, b1 ++ f1 :: a1 = b2 ++ f2 :: a2 →
    (∀ g q', g ∈ b1 → identityQuery c source g = Some q' → List.filter (identityMatches c source g) (directory q') = []) →
    identityQuery c source f2 = Some q2 → List.filter (identityMatches c source f2) (directory q2) = [v] → (length b1 ≤ length b2)%nat) as Hle.
  { intros b1 b2 f1 f2 a1 a2 q2 v Hl Hn H1 H2. destruct (decide (length b1 ≤ length b2)%nat) as [|Hgt]; [done|exfalso].
    assert (f2 ∈ b1) as Hin; [|by rewrite (Hn f2 q2 Hin H1) in H2].
    apply list_elem_of_lookup. exists (length b2). rewrite <-(lookup_app_l b1 (f1 :: a1)) by lia. rewrite Hl. by apply list_lookup_middle. }
  assert (length b = length b') as Hlen.
  { pose proof (Hle b b' f f' a a' q' u' Heq Hb Hq' Hu'). pose proof (Hle b' b f' f a' a q u (eq_sym Heq) Hb' Hq Hu). lia. }
  apply app_inj_1 in Heq as [_ [= <- _]]; [|done]. assert (q' = q) as -> by congruence. rewrite Hu in Hu'. by injection Hu'.
Qed.

(** The request alone determines what is meant. *)
Lemma meant_once (s : S) e e' : meant e → meant e' → er_req e = er_req e' →
  er_target e = er_target e' ∧ ∀ id, id ∈ er_wanted e ↔ id ∈ er_wanted e'.
Proof.
  intros [T1 H1 W1] [T2 H2 W2] Heq. split.
  - destruct (T1 s) as (resp & s1 & g & He & _ & Hd & ->), (T2 s) as (resp' & s1' & g' & He' & _ & Hd' & ->).
    rewrite <-Heq, He in He'. injection He' as <- <-. rewrite Hd in Hd'. by injection Hd'.
  - intros id. rewrite W1, W2. rewrite <-Heq in H2 |- *.
    split; intros (source & Hs & <-); exists source; (split; [done|]); f_equal; eapply found_once; by apply H1 + by apply H2.
Qed.

Notation er_leaves w e := (leaves c (er_req e) (er_target e) (er_wanted e) self (w_store w)).
Notation er_due w e := (due c (er_req e) (er_target e) (w_store w)).

(** What an errand comes to, from [w0] to [w]. *)
Record fulfilled w0 (e : errand) w : Prop := {
  ff_settled u : settled (er_req e) (.∈ er_wanted e) (λ m, er_leaves w0 e m ∧ er_due w0 e m) u
    (at_ (env w0) (er_gid e) u) (at_ (env w) (er_gid e) u);
  ff_retired : is_Some (er_tombstone e) → (∀ m, m ∈ roster (env w0) (er_gid e) → er_leaves w0 e m → er_due w0 e m) →
    st_groups (w_store w) !! er_key e = None
}.

(** The errand can be run again afterwards, as long as nothing is to retire:
    there is room for the members it adds, and its observations are counts. *)
Definition renewable w0 (e : errand) : Prop := er_tombstone e = None ∧
  Z.of_nat (length (roster (env w0) (er_gid e)) + length (er_wanted e)) ≤ Z.of_nat fuel * apiPageSize ∧
  counted c (er_target e) (w_store w0).

(** The state it leaves: the next run fits and has nothing to wait for. *)
Record again w0 (e : errand) w : Prop := {
  ag_fits : fits c roster token (er_req e) (er_target e) (er_wanted e) self fuel (gl w);
  ag_due m : m ∈ roster (env w) (er_gid e) → er_leaves w e m → er_due w e m;
  ag_leaves m : m ∈ roster (env w) (er_gid e) → m_ID m ∉ er_wanted e → er_leaves w e m ↔ er_leaves w0 e m;
  ag_recorded : recorded c (er_req e) (w_store w)
}.

Lemma again_aside w0 e w w' : aside c roster (er_req e) (er_target e) (gl w) (gl w') → tidy (w_store w', w_sys w') →
  knows token self (gl w') → again w0 e w → again w0 e w'.
Proof.
  intros A Hw' Hk' [F D L R]. pose proof (roster_aside _ _ Hon _ _ _ _ A) as Hp. cbn in Hp. split.
  - by apply (fits_aside _ _ Hon _ _ _ _ _ _ (gl w)).
  - intros m. rewrite Hp. intros Hm Hl. apply (due_aside _ _ _ _ _ _ m A), D; [done|]. by apply (leaves_aside _ _ _ _ _ _ _ _ m A).
  - intros m. rewrite Hp. intros Hm Hu. rewrite <-(L m Hm Hu). apply (leaves_aside _ _ _ _ _ _ _ _ m A).
  - unfold recorded. pose proof (as_group _ _ _ _ _ _ A) as Hg. cbn in Hg. by rewrite Hg.
Qed.

(** How far the jobs have come when the errands [d] are done. *)
Record progress w0 (d : list errand) w : Prop := {
  pg_live : tidy (w_store w, w_sys w);
  pg_knows : knows token self (gl w);
  pg_standing : standing w0 w;
  pg_members g u : g ∉ ((λ e, er_gid e) <$> d) → at_ (env w) g u = at_ (env w0) g u;
  pg_groups k : k ∉ (er_key <$> d) → st_groups (w_store w) !! k = st_groups (w_store w0) !! k;
  pg_records g i : g ∉ ((λ e, er_gid e) <$> d) → st_records (w_store w) !! uk c g i = st_records (w_store w0) !! uk c g i;
  pg_absences g i : g ∉ ((λ e, er_gid e) <$> d) → st_absences (w_store w) !! uk c g i = st_absences (w_store w0) !! uk c g i;
  pg_done e : e ∈ d → fulfilled w0 e w;
  pg_again e : e ∈ d → renewable w0 e → again w0 e w
}.

Lemma progress_aside w0 d e w : progress w0 d w → er_gid e ∉ ((λ e, er_gid e) <$> d) → er_key e ∉ (er_key <$> d) →
  aside c roster (er_req e) (er_target e) (gl w0) (gl w).
Proof. intros P Hg Hk. split; cbn; intros; by apply P. Qed.

(** What a step on the errand [e] may change. *)
Record touches (e : errand) w w' : Prop := {
  to_members g u : g ≠ er_gid e → at_ (env w') g u = at_ (env w) g u;
  to_ledger : beside c (er_gid e) (er_key e) (w_store w) (w_store w');
  to_standing : standing w w'
}.

Lemma touches_trans e w1 w2 w3 : touches e w1 w2 → touches e w2 w3 → touches e w1 w3.
Proof.
  intros [A1 A2 A3] [B1 B2 B3]. split; [|by eapply beside_trans|by etrans]. intros g u Hg. by rewrite B1, A1.
Qed.

Lemma fulfilled_touches w0 e e' w w' : touches e w w' → er_gid e' ≠ er_gid e → er_key e' ≠ er_key e →
  fulfilled w0 e' w → fulfilled w0 e' w'.
Proof.
  intros T Hg Hk [H1 H2]. split.
  - intros u. rewrite (to_members _ _ _ T) by done. apply H1.
  - intros Ht Hd. rewrite (be_groups _ _ _ _ _ (to_ledger _ _ _ T)) by done. by apply H2.
Qed.

Lemma touches_aside e e' w w' : touches e w w' → er_gid e' ≠ er_gid e → er_key e' ≠ er_key e →
  aside c roster (er_req e') (er_target e') (gl w) (gl w').
Proof. intros [Hm [_ Hg Hr Ha] _] Hgid Hkey. split; cbn; intros; [by apply Hm|by apply Hg|by apply Hr|by apply Ha]. Qed.

Lemma progress_touches w0 d e w w' : progress w0 d w → touches e w w' →
  er_gid e ∉ ((λ e, er_gid e) <$> d) → er_key e ∉ (er_key <$> d) →
  tidy (w_store w', w_sys w') → knows token self (gl w') → fulfilled w0 e w' → (renewable w0 e → again w0 e w') →
  progress w0 (d ++ [e]) w'.
Proof.
  intros P T Hg Hk Hw' Hk' Hf Hag. pose proof (to_ledger _ _ _ T) as B.
  assert (∀ e', e' ∈ d → er_gid e' ≠ er_gid e ∧ er_key e' ≠ er_key e) as Hne.
  { intros e' He. split; intros Heq; [apply Hg|apply Hk]; rewrite <-Heq; [by apply (list_elem_of_fmap_2 (λ e, er_gid e))|by apply list_elem_of_fmap_2]. }
  split; [done|done| |intros g u|intros k|intros g i|intros g i|intros e'|intros e']; rewrite ?fmap_app, ?not_elem_of_app; cbn;
    rewrite ?list_elem_of_singleton.
  - etrans; [by apply P|by apply T].
  - intros [H1 H2]. rewrite (to_members _ _ _ T) by done. by apply P.
  - intros [H1 H2]. rewrite (be_groups _ _ _ _ _ B) by done. by apply P.
  - intros [H1 H2]. rewrite (be_records _ _ _ _ _ B) by done. by apply P.
  - intros [H1 H2]. rewrite (be_absences _ _ _ _ _ B) by done. by apply P.
  - rewrite elem_of_app, list_elem_of_singleton. intros [He| ->]; [|done].
    destruct (Hne e' He). eapply fulfilled_touches; [exact T|done|done|by eapply pg_done].
  - rewrite elem_of_app, list_elem_of_singleton. intros [He| ->]; [|done]. intros Hre. destruct (Hne e' He).
    eapply again_aside; [by eapply touches_aside|done|done|by eapply pg_again].
Qed.

Lemma settled_ext req wants L L' u a b : (∀ m, L m ↔ L' m) → settled req wants L u a b → settled req wants L' u a b.
Proof.
  intros HL [v ? ?|m v ? ? ?|m ? ? ?|m Hm|o ? Ho]; [by apply se_joins|by apply se_moves|by apply se_stays|by apply se_leaves, HL|].
  apply se_other; [done|]. intros m Hm. rewrite <-HL. by apply Ho.
Qed.

(** Worlds that differ in the counters at most. *)
Definition alike w w' : Prop :=
  w_sys w' = w_sys w ∧ w_store w' = w_store w ∧ w_ext w' = w_ext w ∧ standing w w'.

Lemma progress_alike w0 d w w' : alike w w' → progress w0 d w → progress w0 d w'.
Proof.
  intros (H1 & H2 & H3 & H4) [P1 P2 P3 P4 P5 P6 P7 P8 P9]. split; rewrite ?H1, ?H2; try done; [|by etrans|..].
  - unfold knows in *. cbn in *. by rewrite H3.
  - intros e He. destruct (P8 e He) as [F1 F2]. split; rewrite ?H1, ?H2; done.
  - intros e He Hre. eapply again_aside; [|by rewrite H2, H1| |by apply P9].
    + split; cbn; intros; by rewrite ?H1, ?H2.
    + unfold knows in *. cbn in *. by rewrite H3.
Qed.

Lemma counts_alike (res : Result) (errs : list err) w : ∃ w',
  (when (r_CreatedGroup res) (count GroupsCreated 1);; count MembershipsAdded (r_Added res);;
   count MembershipsChanged (r_Updated res);; count MembershipsRemoved (r_Removed res);;
   count UnresolvedUsers (r_Unresolved res);; mret errs) w = (Ok (E := err) errs, w') ∧ alike w w'.
Proof. destruct (r_CreatedGroup res); eexists; (split; [reflexivity|]); by split_and!. Qed.

(** The run of [SyncGroup] that the errand asks for. *)
Lemma run_sync w0 d e w : workable w0 e → progress w0 d w → er_gid e ∉ ((λ e, er_gid e) <$> d) → er_key e ∉ (er_key <$> d) →
  ∃ res w', zoom (W := W) (V := GL S) (H := lens_gitlab S (c_name c)) (GitLab.SyncGroup c fuel (er_req e)) w = (Ok res, w') ∧
    touches e w w' ∧ tidy (w_store w', w_sys w') ∧ knows token self (gl w') ∧
    (∀ u, settled (er_req e) (.∈ er_wanted e) (λ m, er_leaves w0 e m ∧ er_due w0 e m) u
       (at_ (env w0) (er_gid e) u) (at_ (env w') (er_gid e) u)) ∧
    ((∀ m, m ∈ roster (env w0) (er_gid e) → er_leaves w0 e m → er_due w0 e m) → r_Converged res = true) ∧
    (renewable w0 e → again w0 e w').
Proof.
  intros [Hre Hwho Hwanted Hstr Hfits _] P Hg Hk. pose proof (progress_aside _ _ _ _ P Hg Hk) as A.
  pose proof (fits_aside _ _ Hon _ _ _ _ _ _ (gl w0) (gl w) Hfits (pg_live _ _ _ P) (pg_knows _ _ _ P) A) as Hfits'.
  destruct (sync_runs _ _ Hon Hdisk _ _ Htoken Hrtoken _ _ _ _ _ Hacc Hre _ Hwho Hwanted Hstr fuel (gl w) Hfits')
    as (res & v & Hrun & Hd & Hbi & Hrec & Hb).
  assert (∀ m, er_leaves w e m ∧ er_due w e m ↔ er_leaves w0 e m ∧ er_due w0 e m) as Hiff.
  { intros m. by rewrite (leaves_aside _ _ _ _ _ _ _ _ m A : er_leaves w e m ↔ _), (due_aside _ _ _ _ _ _ m A : er_due w e m ↔ _). }
  exists res, (update (Lens := lens_gitlab S (c_name c)) v w). split; [unfold zoom; by rewrite Hrun|].
  split; [split; [intros g u Hne; by apply (dl_others _ _ _ _ _ _ _ _ _ Hd)|exact Hb|done]|].
  split; [exact (dl_live _ _ _ _ _ _ _ _ _ Hd)|]. split.
  { intros _. right. rewrite view_update. exact (dl_id _ _ _ _ _ _ _ _ _ Hd). }
  split.
  - intros u. pose proof (as_members _ _ _ _ _ _ A u) as Hu. cbn in Hu. rewrite <-Hu. eapply settled_ext; [exact Hiff|].
    exact (settled_delivered _ _ _ _ _ _ _ _ _ u Hd).
  - split.
    + intros Hall. apply (dl_converged _ _ _ _ _ _ _ _ _ Hd). intros m Hm Hl.
      rewrite (roster_aside _ _ Hon _ _ _ _ A) in Hm.
      apply (due_aside _ _ _ _ _ _ m A), Hall; [exact Hm|]. by apply (leaves_aside _ _ _ _ _ _ _ _ m A).
    + intros (_ & Hslack & Hcnt).
      destruct (fits_again _ _ Hon _ _ _ _ _ _ _ _ _ Hfits' Hd Hbi) as [Hf Hdue].
      { pose proof (Permutation_length (roster_aside _ _ Hon _ _ _ _ A)) as Hl. cbn in Hl |- *. by rewrite Hl. }
      { intros u a. pose proof (as_absences _ _ _ _ _ _ A u) as Ha. cbn in Ha |- *. rewrite Ha. by apply Hcnt. }
      split; [by rewrite view_update|exact Hdue| |exact Hrec].
      intros m Hm Hu. etrans; [exact (leaves_after _ _ Hon _ _ _ _ _ _ _ _ Hd Hm Hu)|]. exact (leaves_aside _ _ _ _ _ _ _ _ m A).
Qed.

(** Retiring the mapping of a tombstone. *)
Lemma run_retire e m w : er_tombstone e = Some m → mappingKey m = er_key e → tidy (w_store w, w_sys w) → knows token self (gl w) →
  ∃ w', ledger (S := S) (T := Clients) (DeleteGroup (gm_Provider m) (gm_Rule m) (gm_SourceGroupID m)) w = (Ok tt, w') ∧
    touches e w w' ∧ tidy (w_store w', w_sys w') ∧ knows token self (gl w') ∧ sameMembers roster (env w) (env w') ∧
    st_groups (w_store w') !! er_key e = None.
Proof.
  intros Ht Hkey Hw Hk.
  destruct (ledger_lives_unit _ _ Hon Hdisk (ODelete (gm_Provider m) (gm_Rule m) (gm_SourceGroupID m)) _ (gl w) eq_refl Hw)
    as (v & Hrun & Hstep & Hlive & Hs & Hi); [cbn; by case_match|].
  exists (update (Lens := lens_w_store S Clients) (gl_store v, gl_sys v) w).
  assert (DeleteGroup (gm_Provider m) (gm_Rule m) (gm_SourceGroupID m) (w_store w, w_sys w) = (Ok tt, (gl_store v, gl_sys v))) as Hdel.
  { unfold GitLab.ledger, zoom in Hrun. cbn [view lens_gl_store gl_store gl_sys] in Hrun. cbn in Hrun.
    destruct (DeleteGroup _ _ _ _) as [[[]|x] [st sys]]; [|done]. injection Hrun as <-. done. }
  destruct (ls_effect _ _ _ Hstep) as [wr He]. cbn in He.
  change (groupKey (gm_Provider m) (gm_Rule m) (gm_SourceGroupID m)) with (mappingKey m) in He. rewrite Hkey in He.
  split; [unfold ledger, zoom; cbn [view lens_w_store]; by rewrite Hdel|].
  assert (beside c (er_gid e) (er_key e) (w_store w) (gl_store v) ∧ st_groups (gl_store v) !! er_key e = None) as [Hb Hn].
  { cbn in He. destruct (st_groups (w_store w) !! er_key e) as [g|] eqn:E; injection He as <- _; [|by split].
    split; [|cbn; by rewrite lookup_delete_eq]. split; try done. intros k Hne. cbn. by rewrite lookup_delete_ne. }
  split; [split; [intros g u _; exact (same_at roster _ _ g u Hs)|exact Hb|done]|]. split; [exact Hlive|]. split; [exact Hk|].
  by split.
Qed.

(** The turn of one job. *)
Lemma run_job w0 d e w : workable w0 e → progress w0 d w → er_gid e ∉ ((λ e, er_gid e) <$> d) → er_key e ∉ (er_key <$> d) →
  ∃ w', applyJob [] (jobOf e) w = (Ok (E := err) [], w') ∧ progress w0 (d ++ [e]) w'.
Proof.
  intros Hwk P Hg Hk. destruct (run_sync w0 d e w Hwk P Hg Hk) as (res & w1 & Hrun & T1 & L1 & K1 & Hset & Hconv & Hag).
  assert (∃ w2, (match er_tombstone e with
      | Some m => when (r_Converged res) (ledger (S := S) (T := Clients) (DeleteGroup (gm_Provider m) (gm_Rule m) (gm_SourceGroupID m)))
      | None => mret tt end) w1 = (Ok tt, w2) ∧ progress w0 (d ++ [e]) w2) as (w2 & Hrun2 & P2).
  { assert (∀ w2, touches e w1 w2 → tidy (w_store w2, w_sys w2) → knows token self (gl w2) → sameMembers roster (env w1) (env w2) →
      (is_Some (er_tombstone e) → (∀ m, m ∈ roster (env w0) (er_gid e) → er_leaves w0 e m → er_due w0 e m) →
        st_groups (w_store w2) !! er_key e = None) → (renewable w0 e → again w0 e w2) → progress w0 (d ++ [e]) w2) as Hdone.
    { intros w2 T2 L2 K2 Hs Hret. eapply progress_touches; [exact P|by eapply touches_trans|done..|]. split; [|exact Hret].
      intros u. rewrite (same_at roster _ _ _ _ Hs). apply Hset. }
    assert (touches e w1 w1) as Hrefl by (by split).
    destruct (er_tombstone e) as [m|] eqn:Ht; [|exists w1; split; [done|]; apply Hdone; [done|done|done|reflexivity|by intros [? ?]|done]].
    destruct (r_Converged res) eqn:Hc; cbn [when].
    - destruct (run_retire e m w1 Ht (wk_tombstone _ _ Hwk m Ht) L1 K1) as (w2 & Hr & T2 & L2 & K2 & Hs & Hn).
      exists w2. split; [exact Hr|]. apply Hdone; [done..|]. intros [? _]. congruence.
    - exists w1. split; [done|]. apply Hdone; [done|done|done|reflexivity| |done]. intros _ Hall. specialize (Hconv Hall). congruence. }
  destruct (counts_alike res [] w2) as (w3 & Hrun3 & A3). exists w3. split; [|by eapply progress_alike].
  unfold applyJob, jobOf. rewrite (bind_run _ _ w (Ok res) w1); [|unfold attempt; by rewrite Hrun].
  rewrite (bind_run _ _ w1 (Ok tt) w2); [|unfold attempt; by rewrite Hrun2]. exact Hrun3.
Qed.

Lemma mfold_fmap {A B C} (f : B → C → M W err B) (g : A → C) l b w : mfold f b (g <$> l) w = mfold (λ b x, f b (g x)) b l w.
Proof.
  revert b w. induction l as [|x l IH]; intros b w; [done|]. cbn [fmap list_fmap mfold]. unfold mbind, M_bind.
  destruct (f b (g x) w) as [[b'|e] w']; [apply IH|done].
Qed.

Lemma run_jobs w0 errands w : (∀ e, e ∈ errands → workable w0 e) → NoDup ((λ e, er_gid e) <$> errands) → NoDup (er_key <$> errands) →
  progress w0 [] w → ∃ w', mfold applyJob [] (jobOf <$> errands) w = (Ok (E := err) [], w') ∧ progress w0 errands w'.
Proof.
  intros Hwk Hg Hk P. rewrite mfold_fmap.
  destruct (mfold_runs (λ errs e, applyJob errs (jobOf e)) (λ d errs w, errs = [] ∧ progress w0 d w) errands [] w) as (errs & w' & Hrun & -> & P').
  - intros d e rest errs w1 Hl [-> P1]. rewrite Hl, fmap_app in Hg. rewrite Hl, fmap_app in Hk.
    apply NoDup_app in Hg as (_ & Hg & _). apply NoDup_app in Hk as (_ & Hk & _).
    destruct (run_job w0 d e w1) as (w2 & Hrun & P2); [apply Hwk; rewrite Hl; apply elem_of_app_mid|done| | |by exists [], w2].
    + intros Hin. apply (Hg _ Hin). by left.
    + intros Hin. apply (Hk _ Hin). by left.
  - by split.
  - by exists w'.
Qed.

(** ** The pass *)

Lemma progress_nil w : tidy (w_store w, w_sys w) → knows token self (gl w) → progress w [] w.
Proof. intros Hw Hk. split; try done; by intros e ?%elem_of_nil. Qed.

Lemma progress_trans w0 w1 w2 : progress w0 [] w1 → progress w1 [] w2 → progress w0 [] w2.
Proof.
  intros P Q. split.
  - by apply Q.
  - by apply Q.
  - etrans; [by apply P|by apply Q].
  - intros g u Hg. rewrite (pg_members _ _ _ Q) by done. by apply P.
  - intros k Hk. rewrite (pg_groups _ _ _ Q) by done. by apply P.
  - intros g i Hg. rewrite (pg_records _ _ _ Q) by done. by apply P.
  - intros g i Hg. rewrite (pg_absences _ _ _ Q) by done. by apply P.
  - by intros e ?%elem_of_nil.
  - by intros e ?%elem_of_nil.
Qed.

(** The health checks of the one target. *)
Lemma run_check w : tidy (w_store w, w_sys w) → knows token self (gl w) →
  ∃ w', p_HealthCheck (gitlabProvider fuel c) w = (Ok tt, w') ∧ progress w [] w'.
Proof.
  intros Hw Hk. destruct (run_currentIdentity _ _ Hon _ Htoken _ Hacc (gl w) Hw Hk) as (v & Hrun & Hlive & Hst & Hs & Hid).
  exists (update (Lens := lens_gitlab S (c_name c)) v w). split.
  { cbn [gitlabProvider p_HealthCheck]. unfold HealthCheck, mbind, M_bind, zoom. by rewrite Hrun. }
  split; try done.
  - intros _. right. by rewrite view_update.
  - intros g u _. by apply same_at.
  - intros k _. cbn. by rewrite Hst.
  - intros g i _. cbn. by rewrite Hst.
  - intros g i _. cbn. by rewrite Hst.
  - by intros e ?%elem_of_nil.
  - by intros e ?%elem_of_nil.
Qed.

Lemma run_health ps w : (∀ p, p ∈ ps → p = gitlabProvider fuel c) → tidy (w_store w, w_sys w) → knows token self (gl w) →
  ∃ w', checkHealth ps w = (Ok (E := err) [], w') ∧ progress w [] w'.
Proof.
  unfold checkHealth. revert w. induction ps as [|p ps IH]; intros w Hps Hw Hk; [exists w; split; [done|by apply progress_nil]|].
  cbn [mfold]. rewrite (Hps p) by by left. destruct (run_check w Hw Hk) as (w1 & H1 & P1).
  destruct (IH w1) as (w2 & H2 & P2); [intros q Hq; apply Hps; by right|by apply P1..|].
  exists w2. split; [|by eapply progress_trans]. rewrite (bind_run _ _ w [] w1); [exact H2|].
  unfold mbind, M_bind, attempt. by rewrite H1.
Qed.

(** The plan for the groups read and the mappings on record can be carried out. *)
Record feasible (complete mo : bool) w (groups : list Group) (ms : list GroupMapping) (errands : list errand) : Prop := {
  fe_errs : bd_errs (buildJobs (rc_providers r) (rc_rules r) ms complete mo groups) = [];
  fe_jobs : bd_jobs (buildJobs (rc_providers r) (rc_rules r) ms complete mo groups) = jobOf <$> errands;
  fe_workable e : e ∈ errands → workable w e;
  fe_targets : NoDup ((λ e, er_gid e) <$> errands);
  fe_keys : NoDup (er_key <$> errands);
  fe_inPlace : inPlace groups ms
}.

Lemma idle_store w w' : idle w w' → w_store w' = w_store w.
Proof. by intros [(Hst & _) _]. Qed.

Lemma progress_idle w0 w d w' : idle w0 w → progress w [] w' → d = [] → progress w0 d w'.
Proof.
  intros [(Hst & _ & Hs & Hi) Hr] [P1 P2 P3 P4 P5 P6 P7 P8 _] ->. cbn in Hst, Hs. split; try done.
  - by etrans.
  - intros g u Hg. rewrite P4 by done. by apply same_at.
  - intros k Hk. by rewrite P5, Hst.
  - intros g i Hg. by rewrite P6, Hst.
  - intros g i Hg. by rewrite P7, Hst.
  - by intros e ?%elem_of_nil.
  - by intros e ?%elem_of_nil.
Qed.

Lemma idle_tidy w w' : idle w w' → tidy (w_store w, w_sys w) → tidy (w_store w', w_sys w').
Proof. intros [Hc _]. exact (calm_live _ _ _ Hc). Qed.

Lemma idle_knows w w' : idle w w' → knows token self (gl w) → knows token self (gl w').
Proof. intros [(_ & _ & _ & Hi) _]. unfold identity in Hi. injection Hi as H1 H2. unfold knows. cbn in *. by rewrite H1, H2. Qed.

(** The providers a pass needs: the one there is, if any. *)
Lemma run_required complete jobs w : (∀ j, j ∈ jobs → jobProvider j = gitlabProvider fuel c) →
  ∃ reg w', requiredProviders r complete jobs w = (Ok reg, w') ∧ idle w w' ∧ ∀ p, p ∈ values reg → p = gitlabProvider fuel c.
Proof.
  intros Hjobs. unfold requiredProviders. destruct complete.
  - destruct (idles_order (E := err) (values (rc_providers r)) w) as (l & w' & Hrun & Hi & Hl).
    exists (NewRegistry l), w'. split; [unfold All; by rewrite (bind_run _ _ _ _ _ Hrun)|]. split; [done|].
    intros p Hp%registry_values. rewrite Hl, (wi_registry _ _ _ _ _ _ Hwired) in Hp.
    by apply registry_values, list_elem_of_singleton in Hp.
  - exists (NewRegistry (jobProvider <$> jobs)), w. split; [done|]. split; [reflexivity|].
    intros p (j & -> & Hj)%registry_values%list_elem_of_fmap. by apply Hjobs.
Qed.

(** Planning and carrying out; [Q] is what else is known of the errands. *)
Lemma run_reconcile (Q : list errand → Prop) complete mo groups w0 w : idle w0 w → tidy (w_store w0, w_sys w0) → knows token self (gl w0) →
  (∀ ms, ms ≡ₚ values (st_groups (w_store w0)) → ∃ errands, Q errands ∧ feasible complete mo w0 groups ms errands) →
  ∃ ms errands w' w2, reconcileGroups r groups complete mo w = (Ok tt, w2) ∧ ms ≡ₚ values (st_groups (w_store w0)) ∧ Q errands ∧
    feasible complete mo w0 groups ms errands ∧ progress w0 errands w' ∧ alike (if complete then becomeReady w' else w') w2.
Proof.
  intros I0 Hw Hk Hfeas. unfold reconcileGroups.
  destruct (idles_mappings w) as (ms & w1 & H1 & I1 & Hms). rewrite (bind_run _ _ _ _ _ H1). cbn zeta. rewrite (idle_store _ _ I0) in Hms.
  destruct (Hfeas ms Hms) as (errands & HQ & F). exists ms, errands. rewrite (fe_errs _ _ _ _ _ _ F), bool_decide_eq_true_2 by done. cbn [negb].
  rewrite (fe_jobs _ _ _ _ _ _ F).
  destruct (run_required complete (jobOf <$> errands) w1) as (reg & w2 & H2 & I2 & Hreg).
  { by intros j (e & -> & _)%list_elem_of_fmap. }
  rewrite (bind_run _ _ _ _ _ H2).
  destruct (idles_order (E := err) (values reg) w2) as (order & w3 & H3 & I3 & Ho).
  rewrite (bind_run _ _ _ _ _ H3). assert (idle w0 w3) as I by (do 3 (etrans; [eassumption|]); done).
  destruct (run_health order w3) as (w4 & H4 & P4); [intros p; rewrite Ho; apply Hreg|by eapply idle_tidy|by eapply idle_knows|].
  rewrite (bind_run _ _ _ _ _ H4), bool_decide_eq_true_2 by done. cbn [negb].
  destruct (run_jobs w0 errands w4) as (w5 & H5 & P5); [apply F..|by eapply progress_idle|].
  rewrite (bind_run _ _ _ _ _ H5). exists w5. destruct complete; eexists; (split; [reflexivity|]); by split_and!.
Qed.

Lemma feasible_idle complete mo w w' groups ms errands : idle w w' → tidy (w_store w', w_sys w') → knows token self (gl w') →
  feasible complete mo w groups ms errands → feasible complete mo w' groups ms errands.
Proof.
  intros [(Hst & _ & Hs & _) _] Hw Hk [F1 F2 F3 F4 F5 F6]. split; try done. intros e He.
  destruct (F3 e He) as [W1 W2 W3 W4 W5 W6]. split; try done.
  apply (fits_aside _ _ Hon _ _ _ _ _ _ (gl w)); [done|exact Hw|exact Hk|].
  cbn in Hst, Hs. split; cbn; intros; rewrite ?Hst; [by apply same_at|done..].
Qed.

Lemma counted_run {A} ctx (m : M W err A) w a w' : m w = (Ok a, w') → attemptCounted ctx m w = (Ok a, w').
Proof. intros Hm. unfold attemptCounted. rewrite (bind_run _ _ w (Ok a) w'); [done|]. unfold attempt. by rewrite Hm. Qed.

Lemma now_secret w t w' : now (S := S) (T := Clients) w = (Ok t, w') → w_secret w' = w_secret w.
Proof. unfold now, zoom, timeNow. cbn. destruct (env_now _). by intros [= _ <-]. Qed.

(** Routing and migration, between the reading and the planning. *)
Lemma run_between groups reindex ctx ctx' w : serving (w_secret w) → (∀ ms, ms ≡ₚ values (st_groups (w_store w)) → inPlace groups ms) →
  (∀ w, serving (w_secret w) → ∃ w', routes (S := S) (T := Clients) reindex w = (Ok tt, w') ∧ idle w w') →
  ∃ w', idle w w' ∧ ∀ A (k : M W err A),
    (when (rc_routed r) (attemptCounted ctx (routes reindex));; attemptCounted ctx' (migrateCanonicalMappings r groups);; k) w = k w'.
Proof.
  intros Hsv Hin Hre.
  assert (∃ w1, when (rc_routed r) (attemptCounted ctx (routes reindex)) w = (Ok tt, w1) ∧ idle w w1) as (w1 & H1 & I1).
  { destruct (rc_routed r); cbn [when]; [|by exists w].
    destruct (Hre w Hsv) as (w1 & H1 & I1). exists w1. split; [by apply counted_run|done]. }
  destruct (run_migrate groups w1) as (w2 & H2 & I2); [intros ms; rewrite (idle_store _ _ I1); apply Hin|].
  exists w2. split; [by etrans|]. intros A k. by rewrite (bind_run _ _ _ _ _ H1), (bind_run _ _ _ _ _ (counted_run _ _ _ _ _ H2)).
Qed.

(** An errand is about the members and the ledger. *)
Lemma fulfilled_frame w0 w1 e w2 w3 : w_store w1 = w_store w0 → sameMembers roster (env w0) (env w1) →
  w_store w3 = w_store w2 → sameMembers roster (env w2) (env w3) → fulfilled w1 e w2 → fulfilled w0 e w3.
Proof.
  intros St1 S1 St2 S2 [F1 F2]. rewrite St1 in F1, F2. split.
  - intros u. rewrite (same_at roster _ _ _ _ S2), <-(same_at roster _ _ _ _ S1). apply F1.
  - intros Ht Hall. rewrite St2. apply F2; [done|]. intros m. rewrite (S1 _). apply Hall.
Qed.

(** What is asked of the target of [e], from [w0] to [w]: its members are what
    the rule asks for, save a user whom the documentation forbids to lower, and
    the mapping of a retired source is gone when no removal had to wait. *)
Record asked w0 (e : errand) w : Prop := {
  ak_settled u : spared (er_req e) self u (at_ (env w0) (er_gid e) u) →
    settled (er_req e) (.∈ er_wanted e) (λ m, er_leaves w0 e m ∧ er_due w0 e m) u
      (at_ (env w0) (er_gid e) u) (at_ (env w) (er_gid e) u);
  ak_retired : is_Some (er_tombstone e) → (∀ m, m ∈ roster (env w0) (er_gid e) → er_leaves w0 e m → er_due w0 e m) →
    st_groups (w_store w) !! er_key e = None
}.

Lemma fulfilled_asked w0 e w : fulfilled w0 e w → asked w0 e w.
Proof. intros [H1 H2]. by split. Qed.

Lemma asked_frame w0 w1 e w2 w3 : w_store w1 = w_store w0 → sameMembers roster (env w0) (env w1) →
  w_store w3 = w_store w2 → sameMembers roster (env w2) (env w3) → asked w1 e w2 → asked w0 e w3.
Proof.
  intros St1 S1 St2 S2 [F1 F2]. rewrite St1 in F1, F2. split.
  - intros u. rewrite (same_at roster _ _ _ _ S2), <-(same_at roster _ _ _ _ S1). apply F1.
  - intros Ht Hall. rewrite St2. apply F2; [done|]. intros m. rewrite (S1 _). apply Hall.
Qed.

(** The plan made of [groups] was carried out from [w] to [w']: every planned
    target, as GitLab names it, is as its rule asks for, and no other group
    changed. *)
Definition carriedOut (complete mo : bool) (groups : list Group) w w' : Prop := ∃ ms errands,
  ms ≡ₚ values (st_groups (w_store w)) ∧
  bd_jobs (buildJobs (rc_providers r) (rc_rules r) ms complete mo groups) = jobOf <$> errands ∧
  (∀ e, e ∈ errands → meant e ∧ asked w e w') ∧
  ∀ g u, g ∉ ((λ e, er_gid e) <$> errands) → at_ (env w') g u = at_ (env w) g u.

Lemma carriedOut_frame complete mo groups w0 w1 w2 w3 : idle w0 w1 → carriedOut complete mo groups w1 w2 →
  w_store w3 = w_store w2 → sameMembers roster (env w2) (env w3) → carriedOut complete mo groups w0 w3.
Proof.
  intros [(St & _ & Ms & _) _] (ms & errands & Hms & Hjobs & Hdone & Hothers) St3 Ms3. cbn in St, Ms.
  exists ms, errands. split; [by rewrite <-St|]. split; [done|]. split.
  - intros e He. destruct (Hdone e He). split; [done|]. by eapply asked_frame.
  - intros g u Hg. rewrite (same_at roster _ _ _ _ Ms3), Hothers by done. by apply same_at.
Qed.

(** A pass over [groups] that began at [w0] has ended well at [w']. *)
Record passed (complete mo : bool) (groups : list Group) w0 (ms : list GroupMapping) (errands : list errand) w' : Prop := {
  ps_mappings : ms ≡ₚ values (st_groups (w_store w0));
  ps_feasible : feasible complete mo w0 groups ms errands;
  ps_work : ∃ v, progress w0 errands v ∧ calm roster (gl v) (gl w');
  ps_ready : readiness w' = if complete then (w_ready w0 || negb (w_readyDone w0), true) else readiness w0;
  ps_serving : serving (w_secret w0) → serving (w_secret w')
}.

Lemma passed_idle complete mo groups w0 ms errands w w' : passed complete mo groups w0 ms errands w → idle w w' →
  passed complete mo groups w0 ms errands w'.
Proof.
  intros [P1 P2 (v & P3 & P3') P4 P5] [Hc [Hr Hs]]. split; [done|done| |congruence|auto].
  exists v. split; [done|]. destruct (calm_preorder roster) as [_ Ht]. exact (Ht _ _ _ P3' Hc).
Qed.

Lemma passed_carries complete mo groups w0 ms errands w' : passed complete mo groups w0 ms errands w' → carriedOut complete mo groups w0 w'.
Proof.
  intros [P1 P2 (v & P3 & (Hst & _ & Hs & _)) _ _]. cbn in Hst, Hs.
  apply (carriedOut_frame _ _ _ _ w0 v w'); [reflexivity| |exact Hst|exact Hs].
  exists ms, errands. split; [done|]. split; [apply P2|]. split; [|by apply P3].
  intros e He. split; [by eapply workable_meant, P2|]. by apply fulfilled_asked, P3.
Qed.

Lemma reconcile_passes (Q : list errand → Prop) complete mo groups w0 w : idle w0 w → tidy (w_store w0, w_sys w0) → knows token self (gl w0) →
  (∀ ms, ms ≡ₚ values (st_groups (w_store w0)) → ∃ errands, Q errands ∧ feasible complete mo w0 groups ms errands) →
  ∃ ms errands w', reconcileGroups r groups complete mo w = (Ok tt, w') ∧ Q errands ∧ passed complete mo groups w0 ms errands w'.
Proof.
  intros I Hw0 Hk0 Hfeas.
  destruct (run_reconcile Q complete mo groups w0 w I Hw0 Hk0 Hfeas) as (ms & errands & v & w' & Hrun & Hms & HQ & F & P & (As & Ast & Ax & Ar & Av)).
  exists ms, errands, w'. split; [exact Hrun|]. split; [done|]. destruct (pg_standing _ _ _ P) as [Hr Hsv]. split; [done|done| | |].
  - exists v. split; [done|]. unfold calm, identity. cbn. rewrite As, Ast, Ax. by destruct complete.
  - rewrite Ar. destruct complete; [|done]. unfold readiness in *. cbn. by injection Hr as -> ->.
  - intros Hs. by apply Av; destruct complete; apply Hsv.
Qed.

(** A complete pass. *)
Lemma run_pass (Q : list errand → Prop) w : tidy (w_store w, w_sys w) → knows token self (gl w) → serving (w_secret w) →
  (∀ groups ms, exact_snapshot roots kids mems groups → ms ≡ₚ values (st_groups (w_store w)) →
     ∃ errands, Q errands ∧ feasible true false w groups ms errands) →
  ∃ groups ms errands w', RunOnce r w = (Ok tt, w') ∧ exact_snapshot roots kids mems groups ∧ Q errands ∧ passed true false groups w ms errands w'.
Proof.
  intros Hw Hk Hsv Hfeas. unfold RunOnce.
  destruct (idles_now w) as (t & w1 & H1 & I1 & _). rewrite (bind_run _ _ _ _ _ H1). rewrite <-(now_secret w t w1 H1) in Hsv.
  destruct (run_snapshot w1) as (groups & w2 & H2 & I2 & Hsec & Hex). rewrite (bind_run _ _ _ _ _ (counted_run _ _ _ _ _ H2)).
  rewrite <-Hsec in Hsv. assert (idle w w2) as I02 by (by etrans).
  destruct (run_between groups (RouteIndex.Replace groups) "rebuild private event routing index"
    "migrate GitOps-declared canonical source mappings" w2 Hsv) as (w4 & I4 & Hnext).
  { intros ms Hms. rewrite (idle_store _ _ I02) in Hms. destruct (Hfeas groups ms Hex Hms) as (errands & _ & F). apply F. }
  { intros v Hv. by apply run_index. }
  rewrite Hnext. assert (idle w w4) as I by (by etrans).
  destruct (reconcile_passes Q true false groups w w4 I Hw Hk (λ ms, Hfeas groups ms Hex)) as (ms & errands & w6 & H5 & HQ & Hp).
  rewrite (bind_run _ _ _ _ _ H5). destruct (idles_now w6) as (t' & w7 & H6 & I7 & _).
  rewrite (bind_run _ _ _ _ _ H6). exists groups, ms, errands. eexists. split; [reflexivity|]. do 2 (split; [done|]).
  eapply passed_idle; [exact Hp|]. etrans; [exact I7|]. by split.
Qed.


(** ** A targeted pass *)

(** A group as Keycloak shows it. *)
Notation groupOf rep all := (MkGroup (Keycloak.gr_ID rep) (Keycloak.gr_Name rep) (Keycloak.gr_Path rep) (Keycloak.enabledUsers all)).

Lemma run_targeted_pass rep all mo w : shown kc secret rep all fuel →
  tidy (w_store w, w_sys w) → knows token self (gl w) → serving (w_secret w) →
  (∀ ms, ms ≡ₚ values (st_groups (w_store w)) → ∃ errands, feasible false mo w [groupOf rep all] ms errands) →
  ∃ w', RunGroupOnce r (Keycloak.gr_ID rep) mo w = (Ok tt, w') ∧ carriedOut false mo [groupOf rep all] w w' ∧ readiness w' = readiness w.
Proof.
  intros Hsh Hw Hk Hsv Hfeas. unfold RunGroupOnce.
  destruct (idles_now w) as (t & w1 & H1 & I1 & _). destruct (run_read rep all w1 Hsh) as (f & w2 & -> & H2 & I2 & Hsec).
  rewrite (bind_run _ _ _ _ _ H1), (bind_run _ _ _ _ _ (counted_run _ _ _ _ _ H2)).
  rewrite <-(now_secret w t w1 H1), <-Hsec in Hsv. assert (idle w w2) as I02 by (by etrans).
  destruct (run_between [groupOf rep all] (RouteIndex.Update (groupOf rep all)) "update private event routing index"
    "migrate GitOps-declared canonical source mapping" w2 Hsv) as (w4 & I4 & Hnext).
  { intros ms Hms. rewrite (idle_store _ _ I02) in Hms. destruct (Hfeas ms Hms) as [errands F]. apply F. }
  { intros v Hv. by apply run_index. }
  rewrite Hnext. destruct (reconcile_passes (λ _, True) false mo [groupOf rep all] w w4) as (ms & errands & w' & Hrun & _ & Hp); [by etrans|done|done| |].
  { intros ms Hms. destruct (Hfeas ms Hms) as [errands F]. by exists errands. }
  exists w'. split; [exact Hrun|]. split; [by eapply passed_carries|by apply Hp].
Qed.

(** ** From an event to the members *)

Lemma order_alone {A} (l l' : list A) w w' : zoom (W := W) (V := Sys S) (rangeOrder (E := err) l) w = (Ok l', w') →
  w_secret w' = w_secret w ∧ w_routes w' = w_routes w.
Proof. unfold zoom, rangeOrder. cbn. destruct (env_order _ _ _). by intros [= _ <-]. Qed.

(** The routing secret is the one the index was built under, and stays. *)
Record settledSecret (l : StableLoader) (i : routeIndex) : Prop := {
  se_serving : serving l;
  se_source : steadyToken (sl_source l) (ri_secret i);
  se_length : sl_minBytes l ≤ byteLen (ri_secret i)
}.

Lemma run_refresh w : settledSecret (w_secret w) (w_routes w) →
  ∃ w', routes (S := S) (T := Clients) RouteIndex.Refresh w = (Ok tt, w') ∧ idle w w' ∧ serving (w_secret w') ∧ w_routes w' = w_routes w.
Proof.
  clear Hdepth. intros [[Hwf Hlast Hmin] Hsrc Hlen].
  destruct (StableLoad_runs (w_secret w) (ri_secret (w_routes w)) (w_sys w) Hsrc Hlen) as (s & Hload & Hst).
  set (l' := MkStable (sl_source (w_secret w)) (sl_minBytes (w_secret w)) (ri_secret (w_routes w))) in *.
  assert (serving l') as Hl'.
  { pose proof (triple_StableLoad (w_secret w) (w_secret w, w_sys w) (conj eq_refl Hwf)) as Ht. rewrite Hst in Ht.
    destruct Ht as (_ & _ & _ & Hlen' & Hok). split; [split; [apply Hwf|by right]|by destruct Hok|done]. }
  assert (sameMembers roster (env w) s) as Hs.
  { pose proof (unmoved_load w (sl_source (w_secret w)) (w_sys w)) as Hk. rewrite Hload in Hk. by apply Hk. }
  exists (update (Lens := lens_w_routes S Clients) (w_routes w, (l', set_env s (w_sys w))) w). split; [|split; [|by split]].
  - unfold routes, zoom, RouteIndex.Refresh, refreshSecretLocked. cbn [view lens_w_routes].
    unfold mbind, M_bind, zoom. cbn. rewrite Hst. destruct (Z.ltb_spec (byteLen (ri_secret (w_routes w))) 32); [lia|].
    unfold gets. cbn. by rewrite String.eqb_refl.
  - split; [|done]. split; [done|]. split; [done|]. by split.
Qed.

(** Computations put together. *)
Lemma idles_ret {E A} (a : A) : idles (E := E) (mret a) (λ _ _, True).
Proof. intros w. by exists a, w. Qed.

Lemma idles_gets {E A} (f : W → A) : idles (E := E) (gets f) (λ w a, a = f w).
Proof. intros w. by exists (f w), w. Qed.

Lemma idles_bind {E A B} (m : M W E A) (k : A → M W E B) Q R : idles m Q → (∀ a, idles (k a) R) → idles (m ≫= k) (λ _ _, True).
Proof.
  intros Hm Hk w. destruct (Hm w) as (a & w1 & H1 & I1 & _), (Hk a w1) as (b & w2 & H2 & I2 & _).
  exists b, w2. split; [by rewrite (bind_run _ _ _ _ _ H1)|]. split; [by etrans|done].
Qed.

Lemma idles_mfor {A} (f : A → M W err unit) l : (∀ x, idles (f x) (λ _ _, True)) → idles (mfor f l) (λ _ _, True).
Proof.
  intros Hf. unfold mfor. induction l as [|x l IH]; [apply idles_ret|]. eapply idles_bind; [apply Hf|]. intros []. exact IH.
Qed.

Lemma idles_onQueue f : idles (onQueueState (S := S) (T := Clients) f) (λ _ _, True).
Proof. by apply idles_modify. Qed.

(** The other goroutines do not concern the targets. *)
Lemma idles_other a : idles (otherStep (S := S) (T := Clients) a) (λ _ _, True).
Proof.
  destruct a as [hint|id|]; cbn [otherStep]; [apply idles_onQueue|..].
  - eapply idles_bind; [apply idles_gets|]. intros q. destruct (bool_decide _); [apply idles_onQueue|apply idles_ret].
  - unfold releaseFired. eapply idles_bind; [apply idles_gets|]. intros fired. destruct (decide _); [apply idles_ret|].
    repeat (eapply idles_bind; [first [apply idles_now|apply idles_gets|apply idles_order]|]; intros). apply idles_onQueue.
Qed.

Lemma idles_meanwhile : idles (meanwhile (S := S) (T := Clients)) (λ _ _, True).
Proof.
  unfold meanwhile. eapply idles_bind; [apply idles_gets|]. intros [|actions rest]; [apply idles_ret|].
  eapply idles_bind; [by apply idles_modify|]. intros []. by apply idles_mfor, idles_other.
Qed.

(** Scheduling concerns no target. *)
Lemma idles_queue f : idles (queueTimed (S := S) (T := Clients) f) (λ _ _, True).
Proof.
  unfold queueTimed. eapply idles_bind; [apply idles_meanwhile|]. intros [].
  repeat (eapply idles_bind; [first [apply idles_now|apply idles_gets]|]; intros). apply idles_onQueue.
Qed.

Lemma idles_schedule key work delay reason : idles (scheduleGroup (S := S) (T := Clients) key work delay reason) (λ _ _, True).
Proof. apply idles_queue. Qed.

(** One group to read: what the consumer does for a batch with a hint of that
    group alone. *)
Lemma run_resolve key work w groupID : ri_groupIDs (w_routes w) !! key = Some groupID →
  ∃ w', resolveBatch (S := S) (T := Clients) (MkBatch {[key := work]} ∅ false) w =
      (Ok (addGroupWork groupID key work (MkBatchWork ∅ ∅ ∅ false)), w') ∧ idle w w' ∧ w_secret w' = w_secret w.
Proof.
  intros Hkey. unfold resolveBatch. cbn [eb_groups eb_users eb_globalRepair]. rewrite map_to_list_singleton, map_to_list_empty.
  destruct (idles_order (E := err) [(key, work)] w) as (l & w1 & H1 & I1 & ->%Permutation_singleton_r).
  destruct (order_alone _ _ _ _ H1) as [Hs1 Hr1]. rewrite (bind_run _ _ _ _ _ H1). cbn [mfold].
  rewrite (bind_run _ _ w1 (addGroupWork groupID key work (MkBatchWork ∅ ∅ ∅ false)) w1).
  2: { unfold mbind at 1, M_bind at 1. unfold resolveGroupWork, mbind, M_bind, gets, ResolveGroup. cbn [fst snd]. by rewrite Hr1, Hkey. }
  destruct (idles_order (E := err) (@nil (string * eventUserWork)) w1) as (l' & w2 & H2 & I2 & ->%Permutation_nil_r).
  destruct (order_alone _ _ _ _ H2) as [Hs2 _]. rewrite (bind_run _ _ _ _ _ H2). exists w2. split; [done|]. split; [by etrans|congruence].
Qed.

Lemma run_targeted_batch rep all key work w : shown kc secret rep all fuel →
  tidy (w_store w, w_sys w) → knows token self (gl w) → serving (w_secret w) →
  (∀ ms, ms ≡ₚ values (st_groups (w_store w)) → ∃ errands, feasible false (negb (ew_allProviders work)) w [groupOf rep all] ms errands) →
  ∃ w', runTargeted r (addGroupWork (Keycloak.gr_ID rep) key work (MkBatchWork ∅ ∅ ∅ false)) w = (Ok tt, w') ∧
    carriedOut false (negb (ew_allProviders work)) [groupOf rep all] w w' ∧ readiness w' = readiness w.
Proof.
  intros Hsh Hw Hk Hsv Hfeas. unfold runTargeted, addGroupWork. cbn [bw_groups bw_routes bw_retries].
  rewrite (lookup_empty (M := gmap string)). cbn [default].
  replace (mergeWork noWork work) with work by (by destruct work).
  rewrite (insert_empty (M := gmap string) (Keycloak.gr_ID rep) work), map_to_list_singleton.
  destruct (idles_order (E := err) [(Keycloak.gr_ID rep, work)] w) as (l & w1 & H1 & I1 & ->%Permutation_singleton_r).
  destruct (order_alone _ _ _ _ H1) as [Hs1 _]. rewrite (bind_run _ _ _ _ _ H1).
  set (w2 := countMetric EventTargetedRuns 1 w1). assert (idle w w2) as I2 by (etrans; [exact I1|by split]).
  destruct (run_targeted_pass rep all (negb (ew_allProviders work)) w2 Hsh) as (w3 & H3 & Hc & Hr3).
  { by eapply idle_tidy. }
  { by eapply idle_knows. }
  { change (serving (w_secret w1)). by rewrite Hs1. }
  { intros ms Hms. rewrite (idle_store _ _ I2) in Hms. destruct (Hfeas ms Hms) as [errands F]. exists errands.
    eapply feasible_idle; [exact I2|by eapply idle_tidy|by eapply idle_knows|done]. }
  set (later := when (ew_confirmRemoval work) (scheduleGroup (S := S) (T := Clients) (default "" ((<[Keycloak.gr_ID rep := key]> ∅ : gmap string string) !! Keycloak.gr_ID rep))
    noWork membershipConfirmDelay "membership-confirmation")).
  assert (∃ w4, later w3 = (Ok (E := err) tt, w4) ∧ idle w3 w4) as (w4 & H4 & I4).
  { unfold later. destruct (ew_confirmRemoval work); cbn [when]; [|by exists w3].
    match goal with |- context [scheduleGroup ?k ?v ?d ?why] => destruct (idles_schedule k v d why w3) as ([] & w4 & H4 & I4 & _) end.
    by exists w4. }
  rewrite (bind_run _ _ w1 tt w4).
  2: { unfold mfor. cbn [mfold fst snd]. rewrite (bind_run _ _ w1 tt w4); [done|]. rewrite (bind_run _ _ w1 tt w2) by done.
       rewrite (bind_run _ _ w2 (Ok tt) w3); [exact H4|]. unfold attempt. by rewrite H3. }
  rewrite elements_empty. destruct (idles_order (E := err) (@nil string) w4) as (l' & w5 & H5 & I5 & ->%Permutation_nil_r).
  rewrite (bind_run _ _ _ _ _ H5). exists w5. split; [done|].
  assert (idle w3 w5) as [(St & _ & Ms & _) [Hr _]] by (by etrans). split; [by eapply carriedOut_frame|].
  rewrite Hr, Hr3. apply I2.
Qed.

Lemma run_batch rep all key work w : shown kc secret rep all fuel → rc_routed r = true →
  settledSecret (w_secret w) (w_routes w) → ri_groupIDs (w_routes w) !! key = Some (Keycloak.gr_ID rep) →
  tidy (w_store w, w_sys w) → knows token self (gl w) →
  (∀ ms, ms ≡ₚ values (st_groups (w_store w)) → ∃ errands, feasible false (negb (ew_allProviders work)) w [groupOf rep all] ms errands) →
  ∃ w', processEventBatch r (MkBatch {[key := work]} ∅ false) w = (Ok tt, w') ∧
    carriedOut false (negb (ew_allProviders work)) [groupOf rep all] w w' ∧ readiness w' = readiness w.
Proof.
  intros Hsh Hrt Hsec Hkey Hw Hk Hfeas. unfold processEventBatch. rewrite Hrt. cbn [negb].
  destruct (run_refresh w Hsec) as (w1 & H1 & I1 & Hsv & Hroutes).
  rewrite (bind_run _ _ w (Ok tt) w1) by (unfold attempt; by rewrite H1). rewrite <-Hroutes in Hkey.
  destruct (run_resolve key work w1 _ Hkey) as (w2 & H2 & I2 & Hs2). rewrite (bind_run _ _ _ _ _ H2). cbn [bw_global addGroupWork].
  rewrite (bind_run _ _ w2 false w2) by done. rewrite <-Hs2 in Hsv. assert (idle w w2) as I by (by etrans).
  destruct (run_targeted_batch rep all key work w2 Hsh) as (w3 & H3 & Hc & Hr); [by eapply idle_tidy|by eapply idle_knows|done| |].
  { intros ms Hms. rewrite (idle_store _ _ I) in Hms. destruct (Hfeas ms Hms) as [errands F]. exists errands.
    eapply feasible_idle; [exact I|by eapply idle_tidy|by eapply idle_knows|done]. }
  exists w3. split; [exact H3|]. split; [by eapply carriedOut_frame|]. rewrite Hr. apply I.
Qed.

(** Nobody touches the queue during the next [n] of its uses. *)
Lemma gather_alone n rest w : w_others w = replicate n [] ++ rest → eq_wake (qs_queue (w_queue w)) = false →
  gatherBurst (S := S) (T := Clients) n w = (Ok tt, set_others rest w).
Proof.
  revert w. induction n as [|n IH]; intros w Ho Hwake; cbn [replicate app] in Ho; [destruct w; cbn in *; by subst|]. cbn [gatherBurst].
  rewrite (bind_run _ _ w false (set_others (replicate n [] ++ rest) w)); [by rewrite IH|].
  unfold receive. rewrite (bind_run _ _ w tt (set_others (replicate n [] ++ rest) w)).
  - unfold mbind, M_bind, gets. cbn. by rewrite Hwake.
  - unfold meanwhile. by rewrite (bind_run (gets w_others) _ w _ w eq_refl), Ho.
Qed.

End pass.
