(* ===== verification/PassAgain.v ===== *)
(** * The pass after a pass

    Two complete passes bring the targets to the rules from any ledger, when
    nothing is to retire: the bindings that the first pass records lead to the
    same plan ([plan_again] of [PlanFacts]), every errand can be run again
    ([again] of [PassLive]), and the second run has nothing to wait for. *)

From S2P Require Import Prelude GoStrings Sha256 GoTime Json World State StateSpec StateFacts StateLive Model Credential CredentialFacts Webhook Config Paths Events GitLab GitLabSpec GitLabSync GitLabRemove GitLabRun GitLabFacts History GitLabServer GitLabLive Keycloak KeycloakFacts Provider Reconcile ReconcileFacts PlanFacts App WiredFacts PassLive.
Import Wiring.

Section again.
Context {S : Type} `{Env S} (isPrint : Z → bool) (depth fuel : nat).
Notation W := (World S Clients).
Context (r : Reconciler W) (kc : Keycloak.Client) (c : GitLab.Client).
Context (Hwired : wired isPrint depth fuel r kc [gitlabProvider fuel c]).
Context (roster : S → Z → list member) (Hon : honest c roster) (Hdisk : disk_works).
Context (token rtoken : string) (Htoken : steadyToken (c_token c) token) (Hrtoken : steadyToken (c_resolverToken c) rtoken).
Context (directory : list (string * string) → list user) (self : Z) (Hacc : accountOf c token self).
Context (secret : string) (Hsecret : steadyToken (Keycloak.kc_clientSecret kc) secret).
Context (roots : list Keycloak.groupRepresentation) (kids : string → list Keycloak.groupRepresentation) (mems : string → list Keycloak.userRepresentation).
Context (ids : gset string) (Htree : tree kc secret roots kids mems ids fuel) (Hdepth : (size ids < depth)%nat).
Context (Hlogin : ∀ x s, sameMembers roster s (env_http (Keycloak.tokenRequest kc x) s).2).
Implicit Types (w : W) (e : errand) (rule : Rule) (group : Group) (m : GroupMapping).
Notation gl w := (view (Lens := lens_gitlab S (c_name c)) w).
Notation env w := (sys_env (w_sys w)).
Notation at_ := (memberAt roster).
Notation er_gid e := (gg_ID (er_target e)).
Notation er_key := (PassLive.er_key c).
Notation er_leaves w e := (leaves c (er_req e) (er_target e) (er_wanted e) self (w_store w)).
Notation feasible := (PassLive.feasible fuel r c roster token rtoken directory self).
Notation passed := (PassLive.passed fuel r c roster token rtoken directory self).
Notation renewable := (PassLive.renewable fuel c roster).
Notation again := (PassLive.again fuel c roster token self).
Notation ledger w := (st_groups (w_store w)).
Notation own := (c_ownershipKey c).
Notation plan ms groups := (buildJobs (rc_providers r) (rc_rules r) ms true false groups).

(** What makes a pass repeatable: for every snapshot and every order of the
    ledger the plan consists of the same errands, none of which retires a
    mapping; their targets are found under the path that was asked for; rule
    names are unique; the ledger holds mappings of this target under their keys. *)
Record repeatable w (errands : list errand) : Prop := {
  rp_plan groups ms : exact_snapshot roots kids mems groups → ms ≡ₚ values (ledger w) →
    ∃ es, es ≡ₚ errands ∧ feasible true false w groups ms es;
  rp_renewable e : e ∈ errands → renewable w e;
  rp_path e : e ∈ errands → gg_FullPath (er_target e) = sr_TargetPath (er_req e);
  rp_state e : e ∈ errands → sr_StateKey (er_req e) ≠ "";
  rp_rules : NoDup (ru_Name <$> rc_rules r);
  rp_ledger : keyed own (ledger w)
}.

(** ** The ledger after the pass *)

(** The entry of an errand after the pass. *)
Definition entered e m : Prop := named c (er_req e) m ∧ gm_TargetGroupPath m = gg_FullPath (er_target e) ∧
  gm_SourceGroupPath m = g_Path (sr_SourceGroup (er_req e)).

(** The pass did all of [errands]. *)
Record finished w (errands : list errand) w' : Prop := {
  fi_again e : e ∈ errands → again w e w';
  fi_done e : e ∈ errands → fulfilled c roster self w e w';
  fi_others g u : g ∉ ((λ e, er_gid e) <$> errands) → at_ (env w') g u = at_ (env w) g u;
  fi_groups k : k ∉ (er_key <$> errands) → ledger w' !! k = ledger w !! k;
  fi_tidy : tidy (w_store w', w_sys w');
  fi_knows : knows token self (gl w')
}.

Lemma passed_finished groups ms es errands w w' : passed true false groups w ms es w' → es ≡ₚ errands →
  (∀ e, e ∈ errands → renewable w e) → finished w errands w'.
Proof.
  intros [_ _ (v & P & Hc) _ _] Hes Hren. pose proof Hc as (Hst & Hfs & Hs & Hid). cbn in Hst, Hfs, Hs.
  assert (tidy (w_store w', w_sys w')) as Hw' by (refine (calm_live _ _ _ Hc _); apply P).
  assert (knows token self (gl w')) as Hk'.
  { assert (knows token self (gl v)) as Hk by apply P. unfold identity in Hid. injection Hid as H1 H2. unfold knows. cbn in *. by rewrite H1, H2. }
  split; [| | | |done|done].
  - intros e He. eapply again_aside; [exact Hon|split; cbn; intros; [by apply same_at|by rewrite Hst..]|done|done|].
    apply P; [by rewrite Hes|by apply Hren].
  - intros e He. eapply fulfilled_frame; [reflexivity|reflexivity|exact Hst|exact Hs|]. apply P. by rewrite Hes.
  - intros g u Hg. rewrite (same_at roster _ _ _ _ Hs). apply P. by rewrite Hes.
  - intros k Hk. rewrite Hst. apply P. by rewrite Hes.
Qed.

(** Who the errands are: jobs that rules make of groups of the snapshot. *)
Lemma errand_source w errands groups ms es e : repeatable w errands → feasible true false w groups ms es → es ≡ₚ errands → e ∈ errands →
  ∃ rule group relative path0, rule ∈ rc_rules r ∧ group ∈ groups ∧ matched rule group relative ∧ pathOfRule rule relative = Ok path0 ∧
    established rule (sourceStateKey rule group) ms path0 (sr_TargetPath (er_req e)) ∧ isVault rule = false ∧
    er_req e = syncRequestOf rule (sourceStateKey rule group) group (sr_TargetPath (er_req e)).
Proof.
  intros R F Hes He. rewrite <-Hes in He. pose proof (jobs_sources [gitlabProvider fuel c] (rc_rules r) ms true false groups) as [_ Hfrom].
  cbn zeta in Hfrom. rewrite <-(wi_registry _ _ _ _ _ _ Hwired) in Hfrom.
  destruct (Hfrom (jobOf fuel c e)) as [Hr|[_ Hm]].
  { rewrite (fe_jobs _ _ _ _ _ _ _ _ _ _ _ _ _ _ F). by apply list_elem_of_fmap_2. }
  - destruct Hr as (rule & group & relative & path0 & path & Hr & Hg & Hmt & Hp & Hest & _ & _ & _ & Hv & Hreq).
    cbn in Hreq. assert (sr_TargetPath (er_req e) = path) as <- by (by rewrite Hreq).
    exists rule, group, relative, path0. split_and!; try done. unfold isVault. by rewrite Hv.
  - destruct Hm as (rule & m & p & sync & _ & _ & _ & _ & _ & _ & _ & _ & Hj). injection Hj as _ _ _ Ht.
    rewrite Hes in He. destruct (rp_renewable _ _ R e He) as [Hn _]. congruence.
Qed.

Lemma stateKey_errand w errands e : repeatable w errands → e ∈ errands → stateKeyOf (er_req e) = sr_StateKey (er_req e).
Proof. intros R He. unfold stateKeyOf. by rewrite (proj2 (String.eqb_neq _ _) (rp_state _ _ R e He)). Qed.

Lemma finished_entry w errands w' e : finished w errands w' → e ∈ errands →
  ∃ m, ledger w' !! er_key e = Some m ∧ entered e m.
Proof.
  intros Fi He. destruct (fi_again _ _ _ Fi e He) as [Hf _ _ (m & Hm & Hp)]. exists m. split; [exact Hm|].
  destruct (bi_prev _ _ _ _ (ft_bindable _ _ _ _ _ _ _ _ _ Hf) m Hm) as (Hn & _ & Ht). done.
Qed.

(** An entry of the ledger is an errand's or was there before. *)
Lemma finished_ledger w errands w' k m : finished w errands w' → ledger w' !! k = Some m →
  (∃ e, e ∈ errands ∧ k = er_key e ∧ entered e m) ∨ (k ∉ (er_key <$> errands) ∧ ledger w !! k = Some m).
Proof.
  intros Fi Hm. destruct (decide (k ∈ (er_key <$> errands))) as [(e & -> & He)%list_elem_of_fmap|Hk].
  - left. exists e. split; [done|]. split; [done|]. destruct (finished_entry _ _ _ e Fi He) as (x & Hx & Hent). congruence.
  - right. split; [done|]. by rewrite <-(fi_groups _ _ _ Fi k Hk).
Qed.

Lemma finished_keyed w errands w' : repeatable w errands → finished w errands w' → keyed own (ledger w').
Proof.
  intros R Fi k m Hm. destruct (finished_ledger _ _ _ _ _ Fi Hm) as [(e & He & -> & Hn & _)|[_ Hk]]; [|by apply R].
  split; [by apply named_key|by apply Hn].
Qed.

(** ** The plan of the next pass *)

Lemma named_once {A} (f : A → string) (l : list A) x y : NoDup (f <$> l) → x ∈ l → y ∈ l → f x = f y → x = y.
Proof.
  induction l as [|z l IH]; [by intros _ ?%elem_of_nil|]. cbn [fmap list_fmap]. intros [Hz Hl]%NoDup_cons Hx Hy Heq.
  apply elem_of_cons in Hx as [->|Hx], Hy as [->|Hy]; [done| | |by apply IH];
    destruct Hz; [rewrite Heq|rewrite <-Heq]; by apply list_elem_of_fmap_2.
Qed.

(** A rule makes one path of a source, whatever the group is called by. *)
Lemma one_path rule group group' relative relative' path0 path0' groups : NoDup (g_ID <$> groups) → group ∈ groups → group' ∈ groups →
  isVault rule = false → sourceStateKey rule group = sourceStateKey rule group' → matched rule group relative → matched rule group' relative' →
  pathOfRule rule relative = Ok path0 → pathOfRule rule relative' = Ok path0' → path0 = path0'.
Proof.
  intros Hnd Hg Hg' Hv Hkey [Hm _] [Hm' _] Hp Hp'. assert (g_Path group = g_Path group') as Heq.
  { unfold sourceStateKey in Hkey. rewrite Hv in Hkey. cbn [orb] in Hkey. case_bool_decide; [done|].
    by rewrite (named_once g_ID groups group group'). }
  rewrite Heq in Hm. congruence.
Qed.

Lemma same_paths w errands w' groups ms es rule group relative path0 : repeatable w errands → finished w errands w' →
  NoDup (g_ID <$> groups) → ms ≡ₚ values (ledger w) → feasible true false w groups ms es → es ≡ₚ errands →
  rule ∈ rc_rules r → group ∈ groups → matched rule group relative → pathOfRule rule relative = Ok path0 →
  let key := sourceStateKey rule group in let k := groupKey own (ru_Name rule) key in
  pathUnder rule key path0 (ledger w' !! k) = pathUnder rule key path0 (ledger w !! k).
Proof.
  intros R Fi Hnd Hms F Hes Hr Hg Hmt Hp. cbn zeta. set (k := groupKey _ _ _).
  destruct (decide (k ∈ (er_key <$> errands))) as [(e & Hke & He)%list_elem_of_fmap|Hk]; [|by rewrite (fi_groups _ _ _ Fi k Hk)].
  destruct (finished_entry _ _ _ e Fi He) as (m & Hm & (Hn1 & Hn2 & Hn3) & Ht & _). rewrite <-Hke in Hm. rewrite Hm. cbn [pathUnder].
  pose proof (fe_workable _ _ _ _ _ _ _ _ _ _ _ _ _ _ F e) as Hwk. rewrite Hes in Hwk. specialize (Hwk He).
  destruct (ledger w !! k) as [m0|] eqn:Hm0; cbn [pathUnder].
  - pose proof (ft_bindable _ _ _ _ _ _ _ _ _ (wk_fits _ _ _ _ _ _ _ _ _ Hwk)) as Hb. change (gl_store (gl w)) with (w_store w) in Hb.
    rewrite Hke in Hm0. destruct (bi_prev _ _ _ _ Hb m0 Hm0) as ((Hm1 & Hm2 & Hm3) & _ & Ht0).
    rewrite Ht, Ht0. apply decide_ext. unfold concerned. by rewrite Hn1, Hn2, Hn3, Hm1, Hm2, Hm3.
  - destruct (decide _) as [(Hv & Hrn & _ & Hsk)|]; [|done].
    destruct (errand_source _ _ _ _ _ e R F Hes He) as (rule' & group' & relative' & path0' & Hr' & Hg' & Hmt' & Hp' & Hest & Hv' & Hreq).
    assert (rule' = rule) as ->.
    { apply (named_once ru_Name (rc_rules r)); [apply R|done|done|]. rewrite <-Hrn, Hn2. by rewrite Hreq. }
    rewrite (stateKey_errand _ _ _ R He) in Hn3.
    assert (sourceStateKey rule group' = sourceStateKey rule group) as Hkey by (by rewrite <-Hsk, Hn3, Hreq).
    rewrite Ht, (rp_path _ _ R e He). destruct Hest as [->|(m0 & Hin & Hc)].
    + exact (one_path rule group' group relative' relative path0' path0 groups Hnd Hg' Hg Hv Hkey Hmt' Hmt Hp' Hp).
    + exfalso. apply (elem_of_values _ _ _ Hms) in Hin as [k0 Hk0]. destruct (rp_ledger _ _ R _ _ Hk0) as [<- Ho].
      destruct Hc as (_ & Hc1 & Hc2 & _ & _). unfold mappingKey in Hk0. rewrite Ho, Hc1, Hc2, Hkey in Hk0. change (ledger w !! k = Some m0) in Hk0. congruence.
Qed.

Lemma same_plan w errands w' groups ms ms' es : repeatable w errands → finished w errands w' →
  NoDup (g_ID <$> groups) → ms ≡ₚ values (ledger w) → ms' ≡ₚ values (ledger w') → feasible true false w groups ms es → es ≡ₚ errands →
  plan ms' groups = plan ms groups.
Proof.
  intros R Fi Hnd Hms Hms' F Hes. pose proof (fe_errs _ _ _ _ _ _ _ _ _ _ _ _ _ _ F) as Herr. pose proof (fe_jobs _ _ _ _ _ _ _ _ _ _ _ _ _ _ F) as Hjobs.
  rewrite (wi_registry _ _ _ _ _ _ Hwired) in *. apply plan_again; [done| | |].
  - intros j Hj. rewrite Hjobs in Hj. apply list_elem_of_fmap in Hj as (e & -> & He). rewrite Hes in He.
    destruct (rp_renewable _ _ R e He) as [Hn _]. unfold jobOf, retires. rewrite Hn. by intros [].
  - intros rule group relative path0 Hr Hg Hmt Hp.
    rewrite (path_by_key own (ledger w')), (path_by_key own (ledger w)); [|apply R|done|by eapply finished_keyed|done].
    f_equal. by eapply same_paths.
  - intros m [k Hm]%(elem_of_values _ _ _ Hms').
    destruct (finished_ledger _ _ _ _ _ Fi Hm) as [(e & He & -> & (_ & Hn2 & Hn3) & _)|[_ Hk]].
    + right. destruct (errand_source _ _ _ _ _ e R F Hes He) as (rule & group & relative & path0 & Hr & Hg & Hmt & _ & _ & _ & Hreq).
      rewrite Hn2, Hn3, (stateKey_errand _ _ _ R He), Hreq. by eapply planned_present.
    + left. apply (elem_of_values _ _ _ Hms). by exists k.
Qed.

(** No binding that the pass recorded moves to another key. *)
Lemma same_places w errands w' groups ms ms' es : repeatable w errands → finished w errands w' →
  ms ≡ₚ values (ledger w) → ms' ≡ₚ values (ledger w') → feasible true false w groups ms es → es ≡ₚ errands →
  inPlace r groups ms'.
Proof.
  intros R Fi Hms Hms' F Hes rule group m Hr Hg Hm Hv Hsome Hal. apply (elem_of_values _ _ _ Hms') in Hm as [k Hm].
  destruct (finished_ledger _ _ _ _ _ Fi Hm) as [(e & He & -> & (_ & Hn2 & Hn3) & _ & Hsp)|[_ Hk]].
  - destruct (errand_source _ _ _ _ _ e R F Hes He) as (rule' & group' & relative' & path0' & Hr' & _ & _ & _ & _ & _ & Hreq).
    rewrite (stateKey_errand _ _ _ R He) in Hn3. unfold movesMapping. destruct (String.eqb_spec (gm_Rule m) (ru_Name rule)) as [Hrn|]; [|done].
    assert (rule' = rule) as ->.
    { apply (named_once ru_Name (rc_rules r)); [apply R|done|done|]. rewrite <-Hrn, Hn2. by rewrite Hreq. }
    rewrite Hreq in Hn3, Hsp. cbn in Hn3, Hsp. unfold sourceStateKey in Hn3. rewrite (bool_decide_eq_true_2 _ Hsome), orb_true_r in Hn3.
    rewrite Hn3, Hsp. destruct (String.eqb _ (g_Path group)); [by rewrite andb_false_r|by rewrite andb_false_r].
  - apply (fe_inPlace _ _ _ _ _ _ _ _ _ _ _ _ _ _ F); try done. apply (elem_of_values _ _ _ Hms). by exists k.
Qed.

Lemma feasible_again w errands w' groups ms' : repeatable w errands → finished w errands w' →
  exact_snapshot roots kids mems groups → ms' ≡ₚ values (ledger w') →
  ∃ es, es ≡ₚ errands ∧ feasible true false w' groups ms' es.
Proof.
  intros R Fi Hex Hms'. destruct (rp_plan _ _ R groups (values (ledger w)) Hex) as (es & Hes & F); [done|].
  assert (NoDup (g_ID <$> groups)) as Hnd by apply Hex. exists es. split; [done|].
  pose proof (same_plan w errands w' groups _ ms' es R Fi Hnd (Permutation_refl _) Hms' F Hes) as Hplan.
  pose proof (same_places w errands w' groups _ ms' es R Fi (Permutation_refl _) Hms' F Hes) as Hin.
  destruct F as [F1 F2 F3 F4 F5 _]. split; rewrite ?Hplan; try done. intros e He.
  destruct (F3 e He) as [W1 W2 W3 W4 _ W6]. split; try done. rewrite Hes in He. by apply Fi.
Qed.

(** ** Two passes *)

(** [C5] Two complete passes are enough, whatever the members are and whatever
    was observed before.  The passes of the process can be repeated from [w]:
    whatever snapshot of the source is read, the plan comes to the same
    requests on distinct groups, each of which can be carried out (GitLab
    answers it, it finds everybody, no custom role or removal limit is in its
    way, there is room for the members that it adds), nothing is to retire or to
    move, rule names are unique, and the ledger holds mappings of this target,
    each under its key, and counts.  Then two passes in a row both end with success;
    after them the server is ready unless its readiness had been decided
    before; and together they have taken the members of every target exactly to
    what its rule asks for: the users that the source members stand for are in
    at the level of the rule, every member that is to leave is out, everybody
    else is as before, and no other group has changed.  A wanted user who is
    protected or the user of the token and stands above a level that the rule
    enforces is left open: the documentation forbids to lower them. *)
Theorem two_passes_converge w errands : tidy (w_store w, w_sys w) → knows token self (gl w) → serving (w_secret w) →
  repeatable w errands →
  ∃ w' w2, RunOnce r w = (Ok tt, w') ∧ RunOnce r w' = (Ok tt, w2) ∧
    readiness w2 = (w_ready w || negb (w_readyDone w), true) ∧
    (∀ e u, e ∈ errands → spared (er_req e) self u (at_ (env w) (er_gid e) u) →
       settled (er_req e) (.∈ er_wanted e) (er_leaves w e) u
       (at_ (env w) (er_gid e) u) (at_ (env w2) (er_gid e) u)) ∧
    ∀ g u, g ∉ ((λ e, er_gid e) <$> errands) → at_ (env w2) g u = at_ (env w) g u.
Proof.
  intros Hw Hk Hsv R. pose proof (run_pass isPrint depth fuel r kc c Hwired roster Hon Hdisk token rtoken Htoken Hrtoken directory self
    Hacc secret Hsecret roots kids mems ids Htree Hdepth Hlogin (λ es, es ≡ₚ errands)) as Hpass.
  destruct (Hpass w Hw Hk Hsv) as (groups & ms & es & w' & Hrun & _ & Hes & Hp); [intros groups ms; apply R|].
  pose proof (passed_finished _ _ _ _ _ _ Hp Hes (rp_renewable _ _ R)) as Fi.
  destruct (Hpass w') as (groups2 & ms2 & es2 & w2 & Hrun2 & _ & Hes2 & Hp2); [apply Fi|apply Fi|by apply Hp|by intros; eapply feasible_again|].
  destruct Hp2 as [_ _ (v & P & (Hst & _ & Hs & _)) Hr _]. cbn in Hst, Hs.
  exists w', w2. split; [done|]. split; [done|]. split.
  { pose proof (ps_ready _ _ _ _ _ _ _ _ _ _ _ _ _ _ _ Hp) as Hr'. unfold readiness in *. injection Hr' as Hr1 Hr2. rewrite Hr, Hr1, Hr2. cbn.
    by rewrite orb_false_r. }
  split.
  - intros e u He _. destruct (fi_again _ _ _ Fi e He) as [_ Hdue Hleaves _].
    assert (fulfilled c roster self w' e w2) as [Hset2 _].
    { eapply fulfilled_frame; [reflexivity|reflexivity|exact Hst|exact Hs|]. apply P. by rewrite Hes2. }
    assert (∀ s (x : member) (v : Store), at_ s (er_gid e) u = Some x → leaves c (er_req e) (er_target e) (er_wanted e) self v x → u ∉ er_wanted e) as Hun.
    { intros s x v' Hm. apply (at_roster _ _ Hon) in Hm as [_ <-]. apply leaves_unwanted. }
    eapply settled_then; [by apply Fi|by apply Hset2|by intros; eapply Hun|by intros; eapply Hun|].
    intros m Hm Hu. apply (at_roster _ _ Hon) in Hm as [Hm <-]. split; [by apply Hleaves|by apply Hdue].
  - intros g u Hg. rewrite (same_at roster _ _ _ _ Hs), <-(fi_others _ _ _ Fi g u Hg). apply P. by rewrite Hes2.
Qed.
End again.
