(* ===== verification/PassTown.v ===== *)
(** * Passes and an event on concrete servers

    [pass_delivers], [event_delivers] and [two_passes_converge] applied to the
    GitLab of [GitLabTown] and a Keycloak with one group behind one network. *)

From S2P Require Import Prelude GoStrings Sha256 GoTime Json World State StateSpec StateFacts StateLive Model Credential CredentialFacts Webhook Config Paths Events QueueFacts GitLab GitLabSpec GitLabSync GitLabRemove GitLabRun GitLabFacts History GitLabServer GitLabLive GitLabTown Keycloak KeycloakFacts Provider Reconcile ReconcileFacts PlanFacts App WiredFacts PassLive PassAgain.
Import Wiring.

Definition ssoTable (url : string) : list json :=
  if String.eqb url "https://sso.example/admin/realms/corp/groups" then
    [JObj [("id", JStr "g1"); ("name", JStr "team"); ("path", JStr "/team")]]
  else if String.eqb url "https://sso.example/admin/realms/corp/groups/g1/members" then
    [JObj [("id", JStr "a1"); ("username", JStr "alice"); ("enabled", JBool true)]]
  else [].

Definition passServer (r : HttpReq) (ms : gmap Z Z) : outcome err HttpResp * gmap Z Z :=
  if hasPrefix (rq_url r) "https://sso.example/" then (tableServer ssoTable r, ms) else townServer r ms.

Definition passEnv : Env (gmap Z Z) :=
  scriptEnv passServer (λ _, None) (λ _, Err (EMsg "no file")) (λ s, (zeroTime, s)) (λ _ s, (false, s)).

Lemma pass_answers token x ms :
  env_http (Env := passEnv) (requestOf demoClient token x) ms = env_http (Env := townEnv) (requestOf demoClient token x) ms.
Proof. reflexivity. Qed.

Lemma pass_honest : honest (H := passEnv) demoClient townRoster.
Proof.
  destruct town_honest as [_ Hu Hg Ht Hn Hr Hm Hp]. split; try done.
  intros r ms Hget g. cbn [env_http passEnv scriptEnv]. unfold passServer. destruct (hasPrefix _ _); [done|]. by apply Hg.
Qed.

Lemma pass_account : accountOf (H := passEnv) demoClient "glpat-1" 1.
Proof. destruct town_account as [H1 H2]. split; [exact H1|exact H2]. Qed.

Lemma pass_responsive key email :
  responsive (H := passEnv) demoClient townRoster "glpat-1" "glpat-2" (townSync key email) townTeam (λ _, [townAlice]) [42].
Proof. destruct (town_responsive key email) as [H1 H2 H3 H4 H5 H6 H7]. split; [exact H1|exact H2|exact H3|exact H4|exact H5|exact H6|exact H7]. Qed.

(** ** The source *)
Definition passMems (id : string) : list Keycloak.userRepresentation := [Keycloak.MkUserRep "a1" "alice" "" true].
Definition noKids (id : string) : list Keycloak.groupRepresentation := [].

Lemma pass_reach rep : reach [rep1] noKids rep → rep = rep1.
Proof. induction 1 as [rep Hr|rep k _ _ Hk]; [by apply list_elem_of_singleton in Hr|by apply elem_of_nil in Hk]. Qed.

Lemma pass_tree : tree (H := passEnv) kcClient "s3cret" [rep1] noKids passMems {["g1"]} 3.
Proof.
  split.
  - intros s. eexists _, _, s, _. split; [reflexivity|]. split; [reflexivity|done].
  - apply (table_serves (H := passEnv) ssoTable); [done|by vm_compute|done|simpl; lia].
  - intros rep ->%pass_reach. apply (table_serves (H := passEnv) ssoTable); [done|by vm_compute|done|simpl; lia].
  - intros rep ->%pass_reach. apply (table_serves (H := passEnv) ssoTable); [done|by vm_compute|done|simpl; lia].
  - intros rep ->%pass_reach. split; [set_solver|done].
  - split; [apply NoDup_singleton|simpl; lia].
  - intros rep ->%pass_reach. split_and!; try apply NoDup_singleton; try apply NoDup_nil_2; simpl; lia.
Qed.

Definition passGroup : Group := MkGroup "g1" "team" "/team" [MkUser "a1" "alice" ""].

Lemma pass_snapshot groups : exact_snapshot [rep1] noKids passMems groups → groups = [passGroup].
Proof.
  intros (Hnd & Hall & Hex). assert (∀ g, g ∈ groups → g = passGroup) as Hg.
  { intros g (rep & ->%pass_reach & Hi & Hn & Hp & Hm)%Hex. destruct g as [i n p ms]. cbn in *.
    rewrite Hp by done. by subst. }
  assert ("g1" ∈ g_ID <$> groups) as (g & _ & Hin)%list_elem_of_fmap by (apply (Hall rep1), reach_root; by left).
  destruct groups as [|g1 [|g2 groups]]; [by apply elem_of_nil in Hin|by rewrite (Hg g1) by by left|].
  rewrite (Hg g1), (Hg g2) in Hnd by set_solver. cbn in Hnd. apply NoDup_cons in Hnd as [Hnd _]. destruct Hnd. by left.
Qed.

(** ** The process *)
Definition passRule : Rule :=
  MkRule "rule" "/" None "gitlab" "corp" false false "developer" "managed-only" [] 5 ["oidc"] false None.

Definition passReconciler : Reconciler (World (gmap Z Z) Clients) :=
  MkReconciler (keycloakSource (H := passEnv) 2 3 kcClient) (NewRegistry [gitlabProvider (H := passEnv) 3 demoClient]) [passRule] true.

Lemma pass_wired : wired (H := passEnv) (λ _, false) 2 3 passReconciler kcClient [gitlabProvider (H := passEnv) 3 demoClient].
Proof. split; [done|done|]. intros p ->%list_elem_of_singleton. left. by eexists. Qed.

(** User 43 is managed and was found absent once, user 44 is an owner. *)
Definition passWorld : World (gmap Z Z) Clients :=
  MkWorld (gl_sys townGL) demoLedger (newRouteIndex "corp") vanishingStable (MkQ newEventQueue (MkTimers 0 ∅ 0) noMetrics)
    zeroTime zeroTime false false [] (MkClients "" zeroTime (λ _, MkCaches 0 "" "" zeroTime)).

Definition passErrand : errand := MkErrand (townSync "g1" "") None townTeam [42] (λ _, townAlice).

Lemma pass_workable : workable (H := passEnv) 3 demoClient townRoster "glpat-1" "glpat-2" (λ _, [townAlice]) 1 passWorld passErrand.
Proof.
  split; [apply pass_responsive|apply (town_found_alice "g1" "")|apply (town_wanted "g1" "")|done| |done].
  exact (town_fits "g1" "" demoLedger (or_introl eq_refl)).
Qed.

Lemma pass_plan : buildJobs (rc_providers passReconciler) (rc_rules passReconciler) [] true false [passGroup] =
  MkBuilding [jobOf (H := passEnv) 3 demoClient passErrand]
    {[ownerKey "gitlab" "corp/team" := "rule//team"]} {[presentKey "rule" "g1"]} [].
Proof. reflexivity. Qed.

(** A plan with one job and no ledger entry of a group asks for that job alone. *)
Lemma alone_feasible complete mo w groups e held present :
  buildJobs (rc_providers passReconciler) (rc_rules passReconciler) [] complete mo groups =
    MkBuilding [jobOf (H := passEnv) 3 demoClient e] held present [] →
  workable (H := passEnv) 3 demoClient townRoster "glpat-1" "glpat-2" (λ _, [townAlice]) 1 w e →
  feasible (H := passEnv) 3 passReconciler demoClient townRoster "glpat-1" "glpat-2" (λ _, [townAlice]) 1 complete mo w groups [] [e].
Proof.
  intros Hplan Hwork. split; rewrite ?Hplan; [done|done| | | |].
  - by intros e' ->%list_elem_of_singleton.
  - apply NoDup_singleton.
  - apply NoDup_singleton.
  - intros rule g m _ _ Hm. by apply elem_of_nil in Hm.
Qed.

Lemma pass_feasible groups ms : exact_snapshot [rep1] noKids passMems groups → ms ≡ₚ values (st_groups (w_store passWorld)) →
  ∃ errands, feasible (H := passEnv) 3 passReconciler demoClient townRoster "glpat-1" "glpat-2" (λ _, [townAlice]) 1 true false passWorld groups ms errands.
Proof.
  intros ->%pass_snapshot Hms. assert (ms = []) as -> by (by apply Permutation_nil_r in Hms). exists [passErrand].
  eapply alone_feasible; [apply pass_plan|apply pass_workable].
Qed.


(** Run as it is: Alice is in, user 43 is out, the owner stays. *)
Lemma pass_outcome : townRoster (sys_env (w_sys (RunOnce (H := passEnv) passReconciler passWorld).2)) 7 = [townRecord 42 30; townRecord 44 50].
Proof. vm_compute. reflexivity. Qed.

(** ** An event *)

(** Keycloak shows the group and its member. *)
Lemma town_shown : shown (H := passEnv) kcClient "s3cret" rep1 (passMems "g1") 3.
Proof.
  split.
  - intros s. eexists _, _, s, _. split; [reflexivity|]. split; [reflexivity|done].
  - intros tok s. eexists _, _, s. split; reflexivity.
  - done.
  - apply (table_serves (H := passEnv) ssoTable); [done|by vm_compute|done|simpl; lia].
  - split; [apply NoDup_singleton|simpl; lia].
Qed.

(** The index of the last pass knows the group by its key. *)
Definition hintKey : string := "route-of-g1".
Definition routingSecret : string := "0123456789abcdef0123456789abcdef".

(** Alice's membership has changed. *)
Definition teamHint : Hint := MkHint "GROUP_MEMBERSHIP" "CREATE" hintKey "" false.

(** The webhook delivers the hint while the loop waits, and once more later. *)
Definition hintWorld : World (gmap Z Z) Clients :=
  MkWorld (gl_sys townGL) demoLedger (MkRouteIndex "corp" routingSecret {[hintKey := "g1"]} {["g1" := hintKey]} ∅ ∅)
    (MkStable (MkLoader "" "" (Some routingSecret)) 32 routingSecret) (MkQ newEventQueue (MkTimers 0 ∅ 0) noMetrics)
    zeroTime zeroTime true true [[QHint teamHint]; []; []; [QHint teamHint]]
    (MkClients "" zeroTime (λ _, MkCaches 0 "" "" zeroTime)).

Lemma hint_settled : settledSecret (H := passEnv) (w_secret hintWorld) (w_routes hintWorld).
Proof.
  split; [|exact (steady_static (H := passEnv) (MkLoader "" "" (Some routingSecret)) routingSecret _ eq_refl eq_refl)|vm_compute; discriminate].
  split; [split; [done|right; split; [done|by apply checkCredential_ok with (raw := routingSecret)]]|done|done].
Qed.

Lemma hint_workable : workable (H := passEnv) 3 demoClient townRoster "glpat-1" "glpat-2" (λ _, [townAlice]) 1 hintWorld passErrand.
Proof.
  split; [apply pass_responsive|apply (town_found_alice "g1" "")|apply (town_wanted "g1" "")|done| |done].
  exact (town_fits "g1" "" demoLedger (or_introl eq_refl)).
Qed.

(** A hint for memberships alone plans the same job as a complete pass. *)
Lemma hint_plan : buildJobs (rc_providers passReconciler) (rc_rules passReconciler) [] false true [passGroup] =
  MkBuilding [jobOf (H := passEnv) 3 demoClient passErrand]
    {[ownerKey "gitlab" "corp/team" := "rule//team"]} {[presentKey "rule" "g1"]} [].
Proof. reflexivity. Qed.

Definition afterHint : outcome err bool * World (gmap Z Z) Clients :=
  loopStep (H := passEnv) passReconciler (LWake 1) hintWorld.


(** Run as it is: the event does for the group what a complete pass does. *)
Lemma event_outcome : townRoster (sys_env (w_sys afterHint.2)) 7 = [townRecord 42 30; townRecord 44 50].
Proof. vm_compute. reflexivity. Qed.

(** ** Two passes *)

(** Nobody has seen user 43 missing from the source so far. *)
Definition freshWorld : World (gmap Z Z) Clients :=
  MkWorld (gl_sys townGL) freshLedger (newRouteIndex "corp") vanishingStable (MkQ newEventQueue (MkTimers 0 ∅ 0) noMetrics)
    zeroTime zeroTime false false [] (MkClients "" zeroTime (λ _, MkCaches 0 "" "" zeroTime)).

Lemma fresh_workable : workable (H := passEnv) 3 demoClient townRoster "glpat-1" "glpat-2" (λ _, [townAlice]) 1 freshWorld passErrand.
Proof.
  split; [apply pass_responsive|apply (town_found_alice "g1" "")|apply (town_wanted "g1" "")|done| |done].
  exact (town_fits "g1" "" freshLedger (or_intror eq_refl)).
Qed.

Lemma fresh_repeatable : repeatable (H := passEnv) 3 passReconciler demoClient townRoster "glpat-1" "glpat-2" (λ _, [townAlice]) 1
  [rep1] noKids passMems freshWorld [passErrand].
Proof.
  split.
  - intros groups ms ->%pass_snapshot Hms. assert (ms = []) as -> by (by apply Permutation_nil_r in Hms). exists [passErrand].
    split; [done|]. eapply alone_feasible; [apply pass_plan|apply fresh_workable].
  - intros e ->%list_elem_of_singleton. split; [done|]. split; [vm_compute; discriminate|]. intros u a Ha. cbn in Ha. by rewrite lookup_empty in Ha.
  - by intros e ->%list_elem_of_singleton.
  - by intros e ->%list_elem_of_singleton.
  - apply NoDup_singleton.
  - intros k m Hm. cbn in Hm. by rewrite lookup_empty in Hm.
Qed.

Lemma two_passes_converge_witness : ∃ w' w2,
  RunOnce (H := passEnv) passReconciler freshWorld = (Ok tt, w') ∧ RunOnce (H := passEnv) passReconciler w' = (Ok tt, w2) ∧
  ∀ u, settled (townSync "g1" "") (.∈ [42]) (leaves demoClient (townSync "g1" "") townTeam [42] 1 freshLedger) u
    (memberAt townRoster (sys_env (w_sys freshWorld)) 7 u) (memberAt townRoster (sys_env (w_sys w2)) 7 u).
Proof.
  destruct (two_passes_converge (H := passEnv) (λ _, false) 2 3 passReconciler kcClient demoClient pass_wired townRoster pass_honest (λ _ _, eq_refl)
    "glpat-1" "glpat-2" (steady_static (c_token demoClient) "glpat-1" _ eq_refl eq_refl)
    (steady_static (c_resolverToken demoClient) "glpat-2" _ eq_refl eq_refl) (λ _, [townAlice]) 1 pass_account
    "s3cret" (steady_static (Keycloak.kc_clientSecret kcClient) "s3cret" _ eq_refl eq_refl) [rep1] noKids passMems {["g1"]} pass_tree)
    with (w := freshWorld) (errands := [passErrand]) as (w' & w2 & Hrun & Hrun2 & _ & Hset & _).
  - vm_compute. lia.
  - done.
  - split; [exact demo_path_ok|]. intros n. apply lookup_empty.
  - intros _. by left.
  - split; [split; [done|right; split; [done|by apply checkCredential_ok with (raw := "0123456789abcdef0123456789abcdef")]]|done|done].
  - exact fresh_repeatable.
  - exists w', w2. split; [exact Hrun|]. split; [exact Hrun2|]. intros u. apply (Hset passErrand); [by left|exact (town_spared u)].
Defined.

(** Run as they are: after the first pass user 43 is still in, after the second out. *)
Definition membersAfter (w : World (gmap Z Z) Clients) : list (Z * Z) :=
  (λ x, (m_ID x, m_AccessLevel x)) <$> townRoster (sys_env (w_sys w)) 7.

Lemma two_passes_outcome :
  let w' := (RunOnce (H := passEnv) passReconciler freshWorld).2 in
  membersAfter w' = [(42, 30); (43, 30); (44, 50)] ∧
  membersAfter (RunOnce (H := passEnv) passReconciler w').2 = [(42, 30); (44, 50)].
Proof. split; vm_compute; reflexivity. Qed.
