(* ===== verification/Process.v ===== *)
(** * The command line, the start of the process and its TLS listener
    ([cmd/groupbridge/main.go] and [cmd/groupbridge/server.go])

    [CommandLine] is what [run] reads before it knows its configuration: the
    environment and the flags as Go's [flag] package parses them.  [Launch] is
    [run] up to the start of the workers.  [Serving] is the HTTP server's
    settings and [listenAndServe]. *)

From S2P Require Import Prelude GoStrings GoTime Json World State StateSpec StateFacts StateLive Model Credential CredentialFacts Config ConfigFacts Events Provider Reconcile App Traffic ClientTraffic WiredFacts.

(** ** The flags *)
Module CommandLine.
Record flags : Type := MkFlags { fl_config : string; fl_version : bool }.

(** [flag.ExitOnError]: the process exits with 0 after help, else with 2. *)
Inductive flagError : Type := FlagHelp | FlagBad.
Definition exitCode (e : flagError) : Z := match e with FlagHelp => 0 | FlagBad => 2 end.

(** [strconv.ParseBool]. *)
Definition ParseBool (s : string) : option bool :=
  if bool_decide (s ∈ ["1"; "t"; "T"; "TRUE"; "true"; "True"]) then Some true
  else if bool_decide (s ∈ ["0"; "f"; "F"; "FALSE"; "false"; "False"]) then Some false
  else None.

(** The name before the first ["="] and the value behind it, if there is one. *)
Fixpoint cutEquals (s : string) : string * option string :=
  match s with
  | "" => ("", None)
  | String a s =>
      if Ascii.eqb a "="%char then ("", Some s)
      else let '(name, value) := cutEquals s in (String a name, value)
  end.

(** One dash or two; [None]: the argument is no flag. *)
Definition flagText (arg : string) : option string :=
  match arg with
  | String a (String b rest) =>
      if negb (Ascii.eqb a "-"%char) then None
      else if Ascii.eqb b "-"%char then Some rest else Some (String b rest)
  | _ => None
  end.

Definition badName (s : string) : bool :=
  match s with
  | "" => true
  | String a _ => Ascii.eqb a "-"%char || Ascii.eqb a "="%char
  end.

(** [flag.Parse] for the two flags of [run]. *)
Fixpoint parseFlags (args : list string) (f : flags) : flagError + flags :=
  match args with
  | [] => inr f
  | arg :: rest =>
      match flagText arg with
      | None => inr f
      | Some text =>
          if String.eqb arg "--" then inr f
          else if badName text then inl FlagBad
          else
            let '(name, value) := cutEquals text in
            if String.eqb name "version" then
              match value with
              | None => parseFlags rest (MkFlags (fl_config f) true)
              | Some v => match ParseBool v with
                          | Some b => parseFlags rest (MkFlags (fl_config f) b)
                          | None => inl FlagBad
                          end
              end
            else if String.eqb name "config" then
              match value, rest with
              | Some v, _ => parseFlags rest (MkFlags v (fl_version f))
              | None, v :: rest => parseFlags rest (MkFlags v (fl_version f))
              | None, [] => inl FlagBad
              end
            else if String.eqb name "help" || String.eqb name "h" then inl FlagHelp
            else inl FlagBad
      end
  end.

Definition defaultConfigPath : string := "/etc/groupbridge/config.yaml".

(** [os.Getenv]: empty when unset. *)
Definition Getenv {S} `{Env S} (name : string) : M (Sys S) err string :=
  v ← lookupEnv name;
  mret (default "" v).

Definition defaultConfig {S} `{Env S} : M (Sys S) err string :=
  v ← Getenv "GROUPBRIDGE_CONFIG";
  mret (if String.eqb v "" then defaultConfigPath else v).

Example flags_split : parseFlags ["-config"; "a.yaml"; "--version=false"; "rest"; "-x"] (MkFlags "d" true) = inr (MkFlags "a.yaml" false).
Proof. reflexivity. Qed.
Example flags_joined : parseFlags ["--config=x=y"; "--"; "-version"] (MkFlags "d" false) = inr (MkFlags "x=y" false).
Proof. reflexivity. Qed.
Example flags_bad : parseFlags ["-version=maybe"] (MkFlags "d" false) = inl FlagBad ∧ parseFlags ["-config"] (MkFlags "d" false) = inl FlagBad
  ∧ parseFlags ["-verbose"] (MkFlags "d" false) = inl FlagBad ∧ parseFlags ["-h"] (MkFlags "d" false) = inl FlagHelp.
Proof. split_and!; reflexivity. Qed.
Example flags_plain : parseFlags ["run"; "-version"] (MkFlags "d" false) = inr (MkFlags "d" false).
Proof. reflexivity. Qed.
End CommandLine.

(** ** [run] up to the workers *)
Module Launch.
Import CommandLine Wiring.

Section launch.
Context {S : Type} `{Env S} (isPrint : Z → bool) (depth fuel : nat).
Context (parseURL : string → option URL) (yaml : Config → string → outcome err Config).
Context (version commit : string).
Notation W := (Reconcile.World S Clients).

(** The process exits in [flag.Parse]; or it prints its version; or it has a
    configuration, a reconciler and the reconciler's world. *)
Inductive launched : Type :=
| Exits (code : Z)
| Prints (text : string)
| Starts (cfg : Config) (r : Reconciler W) (mk : Sys S → W).

Definition versionText : string := "groupbridge " +:+ version +:+ " (" +:+ commit +:+ ")" +:+ newline.

Definition launch (args : list string) : M (Sys S) err launched :=
  path ← defaultConfig;
  match parseFlags args (MkFlags path false) with
  | inl e => mret (Exits (exitCode e))
  | inr f =>
      if fl_version f then mret (Prints versionText)
      else
        cfg ← LoadConfig parseURL yaml (fl_config f);
        '(r, mk) ← startup isPrint depth fuel cfg;
        mret (Starts cfg r mk)
  end.

(** *** A start that works *)

(** The credentials that the start has to load. *)
Definition targetReferences (t : Target) : list (string * string) :=
  if String.eqb (ta_Type t) "gitlab" then
    (ta_TokenEnv t, ta_TokenFile t) ::
    (if String.eqb (ta_ResolverTokenEnv t) "" && String.eqb (ta_ResolverTokenFile t) "" then []
     else [(ta_ResolverTokenEnv t, ta_ResolverTokenFile t)])
  else [].
Definition sourceReference (cfg : Config) : string * string :=
  (so_ClientSecretEnv (cf_Source cfg), so_ClientSecretFile (cf_Source cfg)).
Definition webhookReference (cfg : Config) : string * string :=
  (wc_SecretEnv (cf_Webhook cfg), wc_SecretFile (cf_Webhook cfg)).
Definition references (cfg : Config) : list (string * string) := sourceReference cfg :: (cf_Targets cfg ≫= targetReferences).

Definition loads (ref : string * string) (token : string) : Prop := steadyToken (MkLoader ref.1 ref.2 None) token.

Lemma new_loader env file : reference_ok env file → New env file = Ok (MkLoader env file None).
Proof. intros [l Hl]. rewrite Hl. unfold New in Hl. repeat case_match; congruence. Qed.

Lemma ready_runs env file token (w : Sys S) : reference_ok env file → loads (env, file) token →
  ∃ s, readyLoader env file w = (Ok (MkLoader env file None), set_env s w).
Proof.
  intros Hr%new_loader Hl. destruct (Hl w) as [s Hs]. exists s. unfold readyLoader.
  rewrite (bind_run _ _ w (MkLoader env file None) w) by (unfold of_outcome; by rewrite Hr).
  by rewrite (bind_run _ _ _ _ _ Hs).
Qed.

(** Worlds that differ in the environment at most. *)
Definition later (w w' : Sys S) : Prop := ∃ s, w' = set_env s w.

#[local] Instance later_preorder : PreOrder later.
Proof. split; [intros w; exists (sys_env w); by destruct w|]. intros w1 w2 w3 [s1 ->] [s2 ->]. by exists s2. Qed.

Lemma provider_runs t w : target_ok t → (∀ ref, ref ∈ targetReferences t → ∃ token, loads ref token) →
  ∃ p w', newProvider isPrint fuel t w = (Ok p, w') ∧ later w w'.
Proof.
  intros [_ [(Ht & Htok & Hres)|(Ht & _)]] Hrefs; unfold newProvider; unfold targetReferences in Hrefs; rewrite Ht in *.
  - change (String.eqb "gitlab" "gitlab") with true in *. cbn match in *. destruct (Hrefs _ (list_elem_of_here _ _)) as [tok Hl].
    destruct (ready_runs _ _ _ w Htok Hl) as [s Hs]. rewrite (bind_run _ _ _ _ _ (wrap_run _ _ _ _ _ Hs)).
    destruct (String.eqb _ "" && String.eqb _ "") eqn:Hnone.
    + apply andb_true_iff in Hnone as [-> ->]. cbn [negb orb]. eexists _, _. split; [reflexivity|]. by exists s.
    + rewrite <-negb_andb, Hnone. cbn [negb]. destruct Hres as [[He Hf]|Hres]; [by rewrite He, Hf in Hnone|].
      destruct (Hrefs (ta_ResolverTokenEnv t, ta_ResolverTokenFile t)) as [tok' Hl']; [by right; left|].
      destruct (ready_runs _ _ _ (set_env s w) Hres Hl') as [s' Hs'].
      rewrite (bind_run _ _ _ _ _ (wrap_run _ _ _ _ _ Hs')). eexists _, _. split; [reflexivity|]. by exists s'.
  - eexists _, w. split; [reflexivity|reflexivity].
Qed.

Lemma providers_run ts ps w : (∀ t, t ∈ ts → target_ok t) → (∀ ref, ref ∈ ts ≫= targetReferences → ∃ token, loads ref token) →
  ∃ ps' w', mfold (λ ps t, p ← newProvider isPrint fuel t; mret (ps ++ [p])) ps ts w = (Ok ps', w') ∧ later w w'.
Proof.
  revert ps w. induction ts as [|t ts IH]; intros ps w Hok Hrefs; [by exists ps, w|]. cbn [mfold].
  destruct (provider_runs t w) as (p & w1 & H1 & L1); [apply Hok; by left|intros ref Hr; apply Hrefs; cbn; set_solver|].
  destruct (IH (ps ++ [p]) w1) as (ps' & w2 & H2 & L2); [intros t' Ht'; apply Hok; by right|intros ref Hr; apply Hrefs; cbn; set_solver|].
  exists ps', w2. split; [|by etrans]. rewrite (bind_run _ _ w (ps ++ [p]) w1); [done|]. by rewrite (bind_run _ _ _ _ _ H1).
Qed.

Lemma stable_runs l token (w : Sys S) : steadyToken l token → 32 ≤ byteLen token →
  ∃ w', NewStable l 32 w = (Ok (MkStable l 32 token), w') ∧ later w w'.
Proof.
  intros Hl Hlen. destruct (StableLoad_runs (MkStable l 32 "") token w Hl Hlen) as (s & _ & Hs). exists (set_env s w). split; [|by exists s].
  unfold NewStable. change (32 <? 1) with false. cbn beta match. by rewrite Hs.
Qed.

(** What [Open] finds: no ledger yet, or one it can read. *)
Definition readable (path : string) (w : Sys S) (store : Store) : Prop :=
  match sys_fs w !! path with
  | None => store = MkStore path ∅ ∅ ∅ true
  | Some f => loadStore path f = Ok store
  end.

Lemma open_runs path (w : Sys S) store : disk_works → path +:+ ".lock" ∉ sys_locks w → readable path w store →
  ∃ w', Open path w = (Ok store, w') ∧ sys_trace w' = sys_trace w ∧ sys_fs w' = sys_fs w ∧ sys_locks w' = {[path +:+ ".lock"]} ∪ sys_locks w.
Proof.
  intros Hdisk Hlock Hread. unfold Open.
  assert (∀ k (w : Sys S), ∃ s, fsFails (E := err) k w = (Ok false, set_env s w)) as Hf.
  { intros k v. unfold fsFails. specialize (Hdisk k (sys_env v)). destruct (env_fault _ _) as [b s]. cbn in Hdisk. subst b. by exists s. }
  destruct (Hf FsMkdirAll w) as [s1 H1]. rewrite (bind_run _ _ _ _ _ H1). cbn match.
  destruct (Hf FsOpenLock (set_env s1 w)) as [s2 H2]. rewrite (bind_run _ _ _ _ _ H2). cbn match.
  rewrite (bind_run _ _ (set_env s2 (set_env s1 w)) false (set_env s2 (set_env s1 w))) by (unfold gets; by rewrite bool_decide_eq_false_2).
  set (v := set_locks ({[path +:+ ".lock"]} ∪ sys_locks w) (set_env s2 w)). rewrite (bind_run _ _ _ tt v) by done.
  destruct (Hf FsRead v) as [s3 H3]. rewrite (bind_run _ _ _ _ _ H3). cbn match.
  rewrite (bind_run _ _ (set_env s3 v) (sys_fs w !! path) (set_env s3 v)) by done. exists (set_env s3 v). split; [|by split_and!].
  unfold readable in Hread. destruct (sys_fs w !! path); [by rewrite Hread|by subst store].
Qed.

Lemma startup_runs cfg sys store : Validate parseURL cfg = Ok tt → disk_works →
  (∀ ref, ref ∈ references cfg → ∃ token, loads ref token) →
  (∃ token, loads (webhookReference cfg) token ∧ 32 ≤ byteLen token) →
  cf_StatePath cfg +:+ ".lock" ∉ sys_locks sys → readable (cf_StatePath cfg) sys store →
  ∃ r mk sys', startup isPrint depth fuel cfg sys = (Ok (r, mk), sys') ∧ w_store (mk sys') = store ∧ w_ready (mk sys') = false ∧
    sys_trace sys' = sys_trace sys ∧ sys_locks sys' = {[cf_StatePath cfg +:+ ".lock"]} ∪ sys_locks sys.
Proof.
  intros Hv Hdisk Hrefs (wtok & Hw & Hlen) Hlock Hread.
  destruct (validated _ _ Hv) as (_ & _ & _ & Hsrc & Hhook & _ & _ & Htargets & _). unfold startup.
  destruct (Hrefs (sourceReference cfg)) as [tok Htok]; [by left|].
  destruct (ready_runs _ _ _ sys Hsrc Htok) as [s1 H1]. rewrite (bind_run _ _ _ _ _ (wrap_run _ _ _ _ _ H1)).
  set (w1 := set_env s1 sys). rewrite (bind_run _ _ w1 (MkLoader (wc_SecretEnv (cf_Webhook cfg)) (wc_SecretFile (cf_Webhook cfg)) None) w1).
  2: { apply wrap_run. unfold of_outcome. by rewrite new_loader. }
  destruct (stable_runs _ wtok w1 Hw Hlen) as (w2 & H2 & [s2 ->]). rewrite (bind_run _ _ _ _ _ (wrap_run _ _ _ _ _ H2)).
  destruct (open_runs (cf_StatePath cfg) (set_env s2 w1) store Hdisk Hlock Hread) as (w3 & H3 & T3 & _ & L3).
  rewrite (bind_run _ _ _ _ _ H3).
  destruct (providers_run (cf_Targets cfg) [] w3 Htargets) as (ps & w4 & H4 & [s4 ->]); [intros ref Hr; apply Hrefs; by right|].
  rewrite (bind_run _ _ w3 ps (set_env s4 w3)) by (unfold closing, buildProviders; by rewrite H4).
  eexists _, _, _. split; [reflexivity|]. by split_and!.
Qed.

Lemma decode_validated text cfg : Decode parseURL yaml text = Ok cfg → Validate parseURL cfg = Ok tt.
Proof.
  unfold Decode. destruct (yaml _ _) as [c|e]; [|done]. cbn zeta.
  match goal with |- context [Validate parseURL ?x] => destruct (Validate parseURL x) as [[]|e] eqn:Hv end; [|done].
  intros [= <-]. exact Hv.
Qed.

(** Nothing starts from a configuration that validation did not accept, and
    nothing is sent before it starts. *)
Lemma starts_validated args cfg r mk sys sys' : launch args sys = (Ok (Starts cfg r mk), sys') →
  Validate parseURL cfg = Ok tt ∧ ∃ sys1, startup isPrint depth fuel cfg sys1 = (Ok (r, mk), sys').
Proof.
  unfold launch. intros (path & s1 & _ & Hrun)%bind_ok. destruct (parseFlags _ _) as [e|f]; [done|].
  destruct (fl_version f); [done|]. apply bind_ok in Hrun as (c & s2 & Hload & Hrun).
  apply bind_ok in Hrun as ([r' mk'] & s3 & Hstart & [= -> -> -> ->]). split; [|by exists s2].
  unfold LoadConfig in Hload. apply bind_ok in Hload as ([text|e] & s4 & _ & Hload); [|done].
  injection Hload as Hdec _. by eapply decode_validated.
Qed.

(** [C37] A configured process starts: when the flags name a configuration file
    whose text decodes, every credential that the configuration refers to can be
    loaded, the webhook secret has at least 32 bytes, the disk works, no other
    process holds the ledger and its file is absent or readable, then [run]
    reaches the workers.  The reconciler's world holds the ledger as it was on
    disk, the ledger's lock is taken, the server is not ready and nothing has
    been sent. *)
Theorem configured_process_starts args variable path text cfg token store sys :
  (∀ s, (env_getenv "GROUPBRIDGE_CONFIG" s).1 = variable) →
  parseFlags args (MkFlags (if String.eqb (default "" variable) "" then defaultConfigPath else default "" variable) false) =
    inr (MkFlags path false) →
  (∀ s, (env_read path s).1 = Ok text) → Decode parseURL yaml text = Ok cfg →
  disk_works → (∀ ref, ref ∈ references cfg → ∃ token, loads ref token) →
  loads (webhookReference cfg) token → 32 ≤ byteLen token →
  cf_StatePath cfg +:+ ".lock" ∉ sys_locks sys → readable (cf_StatePath cfg) sys store →
  ∃ r mk sys', launch args sys = (Ok (Starts cfg r mk), sys') ∧ w_store (mk sys') = store ∧ w_ready (mk sys') = false ∧
    sys_trace sys' = sys_trace sys ∧ sys_locks sys' = {[cf_StatePath cfg +:+ ".lock"]} ∪ sys_locks sys.
Proof.
  intros Henv Hflags Hread Hdec Hdisk Hrefs Hw Hlen Hlock Hstore. unfold launch.
  assert (∃ s1, defaultConfig sys = (Ok (if String.eqb (default "" variable) "" then defaultConfigPath else default "" variable), set_env s1 sys)) as [s1 H1].
  { unfold defaultConfig, Getenv, mbind, M_bind, lookupEnv. specialize (Henv (sys_env sys)).
    destruct (env_getenv _ _) as [o s]. cbn in Henv. subst o. by exists s. }
  rewrite (bind_run _ _ _ _ _ H1), Hflags. cbn [fl_version fl_config].
  assert (∃ s2, LoadConfig parseURL yaml path (set_env s1 sys) = (Ok cfg, set_env s2 sys)) as [s2 H2].
  { unfold LoadConfig, mbind, M_bind, readFile. cbn. specialize (Hread s1). destruct (env_read _ _) as [o s]. cbn in Hread. subst o.
    exists s. unfold of_outcome. by rewrite Hdec. }
  rewrite (bind_run _ _ _ _ _ H2).
  destruct (startup_runs cfg (set_env s2 sys) store) as (r & mk & sys' & H3 & Hst & Hr & Ht & Hl); try done.
  - by eapply decode_validated.
  - by exists token.
  - rewrite (bind_run _ _ _ _ _ H3). by exists r, mk, sys'.
Qed.
End launch.

(** *** A start on concrete inputs *)
Definition startSecret : string := "0123456789abcdef0123456789abcdef".
Definition startEnv : Env unit :=
  scriptEnv (λ _ s, (Err (EMsg "no network"), s)) (λ name, if String.eqb name "GROUPBRIDGE_CONFIG" then None else Some ("value-of-" +:+ name))
    (λ path, if String.eqb path "/run/secrets/webhook" then Ok startSecret
             else if String.eqb path "/srv/gb.yaml" then Ok "the text" else Err (EMsg "no file"))
    (λ s, (zeroTime, s)) (λ _ s, (false, s)).

Definition startYaml (defaults : Config) (text : string) : outcome err Config :=
  if String.eqb text "the text" then Ok demoConfig else Err (EMsg "yaml").

Definition emptySys : Sys unit := MkSys () [] ∅ ∅.

Lemma start_variable name : name ≠ "GROUPBRIDGE_CONFIG" → name ≠ "" → checkCredential ("value-of-" +:+ name) = Ok ("value-of-" +:+ name) →
  loads (H := startEnv) (name, "") ("value-of-" +:+ name).
Proof.
  intros Hg Hne Hc. apply (steady_variable (H := startEnv) name ("value-of-" +:+ name)); [done| |done].
  intros s. cbn. by destruct (String.eqb_spec name "GROUPBRIDGE_CONFIG").
Qed.

Lemma configured_process_starts_witness : ∃ r mk sys',
  launch (H := startEnv) (λ _, false) 3 3 demoParse startYaml "dev" "unknown" ["--config"; "/srv/gb.yaml"] emptySys = (Ok (Starts demoConfig r mk), sys') ∧
  w_ready (mk sys') = false.
Proof.
  destruct (configured_process_starts (H := startEnv) (λ _, false) 3 3 demoParse startYaml "dev" "unknown" ["--config"; "/srv/gb.yaml"] None
    "/srv/gb.yaml" "the text" demoConfig startSecret (MkStore "/var/lib/groupbridge/state.json" ∅ ∅ ∅ true) emptySys)
    as (r & mk & sys' & Hrun & _ & Hr & _).
  - done.
  - reflexivity.
  - done.
  - vm_compute. reflexivity.
  - done.
  - intros ref Hin.
    assert (ref = ("KC_SECRET", "") ∨ ref = ("GITLAB_TOKEN", "") ∨ ref = ("RESOLVER_TOKEN", "")) as [-> |[-> | ->]].
    { change (references demoConfig) with [("KC_SECRET", ""); ("GITLAB_TOKEN", ""); ("RESOLVER_TOKEN", "")] in Hin. set_solver. }
    all: eexists; apply start_variable; [discriminate|discriminate|vm_compute; reflexivity].
  - apply (steady_file (H := startEnv) "/run/secrets/webhook" startSecret startSecret); [discriminate|done|done|vm_compute; discriminate|vm_compute; reflexivity].
  - vm_compute. discriminate.
  - set_solver.
  - reflexivity.
  - by exists r, mk, sys'.
Defined.
End Launch.

(** ** The HTTP server *)
Module Serving.
Import Certificates.

(** [tls.VersionTLS12]. *)
Definition VersionTLS12 : Z := 771.

Section serve.
Context {S Cert Listener : Type} (LoadX509KeyPair : string → string → S → option Cert * S).
Notation reloader := (certificateReloader (Cert := Cert)).

(** The fields of a [tls.Config] that the program sets; [GetCertificate] is a
    method value of its reloader. *)
Record tlsConfig : Type := MkTLSConfig
  { tc_MinVersion : Z; tc_Certificates : list Cert; tc_GetCertificate : option reloader }.

Record httpServer : Type := MkHTTPServer
  { hs_Addr : string;
    hs_ReadHeaderTimeout : Z;
    hs_ReadTimeout : Z;
    hs_WriteTimeout : Z;
    hs_IdleTimeout : Z;
    hs_MaxHeaderBytes : Z;
    hs_TLSConfig : option tlsConfig }.

(** The server that [run] sets up. *)
Definition serverOf (sv : Server) : httpServer :=
  MkHTTPServer (sv_Address sv) (5 * Second) (10 * Second) (30 * Second) (60 * Second) (Z.shiftl 32 10)
    (Some (MkTLSConfig VersionTLS12 [] None)).

(** What [net/http], [net] and [crypto/tls] do with it: serve in plain text,
    listen, and serve behind [tls.NewListener] with a configuration. *)
Context (ListenAndServe : httpServer → M S err unit) (Listen : string → M S err Listener)
  (ServeTLS : httpServer → Listener → tlsConfig → M S err unit).

Definition listenAndServe (server : httpServer) (serverTLS : ServerTLS) : M S err unit :=
  if String.eqb (tls_CertFile serverTLS) "" then ListenAndServe server
  else
    reloader ← newCertificateReloader LoadX509KeyPair (tls_CertFile serverTLS) (tls_KeyFile serverTLS);
    let config := match hs_TLSConfig server with
                  | None => MkTLSConfig VersionTLS12 [] None
                  | Some c => c
                  end in
    let config := MkTLSConfig (tc_MinVersion config) [] (tc_GetCertificate config) in
    let config := MkTLSConfig (tc_MinVersion config) (tc_Certificates config) (Some reloader) in
    listener ← Listen (hs_Addr server);
    ServeTLS server listener config.
End serve.

(** *** What a client can see *)
Section facts.
Context {S Cert Listener : Type} (LoadX509KeyPair : string → string → S → option Cert * S).
Context (Listen : string → M S err Listener).

(** Any number of handshakes, one after another: the certificates presented. *)
Fixpoint handshakes (n : nat) : M (certificateReloader (Cert := Cert) * S) err (list Cert) :=
  match n with
  | O => mret []
  | Datatypes.S n => c ← GetCertificate LoadX509KeyPair; cs ← handshakes n; mret (c :: cs)
  end.

(** What the two files hold at each of the next [n] loads. *)
Fixpoint onDisk (n : nat) (certFile keyFile : string) (s : S) : list (option Cert) :=
  match n with
  | O => []
  | Datatypes.S n => let '(c, s) := LoadX509KeyPair certFile keyFile s in c :: onDisk n certFile keyFile s
  end.

(** The last pair that loaded, after each of them. *)
Fixpoint lastGood (current : Cert) (l : list (option Cert)) : list Cert :=
  match l with
  | [] => []
  | c :: l => let current := default current c in current :: lastGood current l
  end.

Lemma handshakes_last_good n r s : ∃ r' s', handshakes n (r, s) =
  (Ok (lastGood (cr_current r) (onDisk n (cr_certFile r) (cr_keyFile r) s)), (r', s')).
Proof.
  revert r s. induction n as [|n IH]; intros r s; [by exists r, s|]. cbn [handshakes onDisk].
  unfold mbind, M_bind, GetCertificate. destruct (LoadX509KeyPair _ _ s) as [[c|] s1] eqn:Hl; cbn [lastGood default].
  - destruct (IH (MkReloader (cr_certFile r) (cr_keyFile r) c false) s1) as (r' & s' & ->). by exists r', s'.
  - destruct (IH (MkReloader (cr_certFile r) (cr_keyFile r) (cr_current r) true) s1) as (r' & s' & ->). by exists r', s'.
Qed.

(** [C38] TLS fails closed: with a certificate configured the server never serves
    in plain text; it does not even listen unless the key pair loads; and when
    it serves, then only at the server's own minimum version (TLS 1.2 for the
    server of [run]), with no certificate but the reloader's, which presents
    at every handshake the last pair that could be loaded, the one of the
    start if none could be since. *)
Theorem tls_fails_closed ListenAndServe ServeTLS sv s : tls_CertFile (sv_TLS sv) ≠ "" →
  match LoadX509KeyPair (tls_CertFile (sv_TLS sv)) (tls_KeyFile (sv_TLS sv)) s with
  | (None, s1) => ∃ e, listenAndServe LoadX509KeyPair ListenAndServe Listen ServeTLS (serverOf sv) (sv_TLS sv) s = (Err e, s1)
  | (Some cert, s1) =>
      ∃ r config, tc_MinVersion config = VersionTLS12 ∧ tc_Certificates config = [] ∧ tc_GetCertificate config = Some r ∧
        listenAndServe LoadX509KeyPair ListenAndServe Listen ServeTLS (serverOf sv) (sv_TLS sv) s =
          (listener ← Listen (sv_Address sv); ServeTLS (serverOf sv) listener config) s1 ∧
        ∀ n t, ∃ w, handshakes n (r, t) = (Ok (lastGood cert (onDisk n (tls_CertFile (sv_TLS sv)) (tls_KeyFile (sv_TLS sv)) t)), w)
  end.
Proof.
  intros Hcert%String.eqb_neq. unfold listenAndServe. rewrite Hcert.
  destruct (LoadX509KeyPair _ _ s) as [[cert|] s1] eqn:Hl.
  2: { eexists. unfold mbind, M_bind, newCertificateReloader. by rewrite Hl. }
  set (r := MkReloader (tls_CertFile (sv_TLS sv)) (tls_KeyFile (sv_TLS sv)) cert false).
  rewrite (bind_run _ _ s r s1) by (unfold newCertificateReloader; by rewrite Hl).
  exists r, (MkTLSConfig VersionTLS12 [] (Some r)). do 4 (split; [reflexivity|]).
  intros n t. destruct (handshakes_last_good n r t) as (r' & s' & Hrun). by exists (r', s').
Qed.
End facts.

(** A key pair that is rotated by way of a moment without one. *)
Definition rotating (certFile keyFile : string) (s : nat) : option nat * nat :=
  (match s with 0%nat => Some 10%nat | 1%nat => None | _ => Some 20%nat end, Datatypes.S s).

Definition tlsServer : Server := MkServer ":8443" (10 * Second) (MkServerTLS "/tls/tls.crt" "/tls/tls.key").

Lemma tls_fails_closed_witness : ∃ r : certificateReloader (Cert := nat),
  ∃ w, handshakes rotating 2 (r, 1%nat) = (Ok [10%nat; 20%nat], w).
Proof.
  destruct (tls_fails_closed rotating (λ _, mret ()) (λ _, mret ()) (λ _ _ _, mret ()) tlsServer 0%nat)
    as (r & config & _ & _ & _ & _ & Hall); [discriminate|].
  exists r. exact (Hall 2%nat 1%nat).
Defined.
End Serving.
